(** * Event Seat Optimizer: a shallow embedding of [SeatOptimizer]

    The development follows the two JavaScript classes of the repository,
    the browser optimizer ([public/optimizer.js]) and the server optimizer
    (the CommonJS module required by [server.js]).

    Modelling conventions.
    - A JavaScript number that holds a score, a weight, a distance to the
      stage, a temperature or a priority is a value of an abstract
      arithmetic [T] (class [Arith]).  Two instances are given: the real
      numbers (exact arithmetic, used for the bounds) and IEEE binary64
      (primitive floats, which evaluate and have NaN).  [Math.exp] is a
      separate class ([HasExp]), given for the reals; a property stated in
      binary64 holds for every [Math.exp].
    - A JavaScript number that is an integer by construction (rows,
      columns, seat positions, indices, Manhattan distances, counts) is a
      [Z]; such values are exact in binary64 below 2^53.
    - An array of seat positions is a [list (option Z)]: [None] is
      [undefined].  Reads out of range give [undefined]; writes past the
      end extend the array, writes at negative indices create properties.
    - [Math.random()] is an oracle: a list of rationals, consumed from the
      head (an exhausted list keeps answering 0).
    - A [throw] is the outcome [Throw]; a loop that does not terminate is
      the outcome [Diverge] of a fuel-bounded loop. *)

From Stdlib Require Import ZArith QArith Qround Reals Lra Lia List String Ascii Bool.
From Stdlib Require Import Permutation Sorted.
From Stdlib Require Lqa DecimalZ.
From Stdlib Require Floats.
From Stdlib Require Uint63.
From stdpp Require Import base list.
Import ListNotations.
Open Scope string_scope.
Open Scope Z_scope.
Open Scope list_scope.

(** ** Arithmetic of JavaScript numbers *)

Class Arith (T : Type) := {
  ofZ : Z -> T;
  nadd : T -> T -> T;
  nsub : T -> T -> T;
  nmul : T -> T -> T;
  ndiv : T -> T -> T;
  nsqrt : T -> T;            (* Math.sqrt *)
  nmax : T -> T -> T;        (* Math.max *)
  nmin : T -> T -> T;        (* Math.min *)
  nlt : T -> T -> bool;      (* a < b *)
  nle : T -> T -> bool;      (* a <= b *)
  neq : T -> T -> bool;      (* a === b *)
  ngtNegInf : T -> bool;     (* a > -Infinity *)
  truthy : T -> bool         (* ToBoolean: false on 0 and NaN *)
}.

(** [Math.exp] is implementation-approximated: it is kept apart, and only
    the code that calls it depends on it. *)
Class HasExp (T : Type) := nexp : T -> T.

Declare Scope num_scope.
Delimit Scope num_scope with num.
Infix "+" := nadd : num_scope.
Infix "-" := nsub : num_scope.
Infix "*" := nmul : num_scope.
Infix "/" := ndiv : num_scope.
Infix "<?" := nlt : num_scope.
Infix "<=?" := nle : num_scope.

(** [a > b] and [a >= b] are [b < a] and [b <= a]. *)
Definition ngt `{Arith T} (a b : T) : bool := nlt b a.
Definition nge `{Arith T} (a b : T) : bool := nle b a.
Infix ">?" := ngt : num_scope.
Infix ">=?" := nge : num_scope.

(** A decimal literal such as [0.1] or [0.995]: the quotient of two
    integers, which in binary64 is the double nearest to the literal. *)
Definition ofQ `{Arith T} (q : Q) : T := (ofZ (Qnum q) / ofZ (Zpos (Qden q)))%num.

(** [Math.pow(x, 2)]. *)
Definition pow2 `{Arith T} (x : T) : T := (x * x)%num.

(** *** Exact real arithmetic *)

#[export] Instance RArith : Arith R := {|
  ofZ := IZR;
  nadd := Rplus;
  nsub := Rminus;
  nmul := Rmult;
  ndiv := Rdiv;
  nsqrt := R_sqrt.sqrt;
  nmax := Rmax;
  nmin := Rmin;
  nlt := fun a b => if Rlt_dec a b then true else false;
  nle := fun a b => if Rle_dec a b then true else false;
  neq := fun a b => if Req_dec_T a b then true else false;
  ngtNegInf := fun _ => true;
  truthy := fun a => if Req_dec_T a 0%R then false else true
|}.

#[export] Instance RExp : HasExp R := Rtrigo_def.exp.

(** *** IEEE binary64 *)

Module F64.
Import PrimFloat.

Definition ofZ (z : Z) : float :=
  if (z <? 0)%Z then opp (of_uint63 (Uint63.of_Z (- z)))
  else of_uint63 (Uint63.of_Z z).

Definition is_zero (a : float) : bool := eqb a zero.

(** [Math.max]: NaN if an argument is NaN, and +0 is larger than -0. *)
Definition max (a b : float) : float :=
  if is_nan a || is_nan b then nan
  else if ltb a b then b
  else if ltb b a then a
  else if is_zero a then add a b else a.

(** [Math.min]: NaN if an argument is NaN, and -0 is smaller than +0. *)
Definition min (a b : float) : float :=
  if is_nan a || is_nan b then nan
  else if ltb a b then a
  else if ltb b a then b
  else if is_zero a then opp (add (opp a) (opp b)) else a.

Definition truthy (a : float) : bool := negb (is_zero a || is_nan a).

End F64.

#[export] Instance FloatArith : Arith PrimFloat.float := {|
  ofZ := F64.ofZ;
  nadd := PrimFloat.add;
  nsub := PrimFloat.sub;
  nmul := PrimFloat.mul;
  ndiv := PrimFloat.div;
  nsqrt := PrimFloat.sqrt;
  nmax := F64.max;
  nmin := F64.min;
  nlt := PrimFloat.ltb;
  nle := PrimFloat.leb;
  neq := PrimFloat.eqb;
  ngtNegInf := PrimFloat.ltb PrimFloat.neg_infinity;
  truthy := F64.truthy
|}.

(** ** Outcomes of a call *)

Inductive Exn : Type :=
| ConfigError (msg : string)   (* new Error('...') thrown by optimize *)
| TypeError.                   (* property access on undefined or null *)

Inductive Outcome (A : Type) : Type :=
| Ok (a : A)
| Throw (e : Exn)
| Diverge.
Arguments Ok {A} a.
Arguments Throw {A} e.
Arguments Diverge {A}.

#[export] Instance outcome_ret : MRet Outcome := fun _ a => Ok a.
#[export] Instance outcome_bind : MBind Outcome := fun _ _ f m =>
  match m with
  | Ok a => f a
  | Throw e => Throw e
  | Diverge => Diverge
  end.

(** Left fold with an effectful body: a [forEach] or [for ... of] loop
    whose body may throw. *)
Fixpoint foldlM {A B : Type} (f : B -> A -> Outcome B) (b : B) (l : list A) : Outcome B :=
  match l with
  | [] => Ok b
  | a :: l' => b' ← f b a; foldlM f b' l'
  end.

(** ** Data model *)

(** A chromosome: [chromosome[i]] is the seat position of attendee [i]. *)
Abbreviation Chromosome := (list (option Z)).

Section Model.
Context {T : Type} `{AT : Arith T}.
Local Open Scope num_scope.

Record Seat : Type := {
  row : Z;
  col : Z;
  isVip : bool;
  position : Z;
  distanceToStage : T
}.

Record Venue : Type := {
  rows : Z;
  cols : Z;
  vipRows : Z;
  totalSeats : Z;
  seats : list Seat
}.

(** An attendee as the caller supplies it (an open dictionary: only the
    fields the optimizer reads). *)
Record RawAttendee : Type := {
  ra_id : option Z;
  ra_type : string;
  ra_group : option string;
  ra_preference : string;
  ra_priority : option T
}.

(** An attendee as [setAttendees] stores it. *)
Record Attendee : Type := {
  a_id : Z;
  a_index : nat;
  a_type : string;
  a_group : option string;
  a_preference : string;
  a_priority : T
}.

Record Weights : Type := {
  w_friendProximity : T;
  w_vipPlacement : T;
  w_groupCohesion : T;
  w_stageDistance : T
}.

Record Fitness : Type := {
  total : T;
  friendProximity : T;
  vipPlacement : T;
  groupCohesion : T;
  stageDistance : T
}.

Record Config : Type := {
  populationSize : Z;
  generations : Z;
  mutationRate : T;
  crossoverRate : T;
  elitismCount : Z;
  tournamentSize : Z;
  initialTemp : T;
  coolingRate : T;
  minTemp : T;
  mode : option string;
  weights : Weights
}.

(** The argument of the constructor; a missing key is [None]. *)
Record RawConfig : Type := {
  rc_populationSize : option Z;
  rc_generations : option Z;
  rc_mutationRate : option T;
  rc_crossoverRate : option T;
  rc_elitismCount : option Z;
  rc_tournamentSize : option Z;
  rc_initialTemp : option T;
  rc_coolingRate : option T;
  rc_minTemp : option T;
  rc_mode : option string;
  rc_friendWeight : option T;
  rc_vipWeight : option T;
  rc_groupWeight : option T;
  rc_distanceWeight : option T
}.

(** [this.bestFitness] starts as the object [{ total: 0 }]. *)
Inductive BestFitness : Type :=
| InitialBest
| Best (f : Fitness).

Definition bestTotal (b : BestFitness) : T :=
  match b with
  | InitialBest => ofZ 0
  | Best f => total f
  end.

Record Optimizer : Type := {
  config : Config;
  venue : option Venue;
  attendees : list Attendee;
  groups : list (string * list nat);       (* Map, in insertion order *)
  friendships : list (nat * list nat);     (* Map of Sets, in insertion order *)
  currentGeneration : Z;
  bestSolution : option Chromosome;
  bestFitness : BestFitness;
  fitnessHistory : list T;
  isRunning : bool
}.

(** [x || d] on an optional number and on an optional integer. *)
Definition orT (x : option T) (d : T) : T :=
  match x with
  | Some v => if truthy v then v else d
  | None => d
  end.

Definition orZ (x : option Z) (d : Z) : Z :=
  match x with
  | Some v => if (v =? 0)%Z then d else v
  | None => d
  end.

(** A string is truthy when it is not empty. *)
Definition truthyGroup (g : option string) : option string :=
  match g with
  | Some s => if String.eqb s "" then None else Some s
  | None => None
  end.

End Model.

Arguments Seat T : clear implicits.
Arguments Venue T : clear implicits.
Arguments RawAttendee T : clear implicits.
Arguments Attendee T : clear implicits.
Arguments Weights T : clear implicits.
Arguments Fitness T : clear implicits.
Arguments Config T : clear implicits.
Arguments RawConfig T : clear implicits.
Arguments BestFitness T : clear implicits.
Arguments Optimizer T : clear implicits.

(** ** Insertion-ordered maps and sets

    A JavaScript [Map] iterates in insertion order, and so does a [Set]:
    both are association lists here. *)

Section Assoc.
Context {K V : Type} (keq : K -> K -> bool).

Fixpoint mapGet (k : K) (m : list (K * V)) : option V :=
  match m with
  | [] => None
  | (k', v) :: m' => if keq k k' then Some v else mapGet k m'
  end.

Definition mapHas (k : K) (m : list (K * V)) : bool :=
  match mapGet k m with Some _ => true | None => false end.

(** [m.set(k, v)]: an existing key keeps its place. *)
Fixpoint mapSet (k : K) (v : V) (m : list (K * V)) : list (K * V) :=
  match m with
  | [] => [(k, v)]
  | (k', v') :: m' => if keq k k' then (k, v) :: m' else (k', v') :: mapSet k v m'
  end.

(** [m.get(k)] mutated in place by [f]; nothing happens on a missing key. *)
Fixpoint mapAlter (k : K) (f : V -> V) (m : list (K * V)) : list (K * V) :=
  match m with
  | [] => []
  | (k', v') :: m' => if keq k k' then (k', f v') :: m' else (k', v') :: mapAlter k f m'
  end.

End Assoc.

(** [s.add(x)] on a Set of indices. *)
Definition setAdd (x : nat) (s : list nat) : list nat :=
  if existsb (Nat.eqb x) s then s else s ++ [x].

Definition setHas (x : option Z) (s : list (option Z)) : bool :=
  existsb (fun y => bool_decide (x = y)) s.

(** ** Venue, attendees, seat distance *)

Section Core.
Context {T : Type} `{AT : Arith T}.
Local Open Scope num_scope.

Definition constructor (c : RawConfig T) : Optimizer T := {|
  config := {|
    populationSize := orZ (rc_populationSize c) 100;
    generations := orZ (rc_generations c) 200;
    mutationRate := orT (rc_mutationRate c) (ofQ 0.15);
    crossoverRate := orT (rc_crossoverRate c) (ofQ 0.85);
    elitismCount := orZ (rc_elitismCount c) 5;
    tournamentSize := orZ (rc_tournamentSize c) 5;
    initialTemp := orT (rc_initialTemp c) (ofZ 1000);
    coolingRate := orT (rc_coolingRate c) (ofQ 0.995);
    minTemp := orT (rc_minTemp c) (ofZ 1);
    mode := None;
    weights := {|
      w_friendProximity := orT (rc_friendWeight c) (ofZ 30) / ofZ 100;
      w_vipPlacement := orT (rc_vipWeight c) (ofZ 25) / ofZ 100;
      w_groupCohesion := orT (rc_groupWeight c) (ofZ 25) / ofZ 100;
      w_stageDistance := orT (rc_distanceWeight c) (ofZ 20) / ofZ 100
    |}
  |};
  venue := None;
  attendees := [];
  groups := [];
  friendships := [];
  currentGeneration := 0;
  bestSolution := None;
  bestFitness := InitialBest;
  fitnessHistory := [];
  isRunning := false
|}.

(** One seat of the matrix: Euclidean distance from the stage centre
    (row -1, column cols/2). *)
Definition makeSeat (cols vipRows r c : Z) : Seat T := {|
  row := r;
  col := c;
  isVip := (r <? vipRows)%Z;
  position := (r * cols + c)%Z;
  distanceToStage := nsqrt (pow2 (ofZ (r + 1)) + pow2 (ofZ c - ofZ cols / ofZ 2))
|}.

(** The two nested [for] loops of [setVenue], pushing row by row. *)
Definition buildSeats (rows cols vipRows : Z) : list (Seat T) :=
  flat_map (fun r => map (makeSeat cols vipRows r) (seqZ 0 cols)) (seqZ 0 rows).

Definition makeVenue (rows cols vipRows : Z) : Venue T := {|
  rows := rows;
  cols := cols;
  vipRows := vipRows;
  totalSeats := (rows * cols)%Z;
  seats := buildSeats rows cols vipRows
|}.

Definition withVenue (this : Optimizer T) (v : Venue T) : Optimizer T := {|
  config := config this;
  venue := Some v;
  attendees := attendees this;
  groups := groups this;
  friendships := friendships this;
  currentGeneration := currentGeneration this;
  bestSolution := bestSolution this;
  bestFitness := bestFitness this;
  fitnessHistory := fitnessHistory this;
  isRunning := isRunning this
|}.

Definition setVenue (this : Optimizer T) (rows cols vipRows : Z) : Optimizer T :=
  withVenue this (makeVenue rows cols vipRows).

Definition storeAttendee (idx : nat) (a : RawAttendee T) : Attendee T := {|
  a_id := orZ (ra_id a) (Z.of_nat idx);
  a_index := idx;
  a_type := ra_type a;
  a_group := ra_group a;
  a_preference := ra_preference a;
  a_priority := orT (ra_priority a) (ofZ 5)
|}.

(** Build group mapping: one pass over the stored attendees. *)
Definition groupStep (gs : list (string * list nat)) (a : Attendee T) : list (string * list nat) :=
  match truthyGroup (a_group a) with
  | None => gs
  | Some g =>
      let gs' := if mapHas String.eqb g gs then gs else mapSet String.eqb g [] gs in
      mapAlter String.eqb g (fun members => members ++ [a_index a]) gs'
  end.

Definition buildGroups (l : list (Attendee T)) : list (string * list nat) :=
  fold_left groupStep l [].

(** Build friendship mapping: every member of a group gets the other
    members as friends. *)
Definition friendStep (members : list nat) (fs : list (nat * list nat)) (m1 : nat) : list (nat * list nat) :=
  let fs' := if mapHas Nat.eqb m1 fs then fs else mapSet Nat.eqb m1 [] fs in
  fold_left (fun f m2 => if Nat.eqb m1 m2 then f else mapAlter Nat.eqb m1 (setAdd m2) f) members fs'.

Definition buildFriendships (gs : list (string * list nat)) : list (nat * list nat) :=
  fold_left (fun fs g => fold_left (friendStep (snd g)) (snd g) fs) gs [].

Definition withAttendees (this : Optimizer T) (l : list (Attendee T)) : Optimizer T := {|
  config := config this;
  venue := venue this;
  attendees := l;
  groups := buildGroups l;
  friendships := buildFriendships (buildGroups l);
  currentGeneration := currentGeneration this;
  bestSolution := bestSolution this;
  bestFitness := bestFitness this;
  fitnessHistory := fitnessHistory this;
  isRunning := isRunning this
|}.

Definition setAttendees (this : Optimizer T) (l : list (RawAttendee T)) : Optimizer T :=
  withAttendees this (imap storeAttendee l).

(** [this.venue.seats[v]] for a value [v] read from a chromosome. *)
Definition seatAt (v : Venue T) (p : option Z) : option (Seat T) :=
  match p with
  | Some z => if (z <? 0)%Z then None else seats v !! Z.to_nat z
  | None => None
  end.

(** [chromosome[idx]]: [undefined] out of range. *)
Definition geneAt (chromosome : Chromosome) (idx : nat) : option Z :=
  mjoin (chromosome !! idx).

Definition seatOf (v : Venue T) (chromosome : Chromosome) (idx : nat) : option (Seat T) :=
  seatAt v (geneAt chromosome idx).

(** Manhattan distance; reading [.row] of [undefined] throws. *)
Definition getSeatDistance (seat1 seat2 : option (Seat T)) : Outcome Z :=
  match seat1, seat2 with
  | Some s1, Some s2 => Ok (Z.abs (row s1 - row s2) + Z.abs (col s1 - col s2))%Z
  | _, _ => Throw TypeError
  end.

(** [this.venue] dereferenced: [null] throws. *)
Definition theVenue (this : Optimizer T) : Outcome (Venue T) :=
  match venue this with
  | Some v => Ok v
  | None => Throw TypeError
  end.

(** Property read on a seat that may be [undefined]. *)
Definition theSeat (s : option (Seat T)) : Outcome (Seat T) :=
  match s with
  | Some x => Ok x
  | None => Throw TypeError
  end.

Definition isVipType (a : Attendee T) : bool := String.eqb (a_type a) "vip".

End Core.

(** ** Sorting

    [Array.prototype.sort] is stable.  [after y x] says that the
    comparator, called on [(y, x)], returns a positive number. *)

Section Sort.
Context {A : Type} (after : A -> A -> bool).

Fixpoint insertBy (x : A) (l : list A) : list A :=
  match l with
  | [] => [x]
  | y :: l' => if after y x then x :: y :: l' else y :: insertBy x l'
  end.

Definition sortBy (l : list A) : list A :=
  fold_left (fun acc x => insertBy x acc) l [].

End Sort.

(** ** The fitness function (browser optimizer) *)

Section FitnessEvaluator.
Context {T : Type} `{AT : Arith T}.
Local Open Scope num_scope.

(** 1. Friend proximity: points of one ordered pair of friends. *)
Definition friendPoints (distance : Z) : T :=
  if (distance =? 1)%Z then ofZ 10
  else if (distance =? 2)%Z then ofZ 7
  else if (distance <=? 4)%Z then ofZ 4
  else nmax (ofZ 0) (ofZ 2 - ofZ distance * ofQ 0.1).

(** Body of [friends.forEach]; the accumulator is
    [(friendProximityScore, maxFriendScore)]. *)
Definition friendBody (v : Venue T) (chromosome : Chromosome)
    (attendeeSeat : option (Seat T)) (acc : T * T) (friendIdx : nat) : Outcome (T * T) :=
  let friendSeat := seatOf v chromosome friendIdx in
  distance ← getSeatDistance attendeeSeat friendSeat;
  Ok (fst acc + friendPoints distance, snd acc + ofZ 10).

(** Body of [this.friendships.forEach]. *)
Definition friendshipBody (v : Venue T) (chromosome : Chromosome)
    (acc : T * T) (entry : nat * list nat) : Outcome (T * T) :=
  let attendeeSeat := seatOf v chromosome (fst entry) in
  foldlM (friendBody v chromosome attendeeSeat) acc (snd entry).

(** Max possible distance for normalization. *)
Definition maxVenueDist (v : Venue T) : T :=
  nsqrt (pow2 (ofZ (rows v + 1)) + pow2 (ofZ (cols v) / ofZ 2)).

(** Accumulators of the loop over the attendees. *)
Record AttendeeAcc : Type := {
  vipPlacementScore : T;
  maxVipScore : T;
  stageDistanceScore : T;
  maxDistanceScore : T
}.

(** 2. VIP placement and stage distance with priority: body of
    [this.attendees.forEach].  Every path reads a property of [seat], so
    an [undefined] seat throws. *)
Definition attendeeBody (v : Venue T) (chromosome : Chromosome)
    (acc : AttendeeAcc) (entry : nat * Attendee T) : Outcome AttendeeAcc :=
  let idx := fst entry in
  let attendee := snd entry in
  seat ← theSeat (seatOf v chromosome idx);
  let vipScore :=
    if isVipType attendee then
      if isVip seat then vipPlacementScore acc + ofZ 20
      else vipPlacementScore acc + nmax (ofZ 0) (ofZ (10 - row seat * 2))
    else vipPlacementScore acc in
  let maxVip :=
    if isVipType attendee then maxVipScore acc + ofZ 20 else maxVipScore acc in
  let priorityFactor := a_priority attendee / ofZ 10 in
  let maxPointsForPerson := ofZ 10 * priorityFactor in
  let distRatio := distanceToStage seat / maxVenueDist v in
  let personScore := nmax (ofZ 0) ((ofZ 1 - distRatio) * maxPointsForPerson) in
  Ok {| vipPlacementScore := vipScore;
        maxVipScore := maxVip;
        stageDistanceScore := stageDistanceScore acc + personScore;
        maxDistanceScore := maxDistanceScore acc + maxPointsForPerson |}.

(** [(a, b) => a.row - b.row || a.col - b.col] returns a positive number. *)
Definition seatAfter (a b : Seat T) : bool :=
  if (row a - row b =? 0)%Z then (0 <? col a - col b)%Z else (0 <? row a - row b)%Z.

(** [seats.sort(...)]: [undefined] entries go last, unsorted. *)
Definition sortSeats (l : list (option (Seat T))) : list (option (Seat T)) :=
  map Some (sortBy seatAfter (omap (fun s => s) l)) ++ filter (fun s => s = None) l.

Definition adjacencyPoints (dist : Z) : Z :=
  if (dist =? 1)%Z then 2 else if (dist <=? 2)%Z then 1 else 0.

(** Check adjacency for every pair [i < j]. *)
Fixpoint cohesionLoop (cohesionPoints : Z) (l : list (option (Seat T))) : Outcome Z :=
  match l with
  | [] => Ok cohesionPoints
  | si :: rest =>
      pts ← foldlM (fun p sj => dist ← getSeatDistance si sj;
                                 Ok (p + adjacencyPoints dist)%Z) cohesionPoints rest;
      cohesionLoop pts rest
  end.

(** 3. Group cohesion: body of [this.groups.forEach]; the accumulator is
    [(groupCohesionScore, maxGroupScore)]. *)
Definition groupBody (v : Venue T) (chromosome : Chromosome)
    (acc : T * T) (entry : string * list nat) : Outcome (T * T) :=
  let members := snd entry in
  let len := Z.of_nat (length members) in
  if (len <=? 1)%Z then Ok acc
  else
    let sorted := sortSeats (map (seatOf v chromosome) members) in
    cohesionPoints ← cohesionLoop 0 sorted;
    let maxPossible := ((len - 1) * 2)%Z in
    Ok (fst acc + nmin (ofZ (len * 10))
                       (ofZ cohesionPoints / nmax (ofZ 1) (ofZ maxPossible) * ofZ len * ofZ 10),
        snd acc + ofZ (len * 10)).

(** Normalize scores 0-1. *)
Definition normalize (score maxScore : T) : T :=
  if maxScore >? ofZ 0 then score / maxScore else ofZ 1.

Definition totalWeight (w : Weights T) : T :=
  w_friendProximity w + w_vipPlacement w + w_groupCohesion w + w_stageDistance w.

Definition weightedTotal (w : Weights T) (normFriend normVip normGroup normDistance : T) : T :=
  (normFriend * w_friendProximity w + normVip * w_vipPlacement w
   + normGroup * w_groupCohesion w + normDistance * w_stageDistance w) / totalWeight w.

Definition enumerate {A : Type} (l : list A) : list (nat * A) := imap pair l.

Definition attendeeAcc0 : AttendeeAcc :=
  {| vipPlacementScore := ofZ 0; maxVipScore := ofZ 0;
     stageDistanceScore := ofZ 0; maxDistanceScore := ofZ 0 |}.

(** The raw scores and their maxima, before normalization. *)
Record RawScores : Type := {
  rs_friend : T * T;       (* friendProximityScore, maxFriendScore *)
  rs_people : AttendeeAcc;
  rs_group : T * T         (* groupCohesionScore, maxGroupScore *)
}.

Definition rawScores (this : Optimizer T) (chromosome : Chromosome) : Outcome RawScores :=
  v ← theVenue this;
  friend ← foldlM (friendshipBody v chromosome) (ofZ 0, ofZ 0) (friendships this);
  people ← foldlM (attendeeBody v chromosome) attendeeAcc0 (enumerate (attendees this));
  group ← foldlM (groupBody v chromosome) (ofZ 0, ofZ 0) (groups this);
  Ok {| rs_friend := friend; rs_people := people; rs_group := group |}.

Definition fitnessOfScores (w : Weights T) (s : RawScores) : Fitness T :=
  let normFriend := normalize (fst (rs_friend s)) (snd (rs_friend s)) in
  let normVip := normalize (vipPlacementScore (rs_people s)) (maxVipScore (rs_people s)) in
  let normGroup := normalize (fst (rs_group s)) (snd (rs_group s)) in
  let normDistance := normalize (stageDistanceScore (rs_people s)) (maxDistanceScore (rs_people s)) in
  {| total := weightedTotal w normFriend normVip normGroup normDistance;
     friendProximity := normFriend;
     vipPlacement := normVip;
     groupCohesion := normGroup;
     stageDistance := normDistance |}.

Definition calculateFitness (this : Optimizer T) (chromosome : Chromosome) : Outcome (Fitness T) :=
  s ← rawScores this chromosome;
  Ok (fitnessOfScores (weights (config this)) s).

(** [updateWeights(friend, vip, group, distance)]: four divisions, no
    check, no [throw]. *)
Definition withWeights (this : Optimizer T) (w : Weights T) : Optimizer T := {|
  config := {|
    populationSize := populationSize (config this);
    generations := generations (config this);
    mutationRate := mutationRate (config this);
    crossoverRate := crossoverRate (config this);
    elitismCount := elitismCount (config this);
    tournamentSize := tournamentSize (config this);
    initialTemp := initialTemp (config this);
    coolingRate := coolingRate (config this);
    minTemp := minTemp (config this);
    mode := mode (config this);
    weights := w
  |};
  venue := venue this;
  attendees := attendees this;
  groups := groups this;
  friendships := friendships this;
  currentGeneration := currentGeneration this;
  bestSolution := bestSolution this;
  bestFitness := bestFitness this;
  fitnessHistory := fitnessHistory this;
  isRunning := isRunning this
|}.

Definition updateWeights (this : Optimizer T) (friend vip group distance : T) : Outcome (Optimizer T) :=
  let total := friend + vip + group + distance in
  Ok (withWeights this {|
    w_friendProximity := friend / total;
    w_vipPlacement := vip / total;
    w_groupCohesion := group / total;
    w_stageDistance := distance / total
  |}).

End FitnessEvaluator.

(** ** Arrays *)

(** [a[i] = x] for [i >= 0]: a write past the end extends the array with
    [undefined] entries. *)
Definition arrayWrite (a : Chromosome) (i : nat) (x : option Z) : Chromosome :=
  if (i <? length a)%nat then <[i := x]> a
  else a ++ replicate (i - length a) None ++ [x].

(** [[a[i], a[j]] = [a[j], a[i]]]: both reads come first. *)
Definition swap (a : Chromosome) (i j : nat) : Chromosome :=
  let x := geneAt a j in
  let y := geneAt a i in
  arrayWrite (arrayWrite a i x) j y.

(** An array object with the properties that writes at negative indices
    create on it. *)
Record JsArray : Type := {
  elems : Chromosome;
  props : list (Z * option Z)
}.

Definition fresh (c : Chromosome) : JsArray := {| elems := c; props := [] |}.

Definition arrGet (a : JsArray) (i : Z) : option Z :=
  if i <? 0 then default None (mapGet Z.eqb i (props a))
  else geneAt (elems a) (Z.to_nat i).

Definition arrSet (a : JsArray) (i : Z) (x : option Z) : JsArray :=
  if i <? 0 then {| elems := elems a; props := mapSet Z.eqb i x (props a) |}
  else {| elems := arrayWrite (elems a) (Z.to_nat i) x; props := props a |}.

(** ** Randomness *)

Definition Rand (A : Type) : Type := list Q -> Outcome (A * list Q).

#[export] Instance rand_ret : MRet Rand := fun _ a s => Ok (a, s).
#[export] Instance rand_bind : MBind Rand := fun _ _ f m s =>
  match m s with
  | Ok (a, s') => f a s'
  | Throw e => Throw e
  | Diverge => Diverge
  end.

Definition liftO {A : Type} (o : Outcome A) : Rand A := fun s =>
  match o with
  | Ok a => Ok (a, s)
  | Throw e => Throw e
  | Diverge => Diverge
  end.

(** [Math.random()]: a number in [0, 1).  The oracle's next entry is read
    modulo 1, so every list is an oracle. *)
Definition frac (u : Q) : Q := (u - inject_Z (Qfloor u))%Q.

Definition random : Rand Q := fun s =>
  match s with
  | [] => Ok (0%Q, [])
  | u :: s' => Ok (frac u, s')
  end.

(** [Math.floor(Math.random() * n)]; the product is taken exactly. *)
Definition randomIndex (n : Z) : Rand Z :=
  u ← random; mret (Qfloor (u * inject_Z n)).

Definition Qltb (a b : Q) : bool := negb (Qle_bool b a).

(** [Math.random() < p] for a decimal literal [p]. *)
Definition chance (p : Q) : Rand bool :=
  u ← random; mret (Qltb u p).

Fixpoint foldlR {A B : Type} (f : B -> A -> Rand B) (b : B) (l : list A) : Rand B :=
  match l with
  | [] => mret b
  | a :: l' => b' ← f b a; foldlR f b' l'
  end.

(** ** Solution generators *)

Section Generators.
Context {T : Type} `{AT : Arith T}.
Local Open Scope num_scope.

(** Fisher-Yates: [for (let i = array.length - 1; i > 0; i--)]. *)
Fixpoint shuffleLoop (i : nat) (array : Chromosome) : Rand Chromosome :=
  match i with
  | O => mret array
  | S i' =>
      j ← randomIndex (Z.of_nat i + 1);
      shuffleLoop i' (swap array i (Z.to_nat j))
  end.

Definition shuffleArray (array : Chromosome) : Rand Chromosome :=
  shuffleLoop (length array - 1) array.

Definition generateRandomChromosome (this : Optimizer T) : Rand Chromosome :=
  v ← liftO (theVenue this);
  let availableSeats := map Some (seqZ 0 (totalSeats v)) in
  shuffled ← shuffleArray availableSeats;
  mret (take (length (attendees this)) shuffled).

(** [a.attendee.group ? this.groups.get(a.attendee.group)?.length || 0 : 0] *)
Definition groupSize (this : Optimizer T) (a : Attendee T) : Z :=
  match truthyGroup (a_group a) with
  | Some g =>
      match mapGet String.eqb g (groups this) with
      | Some members => Z.of_nat (length members)
      | None => 0
      end
  | None => 0
  end.

(** The comparator of the importance sort returns a positive number:
    VIP, then priority (higher first), then group size (larger first). *)
Definition importanceAfter (this : Optimizer T) (a b : nat * Attendee T) : bool :=
  if isVipType (snd a) && negb (isVipType (snd b)) then false
  else if negb (isVipType (snd a)) && isVipType (snd b) then true
  else if negb (neq (a_priority (snd a)) (a_priority (snd b)))
       then a_priority (snd b) - a_priority (snd a) >? ofZ 0
  else (0 <? groupSize this (snd b) - groupSize this (snd a))%Z.

Definition sortedIndices (this : Optimizer T) : list nat :=
  map fst (sortBy (importanceAfter this) (enumerate (attendees this))).

(** Preference score. *)
Definition preferenceScore (v : Venue T) (attendee : Attendee T) (seat : Seat T) (score : T) : T :=
  let r := ofZ (row seat) in
  if String.eqb (a_preference attendee) "front" && (r <? ofZ (rows v) / ofZ 3)
  then score + ofZ 50
  else if String.eqb (a_preference attendee) "middle"
          && (r >=? ofZ (rows v) / ofZ 3) && (r <? ofZ 2 * ofZ (rows v) / ofZ 3)
  then score + ofZ 50
  else if String.eqb (a_preference attendee) "back" && (r >=? ofZ 2 * ofZ (rows v) / ofZ 3)
  then score + ofZ 50
  else score.

(** Group proximity: attraction to the members already seated. *)
Definition groupProximityScore (this : Optimizer T) (v : Venue T) (chromosome : Chromosome)
    (attendee : Attendee T) (seat : Seat T) (score : T) : Outcome T :=
  match truthyGroup (a_group attendee) with
  | Some g =>
      match mapGet String.eqb g (groups this) with
      | Some members =>
          foldlM (fun sc memberIdx =>
                    if bool_decide (geneAt chromosome memberIdx = Some (-1)%Z) then Ok sc
                    else
                      dist ← getSeatDistance (Some seat) (seatOf v chromosome memberIdx);
                      Ok (sc + nmax (ofZ 0) (ofZ (100 - dist * 20)))) score members
      | None => Ok score
      end
  | None => Ok score
  end.

Definition seatScore (this : Optimizer T) (v : Venue T) (chromosome : Chromosome)
    (attendee : Attendee T) (seat : Seat T) : Outcome T :=
  let score0 := ofZ 0 in
  let score1 :=
    if isVipType attendee then score0 + (if isVip seat then ofZ 200 else ofZ (-100))
    else score0 in
  let priorityWeight := a_priority attendee / ofZ 10 in
  let score2 := score1 + (ofZ 200 * priorityWeight) / (distanceToStage seat + ofZ 1) in
  let score3 := preferenceScore v attendee seat score2 in
  groupProximityScore this v chromosome attendee seat score3.

(** [score > bestScore], where [bestScore] starts at [-Infinity] ([None]). *)
Definition beats (score : T) (bestScore : option T) : bool :=
  match bestScore with
  | None => ngtNegInf score
  | Some b => score >? b
  end.

Definition isUsed (usedSeats : list Z) (s : Z) : bool := existsb (Z.eqb s) usedSeats.

(** Body of the scan over the seats; the state is [(bestSeat, bestScore)]. *)
Definition scanBody (this : Optimizer T) (v : Venue T) (chromosome : Chromosome)
    (usedSeats : list Z) (attendee : Attendee T)
    (st : Z * option T) (seatPos : Z) : Outcome (Z * option T) :=
  if isUsed usedSeats seatPos then Ok st
  else
    seat ← theSeat (seats v !! Z.to_nat seatPos);
    score ← seatScore this v chromosome attendee seat;
    if beats score (snd st) then Ok (seatPos, Some score) else Ok st.

(** [if (bestSeat === -1)]: the first seat that is not used, if any. *)
Definition firstFree (v : Venue T) (usedSeats : list Z) : Z :=
  match List.find (fun s => negb (isUsed usedSeats s)) (seqZ 0 (totalSeats v)) with
  | Some s => s
  | None => -1
  end.

(** Assign seats greedily: body of the loop over the sorted indices; the
    state is [(chromosome, usedSeats)]. *)
Definition greedyBody (this : Optimizer T) (v : Venue T)
    (st : Chromosome * list Z) (attendeeIdx : nat) : Outcome (Chromosome * list Z) :=
  let chromosome := fst st in
  let usedSeats := snd st in
  match attendees this !! attendeeIdx with
  | None => Throw TypeError
  | Some attendee =>
      best ← foldlM (scanBody this v chromosome usedSeats attendee) (-1, None)
                    (seqZ 0 (totalSeats v));
      let bestSeat := if (fst best =? -1)%Z then firstFree v usedSeats else fst best in
      Ok (arrayWrite chromosome attendeeIdx (Some bestSeat),
          if isUsed usedSeats bestSeat then usedSeats else usedSeats ++ [bestSeat])
  end.

Definition generateGreedySolution (this : Optimizer T) : Outcome Chromosome :=
  let chromosome := replicate (length (attendees this)) (Some (-1)%Z) in
  match venue this with
  | None => if bool_decide (attendees this = []) then Ok chromosome else Throw TypeError
  | Some v =>
      st ← foldlM (greedyBody this v) (chromosome, []) (sortedIndices this);
      Ok (fst st)
  end.

End Generators.

(** ** Genetic operators *)

Section Operators.
Context {T : Type} `{AT : Arith T} `{ET : HasExp T}.
Local Open Scope num_scope.

(** Body of the tournament loop; the state is [(best, bestFitness)],
    with [best = null] as [None]. *)
Definition tournamentBody (population : list Chromosome) (fitnessValues : list (Fitness T))
    (st : option Chromosome * T) (i : Z) : Rand (option Chromosome * T) :=
  idx ← randomIndex (Z.of_nat (length population));
  match fitnessValues !! Z.to_nat idx with
  | None => liftO (Throw TypeError)
  | Some f =>
      if total f >? snd st then mret (population !! Z.to_nat idx, total f)
      else mret st
  end.

(** [return [...best]]: spreading [null] or [undefined] throws. *)
Definition tournamentSelect (this : Optimizer T) (population : list Chromosome)
    (fitnessValues : list (Fitness T)) : Rand Chromosome :=
  st ← foldlR (tournamentBody population fitnessValues) (None, ofZ (-1))
              (seqZ 0 (tournamentSize (config this)));
  match fst st with
  | Some best => mret best
  | None => liftO (Throw TypeError)
  end.

Definition includes (x : option Z) (a : Chromosome) : bool :=
  existsb (fun y => bool_decide (x = y)) a.

(** The [while (child.includes(-1))] loop of [fillCrossoverChild]. *)
Fixpoint fillLoop (fuel : nat) (len : nat) (parent child : Chromosome)
    (usedSeats : list (option Z)) (childIdx parentIdx : nat) : Outcome Chromosome :=
  if negb (includes (Some (-1)%Z) child) then Ok child
  else
    match fuel with
    | O => Diverge
    | S fuel' =>
        let p := geneAt parent parentIdx in
        if negb (setHas p usedSeats)
        then fillLoop fuel' len parent (arrayWrite child childIdx p) (usedSeats ++ [p])
                      ((childIdx + 1) mod len)%nat ((parentIdx + 1) mod len)%nat
        else fillLoop fuel' len parent child usedSeats childIdx ((parentIdx + 1) mod len)%nat
    end.

Definition fillCrossoverChild (fuel : nat) (child parent : Chromosome) (start end_ : Z)
    : Outcome Chromosome :=
  let len := length child in
  let usedSeats := filter (fun s => s <> Some (-1)%Z) child in
  let childIdx := Z.to_nat ((end_ + 1) mod Z.of_nat len) in
  let parentIdx := Z.to_nat ((end_ + 1) mod Z.of_nat len) in
  fillLoop fuel len parent child usedSeats childIdx parentIdx.

(** [for (let i = start; i <= end; i++) child[i] = parent[i]] *)
Definition copySegment (child parent : Chromosome) (start end_ : Z) : Chromosome :=
  fold_left (fun c i => arrayWrite c (Z.to_nat i) (geneAt parent (Z.to_nat i)))
            (seqZ start (end_ - start + 1)) child.

Definition crossover (fuel : nat) (this : Optimizer T) (parent1 parent2 : Chromosome)
    : Rand (Chromosome * Chromosome) :=
  u ← random;
  if ofQ u >? crossoverRate (config this) then mret (parent1, parent2)
  else
    let len := Z.of_nat (length parent1) in
    start ← randomIndex len;
    off ← randomIndex (len - start);
    let end_ := (start + off)%Z in
    let child1 := copySegment (replicate (length parent1) (Some (-1)%Z)) parent1 start end_ in
    let child2 := copySegment (replicate (length parent1) (Some (-1)%Z)) parent2 start end_ in
    c1 ← liftO (fillCrossoverChild fuel child1 parent2 start end_);
    c2 ← liftO (fillCrossoverChild fuel child2 parent1 start end_);
    mret (c1, c2).

(** [[a[i], a[j]] = [a[j], a[i]]] on an array object, any integer index. *)
Definition arrSwap (a : JsArray) (i j : Z) : JsArray :=
  let x := arrGet a j in
  let y := arrGet a i in
  arrSet (arrSet a i x) j y.

(** Swap blocks: one pass of the [for (let i = 0; i < len; i++)] loop. *)
Definition blockStep (start1 start2 : Z) (a : JsArray) (i : Z) : JsArray :=
  let temp := arrGet a (start1 + i) in
  let a1 := arrSet a (start1 + i) (arrGet a (start2 + i)) in
  arrSet a1 (start2 + i) temp.

Definition blockSwap (a : JsArray) (len start1 start2 : Z) : JsArray :=
  fold_left (blockStep start1 start2) (seqZ 0 len) a.

(** Adaptive mutation rate: [mutationRate * (1 + Math.exp(-currentGeneration / 20))]. *)
Definition adaptiveRate (this : Optimizer T) : T :=
  mutationRate (config this) * (ofZ 1 + nexp (ofZ (- currentGeneration this) / ofZ 20)).

Definition arrLength (a : JsArray) : Z := Z.of_nat (length (elems a)).

(** What [mutate] does once the rate test has passed. *)
Definition mutateBody (a : JsArray) : Rand JsArray :=
  idx1 ← randomIndex (arrLength a);
  idx2 ← randomIndex (arrLength a);
  let a1 := arrSwap a idx1 idx2 in
  block ← chance 0.3;
  if block : bool then
    r ← randomIndex 5;
    let len := (r + 2)%Z in
    start1 ← randomIndex (arrLength a1 - len);
    start2 ← randomIndex (arrLength a1 - len);
    mret (blockSwap a1 len start1 start2)
  else mret a1.

Definition mutate (this : Optimizer T) (a : JsArray) : Rand JsArray :=
  let rate := adaptiveRate this in
  u ← random;
  if ofQ u <? rate then mutateBody a else mret a.

(** [trySwapForBetterProximity]: the first attendee, other than the two,
    seated next to [idx2] takes the seat of [idx1]. *)
Fixpoint trySwapLoop (v : Venue T) (chromosome : Chromosome) (idx1 idx2 : nat)
    (others : list nat) : Outcome Chromosome :=
  match others with
  | [] => Ok chromosome
  | i :: rest =>
      if Nat.eqb i idx1 || Nat.eqb i idx2 then trySwapLoop v chromosome idx1 idx2 rest
      else
        dist ← getSeatDistance (seatOf v chromosome i) (seatOf v chromosome idx2);
        if (dist =? 1)%Z then Ok (swap chromosome idx1 i)
        else trySwapLoop v chromosome idx1 idx2 rest
  end.

Definition trySwapForBetterProximity (this : Optimizer T) (chromosome : Chromosome)
    (idx1 idx2 : nat) : Outcome Chromosome :=
  v ← theVenue this;
  trySwapLoop v chromosome idx1 idx2 (seq 0 (length chromosome)).

(** The first friend of [attendeeIdx] seated at distance more than 3. *)
Fixpoint farFriend (v : Venue T) (chromosome : Chromosome) (attendeeIdx : nat)
    (friends : list nat) : Outcome (option nat) :=
  match friends with
  | [] => Ok None
  | friendIdx :: rest =>
      dist ← getSeatDistance (seatOf v chromosome attendeeIdx) (seatOf v chromosome friendIdx);
      if (3 <? dist)%Z then Ok (Some friendIdx)
      else farFriend v chromosome attendeeIdx rest
  end.

Fixpoint improveFriendLoop (this : Optimizer T) (chromosome : Chromosome)
    (fs : list (nat * list nat)) : Outcome Chromosome :=
  match fs with
  | [] => Ok chromosome
  | (attendeeIdx, friends) :: rest =>
      v ← theVenue this;
      far ← farFriend v chromosome attendeeIdx friends;
      match far with
      | Some friendIdx => trySwapForBetterProximity this chromosome attendeeIdx friendIdx
      | None => improveFriendLoop this chromosome rest
      end
  end.

Definition improveFriendProximity (this : Optimizer T) (chromosome : Chromosome)
    : Outcome Chromosome :=
  improveFriendLoop this chromosome (friendships this).

(** Inner loop of [improveVipPlacement] and of [findWeakArea]: the first
    attendee who is not a VIP and sits in a VIP seat. *)
Fixpoint regularInVipSeat (this : Optimizer T) (chromosome : Chromosome)
    (js : list (nat * Attendee T)) : Outcome (option nat) :=
  match js with
  | [] => Ok None
  | (j, other) :: rest =>
      if negb (isVipType other) then
        v ← theVenue this;
        otherSeat ← theSeat (seatOf v chromosome j);
        if isVip otherSeat then Ok (Some j)
        else regularInVipSeat this chromosome rest
      else regularInVipSeat this chromosome rest
  end.

(** Outer loop: the first VIP outside the VIP rows for whom such a
    partner exists. *)
Fixpoint misplacedVip (this : Optimizer T) (chromosome : Chromosome)
    (vips : list (nat * Attendee T)) : Outcome (option (nat * nat)) :=
  match vips with
  | [] => Ok None
  | (i, attendee) :: rest =>
      if isVipType attendee then
        v ← theVenue this;
        seat ← theSeat (seatOf v chromosome i);
        if negb (isVip seat) then
          found ← regularInVipSeat this chromosome (enumerate (attendees this));
          match found with
          | Some j => Ok (Some (i, j))
          | None => misplacedVip this chromosome rest
          end
        else misplacedVip this chromosome rest
      else misplacedVip this chromosome rest
  end.

Definition improveVipPlacement (this : Optimizer T) (chromosome : Chromosome)
    : Outcome Chromosome :=
  found ← misplacedVip this chromosome (enumerate (attendees this));
  match found with
  | Some (i, j) => Ok (swap chromosome i j)
  | None => Ok chromosome
  end.

(** [cond && Math.random() < 0.5]: the draw happens only when [cond] holds. *)
Definition andChance (cond : bool) (p : Q) : Rand bool :=
  if cond then chance p else mret false.

Definition smartMutate (this : Optimizer T) (chromosome : Chromosome) (fitness : Fitness T)
    : Rand Chromosome :=
  let mutated := chromosome in
  b1 ← andChance (friendProximity fitness <? ofQ 0.7) 0.5;
  mutated1 ← (if b1 : bool then liftO (improveFriendProximity this mutated) else mret mutated);
  b2 ← andChance (vipPlacement fitness <? ofQ 0.8) 0.5;
  if b2 : bool then liftO (improveVipPlacement this mutated1) else mret mutated1.

End Operators.

(** ** Simulated annealing (browser optimizer) *)

Section Annealing.
Context {T : Type} `{AT : Arith T} `{ET : HasExp T}.
Local Open Scope num_scope.

(** [hasNeighbor]: another member of the group within distance 2. *)
Fixpoint hasNeighbor (v : Venue T) (chromosome : Chromosome) (memberIdx : nat)
    (others : list nat) : Outcome bool :=
  match others with
  | [] => Ok false
  | otherIdx :: rest =>
      if Nat.eqb otherIdx memberIdx then hasNeighbor v chromosome memberIdx rest
      else
        dist ← getSeatDistance (seatOf v chromosome memberIdx) (seatOf v chromosome otherIdx);
        if (dist <=? 2)%Z then Ok true
        else hasNeighbor v chromosome memberIdx rest
  end.

(** The first attendee outside the group seated next to [otherIdx]. *)
Fixpoint adjacentOutsider (v : Venue T) (chromosome : Chromosome) (members : list nat)
    (otherIdx : nat) (ks : list nat) : Outcome (option nat) :=
  match ks with
  | [] => Ok None
  | k :: rest =>
      if negb (existsb (Nat.eqb k) members) then
        dist ← getSeatDistance (seatOf v chromosome otherIdx) (seatOf v chromosome k);
        if (dist =? 1)%Z then Ok (Some k)
        else adjacentOutsider v chromosome members otherIdx rest
      else adjacentOutsider v chromosome members otherIdx rest
  end.

(** Find someone adjacent to a group member to swap with. *)
Fixpoint swapPartner (this : Optimizer T) (v : Venue T) (chromosome : Chromosome)
    (members : list nat) (memberIdx : nat) (others : list nat) : Outcome (option nat) :=
  match others with
  | [] => Ok None
  | otherIdx :: rest =>
      if Nat.eqb otherIdx memberIdx then swapPartner this v chromosome members memberIdx rest
      else
        found ← adjacentOutsider v chromosome members otherIdx (seq 0 (length (attendees this)));
        match found with
        | Some k => Ok (Some k)
        | None => swapPartner this v chromosome members memberIdx rest
        end
  end.

(** Find an isolated member of the group that has a swap partner. *)
Fixpoint isolatedMember (this : Optimizer T) (v : Venue T) (chromosome : Chromosome)
    (members : list nat) (candidates : list nat) : Outcome (option (nat * nat)) :=
  match candidates with
  | [] => Ok None
  | memberIdx :: rest =>
      near ← hasNeighbor v chromosome memberIdx members;
      if near : bool then isolatedMember this v chromosome members rest
      else
        found ← swapPartner this v chromosome members memberIdx members;
        match found with
        | Some k => Ok (Some (memberIdx, k))
        | None => isolatedMember this v chromosome members rest
        end
  end.

Fixpoint weakGroup (this : Optimizer T) (chromosome : Chromosome)
    (gs : list (string * list nat)) : Outcome (option (nat * nat)) :=
  match gs with
  | [] => Ok None
  | (groupName, members) :: rest =>
      if (length members <=? 1)%nat then weakGroup this chromosome rest
      else
        v ← theVenue this;
        found ← isolatedMember this v chromosome members members;
        match found with
        | Some target => Ok (Some target)
        | None => weakGroup this chromosome rest
        end
  end.

(** Find a weak area in the current solution to target for improvement. *)
Definition findWeakArea (this : Optimizer T) (chromosome : Chromosome) (fitness : Fitness T)
    : Outcome (option (nat * nat)) :=
  vip ← (if vipPlacement fitness <? ofQ 0.8
         then misplacedVip this chromosome (enumerate (attendees this))
         else Ok None);
  match vip with
  | Some target => Ok (Some target)
  | None =>
      if groupCohesion fitness <? ofQ 0.7 then weakGroup this chromosome (groups this)
      else Ok None
  end.

(** Random swap of two positions. *)
Definition randomSwap (neighbor : Chromosome) : Rand Chromosome :=
  idx1 ← randomIndex (Z.of_nat (length neighbor));
  idx2 ← randomIndex (Z.of_nat (length neighbor));
  mret (swap neighbor (Z.to_nat idx1) (Z.to_nat idx2)).

(** Smart neighbor generation: 50% chance to do a targeted swap. *)
Definition neighborOf (this : Optimizer T) (current : Chromosome) (currentFitness : Fitness T)
    : Rand Chromosome :=
  targeted ← chance 0.5;
  if targeted : bool then
    weakArea ← liftO (findWeakArea this current currentFitness);
    match weakArea with
    | Some (idx1, idx2) => mret (swap current idx1 idx2)
    | None => randomSwap current
    end
  else randomSwap current.

Record SAState : Type := {
  sa_current : Chromosome;
  sa_currentFitness : Fitness T;
  sa_best : Chromosome;
  sa_bestFitness : Fitness T;
  sa_temp : T
}.

(** [delta > 0 || Math.random() < Math.exp(delta / temp)] *)
Definition accepts (delta temp : T) : Rand bool :=
  if delta >? ofZ 0 then mret true
  else u ← random; mret (ofQ u <? nexp (delta / temp)).

(** What one accepted or rejected neighbor does to the state. *)
Definition saUpdate (this : Optimizer T) (st : SAState) (neighbor : Chromosome)
    (neighborFitness : Fitness T) (accepted : bool) : SAState :=
  let moved :=
    if accepted then
      if total neighborFitness >? total (sa_bestFitness st)
      then {| sa_current := neighbor; sa_currentFitness := neighborFitness;
              sa_best := neighbor; sa_bestFitness := neighborFitness;
              sa_temp := sa_temp st |}
      else {| sa_current := neighbor; sa_currentFitness := neighborFitness;
              sa_best := sa_best st; sa_bestFitness := sa_bestFitness st;
              sa_temp := sa_temp st |}
    else st in
  {| sa_current := sa_current moved; sa_currentFitness := sa_currentFitness moved;
     sa_best := sa_best moved; sa_bestFitness := sa_bestFitness moved;
     sa_temp := sa_temp moved * coolingRate (config this) |}.

Definition saStepWith (neighborGen : Chromosome -> Fitness T -> Rand Chromosome)
    (fitnessFn : Chromosome -> Outcome (Fitness T))
    (this : Optimizer T) (st : SAState) : Rand SAState :=
  neighbor ← neighborGen (sa_current st) (sa_currentFitness st);
  neighborFitness ← liftO (fitnessFn neighbor);
  let delta := total neighborFitness - total (sa_currentFitness st) in
  accepted ← accepts delta (sa_temp st);
  mret (saUpdate this st neighbor neighborFitness accepted).

(** [for (let i = 0; i < iterations && temp > this.config.minTemp; i++)] *)
Fixpoint saLoopWith (neighborGen : Chromosome -> Fitness T -> Rand Chromosome)
    (fitnessFn : Chromosome -> Outcome (Fitness T))
    (this : Optimizer T) (iterations : nat) (st : SAState) : Rand SAState :=
  match iterations with
  | O => mret st
  | S n =>
      if sa_temp st >? minTemp (config this) then
        st' ← saStepWith neighborGen fitnessFn this st;
        saLoopWith neighborGen fitnessFn this n st'
      else mret st
  end.

Definition annealWith (neighborGen : Chromosome -> Fitness T -> Rand Chromosome)
    (fitnessFn : Chromosome -> Outcome (Fitness T))
    (this : Optimizer T) (chromosome : Chromosome) (iterations : Z)
    : Rand (Chromosome * Fitness T) :=
  currentFitness ← liftO (fitnessFn chromosome);
  let st0 := {| sa_current := chromosome; sa_currentFitness := currentFitness;
                sa_best := chromosome; sa_bestFitness := currentFitness;
                sa_temp := initialTemp (config this) |} in
  st ← saLoopWith neighborGen fitnessFn this (Z.to_nat iterations) st0;
  mret (sa_best st, sa_bestFitness st).

Definition simulatedAnnealing (this : Optimizer T) (chromosome : Chromosome) (iterations : Z)
    : Rand (Chromosome * Fitness T) :=
  annealWith (neighborOf this) (calculateFitness this) this chromosome iterations.

End Annealing.

(** ** The optimization driver (browser optimizer) *)

Section Driver.
Context {T : Type} `{AT : Arith T} `{ET : HasExp T}.
Local Open Scope num_scope.

(** Field updates of the optimizer object. *)
Definition withRun (this : Optimizer T) (running : bool) (history : list T) : Optimizer T := {|
  config := config this; venue := venue this; attendees := attendees this;
  groups := groups this; friendships := friendships this;
  currentGeneration := currentGeneration this;
  bestSolution := bestSolution this; bestFitness := bestFitness this;
  fitnessHistory := history; isRunning := running
|}.

Definition withGeneration (this : Optimizer T) (gen : Z) : Optimizer T := {|
  config := config this; venue := venue this; attendees := attendees this;
  groups := groups this; friendships := friendships this;
  currentGeneration := gen;
  bestSolution := bestSolution this; bestFitness := bestFitness this;
  fitnessHistory := fitnessHistory this; isRunning := isRunning this
|}.

Definition withBest (this : Optimizer T) (c : Chromosome) (f : Fitness T) : Optimizer T := {|
  config := config this; venue := venue this; attendees := attendees this;
  groups := groups this; friendships := friendships this;
  currentGeneration := currentGeneration this;
  bestSolution := Some c; bestFitness := Best f;
  fitnessHistory := fitnessHistory this; isRunning := isRunning this
|}.

(** [stop()] *)
Definition stop (this : Optimizer T) : Optimizer T :=
  withRun this false (fitnessHistory this).

(** [setMode(mode)] *)
Definition setMode (this : Optimizer T) (m : string) : Optimizer T := {|
  config := {|
    populationSize := populationSize (config this);
    generations := generations (config this);
    mutationRate := mutationRate (config this);
    crossoverRate := crossoverRate (config this);
    elitismCount := elitismCount (config this);
    tournamentSize := tournamentSize (config this);
    initialTemp := initialTemp (config this);
    coolingRate := coolingRate (config this);
    minTemp := minTemp (config this);
    mode := Some m;
    weights := weights (config this)
  |};
  venue := venue this; attendees := attendees this;
  groups := groups this; friendships := friendships this;
  currentGeneration := currentGeneration this;
  bestSolution := bestSolution this; bestFitness := bestFitness this;
  fitnessHistory := fitnessHistory this; isRunning := isRunning this
|}.

(** [for (let j = 0; j < 5; j++) this.mutate(greedy)]: the same array
    object is mutated five times. *)
Definition greedySeedWith (mutateFn : JsArray -> Rand JsArray) (this : Optimizer T)
    : Rand Chromosome :=
  greedy ← liftO (generateGreedySolution this);
  a ← foldlR (fun a (_ : Z) => mutateFn a) (fresh greedy) (seqZ 0 5);
  mret (elems a).

(** [while (population.length < this.config.populationSize)] *)
Fixpoint randomFill (this : Optimizer T) (k : nat) (population : list Chromosome)
    : Rand (list Chromosome) :=
  match k with
  | O => mret population
  | S k' =>
      if (Z.of_nat (length population) <? populationSize (config this))%Z then
        c ← generateRandomChromosome this;
        randomFill this k' (population ++ [c])
      else mret population
  end.

Definition initializePopulationWith (mutateFn : JsArray -> Rand JsArray) (this : Optimizer T)
    : Rand (list Chromosome) :=
  let seeds := Qfloor (inject_Z (populationSize (config this)) * 0.2) in
  population ← foldlR (fun pop (_ : Z) => g ← greedySeedWith mutateFn this; mret (pop ++ [g]))
                      [] (seqZ 0 seeds);
  randomFill this (Z.to_nat (populationSize (config this) - Z.of_nat (length population)))
             population.

Definition initializePopulation (this : Optimizer T) : Rand (list Chromosome) :=
  initializePopulationWith (mutate this) this.

(** [population.map(c => this.calculateFitness(c))] *)
Fixpoint mapM {A B : Type} (f : A -> Outcome B) (l : list A) : Outcome (list B) :=
  match l with
  | [] => Ok []
  | a :: l' => b ← f a; bs ← mapM f l'; Ok (b :: bs)
  end.

(** The index of the first chromosome with the largest total. *)
Definition bestIndex (fitnessValues : list (Fitness T)) : nat :=
  fst (fold_left (fun st f =>
                    let '(bestIdx, i) := st in
                    match fitnessValues !! bestIdx with
                    | Some fb => if total f >? total fb then (i, S i) else (bestIdx, S i)
                    | None => (bestIdx, S i)
                    end)
                 (drop 1 fitnessValues) (0%nat, 1%nat)).

(** [(a, b) => b.fitness.total - a.fitness.total] returns a positive number. *)
Definition fitterAfter (a b : Chromosome * Fitness T) : bool :=
  total (snd b) - total (snd a) >? ofZ 0.

(** Elitism: copies of the first [elitismCount] entries of [sorted]. *)
Definition elites (this : Optimizer T) (sorted : list (Chromosome * Fitness T))
    : Outcome (list Chromosome) :=
  foldlM (fun np i =>
            match sorted !! Z.to_nat i with
            | Some e => Ok (np ++ [fst e])
            | None => Throw TypeError
            end) [] (seqZ 0 (elitismCount (config this))).

(** The global best is replaced only by a strictly larger total. *)
Definition updateBest (this : Optimizer T) (population : list Chromosome)
    (fitnessValues : list (Fitness T)) : Optimizer T :=
  fold_left (fun o cf => if total (snd cf) >? bestTotal (bestFitness o)
                         then withBest o (fst cf) (snd cf) else o)
            (zip population fitnessValues) this.

Definition pushHistory (this : Optimizer T) : Optimizer T :=
  withRun this (isRunning this) (fitnessHistory this ++ [bestTotal (bestFitness this)]).

(** What the caller does while [optimize] is suspended or calls back:
    whether the progress callback of a generation calls [stop()], and
    whether [stop()] is called during the yield that follows it.  A
    callback returns normally and reaches the optimizer through [stop()]
    only; [completeCallback], which runs when the state no longer
    changes, is not represented. *)
Record Env : Type := {
  progressCallback : option (Z -> bool);
  duringYield : Z -> bool
}.

Definition afterGeneration (env : Env) (gen : Z) (this : Optimizer T) : Optimizer T :=
  let this1 :=
    match progressCallback env with
    | Some cb => if cb gen then stop this else this
    | None => this
    end in
  if (gen mod 5 =? 0)%Z && duringYield env gen then stop this1 else this1.

(** Pair of children of one pass of the breeding loop. *)
Definition offspring (fuel : nat) (this : Optimizer T) (population : list Chromosome)
    (fitnessValues : list (Fitness T)) : Rand (Chromosome * Chromosome) :=
  p1 ← tournamentSelect this population fitnessValues;
  p2 ← tournamentSelect this population fitnessValues;
  children ← crossover fuel this p1 p2;
  m1 ← mutate this (fresh (fst children));
  m2 ← mutate this (fresh (snd children));
  smart ← chance 0.3;
  c1 ← (if smart : bool
        then f ← liftO (calculateFitness this (elems m1)); smartMutate this (elems m1) f
        else mret (elems m1));
  mret (c1, elems m2).

(** [while (newPopulation.length < this.config.populationSize)] *)
Fixpoint breedWith (offspringFn : Rand (Chromosome * Chromosome)) (this : Optimizer T)
    (k : nat) (newPopulation : list Chromosome) : Rand (list Chromosome) :=
  match k with
  | O => mret newPopulation
  | S k' =>
      if (Z.of_nat (length newPopulation) <? populationSize (config this))%Z then
        children ← offspringFn;
        let np1 := newPopulation ++ [fst children] in
        let np2 := if (Z.of_nat (length np1) <? populationSize (config this))%Z
                   then np1 ++ [snd children] else np1 in
        breedWith offspringFn this k' np2
      else mret newPopulation
  end.

(** One generation, up to the push on [fitnessHistory].  The optimizer
    object comes back in every outcome: a [throw] leaves it as it is. *)
Definition generationWith
    (offspringFn : Optimizer T -> list Chromosome -> list (Fitness T) -> Rand (Chromosome * Chromosome))
    (fitnessFn : Optimizer T -> Chromosome -> Outcome (Fitness T))
    (this : Optimizer T) (gen : Z) (population : list Chromosome)
    (fitnessValues : list (Fitness T)) (s : list Q)
    : Optimizer T * Outcome (list Chromosome * list (Fitness T) * list Q) :=
  let this1 := withGeneration this gen in
  let sorted := sortBy fitterAfter (zip population fitnessValues) in
  let next : Rand (list Chromosome * list (Fitness T)) :=
    newPopulation ← liftO (elites this1 sorted);
    bred ← breedWith (offspringFn this1 population fitnessValues) this1
              (Z.to_nat (populationSize (config this1) - Z.of_nat (length newPopulation)))
              newPopulation;
    values ← liftO (mapM (fitnessFn this1) bred);
    mret (bred, values) in
  match next s with
  | Ok ((bred, values), s') =>
      (pushHistory (updateBest this1 bred values), Ok (bred, values, s'))
  | Throw e => (this1, Throw e)
  | Diverge => (this1, Diverge)
  end.

(** The mode presets. *)
Definition modeOf (this : Optimizer T) : string :=
  match mode (config this) with
  | Some m => if String.eqb m "" then "balanced" else m
  | None => "balanced"
  end.

Definition totalGenerations (this : Optimizer T) : Z :=
  if String.eqb (modeOf this) "fast" then 50
  else if String.eqb (modeOf this) "thorough" then 500
  else generations (config this).

Definition saIterations (this : Optimizer T) : Z :=
  if String.eqb (modeOf this) "fast" then 20
  else if String.eqb (modeOf this) "thorough" then 200
  else 100.

Record OptimizeResult : Type := {
  solution : option Chromosome;
  fitness : BestFitness T;
  history : list T
}.

Definition resultOf (this : Optimizer T) : OptimizeResult :=
  {| solution := bestSolution this; fitness := bestFitness this;
     history := fitnessHistory this |}.

(** [for (let gen = 0; gen < totalGenerations && this.isRunning; gen++)] *)
Fixpoint generationLoop (fuel : nat) (env : Env) (n : nat) (gen : Z) (this : Optimizer T)
    (population : list Chromosome) (fitnessValues : list (Fitness T)) (s : list Q)
    : Optimizer T * Outcome (list Q) :=
  match n with
  | O => (this, Ok s)
  | S n' =>
      if isRunning this then
        match generationWith (offspring fuel) calculateFitness this gen population fitnessValues s with
        | (this', Ok (bred, values, s')) =>
            generationLoop fuel env n' (gen + 1) (afterGeneration env gen this') bred values s'
        | (this', Throw e) => (this', Throw e)
        | (this', Diverge) => (this', Diverge)
        end
      else (this, Ok s)
  end.

(** The guard at the entry of [optimize]. *)
Definition entryGuard (this : Optimizer T) : bool :=
  match venue this with
  | None => true
  | Some _ => (length (attendees this) =? 0)%nat
  end.

(** Initial population, its fitness values and the first global best. *)
Definition firstBestWith (initFn : Optimizer T -> Rand (list Chromosome))
    (fitnessFn : Optimizer T -> Chromosome -> Outcome (Fitness T))
    (this : Optimizer T) : Rand (list Chromosome * list (Fitness T) * Chromosome * Fitness T) :=
  population ← initFn this;
  fitnessValues ← liftO (mapM (fitnessFn this) population);
  let bestIdx := bestIndex fitnessValues in
  match population !! bestIdx, fitnessValues !! bestIdx with
  | Some c, Some f => mret (population, fitnessValues, c, f)
  | _, _ => liftO (Throw TypeError)
  end.

(** Final polish: the refined solution replaces the best only when its
    total is strictly larger. *)
Definition polishWith (annealFn : Optimizer T -> Chromosome -> Z -> Rand (Chromosome * Fitness T))
    (this : Optimizer T) (s : list Q) : Optimizer T * Outcome (list Q) :=
  match bestSolution this with
  | None => (this, Throw TypeError)
  | Some c =>
      match annealFn this c (saIterations this) s with
      | Ok (refined, s') =>
          (if total (snd refined) >? bestTotal (bestFitness this)
           then withBest this (fst refined) (snd refined) else this, Ok s')
      | Throw e => (this, Throw e)
      | Diverge => (this, Diverge)
      end
  end.

Definition optimize (fuel : nat) (env : Env) (this : Optimizer T) (s : list Q)
    : Optimizer T * Outcome OptimizeResult :=
  if entryGuard this then (this, Throw (ConfigError "Venue/Attendees not set"))
  else
    let this1 := withRun this true [] in
    match firstBestWith initializePopulation calculateFitness this1 s with
    | Throw e => (this1, Throw e)
    | Diverge => (this1, Diverge)
    | Ok (population, fitnessValues, c, f, s1) =>
        let this2 := withBest this1 c f in
        match generationLoop fuel env (Z.to_nat (totalGenerations this2)) 0 this2
                             population fitnessValues s1 with
        | (this3, Throw e) => (this3, Throw e)
        | (this3, Diverge) => (this3, Diverge)
        | (this3, Ok s2) =>
            let polished :=
              if isRunning this3 then polishWith simulatedAnnealing this3 s2
              else (this3, Ok s2) in
            match polished with
            | (this4, Throw e) => (this4, Throw e)
            | (this4, Diverge) => (this4, Diverge)
            | (this4, Ok _) =>
                let this5 := stop this4 in
                (this5, Ok (resultOf this5))
            end
        end
    end.

End Driver.

(** ** The server optimizer

    The server module repeats [setVenue], [setAttendees], the generators,
    [tournamentSelect] and [crossover] of the browser class word for word;
    those are shared here.  Its fitness function is translated again from
    its own text, and [mutate], [simulatedAnnealing] and [optimize], which
    differ, are its own. *)

Module Server.
Section ServerOptimizer.
Context {T : Type} `{AT : Arith T} `{ET : HasExp T}.
Local Open Scope num_scope.

Definition constructor (c : RawConfig T) : Optimizer T := {|
  config := {|
    populationSize := orZ (rc_populationSize c) 100;
    generations := orZ (rc_generations c) 200;
    mutationRate := orT (rc_mutationRate c) (ofQ 0.15);
    crossoverRate := orT (rc_crossoverRate c) (ofQ 0.85);
    elitismCount := orZ (rc_elitismCount c) 5;
    tournamentSize := orZ (rc_tournamentSize c) 5;
    initialTemp := orT (rc_initialTemp c) (ofZ 1000);
    coolingRate := orT (rc_coolingRate c) (ofQ 0.995);
    minTemp := orT (rc_minTemp c) (ofZ 1);
    mode := Some (match rc_mode c with
                  | Some m => if String.eqb m "" then "balanced" else m
                  | None => "balanced"
                  end);
    weights := {|
      w_friendProximity := orT (rc_friendWeight c) (ofZ 30) / ofZ 100;
      w_vipPlacement := orT (rc_vipWeight c) (ofZ 25) / ofZ 100;
      w_groupCohesion := orT (rc_groupWeight c) (ofZ 25) / ofZ 100;
      w_stageDistance := orT (rc_distanceWeight c) (ofZ 20) / ofZ 100
    |}
  |};
  venue := None;
  attendees := [];
  groups := [];
  friendships := [];
  currentGeneration := 0;
  bestSolution := None;
  bestFitness := InitialBest;
  fitnessHistory := [];
  isRunning := false
|}.

Definition getSeatDistance (seat1 seat2 : option (Seat T)) : Outcome Z :=
  match seat1, seat2 with
  | Some s1, Some s2 => Ok (Z.abs (row s1 - row s2) + Z.abs (col s1 - col s2))%Z
  | _, _ => Throw TypeError
  end.

Definition friendPoints (distance : Z) : T :=
  if (distance =? 1)%Z then ofZ 10
  else if (distance =? 2)%Z then ofZ 7
  else if (distance <=? 4)%Z then ofZ 4
  else nmax (ofZ 0) (ofZ 2 - ofZ distance * ofQ 0.1).

Definition friendBody (v : Venue T) (chromosome : Chromosome)
    (attendeeSeat : option (Seat T)) (acc : T * T) (friendIdx : nat) : Outcome (T * T) :=
  let friendSeat := seatOf v chromosome friendIdx in
  distance ← getSeatDistance attendeeSeat friendSeat;
  Ok (fst acc + friendPoints distance, snd acc + ofZ 10).

Definition friendshipBody (v : Venue T) (chromosome : Chromosome)
    (acc : T * T) (entry : nat * list nat) : Outcome (T * T) :=
  let attendeeSeat := seatOf v chromosome (fst entry) in
  foldlM (friendBody v chromosome attendeeSeat) acc (snd entry).

Definition maxVenueDist (v : Venue T) : T :=
  nsqrt (pow2 (ofZ (rows v + 1)) + pow2 (ofZ (cols v) / ofZ 2)).

Definition attendeeBody (v : Venue T) (chromosome : Chromosome)
    (acc : AttendeeAcc) (entry : nat * Attendee T) : Outcome AttendeeAcc :=
  let idx := fst entry in
  let attendee := snd entry in
  seat ← theSeat (seatOf v chromosome idx);
  let vipScore :=
    if isVipType attendee then
      if isVip seat then vipPlacementScore acc + ofZ 20
      else vipPlacementScore acc + nmax (ofZ 0) (ofZ (10 - row seat * 2))
    else vipPlacementScore acc in
  let maxVip :=
    if isVipType attendee then maxVipScore acc + ofZ 20 else maxVipScore acc in
  let priorityFactor := a_priority attendee / ofZ 10 in
  let maxPointsForPerson := ofZ 10 * priorityFactor in
  let distRatio := distanceToStage seat / maxVenueDist v in
  let personScore := nmax (ofZ 0) ((ofZ 1 - distRatio) * maxPointsForPerson) in
  Ok {| vipPlacementScore := vipScore;
        maxVipScore := maxVip;
        stageDistanceScore := stageDistanceScore acc + personScore;
        maxDistanceScore := maxDistanceScore acc + maxPointsForPerson |}.

Definition seatAfter (a b : Seat T) : bool :=
  if (row a - row b =? 0)%Z then (0 <? col a - col b)%Z else (0 <? row a - row b)%Z.

Definition sortSeats (l : list (option (Seat T))) : list (option (Seat T)) :=
  map Some (sortBy seatAfter (omap (fun s => s) l)) ++ filter (fun s => s = None) l.

Definition adjacencyPoints (dist : Z) : Z :=
  if (dist =? 1)%Z then 2 else if (dist <=? 2)%Z then 1 else 0.

Fixpoint cohesionLoop (cohesionPoints : Z) (l : list (option (Seat T))) : Outcome Z :=
  match l with
  | [] => Ok cohesionPoints
  | si :: rest =>
      pts ← foldlM (fun p sj => dist ← getSeatDistance si sj;
                                 Ok (p + adjacencyPoints dist)%Z) cohesionPoints rest;
      cohesionLoop pts rest
  end.

Definition groupBody (v : Venue T) (chromosome : Chromosome)
    (acc : T * T) (entry : string * list nat) : Outcome (T * T) :=
  let members := snd entry in
  let len := Z.of_nat (length members) in
  if (len <=? 1)%Z then Ok acc
  else
    let sorted := sortSeats (map (seatOf v chromosome) members) in
    cohesionPoints ← cohesionLoop 0 sorted;
    let maxPossible := ((len - 1) * 2)%Z in
    Ok (fst acc + nmin (ofZ (len * 10))
                       (ofZ cohesionPoints / nmax (ofZ 1) (ofZ maxPossible) * ofZ len * ofZ 10),
        snd acc + ofZ (len * 10)).

Definition normalize (score maxScore : T) : T :=
  if maxScore >? ofZ 0 then score / maxScore else ofZ 1.

Definition rawScores (this : Optimizer T) (chromosome : Chromosome) : Outcome RawScores :=
  v ← theVenue this;
  friend ← foldlM (friendshipBody v chromosome) (ofZ 0, ofZ 0) (friendships this);
  people ← foldlM (attendeeBody v chromosome) attendeeAcc0 (enumerate (attendees this));
  group ← foldlM (groupBody v chromosome) (ofZ 0, ofZ 0) (groups this);
  Ok {| rs_friend := friend; rs_people := people; rs_group := group |}.

Definition calculateFitness (this : Optimizer T) (chromosome : Chromosome) : Outcome (Fitness T) :=
  s ← rawScores this chromosome;
  let normFriend := normalize (fst (rs_friend s)) (snd (rs_friend s)) in
  let normVip := normalize (vipPlacementScore (rs_people s)) (maxVipScore (rs_people s)) in
  let normGroup := normalize (fst (rs_group s)) (snd (rs_group s)) in
  let normDistance := normalize (stageDistanceScore (rs_people s)) (maxDistanceScore (rs_people s)) in
  let w := weights (config this) in
  let totalWeight := w_friendProximity w + w_vipPlacement w + w_groupCohesion w + w_stageDistance w in
  Ok {| total := (normFriend * w_friendProximity w + normVip * w_vipPlacement w
                  + normGroup * w_groupCohesion w + normDistance * w_stageDistance w)
                 / totalWeight;
        friendProximity := normFriend;
        vipPlacement := normVip;
        groupCohesion := normGroup;
        stageDistance := normDistance |}.

(** The server's [mutate]: one swap, at the fixed rate. *)
Definition mutate (this : Optimizer T) (a : JsArray) : Rand JsArray :=
  u ← random;
  if ofQ u <? mutationRate (config this) then
    idx1 ← randomIndex (arrLength a);
    idx2 ← randomIndex (arrLength a);
    mret (arrSwap a idx1 idx2)
  else mret a.

(** The server's annealer always takes a random swap as neighbor. *)
Definition simulatedAnnealing (this : Optimizer T) (chromosome : Chromosome) (iterations : Z)
    : Rand (Chromosome * Fitness T) :=
  annealWith (fun current _ => randomSwap current) (calculateFitness this) this
             chromosome iterations.

Definition initializePopulation (this : Optimizer T) : Rand (list Chromosome) :=
  initializePopulationWith (mutate this) this.

(** Children of one pass of the breeding loop: no smart mutation. *)
Definition offspring (fuel : nat) (this : Optimizer T) (population : list Chromosome)
    (fitnessValues : list (Fitness T)) : Rand (Chromosome * Chromosome) :=
  p1 ← tournamentSelect this population fitnessValues;
  p2 ← tournamentSelect this population fitnessValues;
  children ← crossover fuel this p1 p2;
  m1 ← mutate this (fresh (fst children));
  m2 ← mutate this (fresh (snd children));
  mret (elems m1, elems m2).

(** [for (let gen = 0; gen < totalGenerations; gen++)] *)
Fixpoint generationLoop (fuel : nat) (n : nat) (gen : Z) (this : Optimizer T)
    (population : list Chromosome) (fitnessValues : list (Fitness T)) (s : list Q)
    : Optimizer T * Outcome (list Q) :=
  match n with
  | O => (this, Ok s)
  | S n' =>
      match generationWith (offspring fuel) calculateFitness this gen population fitnessValues s with
      | (this', Ok (bred, values, s')) => generationLoop fuel n' (gen + 1) this' bred values s'
      | (this', Throw e) => (this', Throw e)
      | (this', Diverge) => (this', Diverge)
      end
  end.

Definition optimize (fuel : nat) (this : Optimizer T) (s : list Q)
    : Optimizer T * Outcome OptimizeResult :=
  if entryGuard this then (this, Throw (ConfigError "Venue and attendees must be set"))
  else
    let this1 := withRun this true [] in
    match firstBestWith initializePopulation calculateFitness this1 s with
    | Throw e => (this1, Throw e)
    | Diverge => (this1, Diverge)
    | Ok (population, fitnessValues, c, f, s1) =>
        let this2 := withBest this1 c f in
        match generationLoop fuel (Z.to_nat (totalGenerations this2)) 0 this2
                             population fitnessValues s1 with
        | (this3, Throw e) => (this3, Throw e)
        | (this3, Diverge) => (this3, Diverge)
        | (this3, Ok s2) =>
            match polishWith simulatedAnnealing this3 s2 with
            | (this4, Throw e) => (this4, Throw e)
            | (this4, Diverge) => (this4, Diverge)
            | (this4, Ok _) => (this4, Ok (resultOf this4))
            end
        end
    end.

End ServerOptimizer.
End Server.

(** ** Decoding a solution *)

(** A JavaScript string as its UTF-16 code units. *)
Abbreviation JsString := (list Z).

(** [String.fromCharCode(n)] *)
Definition fromCharCode (n : Z) : JsString := [n mod 65536].

Fixpoint digitsOf (d : Decimal.uint) : JsString :=
  match d with
  | Decimal.Nil => []
  | Decimal.D0 d' => 48 :: digitsOf d'
  | Decimal.D1 d' => 49 :: digitsOf d'
  | Decimal.D2 d' => 50 :: digitsOf d'
  | Decimal.D3 d' => 51 :: digitsOf d'
  | Decimal.D4 d' => 52 :: digitsOf d'
  | Decimal.D5 d' => 53 :: digitsOf d'
  | Decimal.D6 d' => 54 :: digitsOf d'
  | Decimal.D7 d' => 55 :: digitsOf d'
  | Decimal.D8 d' => 56 :: digitsOf d'
  | Decimal.D9 d' => 57 :: digitsOf d'
  end.

(** The string of an integer in a template literal. *)
Definition numberToString (z : Z) : JsString :=
  match Z.to_int z with
  | Decimal.Pos d => digitsOf d
  | Decimal.Neg d => 45 :: digitsOf d
  end.

Section Decoding.
Context {T : Type} `{AT : Arith T}.

Record PlanSeat : Type := {
  ps_row : Z;
  ps_col : Z;
  ps_rowLabel : JsString;
  ps_seatNumber : Z;
  ps_isVip : bool;
  ps_seatId : JsString
}.

Record PlanEntry : Type := {
  pe_attendee : Attendee T;
  pe_seat : PlanSeat
}.

Definition planSeat (seat : Seat T) : PlanSeat := {|
  ps_row := row seat;
  ps_col := col seat;
  ps_rowLabel := fromCharCode (65 + row seat);
  ps_seatNumber := col seat + 1;
  ps_isVip := isVip seat;
  ps_seatId := fromCharCode (65 + row seat) ++ numberToString (col seat + 1)
|}.

(** [getSeatingPlan(solution = null)]: [None] is the [null] returned when
    there is no chromosome. *)
Definition getSeatingPlan (this : Optimizer T) (solution : option Chromosome)
    : Outcome (option (list PlanEntry)) :=
  let chosen := match solution with Some c => Some c | None => bestSolution this end in
  match chosen with
  | None => Ok None
  | Some chromosome =>
      plan ← mapM (fun entry : nat * Attendee T =>
                     v ← theVenue this;
                     seat ← theSeat (seatOf v chromosome (fst entry));
                     Ok {| pe_attendee := snd entry; pe_seat := planSeat seat |})
                  (enumerate (attendees this));
      Ok (Some plan)
  end.

End Decoding.

(** ** Concrete inputs *)

Section Inputs.
Context {T : Type} `{AT : Arith T}.

(** A constructor call without arguments: every key is missing. *)
Definition noConfig : RawConfig T := {|
  rc_populationSize := None; rc_generations := None; rc_mutationRate := None;
  rc_crossoverRate := None; rc_elitismCount := None; rc_tournamentSize := None;
  rc_initialTemp := None; rc_coolingRate := None; rc_minTemp := None; rc_mode := None;
  rc_friendWeight := None; rc_vipWeight := None; rc_groupWeight := None;
  rc_distanceWeight := None
|}.

Definition person (type : string) (group : option string) (priority : Z) : RawAttendee T := {|
  ra_id := None; ra_type := type; ra_group := group; ra_preference := "any";
  ra_priority := Some (ofZ priority)
|}.

(** Scenario S1: venue 4x4 with one VIP row, five regular attendees of
    priority 5, no groups. *)
Definition fiveRegulars : Optimizer T :=
  setAttendees (setVenue (constructor noConfig) 4 4 1)
    (replicate 5 (person "regular" None 5)).

(** Venue 3x3 with one VIP row; a VIP and a regular attendee in group "a",
    and two attendees of group "b". *)
Definition twoGroups : Optimizer T :=
  setAttendees (setVenue (constructor noConfig) 3 3 1)
    [person "vip" (Some "a") 10; person "regular" (Some "a") 5;
     person "regular" (Some "b") 5; person "regular" (Some "b") 5].

End Inputs.

(** ** Valid assignments *)

(** An assignment of [N] attendees on [rows] x [cols] seats: [N] seat
    positions, pairwise distinct, each in [0, rows * cols). *)
Definition validAssignment (rows cols : Z) (N : nat) (A : Chromosome) : Prop :=
  exists l : list Z,
    A = map Some l /\ length l = N /\ NoDup l
    /\ Forall (fun p => 0 <= p < rows * cols) l.

(** The same test, as the program could run it. *)
Definition isValidAssignment (rows cols : Z) (N : nat) (A : Chromosome) : bool :=
  (length A =? N)%nat
  && forallb (fun g => match g with
                       | Some p => (0 <=? p) && (p <? rows * cols)
                       | None => false
                       end) A
  && bool_decide (NoDup A).

Section MoreInputs.
Context {T : Type} `{AT : Arith T}.

(** [new SeatOptimizer({ populationSize: 1 })] *)
Definition populationOfOne : RawConfig T := {|
  rc_populationSize := Some 1; rc_generations := None; rc_mutationRate := None;
  rc_crossoverRate := None; rc_elitismCount := None; rc_tournamentSize := None;
  rc_initialTemp := None; rc_coolingRate := None; rc_minTemp := None; rc_mode := None;
  rc_friendWeight := None; rc_vipWeight := None; rc_groupWeight := None;
  rc_distanceWeight := None
|}.

(** Two attendees for the single seat of a 1x1 venue. *)
Definition overfull : Optimizer T :=
  setAttendees (setVenue (constructor populationOfOne) 1 1 1)
    [person "regular" None 5; person "regular" None 5].

(** The same, on the server class. *)
Definition overfullServer : Optimizer T :=
  setAttendees (setVenue (Server.constructor populationOfOne) 1 1 1)
    [person "regular" None 5; person "regular" None 5].

(** A caller that passes no progress callback and never calls [stop()]. *)
Definition quietEnv : Env := {| progressCallback := None; duringYield := fun _ => false |}.

End MoreInputs.

Section PartyInput.
Context {T : Type} `{AT : Arith T}.

(** Venue 3x3 with one VIP row; a VIP and a regular attendee who are
    friends (group "a"), a regular attendee and a second VIP. *)
Definition mixedParty : Optimizer T :=
  setAttendees (setVenue (constructor noConfig) 3 3 1)
    [person "vip" (Some "a") 5; person "regular" (Some "a") 5;
     person "regular" None 5; person "vip" None 5].

End PartyInput.

(** ** Well-formed optimizer objects *)

Section WellFormed.
Context {T : Type} `{AT : Arith T}.

(** What [setVenue] and [setAttendees] establish and no method breaks:
    the seat table of a [rows] x [cols] venue, [N] attendees, and group and
    friendship maps that mention attendee indices only. *)
Definition wellFormed (this : Optimizer T) (rows cols vipRows : Z) (N : nat) : Prop :=
  venue this = Some (makeVenue rows cols vipRows)
  /\ 0 <= rows /\ 0 <= cols
  /\ length (attendees this) = N
  /\ (forall g i, In g (groups this) -> In i (snd g) -> (i < N)%nat)
  /\ (forall e, In e (friendships this) ->
        (fst e < N)%nat /\ forall i, In i (snd e) -> (i < N)%nat).

(** Valid, or there is nobody to seat. *)
Definition seatable (rows cols : Z) (N : nat) (A : Chromosome) : Prop :=
  N = 0%nat \/ validAssignment rows cols N A.

(** Exchange of two indices. *)
Definition transpose (i j k : nat) : nat :=
  if Nat.eqb k i then j else if Nat.eqb k j then i else k.

End WellFormed.

(** ** Totals that only climb *)

Section Climb.
Context {T : Type} `{AT : Arith T}.

(** [b] is the number [a] itself, or [b > a] holds: what [best] can hold
    after steps [if (x > best) best = x] that started from [a]. *)
Definition climbsTo (a b : T) : Prop := b = a \/ ngt b a = true.

(** Every entry is the entry before it, or compares larger. *)
Definition climbing (l : list T) : Prop :=
  forall (k : nat) (x y : T), l !! k = Some x -> l !! S k = Some y -> climbsTo x y.

(** The history climbs, and the current best is reached from every entry. *)
Definition historyClimbs (this : Optimizer T) : Prop :=
  climbing (fitnessHistory this)
  /\ forall x, In x (fitnessHistory this) -> climbsTo x (bestTotal (bestFitness this)).

End Climb.

(** ** A short run *)

Section ShortRun.
Context {T : Type} `{AT : Arith T}.

(** [new SeatOptimizer({ populationSize: 2, generations: 2, elitismCount: 2 })] *)
Definition twoElites : RawConfig T := {|
  rc_populationSize := Some 2; rc_generations := Some 2; rc_mutationRate := None;
  rc_crossoverRate := None; rc_elitismCount := Some 2; rc_tournamentSize := None;
  rc_initialTemp := None; rc_coolingRate := None; rc_minTemp := None; rc_mode := None;
  rc_friendWeight := None; rc_vipWeight := None; rc_groupWeight := None;
  rc_distanceWeight := None
|}.

(** Venue 2x2 with one VIP row and three regular attendees, for a run of
    two generations on a population of two. *)
Definition shortRun : Optimizer T :=
  setAttendees (setVenue (constructor twoElites) 2 2 1)
    (replicate 3 (person "regular" None 5)).

(** The same, on the server class. *)
Definition shortRunServer : Optimizer T :=
  setAttendees (setVenue (Server.constructor twoElites) 2 2 1)
    (replicate 3 (person "regular" None 5)).

End ShortRun.

Section SmallInput.
Context {T : Type} `{AT : Arith T}.

(** Venue 2x2 with one VIP row and three regular attendees. *)
Definition threeGuests : Optimizer T :=
  setAttendees (setVenue (constructor noConfig) 2 2 1)
    (replicate 3 (person "regular" None 5)).

End SmallInput.

(** ** Outcomes that are a result or a [TypeError] *)

(** No other exception and no endless loop. *)
Definition returnsOrTypeError {A : Type} (o : Outcome A) : Prop :=
  match o with
  | Ok _ => True
  | Throw e => e = TypeError
  | Diverge => False
  end.

(** [chromosome[i]] is a seat position of the venue. *)
Definition geneInRange (rows cols : Z) (A : Chromosome) (i : nat) : Prop :=
  exists p : Z, geneAt A i = Some p /\ 0 <= p < rows * cols.

(** ** Cancellation *)

(** Whether [stop()] is called during generation [gen]: by the progress
    callback, or while [optimize] is suspended at the yield that follows
    every fifth generation. *)
Definition stopsAt (env : Env) (gen : Z) : bool :=
  match progressCallback env with
  | Some cb => cb gen
  | None => false
  end
  || ((gen mod 5 =? 0) && duringYield env gen).

(** The number of generations that run, out of [n] starting at [gen],
    before a [stop()] ends the loop. *)
Fixpoint generationsRun (env : Env) (n : nat) (gen : Z) : nat :=
  match n with
  | O => O
  | S n' => S (if stopsAt env gen then O else generationsRun env n' (gen + 1))
  end.

(** Whether a [stop()] ends the loop within [n] generations from [gen]. *)
Fixpoint stoppedWithin (env : Env) (n : nat) (gen : Z) : bool :=
  match n with
  | O => false
  | S n' => stopsAt env gen || stoppedWithin env n' (gen + 1)
  end.

(** ** Consistent annealing states *)

(** The state of the annealing loop pairs each of its two assignments with
    the fitness computed for it, and both satisfy [P]. *)
Definition saConsistent {T : Type} `{AT : Arith T}
    (fitnessFn : Chromosome -> Outcome (Fitness T)) (P : Chromosome -> Prop)
    (st : SAState) : Prop :=
  P (sa_current st) /\ P (sa_best st)
  /\ fitnessFn (sa_current st) = Ok (sa_currentFitness st)
  /\ fitnessFn (sa_best st) = Ok (sa_bestFitness st).

(** ** The state of the greedy assignment *)

(** The state of the loop of [generateGreedySolution] after the attendees
    [processed] have been given a seat, in that order: their seats are the
    entries of [usedSeats], pairwise distinct positions of the venue, and
    every other attendee still has the placeholder -1. *)
Definition greedyState (rows cols : Z) (N : nat) (processed : list nat)
    (st : Chromosome * list Z) : Prop :=
  length (fst st) = N
  /\ NoDup processed
  /\ Forall (fun i => (i < N)%nat) processed
  /\ Forall2 (fun i p => fst st !! i = Some (Some p)) processed (snd st)
  /\ (forall i, (i < N)%nat -> ~ In i processed -> fst st !! i = Some (Some (-1)))
  /\ NoDup (snd st)
  /\ Forall (fun p => 0 <= p < rows * cols) (snd st).

(** ** The state of the crossover fill *)

(** A gene that is a seat position of the venue. *)
Definition isSeatOf (rows cols : Z) (g : option Z) : Prop :=
  exists p : Z, g = Some p /\ 0 <= p < rows * cols.

(** The state of the loop of [fillCrossoverChild] on a child of [N] genes
    after [f] of the [h] placeholders have been replaced: the placeholders
    left are at the [h - f] positions that follow [base + f] cyclically,
    and [usedSeats] holds the other genes of the child, which are pairwise
    distinct seat positions. *)
Definition fillState (rows cols : Z) (N h base f : nat) (child : Chromosome)
    (usedSeats : list (option Z)) (childIdx : nat) : Prop :=
  length child = N
  /\ (length usedSeats + h = N + f)%nat
  /\ (f <= h)%nat /\ (h <= N)%nat
  /\ childIdx = ((base + f) mod N)%nat
  /\ (forall j, (f <= j < h)%nat -> child !! ((base + j) mod N)%nat = Some (Some (-1)))
  /\ NoDup usedSeats
  /\ Forall (isSeatOf rows cols) usedSeats
  /\ usedSeats ≡ₚ filter (fun s => s <> Some (-1)) child.

(** ** The problem an optimizer object holds *)

(** Two optimizer objects hold the same problem: the same configuration,
    venue, attendees, groups and friendships.  The run of [optimize]
    changes the other fields only. *)
Definition sameProblem {T : Type} `{AT : Arith T} (this this' : Optimizer T) : Prop :=
  config this' = config this /\ venue this' = venue this
  /\ attendees this' = attendees this /\ groups this' = groups this
  /\ friendships this' = friendships this.

(** The weights are non-negative and not all zero, and no priority is
    negative. *)
Definition scoring (this : Optimizer R) : Prop :=
  (0 <= w_friendProximity (weights (config this)))%R
  /\ (0 <= w_vipPlacement (weights (config this)))%R
  /\ (0 <= w_groupCohesion (weights (config this)))%R
  /\ (0 <= w_stageDistance (weights (config this)))%R
  /\ (0 < totalWeight (weights (config this)))%R
  /\ forall a, In a (attendees this) -> (0 <= a_priority a)%R.

(** The best solution is a valid assignment, recorded with its fitness. *)
Definition bestRecorded {T : Type} `{AT : Arith T}
    (fitnessFn : Chromosome -> Outcome (Fitness T))
    (rows cols : Z) (N : nat) (this : Optimizer T) : Prop :=
  exists c f, bestSolution this = Some c /\ bestFitness this = Best f
              /\ validAssignment rows cols N c /\ fitnessFn c = Ok f.

(** A population of [populationSize] valid assignments with their fitness
    records. *)
Definition populationReady {T : Type} `{AT : Arith T}
    (fitnessFn : Chromosome -> Outcome (Fitness T))
    (rows cols : Z) (N : nat) (this : Optimizer T)
    (population : list Chromosome) (fitnessValues : list (Fitness T)) : Prop :=
  Z.of_nat (length population) = populationSize (config this)
  /\ Forall (validAssignment rows cols N) population
  /\ Forall2 (fun c f => fitnessFn c = Ok f) population fitnessValues.

(** ** An input with six attendees *)

Section SixGuests.
Context {T : Type} `{AT : Arith T}.

(** Venue 3x3 with one VIP row and six regular attendees of priority 5,
    on an optimizer with the default configuration. *)
Definition sixGuests : Optimizer T :=
  setAttendees (setVenue (constructor noConfig) 3 3 1)
    (replicate 6 (person "regular" None 5)).

(** The same, on the server class. *)
Definition sixGuestsServer : Optimizer T :=
  setAttendees (setVenue (Server.constructor noConfig) 3 3 1)
    (replicate 6 (person "regular" None 5)).

End SixGuests.

(** ** Plans that seat everyone *)

(** A plan for [N] attendees on a [rows] x [cols] venue: one entry for
    each attendee, every seat inside the venue, and no seat given twice. *)
Definition seatsEveryone {T : Type} `{AT : Arith T} (rows cols : Z) (N : nat)
    (plan : list (PlanEntry (T := T))) : Prop :=
  length plan = N
  /\ (forall i entry, plan !! i = Some entry ->
        0 <= ps_row (pe_seat entry) < rows /\ 0 <= ps_col (pe_seat entry) < cols)
  /\ (forall i j ei ej, plan !! i = Some ei -> plan !! j = Some ej ->
        ps_row (pe_seat ei) = ps_row (pe_seat ej) ->
        ps_col (pe_seat ei) = ps_col (pe_seat ej) -> i = j).

(** ** A caller that cancels *)

(** A caller whose progress callback calls [stop()] in generation 3. *)
Definition stopsInGeneration3 : Env :=
  {| progressCallback := Some (fun gen => gen =? 3); duringYield := fun _ => false |}.

(** ** Pairs of seats *)

Section PairPoints.
Context {T : Type} `{AT : Arith T}.

(** The adjacency points of two seats. *)
Definition pairPoints (a b : Seat T) : Z :=
  adjacencyPoints (Z.abs (row a - row b) + Z.abs (col a - col b)).

(** The adjacency points of all pairs of seats of a list. *)
Fixpoint pairSum (l : list (Seat T)) : Z :=
  match l with
  | [] => 0
  | a :: rest => fold_right (fun b acc => pairPoints a b + acc) 0 rest + pairSum rest
  end.

End PairPoints.

(** ** Populations in order of fitness *)

(** No chromosome of the list has a larger total than one before it. *)
Definition bestFirst (l : list (Chromosome * Fitness R)) : Prop :=
  StronglySorted (fun a b => (total (snd b) <= total (snd a))%R) l.

(** * Properties *)

(** ** General lemmas on outcomes *)

Lemma bind_Ok_inv {A B : Type} (m : Outcome A) (f : A -> Outcome B) (b : B) :
  (m ≫= f) = Ok b -> exists a, m = Ok a /\ f a = Ok b.
Proof.
  destruct m as [a | e |]; simpl; intros Hb; try discriminate.
  exists a. split; [reflexivity | exact Hb].
Qed.

Lemma bind_Ok {A B : Type} (m : Outcome A) (f : A -> Outcome B) (a : A) :
  m = Ok a -> (m ≫= f) = f a.
Proof. intros ->. reflexivity. Qed.

Ltac inv_bind H :=
  let a := fresh "x" in
  let Ha := fresh "Hx" in
  apply bind_Ok_inv in H; destruct H as (a & Ha & H).

(** An invariant of the accumulator survives a loop that returns. *)
Lemma foldlM_invariant {A B : Type} (P : B -> Prop) (f : B -> A -> Outcome B) (l : list A) :
  (forall b a b', In a l -> P b -> f b a = Ok b' -> P b') ->
  forall b b', P b -> foldlM f b l = Ok b' -> P b'.
Proof.
  induction l as [| a l IH]; intros Hstep b b' Hb Hrun; simpl in Hrun.
  - injection Hrun as <-. exact Hb.
  - inv_bind Hrun.
    apply (IH (fun b0 a0 b1 Hin => Hstep b0 a0 b1 (or_intror Hin)) x b'); [| exact Hrun].
    apply (Hstep b a x); [left; reflexivity | exact Hb | exact Hx].
Qed.

(** A loop whose body always returns, returns. *)
Lemma foldlM_total {A B : Type} (P : B -> Prop) (f : B -> A -> Outcome B) (l : list A) :
  (forall b a, In a l -> P b -> exists b', f b a = Ok b' /\ P b') ->
  forall b, P b -> exists b', foldlM f b l = Ok b' /\ P b'.
Proof.
  induction l as [| a l IH]; intros Hstep b Hb; simpl.
  - exists b. split; [reflexivity | exact Hb].
  - destruct (Hstep b a (or_introl eq_refl) Hb) as (b1 & Hf & Hb1).
    rewrite Hf. simpl.
    apply IH; [| exact Hb1].
    intros b0 a0 Hin. apply Hstep. right. exact Hin.
Qed.

(** ** C9: the two fitness functions agree *)

Section Agreement.
Context {T : Type} `{AT : Arith T}.

(** C9.  The server-side and the browser-side [calculateFitness] are the
    same function: on every optimizer object (venue, attendees, groups,
    friendships, weights) and every chromosome they give the same outcome,
    and the same holds for two objects that the two classes build from
    the same constructor argument, venue and attendee list. *)
Theorem calculateFitness_server_browser :
  (forall (this : Optimizer T) (chromosome : Chromosome),
      Server.calculateFitness this chromosome = calculateFitness this chromosome)
  /\ (forall (rc : RawConfig T) (rows cols vipRows : Z) (l : list (RawAttendee T))
             (chromosome : Chromosome),
      Server.calculateFitness
        (setAttendees (setVenue (Server.constructor rc) rows cols vipRows) l) chromosome
      = calculateFitness
          (setAttendees (setVenue (constructor rc) rows cols vipRows) l) chromosome).
Proof.
  split.
  - intros this chromosome. reflexivity.
  - intros rc rows cols vipRows l chromosome. reflexivity.
Qed.

End Agreement.

(** ** C7: sub-scores without a denominator are neutral *)

Lemma In_enumerate {A : Type} (l : list A) (i : nat) (a : A) :
  In (i, a) (enumerate l) -> l !! i = Some a.
Proof.
  unfold enumerate. intros Hin. apply list_elem_of_In in Hin.
  apply elem_of_lookup_imap in Hin. destruct Hin as (j & y & Heq & Hy).
  injection Heq as -> ->. exact Hy.
Qed.

Lemma In_enumerate_In {A : Type} (l : list A) (e : nat * A) :
  In e (enumerate l) -> In (snd e) l.
Proof.
  destruct e as [i a]. intros Hin. apply In_enumerate in Hin.
  apply list_elem_of_In. eapply list_elem_of_lookup_2. exact Hin.
Qed.

Section NeutralScores.
Context {T : Type} `{AT : Arith T}.
Local Open Scope num_scope.

(** The one fact about the arithmetic that the normalization relies on:
    [0 > 0] is false. *)
Hypothesis zero_not_positive : (ofZ 0 >? ofZ 0) = false.

Lemma normalize_zero_max (score : T) : normalize score (ofZ 0) = ofZ 1.
Proof using zero_not_positive. unfold normalize. rewrite zero_not_positive. reflexivity. Qed.

(** No friendship pair: the friend loop adds nothing to the maximum. *)
Lemma friend_loop_no_pairs (v : Venue T) (c : Chromosome) (fs : list (nat * list nat)) (acc acc' : T * T) :
  (forall e, In e fs -> snd e = []) ->
  foldlM (friendshipBody v c) acc fs = Ok acc' -> acc' = acc.
Proof.
  intros Hnone Hrun.
  apply (foldlM_invariant (fun a => a = acc) (friendshipBody v c) fs) with (b := acc) (b' := acc');
    [| reflexivity | exact Hrun].
  intros b e b' Hin -> Hbody. unfold friendshipBody in Hbody.
  rewrite (Hnone e Hin) in Hbody. simpl in Hbody. injection Hbody as <-. reflexivity.
Qed.

(** No VIP attendee: the attendee loop leaves [maxVipScore] alone. *)
Lemma people_loop_no_vip (v : Venue T) (c : Chromosome) (l : list (nat * Attendee T))
    (acc acc' : AttendeeAcc) :
  (forall e, In e l -> isVipType (snd e) = false) ->
  foldlM (attendeeBody v c) acc l = Ok acc' -> maxVipScore acc' = maxVipScore acc.
Proof.
  intros Hnone Hrun.
  apply (foldlM_invariant (fun a => maxVipScore a = maxVipScore acc) (attendeeBody v c) l)
    with (b := acc) (b' := acc'); [| reflexivity | exact Hrun].
  intros b e b' Hin Hb Hbody. unfold attendeeBody in Hbody.
  inv_bind Hbody. rewrite (Hnone e Hin) in Hbody.
  injection Hbody as <-. simpl. exact Hb.
Qed.

(** No group of two or more: the group loop adds nothing. *)
Lemma group_loop_no_groups (v : Venue T) (c : Chromosome) (gs : list (string * list nat))
    (acc acc' : T * T) :
  (forall g, In g gs -> (length (snd g) <= 1)%nat) ->
  foldlM (groupBody v c) acc gs = Ok acc' -> acc' = acc.
Proof.
  intros Hnone Hrun.
  apply (foldlM_invariant (fun a => a = acc) (groupBody v c) gs) with (b := acc) (b' := acc');
    [| reflexivity | exact Hrun].
  intros b g b' Hin -> Hbody. unfold groupBody in Hbody.
  specialize (Hnone g Hin).
  destruct (Z.leb_spec (Z.of_nat (length (snd g))) 1) as [_ | Hgt]; [| lia].
  injection Hbody as <-. reflexivity.
Qed.

(** C7.  Whenever [calculateFitness] returns a record, a sub-score whose
    accumulated maximum is zero is exactly 1; and the maximum is zero when
    there is no friendship pair, no VIP attendee, or no group with at
    least two members. *)
Theorem zero_maximum_gives_neutral_score (this : Optimizer T) (chromosome : Chromosome)
    (f : Fitness T) :
  calculateFitness this chromosome = Ok f ->
  exists s : RawScores,
    rawScores this chromosome = Ok s
    /\ f = fitnessOfScores (weights (config this)) s
    /\ (snd (rs_friend s) = ofZ 0 -> friendProximity f = ofZ 1)
    /\ (maxVipScore (rs_people s) = ofZ 0 -> vipPlacement f = ofZ 1)
    /\ (snd (rs_group s) = ofZ 0 -> groupCohesion f = ofZ 1)
    /\ ((forall e, In e (friendships this) -> snd e = []) -> friendProximity f = ofZ 1)
    /\ ((forall a, In a (attendees this) -> isVipType a = false) -> vipPlacement f = ofZ 1)
    /\ ((forall g, In g (groups this) -> (length (snd g) <= 1)%nat) -> groupCohesion f = ofZ 1).
Proof using zero_not_positive.
  intros Hfit. unfold calculateFitness in Hfit. inv_bind Hfit.
  injection Hfit as <-. exists x. split; [exact Hx |]. split; [reflexivity |].
  unfold rawScores in Hx.
  inv_bind Hx. rename x0 into v.
  inv_bind Hx. rename x0 into friend. rename Hx1 into Hfriend.
  inv_bind Hx. rename x0 into people. rename Hx1 into Hpeople.
  inv_bind Hx. rename x0 into group. rename Hx1 into Hgroup.
  injection Hx as <-. simpl.
  assert (Hf0 : snd friend = ofZ 0 -> normalize (fst friend) (snd friend) = ofZ 1)
    by (intros ->; apply normalize_zero_max).
  assert (Hv0 : maxVipScore people = ofZ 0 ->
                normalize (vipPlacementScore people) (maxVipScore people) = ofZ 1)
    by (intros ->; apply normalize_zero_max).
  assert (Hg0 : snd group = ofZ 0 -> normalize (fst group) (snd group) = ofZ 1)
    by (intros ->; apply normalize_zero_max).
  repeat split; try assumption.
  - intros Hnone. apply Hf0.
    rewrite (friend_loop_no_pairs v chromosome _ _ _ Hnone Hfriend). reflexivity.
  - intros Hnone. apply Hv0.
    rewrite (people_loop_no_vip v chromosome _ _ _
               (fun e Hin => Hnone (snd e) (In_enumerate_In _ e Hin)) Hpeople).
    reflexivity.
  - intros Hnone. apply Hg0.
    rewrite (group_loop_no_groups v chromosome _ _ _ Hnone Hgroup). reflexivity.
Qed.

End NeutralScores.

(** The zero test of the normalization, in both arithmetics. *)
Lemma real_zero_not_positive : (@ofZ R _ 0 >? ofZ 0)%num = false.
Proof.
  unfold ngt; simpl. destruct (Rlt_dec 0 0) as [H | H]; [| reflexivity].
  exfalso. apply (Rlt_irrefl 0). exact H.
Qed.

Lemma float_zero_not_positive : (@ofZ PrimFloat.float _ 0 >? ofZ 0)%num = false.
Proof. reflexivity. Qed.

Lemma zero_maximum_witness :
  exists f : Fitness PrimFloat.float,
    calculateFitness fiveRegulars [Some 0; Some 1; Some 2; Some 3; Some 4] = Ok f
    /\ friendProximity f = ofZ 1 /\ vipPlacement f = ofZ 1 /\ groupCohesion f = ofZ 1.
Proof.
  eexists. split; [vm_compute; reflexivity |].
  destruct (zero_maximum_gives_neutral_score float_zero_not_positive fiveRegulars
              [Some 0; Some 1; Some 2; Some 3; Some 4] _ eq_refl)
    as (s & _ & _ & _ & _ & _ & Hfriend & Hvip & Hgroup).
  split; [| split].
  - apply Hfriend. intros e He. vm_compute in He. destruct He.
  - apply Hvip. intros a Ha. vm_compute in Ha.
    repeat (destruct Ha as [<- | Ha]; [reflexivity |]). destruct Ha.
  - apply Hgroup. intros g Hg. vm_compute in Hg. destruct Hg.
Defined.

(** ** C5: all four weights zero *)

Section ZeroWeights.
Local Open Scope num_scope.

Lemma div_by_nan (x : PrimFloat.float) :
  PrimFloat.is_nan (PrimFloat.div x PrimFloat.nan) = true.
Proof.
  unfold PrimFloat.is_nan. rewrite FloatAxioms.eqb_spec, FloatAxioms.div_spec.
  replace (FloatOps.Prim2SF PrimFloat.nan) with SpecFloat.S754_nan by reflexivity.
  unfold FloatAxioms.SF64div, SpecFloat.SFdiv.
  destruct (FloatOps.Prim2SF x); reflexivity.
Qed.

(** The weights that [updateWeights(0, 0, 0, 0)] stores: four times 0/0. *)
Lemma zero_weights_stored (this : Optimizer PrimFloat.float) :
  updateWeights this (ofZ 0) (ofZ 0) (ofZ 0) (ofZ 0)
  = Ok (withWeights this {| w_friendProximity := PrimFloat.nan; w_vipPlacement := PrimFloat.nan;
                            w_groupCohesion := PrimFloat.nan; w_stageDistance := PrimFloat.nan |}).
Proof. reflexivity. Qed.

(** In binary64, on the venue with two groups: with all four weights zero
    neither [updateWeights] nor the fitness call that follows raises, and
    the record that comes back has a NaN total. *)
Lemma zero_weights_raise_nothing :
  exists (this' : Optimizer PrimFloat.float) (f : Fitness PrimFloat.float),
    updateWeights twoGroups (ofZ 0) (ofZ 0) (ofZ 0) (ofZ 0) = Ok this'
    /\ calculateFitness this' [Some 0; Some 1; Some 2; Some 3] = Ok f
    /\ PrimFloat.is_nan (total f) = true.
Proof.
  eexists. eexists. split; [reflexivity |]. split; vm_compute; reflexivity.
Qed.

(** C5, amended.  In binary64, when all four weights are zero,
    [updateWeights] raises nothing and stores four NaN weights; after it,
    [calculateFitness] raises exactly when it did before (so never because
    of the weights), and every record it returns has a NaN total. *)
Theorem zero_weights_give_nan_total (this : Optimizer PrimFloat.float) (chromosome : Chromosome) :
  exists this' : Optimizer PrimFloat.float,
    updateWeights this (ofZ 0) (ofZ 0) (ofZ 0) (ofZ 0) = Ok this'
    /\ PrimFloat.is_nan (w_friendProximity (weights (config this'))) = true
    /\ PrimFloat.is_nan (w_vipPlacement (weights (config this'))) = true
    /\ PrimFloat.is_nan (w_groupCohesion (weights (config this'))) = true
    /\ PrimFloat.is_nan (w_stageDistance (weights (config this'))) = true
    /\ (forall e, calculateFitness this' chromosome = Throw e <->
                  calculateFitness this chromosome = Throw e)
    /\ (forall f, calculateFitness this' chromosome = Ok f ->
                  PrimFloat.is_nan (total f) = true).
Proof.
  eexists. split; [apply zero_weights_stored |].
  repeat (split; [reflexivity |]).
  split.
  - intros e. unfold calculateFitness.
    change (rawScores (withWeights this _) chromosome) with (rawScores this chromosome).
    destruct (rawScores this chromosome); simpl; split; intros H; congruence.
  - intros f Hf. unfold calculateFitness in Hf. inv_bind Hf. injection Hf as <-.
    exact (div_by_nan _).
Qed.

Lemma zero_weights_witness :
  exists (this' : Optimizer PrimFloat.float) (f : Fitness PrimFloat.float),
    updateWeights fiveRegulars (ofZ 0) (ofZ 0) (ofZ 0) (ofZ 0) = Ok this'
    /\ calculateFitness this' [Some 0; Some 1; Some 2; Some 3; Some 4] = Ok f
    /\ PrimFloat.is_nan (total f) = true.
Proof.
  destruct (zero_weights_give_nan_total fiveRegulars [Some 0; Some 1; Some 2; Some 3; Some 4])
    as (this' & Hup & _ & _ & _ & _ & _ & Hnan).
  exists this'.
  rewrite zero_weights_stored in Hup. injection Hup as <-.
  eexists. split; [reflexivity |].
  split; [vm_compute; reflexivity |].
  apply Hnan. vm_compute. reflexivity.
Defined.

End ZeroWeights.

(** ** Valid assignments, as a test *)

Lemma map_fmap {A B : Type} (f : A -> B) (l : list A) : map f l = f <$> l.
Proof. induction l as [| a l IH]; simpl; [reflexivity | rewrite IH; reflexivity]. Qed.

Lemma isValidAssignment_sound (rows cols : Z) (N : nat) (A : Chromosome) :
  isValidAssignment rows cols N A = true -> validAssignment rows cols N A.
Proof.
  unfold isValidAssignment. intros H.
  apply andb_true_iff in H. destruct H as [H Hnodup].
  apply andb_true_iff in H. destruct H as [Hlen Hall].
  apply Nat.eqb_eq in Hlen. apply bool_decide_eq_true in Hnodup.
  assert (Hl : exists l, A = map Some l /\ Forall (fun p => 0 <= p < rows * cols) l).
  { clear Hlen Hnodup. induction A as [| g A IH]; simpl in Hall.
    - exists []. split; [reflexivity | constructor].
    - apply andb_true_iff in Hall. destruct Hall as [Hg Hall].
      destruct (IH Hall) as (l & -> & Hl).
      destruct g as [p |]; [| discriminate].
      apply andb_true_iff in Hg. destruct Hg as [Hlo Hhi].
      exists (p :: l). split; [reflexivity |].
      constructor; [lia | exact Hl]. }
  destruct Hl as (l & -> & Hrange).
  exists l. split; [reflexivity |]. split; [| split; [| exact Hrange]].
  - rewrite length_map in Hlen. exact Hlen.
  - rewrite map_fmap in Hnodup. eapply NoDup_fmap_1. exact Hnodup.
Qed.

(** ** C8: decoding a solution *)

Lemma mapM_Forall2 {A B : Type} (f : A -> Outcome B) (l : list A) (bs : list B) :
  mapM f l = Ok bs <-> Forall2 (fun a b => f a = Ok b) l bs.
Proof.
  revert bs. induction l as [| a l IH]; intros bs; simpl.
  - split.
    + intros H. injection H as <-. constructor.
    + intros H. inversion H. reflexivity.
  - split.
    + intros H. inv_bind H. inv_bind H. injection H as <-.
      constructor; [exact Hx | apply IH; exact Hx0].
    + intros H. inversion H as [| a' b' l' bs' Hab Hrest]; subst.
      rewrite Hab. simpl. apply IH in Hrest. rewrite Hrest. reflexivity.
Qed.

Lemma mapM_total {A B : Type} (f : A -> Outcome B) (l : list A) :
  (forall a, In a l -> exists b, f a = Ok b) -> exists bs, mapM f l = Ok bs.
Proof.
  induction l as [| a l IH]; intros Hall; simpl.
  - exists []. reflexivity.
  - destruct (Hall a (or_introl eq_refl)) as (b & Hb). rewrite Hb. simpl.
    destruct (IH (fun a0 Hin => Hall a0 (or_intror Hin))) as (bs & Hbs).
    rewrite Hbs. simpl. exists (b :: bs). reflexivity.
Qed.

Lemma lookup_map {A B : Type} (f : A -> B) (l : list A) (i : nat) :
  map f l !! i = f <$> (l !! i).
Proof. revert i. induction l as [| a l IH]; intros [| i]; simpl; auto. Qed.

(** Blocks of equal length laid side by side: the entry [j] of block [i]
    is at index [i * k + j]. *)
Lemma flat_map_lookup {A B : Type} (f : A -> list B) (k : nat) (l : list A) :
  (forall a, length (f a) = k) ->
  forall (i j : nat) (a : A),
    l !! i = Some a -> (j < k)%nat -> flat_map f l !! (i * k + j)%nat = f a !! j.
Proof.
  intros Hlen. induction l as [| a0 l IH]; intros i j a Hi Hj.
  - discriminate.
  - simpl. destruct i as [| i].
    + injection Hi as ->. simpl. apply lookup_app_l. rewrite Hlen. exact Hj.
    + simpl in Hi. rewrite lookup_app_r by (rewrite Hlen; lia).
      rewrite Hlen. replace (S i * k + j - k)%nat with (i * k + j)%nat by lia.
      apply IH; assumption.
Qed.

Section Decode.
Context {T : Type} `{AT : Arith T}.

(** The seat stored at position [p = r * cols + c] is the seat of row [r]
    and column [c]. *)
Lemma buildSeats_lookup (rows cols vipRows r c : Z) :
  0 <= r < rows -> 0 <= c < cols ->
  buildSeats (T := T) rows cols vipRows !! Z.to_nat (r * cols + c)
  = Some (makeSeat cols vipRows r c).
Proof.
  intros Hr Hc. unfold buildSeats.
  replace (Z.to_nat (r * cols + c)) with (Z.to_nat r * Z.to_nat cols + Z.to_nat c)%nat by nia.
  rewrite (flat_map_lookup _ (Z.to_nat cols) _) with (a := r).
  - rewrite lookup_map.
    assert (Hc' : seqZ 0 cols !! Z.to_nat c = Some c)
      by (apply lookup_seqZ; split; lia).
    rewrite Hc'. reflexivity.
  - intros a. rewrite length_map, length_seqZ. reflexivity.
  - apply lookup_seqZ. split; lia.
  - lia.
Qed.

Lemma buildSeats_position (rows cols vipRows p : Z) :
  0 <= rows -> 0 <= p < rows * cols ->
  buildSeats (T := T) rows cols vipRows !! Z.to_nat p
  = Some (makeSeat cols vipRows (p / cols) (p mod cols)).
Proof.
  intros Hrows Hp.
  assert (Hcols : 0 < cols) by nia.
  pose proof (Z.div_mod p cols ltac:(lia)) as Hdm.
  pose proof (Z.mod_pos_bound p cols Hcols) as Hmod.
  assert (Hdiv : 0 <= p / cols < rows).
  { split; [apply Z.div_pos; lia |]. apply Z.div_lt_upper_bound; nia. }
  replace p with (p / cols * cols + p mod cols) at 1 by lia.
  apply buildSeats_lookup; assumption.
Qed.

Lemma length_buildSeats (rows cols vipRows : Z) :
  0 <= rows -> 0 <= cols ->
  Z.of_nat (length (buildSeats (T := T) rows cols vipRows)) = rows * cols.
Proof.
  intros Hr Hc. unfold buildSeats.
  rewrite (flat_map_constant_length (c := Z.to_nat cols)).
  - rewrite length_seqZ. nia.
  - intros r _. rewrite length_map, length_seqZ. reflexivity.
Qed.

(** A valid assignment gives every attendee a seat of the venue. *)
Lemma valid_seatOf (this : Optimizer T) (rows cols vipRows : Z) (N : nat) (A : Chromosome) (i : nat) :
  0 <= rows -> validAssignment rows cols N A -> (i < N)%nat ->
  exists p : Z,
    A !! i = Some (Some p) /\ 0 <= p < rows * cols
    /\ seatOf (makeVenue rows cols vipRows) A i
       = Some (makeSeat (T := T) cols vipRows (p / cols) (p mod cols)).
Proof.
  intros Hrows (l & -> & Hlen & _ & Hrange) Hi.
  destruct (lookup_lt_is_Some_2 l i ltac:(lia)) as (p & Hp).
  assert (Hp' : 0 <= p < rows * cols).
  { rewrite Forall_forall in Hrange. apply Hrange.
    eapply list_elem_of_lookup_2. exact Hp. }
  exists p. split; [| split; [exact Hp' |]].
  - rewrite lookup_map, Hp. reflexivity.
  - unfold seatOf, geneAt. rewrite lookup_map, Hp. simpl.
    destruct (Z.ltb_spec p 0) as [Hneg | _]; [lia |].
    apply buildSeats_position; assumption.
Qed.


End Decode.


(** ** C3: fitness scores are in [0, 1] (real arithmetic) *)

Section RealBounds.
Local Open Scope R_scope.

Lemma ngt_real (a b : R) : ngt a b = true <-> b < a.
Proof.
  unfold ngt; simpl. destruct (Rlt_dec b a) as [H | H]; split; intros H'; try assumption;
    try reflexivity; try discriminate. contradiction.
Qed.

Lemma ngt_real_false (a b : R) : ngt a b = false <-> a <= b.
Proof.
  unfold ngt; simpl. destruct (Rlt_dec b a) as [H | H]; split; intros H'; try lra;
    try reflexivity; try discriminate.
Qed.

Lemma friendPoints_bounds (d : Z) : 0 <= friendPoints (T := R) d <= 10.
Proof.
  unfold friendPoints.
  destruct (d =? 1)%Z; [simpl; lra |].
  destruct (d =? 2)%Z; [simpl; lra |].
  destruct (Z.leb_spec d 4) as [_ | Hd]; [simpl; lra |].
  simpl. split; [apply Rmax_l |].
  apply Rmax_lub; [lra |].
  assert (4 <= IZR d) by (apply IZR_le; lia).
  unfold ofQ; simpl. lra.
Qed.

Lemma Rdiv_unit (a b : R) : 0 <= a <= b -> 0 < b -> 0 <= a / b <= 1.
Proof.
  intros [Ha Hab] Hb.
  assert (Hinv : 0 < / b) by (apply Rinv_0_lt_compat; exact Hb).
  unfold Rdiv. split.
  - apply Rmult_le_pos; lra.
  - replace 1 with (b * / b) by (field; lra).
    apply Rmult_le_compat_r; lra.
Qed.

(** Normalization of a score that lies between 0 and its maximum. *)
Lemma normalize_bounds (score maxScore : R) :
  0 <= score <= maxScore -> 0 <= normalize score maxScore <= 1.
Proof.
  intros Hscore. unfold normalize.
  destruct (ngt maxScore (ofZ 0)) eqn:Hpos.
  - apply ngt_real in Hpos. simpl in Hpos |- *. apply Rdiv_unit; assumption.
  - simpl. lra.
Qed.

End RealBounds.

(** ** The indices stored by [setAttendees] *)

Lemma fold_left_invariant {A B : Type} (P : B -> Prop) (f : B -> A -> B) (l : list A) :
  (forall b a, In a l -> P b -> P (f b a)) -> forall b, P b -> P (fold_left f l b).
Proof.
  induction l as [| a l IH]; intros Hstep b Hb; simpl; [exact Hb |].
  apply IH.
  - intros b0 a0 Hin. apply Hstep. right. exact Hin.
  - apply Hstep; [left; reflexivity | exact Hb].
Qed.

Section AssocFacts.
Context {K V : Type} (keq : K -> K -> bool).

Lemma In_mapSet (k : K) (v : V) (m : list (K * V)) (e : K * V) :
  In e (mapSet keq k v m) -> e = (k, v) \/ In e m.
Proof.
  induction m as [| [k' v'] m IH]; simpl.
  - intros [<- | []]. left. reflexivity.
  - destruct (keq k k').
    + intros [<- | Hin]; [left; reflexivity | right; right; exact Hin].
    + intros [<- | Hin]; [right; left; reflexivity |].
      destruct (IH Hin) as [-> | Hin']; [left; reflexivity | right; right; exact Hin'].
Qed.

Lemma In_mapAlter (k : K) (f : V -> V) (m : list (K * V)) (e : K * V) :
  In e (mapAlter keq k f m) -> In e m \/ exists v', In (fst e, v') m /\ snd e = f v'.
Proof.
  induction m as [| [k' v'] m IH]; simpl; [intros [] |].
  destruct (keq k k').
  - intros [<- | Hin].
    + right. exists v'. split; [left; reflexivity | reflexivity].
    + left. right. exact Hin.
  - intros [<- | Hin]; [left; left; reflexivity |].
    destruct (IH Hin) as [Hin' | (v0 & Hin' & Hv0)].
    + left. right. exact Hin'.
    + right. exists v0. split; [right; exact Hin' | exact Hv0].
Qed.

End AssocFacts.

Lemma In_setAdd (x y : nat) (s : list nat) : In y (setAdd x s) -> y = x \/ In y s.
Proof.
  unfold setAdd. destruct (existsb (Nat.eqb x) s); [intros H; right; exact H |].
  intros H. apply in_app_or in H. destruct H as [H | [<- | []]];
    [right; exact H | left; reflexivity].
Qed.

Section StoredIndices.
Context {T : Type} `{AT : Arith T}.

(** Every member of every group is the index of an attendee. *)
Lemma buildGroups_bound (N : nat) (l : list (Attendee T)) :
  (forall a, In a l -> (a_index a < N)%nat) ->
  forall g i, In g (buildGroups l) -> In i (snd g) -> (i < N)%nat.
Proof.
  intros Hl. unfold buildGroups.
  apply (fold_left_invariant
           (fun gs => forall g i, In g gs -> In i (snd g) -> (i < N)%nat) groupStep l).
  - intros gs a Ha Hgs g i Hg Hi. unfold groupStep in Hg.
    destruct (truthyGroup (a_group a)) as [name |]; [| eapply Hgs; eassumption].
    apply In_mapAlter in Hg.
    assert (Hgs' : forall g0 i0,
               In g0 (if mapHas String.eqb name gs then gs else mapSet String.eqb name [] gs) ->
               In i0 (snd g0) -> (i0 < N)%nat).
    { intros g0 i0 Hg0 Hi0. destruct (mapHas String.eqb name gs); [eapply Hgs; eassumption |].
      apply In_mapSet in Hg0. destruct Hg0 as [-> | Hg0]; [destruct Hi0 | eapply Hgs; eassumption]. }
    destruct Hg as [Hg | (v' & Hg & Hv')]; [eapply Hgs'; eassumption |].
    rewrite Hv' in Hi. apply in_app_or in Hi.
    destruct Hi as [Hi | [<- | []]]; [| apply Hl; exact Ha].
    apply (Hgs' (fst g, v') i Hg Hi).
  - intros g i [].
Qed.

(** Every key and every friend of the friendship map is a group member. *)
Lemma buildFriendships_bound (N : nat) (gs : list (string * list nat)) :
  (forall g i, In g gs -> In i (snd g) -> (i < N)%nat) ->
  forall e, In e (buildFriendships gs) ->
    (fst e < N)%nat /\ forall i, In i (snd e) -> (i < N)%nat.
Proof.
  intros Hgs. unfold buildFriendships.
  set (P := fun fs : list (nat * list nat) =>
              forall e, In e fs -> (fst e < N)%nat /\ forall i, In i (snd e) -> (i < N)%nat).
  apply (fold_left_invariant P); [| intros e []].
  intros fs g Hg Hfs.
  assert (Hmem : forall i, In i (snd g) -> (i < N)%nat) by (intros i; apply (Hgs g i Hg)).
  apply (fold_left_invariant P); [| exact Hfs].
  intros fs1 m1 Hm1 Hfs1. unfold friendStep.
  apply (fold_left_invariant P).
  - intros fs2 m2 Hm2 Hfs2. destruct (Nat.eqb m1 m2); [exact Hfs2 |].
    intros e He. apply In_mapAlter in He.
    destruct He as [He | (v' & He & Hv')]; [apply Hfs2; exact He |].
    destruct (Hfs2 _ He) as [Hk Hv]. simpl in Hk, Hv. split; [exact Hk |].
    intros i Hi. rewrite Hv' in Hi. apply In_setAdd in Hi.
    destruct Hi as [-> | Hi]; [apply Hmem; exact Hm2 | apply Hv; exact Hi].
  - destruct (mapHas Nat.eqb m1 fs1); [exact Hfs1 |].
    intros e He. apply In_mapSet in He. destruct He as [-> | He]; [| apply Hfs1; exact He].
    simpl. split; [apply Hmem; exact Hm1 | intros i []].
Qed.

Lemma stored_index (raws : list (RawAttendee T)) (a : Attendee T) :
  In a (imap storeAttendee raws) -> (a_index a < length raws)%nat.
Proof.
  intros Hin. apply list_elem_of_In in Hin. apply elem_of_lookup_imap in Hin.
  destruct Hin as (i & y & -> & Hy). simpl. eapply lookup_lt_Some. exact Hy.
Qed.

Lemma setAttendees_groups_bound (this : Optimizer T) (raws : list (RawAttendee T)) :
  forall g i, In g (groups (setAttendees this raws)) -> In i (snd g) -> (i < length raws)%nat.
Proof.
  simpl. apply buildGroups_bound. apply stored_index.
Qed.

Lemma setAttendees_friendships_bound (this : Optimizer T) (raws : list (RawAttendee T)) :
  forall e, In e (friendships (setAttendees this raws)) ->
    (fst e < length raws)%nat /\ forall i, In i (snd e) -> (i < length raws)%nat.
Proof.
  simpl. apply buildFriendships_bound. apply buildGroups_bound. apply stored_index.
Qed.

End StoredIndices.

(** ** The loops of the fitness function return on seated attendees *)

Section CohesionFacts.
Context {T : Type} `{AT : Arith T}.

Lemma cohesionLoop_total (l : list (option (Seat T))) (pts : Z) :
  (forall s, In s l -> s <> None) -> (0 <= pts)%Z ->
  exists pts', cohesionLoop pts l = Ok pts' /\ (0 <= pts')%Z.
Proof.
  revert pts. induction l as [| si rest IH]; intros pts Hall Hpts; simpl.
  - exists pts. split; [reflexivity | exact Hpts].
  - assert (Hinner : exists p, foldlM (fun p sj => dist ← getSeatDistance si sj;
                                                  Ok (p + adjacencyPoints dist)%Z) pts rest = Ok p
                               /\ (0 <= p)%Z).
    { apply (foldlM_total (fun p => (0 <= p)%Z)); [| exact Hpts].
      intros p sj Hsj Hp.
      destruct si as [si |]; [| exfalso; apply (Hall None); [left; reflexivity | reflexivity]].
      destruct sj as [sj |]; [| exfalso; apply (Hall None); [right; exact Hsj | reflexivity]].
      simpl. eexists. split; [reflexivity |].
      unfold adjacencyPoints.
      destruct (_ =? 1)%Z; [lia |]. destruct (_ <=? 2)%Z; lia. }
    destruct Hinner as (p & -> & Hp). simpl.
    apply IH; [| exact Hp]. intros s Hs. apply Hall. right. exact Hs.
Qed.

Lemma sortSeats_defined (l : list (option (Seat T))) :
  (forall s, In s l -> s <> None) -> forall s, In s (sortSeats l) -> s <> None.
Proof.
  intros Hall s Hs. unfold sortSeats in Hs. apply in_app_or in Hs.
  destruct Hs as [Hs | Hs].
  - apply in_map_iff in Hs. destruct Hs as (x & <- & _). discriminate.
  - apply list_elem_of_In in Hs. apply list_elem_of_filter in Hs.
    destruct Hs as [_ Hs]. apply Hall. apply list_elem_of_In. exact Hs.
Qed.

End CohesionFacts.

(** ** C3, continued: the three loops keep every score between 0 and its maximum *)

Section RealLoops.
Local Open Scope R_scope.

Variable v : Venue R.
Variable A : Chromosome.
Variable N : nat.

(** Every attendee index has a seat. *)
Hypothesis seated : forall i, (i < N)%nat ->
  exists s, seatOf v A i = Some s /\ 0 <= distanceToStage s /\ (0 <= row s)%Z.

Lemma seated_distance (i j : nat) :
  (i < N)%nat -> (j < N)%nat ->
  exists d, getSeatDistance (seatOf v A i) (seatOf v A j) = Ok d.
Proof using seated.
  intros Hi Hj.
  destruct (seated i Hi) as (si & -> & _). destruct (seated j Hj) as (sj & -> & _).
  simpl. eexists. reflexivity.
Qed.

Lemma friend_loop_bounds (fs : list (nat * list nat)) (acc : R * R) :
  (forall e, In e fs -> (fst e < N)%nat /\ forall i, In i (snd e) -> (i < N)%nat) ->
  0 <= fst acc <= snd acc ->
  exists acc', foldlM (friendshipBody v A) acc fs = Ok acc' /\ 0 <= fst acc' <= snd acc'.
Proof using seated.
  intros Hfs Hacc.
  apply (foldlM_total (fun a : R * R => 0 <= fst a <= snd a)); [| exact Hacc].
  intros b e He Hb. destruct (Hfs e He) as [Hkey Hfriends].
  unfold friendshipBody.
  apply (foldlM_total (fun a : R * R => 0 <= fst a <= snd a)); [| exact Hb].
  intros b0 j Hj Hb0. unfold friendBody.
  destruct (seated_distance (fst e) j Hkey (Hfriends j Hj)) as (d & ->).
  simpl. eexists. split; [reflexivity |]. simpl.
  pose proof (friendPoints_bounds d). lra.
Qed.

Local Abbreviation peopleInv :=
  (fun a : AttendeeAcc (T := R) =>
     0 <= vipPlacementScore a <= maxVipScore a
     /\ 0 <= stageDistanceScore a <= maxDistanceScore a).

Lemma people_loop_bounds (l : list (nat * Attendee R)) (acc : AttendeeAcc) :
  0 < maxVenueDist v ->
  (forall e, In e l -> (fst e < N)%nat /\ 0 <= a_priority (snd e)) ->
  peopleInv acc ->
  exists acc', foldlM (attendeeBody v A) acc l = Ok acc' /\ peopleInv acc'.
Proof using seated.
  intros Hmax Hl Hacc.
  apply (foldlM_total peopleInv); [| exact Hacc].
  intros b e He [Hvip Hstage]. destruct (Hl e He) as [Hidx Hprio].
  unfold attendeeBody. destruct (seated (fst e) Hidx) as (s & -> & Hdist & Hrow).
  simpl. eexists. split; [reflexivity |]. simpl. split.
  - destruct (isVipType (snd e)); [| exact Hvip].
    destruct (isVip s); [lra |].
    assert (Hz : 0 <= Rmax 0 (IZR (10 - row s * 2)) <= 20).
    { split; [apply Rmax_l |]. apply Rmax_lub; [lra |].
      apply IZR_le. lia. }
    lra.
  - set (cap := 10 * (a_priority (snd e) / 10)).
    assert (Hcap : 0 <= cap) by (unfold cap; lra).
    assert (Hratio : 0 <= distanceToStage s / maxVenueDist v).
    { unfold Rdiv. apply Rmult_le_pos; [exact Hdist |].
      left. apply Rinv_0_lt_compat. exact Hmax. }
    assert (Hperson : 0 <= Rmax 0 ((1 - distanceToStage s / maxVenueDist v) * cap) <= cap).
    { split; [apply Rmax_l |]. apply Rmax_lub; [exact Hcap |]. nra. }
    unfold maxVenueDist, pow2 in Hperson. simpl in Hperson. lra.
Qed.

Lemma group_loop_bounds (gs : list (string * list nat)) (acc : R * R) :
  (forall g i, In g gs -> In i (snd g) -> (i < N)%nat) ->
  0 <= fst acc <= snd acc ->
  exists acc', foldlM (groupBody v A) acc gs = Ok acc' /\ 0 <= fst acc' <= snd acc'.
Proof using seated.
  intros Hgs Hacc.
  apply (foldlM_total (fun a : R * R => 0 <= fst a <= snd a)); [| exact Hacc].
  intros b g Hg Hb. unfold groupBody.
  destruct (Z.leb_spec (Z.of_nat (length (snd g))) 1) as [_ | Hlen].
  - exists b. split; [reflexivity | exact Hb].
  - destruct (cohesionLoop_total (sortSeats (map (seatOf v A) (snd g))) 0) as (pts & -> & Hpts);
      [| lia |].
    + apply sortSeats_defined. intros s Hs. apply in_map_iff in Hs.
      destruct Hs as (i & <- & Hi).
      destruct (seated i (Hgs g i Hg Hi)) as (s & -> & _). discriminate.
    + simpl. eexists. split; [reflexivity |]. simpl.
      set (m := Z.of_nat (length (snd g))) in *.
      assert (Hm : 0 <= IZR (m * 10)) by (apply IZR_le; lia).
      assert (Hx : 0 <= IZR pts / Rmax 1 (IZR ((m - 1) * 2)) * IZR m * 10).
      { assert (Hd : 0 < Rmax 1 (IZR ((m - 1) * 2)))
          by (apply Rlt_le_trans with 1; [lra | apply Rmax_l]).
        assert (Hp : 0 <= IZR pts) by (apply IZR_le; exact Hpts).
        assert (Hm' : 0 <= IZR m) by (apply IZR_le; lia).
        apply Rmult_le_pos; [| lra]. apply Rmult_le_pos; [| exact Hm'].
        unfold Rdiv. apply Rmult_le_pos; [exact Hp |].
        left. apply Rinv_0_lt_compat. exact Hd. }
      pose proof (Rmin_l (IZR (m * 10)) (IZR pts / Rmax 1 (IZR ((m - 1) * 2)) * IZR m * 10)).
      pose proof (Rmin_glb _ _ 0 Hm Hx).
      lra.
Qed.

End RealLoops.

Lemma rawScores_returns {T : Type} `{AT : Arith T} (this : Optimizer T) (v : Venue T)
    (A : Chromosome) (friend group : T * T) (people : AttendeeAcc) :
  venue this = Some v ->
  foldlM (friendshipBody v A) (ofZ 0, ofZ 0) (friendships this) = Ok friend ->
  foldlM (attendeeBody v A) attendeeAcc0 (enumerate (attendees this)) = Ok people ->
  foldlM (groupBody v A) (ofZ 0, ofZ 0) (groups this) = Ok group ->
  rawScores this A = Ok {| rs_friend := friend; rs_people := people; rs_group := group |}.
Proof.
  intros Hv Hfriend Hpeople Hgroup. unfold rawScores, theVenue. rewrite Hv.
  cbn [mbind outcome_bind]. rewrite Hfriend.
  cbn [mbind outcome_bind]. rewrite Hpeople.
  cbn [mbind outcome_bind]. rewrite Hgroup. reflexivity.
Qed.

Section RealFitness.
Local Open Scope R_scope.

Lemma maxVenueDist_positive (rows cols vipRows : Z) :
  (0 <= rows)%Z -> 0 < maxVenueDist (T := R) (makeVenue rows cols vipRows).
Proof.
  intros Hrows. unfold maxVenueDist, pow2. simpl. apply sqrt_lt_R0.
  assert (H1 : 1 <= IZR (rows + 1)) by (apply IZR_le; lia).
  nra.
Qed.

Lemma stored_priority_nonneg (raws : list (RawAttendee R)) :
  (forall a p, In a raws -> ra_priority a = Some p -> 0 <= p) ->
  forall e, In e (enumerate (imap storeAttendee raws)) ->
    (fst e < length raws)%nat /\ 0 <= a_priority (snd e).
Proof.
  intros Hprio [i a] He. apply In_enumerate in He. simpl.
  rewrite list_lookup_imap in He.
  destruct (raws !! i) as [raw |] eqn:Hraw; [| discriminate].
  injection He as <-. split; [eapply lookup_lt_Some; exact Hraw |].
  simpl. unfold orT.
  destruct (ra_priority raw) as [p |] eqn:Hp; [| simpl; lra].
  destruct (truthy p); [| simpl; lra].
  apply (Hprio raw p); [| exact Hp].
  apply list_elem_of_In. eapply list_elem_of_lookup_2. exact Hraw.
Qed.

Lemma weightedTotal_bounds (w : Weights R) (a b c d : R) :
  0 <= w_friendProximity w -> 0 <= w_vipPlacement w ->
  0 <= w_groupCohesion w -> 0 <= w_stageDistance w ->
  0 < totalWeight w ->
  0 <= a <= 1 -> 0 <= b <= 1 -> 0 <= c <= 1 -> 0 <= d <= 1 ->
  0 <= weightedTotal w a b c d <= 1.
Proof.
  intros Hf Hv Hg Hs Hsum Ha Hb Hc Hd.
  unfold weightedTotal. unfold totalWeight in *. simpl in *.
  apply Rdiv_unit; [| exact Hsum]. nra.
Qed.

(** C3.  In real arithmetic, for a venue built by [setVenue], attendees
    stored by [setAttendees] (priorities, where given, not negative, as in
    the data model), non-negative weights with a positive sum, and a valid
    assignment [A]: [calculateFitness(A)] returns a record, and its four
    sub-scores and its total are each in [0, 1]. *)
Theorem fitness_scores_in_unit_interval (this0 : Optimizer R) (rows cols vipRows : Z)
    (raws : list (RawAttendee R)) (A : Chromosome) :
  (0 <= rows)%Z -> (0 <= cols)%Z ->
  (forall a p, In a raws -> ra_priority a = Some p -> 0 <= p) ->
  0 <= w_friendProximity (weights (config this0)) ->
  0 <= w_vipPlacement (weights (config this0)) ->
  0 <= w_groupCohesion (weights (config this0)) ->
  0 <= w_stageDistance (weights (config this0)) ->
  0 < totalWeight (weights (config this0)) ->
  validAssignment rows cols (length raws) A ->
  exists f : Fitness R,
    calculateFitness (setAttendees (setVenue this0 rows cols vipRows) raws) A = Ok f
    /\ 0 <= friendProximity f <= 1
    /\ 0 <= vipPlacement f <= 1
    /\ 0 <= groupCohesion f <= 1
    /\ 0 <= stageDistance f <= 1
    /\ 0 <= total f <= 1.
Proof.
  intros Hrows Hcols Hprio Hwf Hwv Hwg Hws Hsum Hvalid.
  set (this := setAttendees (setVenue this0 rows cols vipRows) raws).
  set (v := makeVenue (T := R) rows cols vipRows).
  assert (Hseated : forall i, (i < length raws)%nat ->
            exists s, seatOf v A i = Some s /\ 0 <= distanceToStage s /\ (0 <= row s)%Z).
  { intros i Hi.
    destruct (valid_seatOf this rows cols vipRows _ A i Hrows Hvalid Hi) as (p & _ & Hp & Hs).
    eexists. split; [exact Hs |]. simpl. split; [apply sqrt_pos |].
    apply Z.div_pos; nia. }
  destruct (friend_loop_bounds v A (length raws) Hseated (friendships this) (0, 0)
              (setAttendees_friendships_bound _ raws) ltac:(simpl; lra))
    as (friend & Hfriend & Hfb).
  assert (Hacc0 : 0 <= vipPlacementScore (attendeeAcc0 (T := R)) <= maxVipScore attendeeAcc0
                   /\ 0 <= stageDistanceScore (attendeeAcc0 (T := R)) <= maxDistanceScore attendeeAcc0)
    by (unfold attendeeAcc0; simpl; lra).
  destruct (people_loop_bounds v A (length raws) Hseated (enumerate (attendees this))
              attendeeAcc0 (maxVenueDist_positive rows cols vipRows Hrows)
              (stored_priority_nonneg raws Hprio) Hacc0)
    as (people & Hpeople & Hvb & Hsb).
  destruct (group_loop_bounds v A (length raws) Hseated (groups this) (0, 0)
              (setAttendees_groups_bound _ raws) ltac:(simpl; lra))
    as (group & Hgroup & Hgb).
  eexists. split.
  - unfold calculateFitness.
    rewrite (rawScores_returns this v A friend group people eq_refl Hfriend Hpeople Hgroup).
    reflexivity.
  - pose proof (normalize_bounds _ _ Hfb) as Hnf.
    pose proof (normalize_bounds _ _ Hvb) as Hnv.
    pose proof (normalize_bounds _ _ Hgb) as Hng.
    pose proof (normalize_bounds _ _ Hsb) as Hns.
    cbn [friendProximity vipPlacement groupCohesion stageDistance total fitnessOfScores
         rs_friend rs_people rs_group].
    repeat (split; [assumption |]).
    apply weightedTotal_bounds; assumption.
Qed.

End RealFitness.

Lemma fitness_scores_witness :
  exists f : Fitness R,
    calculateFitness twoGroups [Some 0; Some 1; Some 4; Some 8] = Ok f
    /\ (0 <= total f <= 1)%R.
Proof.
  destruct (fitness_scores_in_unit_interval (constructor noConfig) 3 3 1
              [person "vip" (Some "a") 10; person "regular" (Some "a") 5;
               person "regular" (Some "b") 5; person "regular" (Some "b") 5]
              [Some 0; Some 1; Some 4; Some 8])
    as (f & Hf & _ & _ & _ & _ & Htotal).
  - lia.
  - lia.
  - intros a p Ha Hp.
    repeat (destruct Ha as [<- | Ha]; [injection Hp as <-; simpl; lra |]).
    destruct Ha.
  - simpl. unfold ofQ. simpl. lra.
  - simpl. unfold ofQ. simpl. lra.
  - simpl. unfold ofQ. simpl. lra.
  - simpl. unfold ofQ. simpl. lra.
  - unfold totalWeight. simpl. lra.
  - apply isValidAssignment_sound. reflexivity.
  - exists f. split; [exact Hf | exact Htotal].
Defined.

(** ** C2: the guard at the entry of [optimize] *)

Section EntryGuard.
Context {T : Type} `{AT : Arith T} `{ET : HasExp T}.

Lemma entryGuard_spec (this : Optimizer T) :
  entryGuard this = true <-> venue this = None \/ attendees this = [].
Proof.
  unfold entryGuard. destruct (venue this) as [v |].
  - destruct (attendees this) as [| a l]; simpl.
    + split; [intros _; right; reflexivity | reflexivity].
    + split; [discriminate | intros [H | H]; discriminate].
  - split; [intros _; left; reflexivity | reflexivity].
Qed.

(** An exception that leaves the generation loop was raised in a
    generation that began with [isRunning] set. *)
Lemma generationLoop_throw_running (fuel : nat) (env : Env) (n : nat) :
  forall (gen : Z) (this : Optimizer T) (population : list Chromosome)
         (fitnessValues : list (Fitness T)) (s : list Q) (this' : Optimizer T) (e : Exn),
    generationLoop fuel env n gen this population fitnessValues s = (this', Throw e) ->
    isRunning this' = true.
Proof.
  induction n as [| n IH]; intros gen this population fitnessValues s this' e Hrun;
    simpl in Hrun; [discriminate |].
  destruct (isRunning this) eqn:Hrunning; [| discriminate].
  unfold generationWith in Hrun.
  match type of Hrun with context [match ?next s with _ => _ end] => destruct (next s) as [[[bred values] s'] | e' |] end.
  - eapply IH. exact Hrun.
  - injection Hrun as <- _. exact Hrunning.
  - discriminate.
Qed.

Lemma server_generationLoop_running (fuel : nat) (n : nat) :
  forall (gen : Z) (this : Optimizer T) (population : list Chromosome)
         (fitnessValues : list (Fitness T)) (s : list Q) (this' : Optimizer T)
         (o : Outcome (list Q)),
    Server.generationLoop fuel n gen this population fitnessValues s = (this', o) ->
    isRunning this' = isRunning this.
Proof.
  assert (Hbest : forall (l : list (Chromosome * Fitness T)) (o : Optimizer T),
             isRunning (fold_left (fun o cf => if ngt (total (snd cf)) (bestTotal (bestFitness o))
                                               then withBest o (fst cf) (snd cf) else o) l o)
             = isRunning o).
  { induction l as [| cf l IHl]; intros o; simpl; [reflexivity |].
    rewrite IHl. destruct (ngt _ _); reflexivity. }
  induction n as [| n IH]; intros gen this population fitnessValues s this' o Hrun;
    simpl in Hrun.
  - injection Hrun as <- _. reflexivity.
  - unfold generationWith in Hrun.
    match type of Hrun with context [match ?next s with _ => _ end] => destruct (next s) as [[[bred values] s'] | e' |] end.
    + apply IH in Hrun. rewrite Hrun. unfold pushHistory, updateBest. simpl.
      rewrite Hbest. reflexivity.
    + injection Hrun as <- _. reflexivity.
    + injection Hrun as <- _. reflexivity.
Qed.

(** C2, amended.  Both [optimize] functions raise at entry, leaving the
    optimizer object as it was, exactly when the venue is unset or the
    attendee list is empty.  The number of attendees is not compared with
    the number of seats: in every other case the guard passes, and an
    exception that comes out of the call was raised after [isRunning] had
    been set. *)
Theorem optimize_entry_guard (fuel : nat) (env : Env) (this : Optimizer T) (s : list Q) :
  ((venue this = None \/ attendees this = []) ->
     optimize fuel env this s = (this, Throw (ConfigError "Venue/Attendees not set"))
     /\ Server.optimize fuel this s = (this, Throw (ConfigError "Venue and attendees must be set")))
  /\ (~ (venue this = None \/ attendees this = []) ->
      (forall this' e, optimize fuel env this s = (this', Throw e) -> isRunning this' = true)
      /\ (forall this' e, Server.optimize fuel this s = (this', Throw e) -> isRunning this' = true)).
Proof.
  split.
  - intros Hguard. apply entryGuard_spec in Hguard.
    unfold optimize, Server.optimize. rewrite Hguard. split; reflexivity.
  - intros Hguard.
    assert (Hg : entryGuard this = false).
    { destruct (entryGuard this) eqn:Hg; [| reflexivity].
      exfalso. apply Hguard. apply entryGuard_spec. exact Hg. }
    split.
    + intros this' e Hrun. unfold optimize in Hrun. rewrite Hg in Hrun.
      destruct (firstBestWith initializePopulation calculateFitness (withRun this true []) s)
        as [[[[[population fitnessValues] c] f] s1] | e1 |].
      * destruct (generationLoop fuel env _ 0 _ population fitnessValues s1)
          as [this3 [s2 | e3 |]] eqn:Hloop.
        -- destruct (isRunning this3) eqn:Hrunning.
           ++ unfold polishWith in Hrun.
              destruct (bestSolution this3) as [c3 |].
              ** destruct (simulatedAnnealing this3 c3 (saIterations this3) s2)
                   as [[refined s'] | e4 |]; try discriminate.
                 injection Hrun as <- _. exact Hrunning.
              ** injection Hrun as <- _. exact Hrunning.
           ++ discriminate.
        -- injection Hrun as <- _.
           eapply generationLoop_throw_running. exact Hloop.
        -- discriminate.
      * injection Hrun as <- _. reflexivity.
      * discriminate.
    + intros this' e Hrun. unfold Server.optimize in Hrun. rewrite Hg in Hrun.
      destruct (firstBestWith Server.initializePopulation Server.calculateFitness
                              (withRun this true []) s)
        as [[[[[population fitnessValues] c] f] s1] | e1 |].
      * destruct (Server.generationLoop fuel _ 0 _ population fitnessValues s1)
          as [this3 o3] eqn:Hloop.
        apply server_generationLoop_running in Hloop. simpl in Hloop.
        destruct o3 as [s2 | e3 |].
        -- unfold polishWith in Hrun.
           destruct (bestSolution this3) as [c3 |].
           ++ destruct (Server.simulatedAnnealing this3 c3 (saIterations this3) s2)
                as [[refined s'] | e4 |]; try discriminate.
              injection Hrun as <- _. exact Hloop.
           ++ injection Hrun as <- _. exact Hloop.
        -- injection Hrun as <- _. exact Hloop.
        -- discriminate.
      * injection Hrun as <- _. reflexivity.
      * discriminate.
Qed.

End EntryGuard.

(** With two attendees for the one seat of a 1x1 venue the guard passes:
    both [optimize] functions set [isRunning] and run, and the exception
    that ends the call is the [TypeError] of a seat lookup in
    [calculateFitness], raised with [isRunning] still set. *)
Lemma overfull_venue_not_rejected :
  venue (overfull (T := R)) = Some (makeVenue 1 1 1)
  /\ (Z.of_nat (length (attendees (overfull (T := R)))) > 1 * 1)%Z
  /\ isRunning (overfull (T := R)) = false
  /\ (exists this' : Optimizer R,
        optimize 0 quietEnv overfull [] = (this', Throw TypeError)
        /\ isRunning this' = true /\ fitnessHistory this' = [])
  /\ (exists this' : Optimizer R,
        Server.optimize 0 overfullServer [] = (this', Throw TypeError)
        /\ isRunning this' = true /\ fitnessHistory this' = []).
Proof.
  split; [reflexivity |]. split; [reflexivity |]. split; [reflexivity |].
  split; eexists; (split; [vm_compute; reflexivity | split; reflexivity]).
Qed.

Lemma optimize_entry_guard_witness :
  optimize 0 quietEnv (constructor (T := R) noConfig) []
  = (constructor noConfig, Throw (ConfigError "Venue/Attendees not set"))
  /\ forall this' e, optimize 0 quietEnv (overfull (T := R)) [] = (this', Throw e) ->
                     isRunning this' = true.
Proof.
  split.
  - apply (optimize_entry_guard 0 quietEnv (constructor (T := R) noConfig) []).
    left. reflexivity.
  - apply (optimize_entry_guard 0 quietEnv (overfull (T := R)) []).
    intros [H | H]; discriminate.
Defined.

(** ** C4: the targeted swaps of [smartMutate] *)

Lemma rand_bind_inv {A B : Type} (m : Rand A) (f : A -> Rand B) (s : list Q) (r : B * list Q) :
  (m ≫= f) s = Ok r -> exists a s', m s = Ok (a, s') /\ f a s' = Ok r.
Proof.
  unfold mbind, rand_bind. destruct (m s) as [[a s'] | e |]; intros H; try discriminate.
  exists a, s'. split; [reflexivity | exact H].
Qed.

Lemma liftO_inv {A : Type} (o : Outcome A) (s : list Q) (r : A * list Q) :
  liftO o s = Ok r -> o = Ok (fst r) /\ snd r = s.
Proof.
  unfold liftO. destruct o as [a | e |]; intros H; try discriminate.
  injection H as <-. split; reflexivity.
Qed.

Lemma mret_inv {A : Type} (a : A) (s : list Q) (r : A * list Q) :
  (mret a : Rand A) s = Ok r -> r = (a, s).
Proof. unfold mret, rand_ret. intros H. injection H as <-. reflexivity. Qed.

Ltac inv_rand H :=
  let a := fresh "x" in
  let s := fresh "s" in
  let Ha := fresh "Hx" in
  apply rand_bind_inv in H; destruct H as (a & s & Ha & H).

Section SmartMutate.
Context {T : Type} `{AT : Arith T}.

Lemma trySwapLoop_one_swap (v : Venue T) (c : Chromosome) (idx1 idx2 : nat) (others : list nat)
    (c' : Chromosome) :
  trySwapLoop v c idx1 idx2 others = Ok c' ->
  c' = c \/ exists i, In i others /\ c' = swap c idx1 i.
Proof.
  induction others as [| i rest IH]; simpl; intros H.
  - injection H as <-. left. reflexivity.
  - destruct (Nat.eqb i idx1 || Nat.eqb i idx2).
    + destruct (IH H) as [-> | (k & Hk & ->)]; [left; reflexivity |].
      right. exists k. split; [right; exact Hk | reflexivity].
    + inv_bind H. destruct (x =? 1)%Z.
      * injection H as <-. right. exists i. split; [left; reflexivity | reflexivity].
      * destruct (IH H) as [-> | (k & Hk & ->)]; [left; reflexivity |].
        right. exists k. split; [right; exact Hk | reflexivity].
Qed.

(** [improveFriendProximity] returns its argument or one swap of it. *)
Lemma improveFriendProximity_one_swap (this : Optimizer T) (c c' : Chromosome) :
  improveFriendProximity this c = Ok c' ->
  c' = c \/ exists i j, c' = swap c i j.
Proof.
  unfold improveFriendProximity. generalize (friendships this) as fs.
  induction fs as [| [attendeeIdx friends] rest IH]; simpl; intros H.
  - injection H as <-. left. reflexivity.
  - inv_bind H. inv_bind H. destruct x0 as [friendIdx |].
    + unfold trySwapForBetterProximity in H. inv_bind H.
      apply trySwapLoop_one_swap in H. destruct H as [-> | (k & _ & ->)];
        [left; reflexivity | right; exists attendeeIdx, k; reflexivity].
    + apply IH. exact H.
Qed.

(** [improveVipPlacement] returns its argument or one swap of it. *)
Lemma improveVipPlacement_one_swap (this : Optimizer T) (c c' : Chromosome) :
  improveVipPlacement this c = Ok c' ->
  c' = c \/ exists i j, c' = swap c i j.
Proof.
  unfold improveVipPlacement. intros H. inv_bind H.
  destruct x as [[i j] |]; injection H as <-;
    [right; exists i, j; reflexivity | left; reflexivity].
Qed.

(** C4, amended.  A call of [smartMutate] that returns has performed at
    most one swap of [improveFriendProximity] and then at most one swap of
    [improveVipPlacement] (on the array the first one left), so up to two
    targeted swaps; it returns the chromosome unchanged when neither
    routine, run on it, finds a swap. *)
Theorem smartMutate_at_most_two_swaps (this : Optimizer T) (c : Chromosome) (f : Fitness T)
    (s s' : list Q) (c' : Chromosome) :
  smartMutate this c f s = Ok (c', s') ->
  (exists c1,
      (c1 = c \/ (improveFriendProximity this c = Ok c1 /\ exists i j, c1 = swap c i j))
      /\ (c' = c1 \/ (improveVipPlacement this c1 = Ok c' /\ exists i j, c' = swap c1 i j)))
  /\ ((forall c1, improveFriendProximity this c = Ok c1 -> c1 = c) ->
      (forall c2, improveVipPlacement this c = Ok c2 -> c2 = c) -> c' = c).
Proof.
  intros H. unfold smartMutate in H.
  inv_rand H. rename x into b1. inv_rand H. rename x into c1. rename Hx0 into Hc1.
  inv_rand H. rename x into b2.
  assert (H1 : c1 = c \/ (improveFriendProximity this c = Ok c1 /\ exists i j, c1 = swap c i j)
               \/ (improveFriendProximity this c = Ok c1 /\ c1 = c)).
  { destruct b1.
    - apply liftO_inv in Hc1. destruct Hc1 as [Hc1 _]. simpl in Hc1.
      destruct (improveFriendProximity_one_swap this c c1 Hc1) as [-> | Hswap].
      + left. reflexivity.
      + right. left. split; assumption.
    - apply mret_inv in Hc1. injection Hc1 as <- _. left. reflexivity. }
  assert (H2 : c' = c1 \/ (improveVipPlacement this c1 = Ok c' /\ exists i j, c' = swap c1 i j)).
  { destruct b2.
    - apply liftO_inv in H. destruct H as [H _]. simpl in H.
      destruct (improveVipPlacement_one_swap this c1 c' H) as [-> | Hswap].
      + left. reflexivity.
      + right. split; assumption.
    - apply mret_inv in H. injection H as <- _. left. reflexivity. }
  split.
  - exists c1. split; [| exact H2].
    destruct H1 as [-> | [H1 | [_ ->]]]; [left; reflexivity | right; exact H1 | left; reflexivity].
  - intros Hf Hv.
    assert (Hc : c1 = c).
    { destruct H1 as [-> | [[H1 _] | [_ ->]]]; [reflexivity | apply Hf; exact H1 | reflexivity]. }
    subst c1. destruct H2 as [-> | [H2 _]]; [reflexivity | apply Hv; exact H2].
Qed.

End SmartMutate.

(** On the 3x3 venue, with the VIP friend in the far corner and the
    second VIP in row 1, one call of [smartMutate] performs both targeted
    swaps: the friend swap moves attendees 0 and 2, the VIP swap then moves
    attendees 3 and 1. *)
Lemma smartMutate_swaps_twice :
  exists f : Fitness PrimFloat.float,
    calculateFitness mixedParty [Some 8; Some 0; Some 1; Some 5] = Ok f
    /\ improveFriendProximity mixedParty [Some 8; Some 0; Some 1; Some 5]
       = Ok (swap [Some 8; Some 0; Some 1; Some 5] 0 2)
    /\ swap [Some 8; Some 0; Some 1; Some 5] 0 2 = [Some 1; Some 0; Some 8; Some 5]
    /\ improveVipPlacement mixedParty [Some 1; Some 0; Some 8; Some 5]
       = Ok (swap [Some 1; Some 0; Some 8; Some 5] 3 1)
    /\ swap [Some 1; Some 0; Some 8; Some 5] 3 1 = [Some 1; Some 5; Some 8; Some 0]
    /\ smartMutate mixedParty [Some 8; Some 0; Some 1; Some 5] f [0.1; 0.1]%Q
       = Ok ([Some 1; Some 5; Some 8; Some 0], []).
Proof.
  eexists. split; [vm_compute; reflexivity |].
  repeat split; vm_compute; reflexivity.
Qed.

Lemma smartMutate_witness :
  exists c1 : Chromosome,
    (c1 = [Some 8; Some 0; Some 1; Some 5]
     \/ (improveFriendProximity (T := PrimFloat.float) mixedParty [Some 8; Some 0; Some 1; Some 5] = Ok c1
         /\ exists i j, c1 = swap [Some 8; Some 0; Some 1; Some 5] i j))
    /\ ([Some 1; Some 5; Some 8; Some 0] = c1
        \/ (improveVipPlacement (T := PrimFloat.float) mixedParty c1 = Ok [Some 1; Some 5; Some 8; Some 0]
            /\ exists i j, [Some 1; Some 5; Some 8; Some 0] = swap c1 i j)).
Proof.
  assert (Hrun : exists f : Fitness PrimFloat.float,
             calculateFitness mixedParty [Some 8; Some 0; Some 1; Some 5] = Ok f
             /\ smartMutate mixedParty [Some 8; Some 0; Some 1; Some 5] f [0.1; 0.1]%Q
                = Ok ([Some 1; Some 5; Some 8; Some 0], []))
    by (eexists; split; vm_compute; reflexivity).
  destruct Hrun as (f & _ & Hrun).
  exact (proj1 (smartMutate_at_most_two_swaps mixedParty _ f _ _ _ Hrun)).
Defined.

(** ** Swaps and valid assignments *)

Lemma validAssignment_alt (rows cols : Z) (N : nat) (A : Chromosome) :
  validAssignment rows cols N A <->
  length A = N /\ NoDup A
  /\ Forall (fun g => exists p, g = Some p /\ 0 <= p < rows * cols) A.
Proof.
  split.
  - intros (l & -> & Hlen & Hnodup & Hrange). split; [| split].
    + rewrite length_map. exact Hlen.
    + rewrite map_fmap. apply (NoDup_fmap_2 Some). exact Hnodup.
    + rewrite map_fmap. apply Forall_fmap. eapply Forall_impl; [exact Hrange |].
      intros p Hp. exists p. split; [reflexivity | exact Hp].
  - intros (Hlen & Hnodup & Hrange).
    assert (Hl : exists l, A = map Some l /\ Forall (fun p => 0 <= p < rows * cols) l).
    { clear Hlen Hnodup. induction A as [| g A IH].
      - exists []. split; [reflexivity | constructor].
      - apply Forall_cons_1 in Hrange. destruct Hrange as [(p & -> & Hp) Hrest].
        destruct (IH Hrest) as (l & -> & Hl).
        exists (p :: l). split; [reflexivity | constructor; assumption]. }
    destruct Hl as (l & -> & Hl). exists l.
    split; [reflexivity |]. split; [| split; [| exact Hl]].
    + rewrite length_map in Hlen. exact Hlen.
    + rewrite map_fmap in Hnodup. eapply NoDup_fmap_1. exact Hnodup.
Qed.

Lemma geneAt_lookup (A : Chromosome) (i : nat) (g : option Z) :
  A !! i = Some g -> geneAt A i = g.
Proof. unfold geneAt. intros ->. reflexivity. Qed.

Lemma arrayWrite_in_range (A : Chromosome) (i : nat) (x : option Z) :
  (i < length A)%nat -> arrayWrite A i x = <[i := x]> A.
Proof.
  intros Hi. unfold arrayWrite.
  destruct (Nat.ltb_spec i (length A)) as [_ | Hge]; [reflexivity | lia].
Qed.

(** A swap of two positions inside the array reads the array through the
    exchange of the two indices. *)
Lemma swap_lookup (A : Chromosome) (i j k : nat) :
  (i < length A)%nat -> (j < length A)%nat ->
  swap A i j !! k = A !! transpose i j k.
Proof.
  intros Hi Hj. unfold swap, transpose.
  destruct (lookup_lt_is_Some_2 A i Hi) as (gi & Hgi).
  destruct (lookup_lt_is_Some_2 A j Hj) as (gj & Hgj).
  rewrite (geneAt_lookup A i gi Hgi), (geneAt_lookup A j gj Hgj).
  rewrite (arrayWrite_in_range A i gj Hi).
  rewrite arrayWrite_in_range by (rewrite length_insert; exact Hj).
  destruct (Nat.eqb_spec k i) as [-> | Hki].
  - destruct (Nat.eq_dec i j) as [-> | Hij].
    + rewrite list_lookup_insert_eq by (rewrite length_insert; exact Hj).
      congruence.
    + rewrite list_lookup_insert_ne by congruence.
      rewrite list_lookup_insert_eq by exact Hi. congruence.
  - destruct (Nat.eqb_spec k j) as [-> | Hkj].
    + rewrite list_lookup_insert_eq by (rewrite length_insert; exact Hj). congruence.
    + rewrite !list_lookup_insert_ne by congruence. reflexivity.
Qed.

Lemma length_swap (A : Chromosome) (i j : nat) :
  (i < length A)%nat -> (j < length A)%nat -> length (swap A i j) = length A.
Proof.
  intros Hi Hj. unfold swap.
  rewrite (arrayWrite_in_range A i _ Hi).
  rewrite arrayWrite_in_range by (rewrite length_insert; exact Hj).
  rewrite !length_insert. reflexivity.
Qed.

Lemma transpose_inj (i j k1 k2 : nat) : transpose i j k1 = transpose i j k2 -> k1 = k2.
Proof.
  unfold transpose.
  destruct (Nat.eqb_spec k1 i), (Nat.eqb_spec k1 j), (Nat.eqb_spec k2 i), (Nat.eqb_spec k2 j);
    congruence.
Qed.

(** A swap of two positions of a valid assignment is a valid assignment. *)
Lemma swap_valid (rows cols : Z) (N : nat) (A : Chromosome) (i j : nat) :
  validAssignment rows cols N A -> (i < N)%nat -> (j < N)%nat ->
  validAssignment rows cols N (swap A i j).
Proof.
  intros Hvalid Hi Hj. apply validAssignment_alt in Hvalid.
  destruct Hvalid as (Hlen & Hnodup & Hrange).
  apply validAssignment_alt. rewrite <- Hlen in Hi, Hj. split; [| split].
  - rewrite length_swap by assumption. exact Hlen.
  - apply NoDup_alt. intros k1 k2 g H1 H2.
    rewrite swap_lookup in H1, H2 by assumption.
    apply (transpose_inj i j). eapply NoDup_lookup; eassumption.
  - apply Forall_lookup. intros k g Hk. rewrite swap_lookup in Hk by assumption.
    rewrite Forall_lookup in Hrange. exact (Hrange _ _ Hk).
Qed.

(** ** The random source *)

Lemma frac_unit (u : Q) : (0 <= frac u /\ frac u < 1)%Q.
Proof.
  unfold frac. pose proof (Qfloor_le u) as Hlo. pose proof (Qlt_floor u) as Hhi.
  rewrite inject_Z_plus in Hhi. change (inject_Z 1) with 1%Q in Hhi. split; Lqa.lra.
Qed.

Lemma Qfloor_scaled (u : Q) (n : Z) :
  (0 <= u)%Q -> (u < 1)%Q -> 0 < n -> 0 <= Qfloor (u * inject_Z n) < n.
Proof.
  intros H0 H1 Hn.
  assert (Hn' : (0 < inject_Z n)%Q) by (rewrite (Zlt_Qlt 0 n) in Hn; exact Hn).
  split.
  - rewrite <- (Qfloor_Z 0). apply Qfloor_resp_le.
    apply Qmult_le_0_compat; [exact H0 | apply Qlt_le_weak; exact Hn'].
  - rewrite Zlt_Qlt. eapply Qle_lt_trans; [apply Qfloor_le |].
    rewrite <- (Qmult_1_l (inject_Z n)) at 2.
    apply Qmult_lt_compat_r; assumption.
Qed.

(** [Math.random()] always returns, with a number in [0, 1). *)
Lemma random_returns (s : list Q) :
  exists u s', random s = Ok (u, s') /\ (0 <= u)%Q /\ (u < 1)%Q.
Proof.
  destruct s as [| u0 s]; simpl.
  - exists 0%Q, []. split; [reflexivity |]. split; [apply Qle_refl | reflexivity].
  - exists (frac u0), s. split; [reflexivity | apply frac_unit].
Qed.

(** [Math.floor(Math.random() * n)] is an index below [n]. *)
Lemma randomIndex_returns (n : Z) (s : list Q) :
  exists k s', randomIndex n s = Ok (k, s') /\ (0 < n -> 0 <= k < n).
Proof.
  unfold randomIndex. destruct (random_returns s) as (u & s' & Hu & H0 & H1).
  exists (Qfloor (u * inject_Z n)), s'. split.
  - unfold mbind, rand_bind. rewrite Hu. reflexivity.
  - intros Hn. apply Qfloor_scaled; assumption.
Qed.

Lemma chance_returns (p : Q) (s : list Q) : exists b s', chance p s = Ok (b, s').
Proof.
  unfold chance. destruct (random_returns s) as (u & s' & Hu & _).
  exists (Qltb u p), s'. unfold mbind, rand_bind. rewrite Hu. reflexivity.
Qed.

Lemma rand_bind_Ok {A B : Type} (m : Rand A) (f : A -> Rand B) (s s' : list Q) (a : A) :
  m s = Ok (a, s') -> (m ≫= f) s = f a s'.
Proof. intros H. unfold mbind, rand_bind. rewrite H. reflexivity. Qed.

(** ** [calculateFitness] returns on every seatable chromosome *)

Section FitnessReturns.
Context {T : Type} `{AT : Arith T}.

Lemma seatable_seated (this : Optimizer T) (rows cols vipRows : Z) (N : nat) (A : Chromosome) :
  0 <= rows -> seatable rows cols N A ->
  forall i, (i < N)%nat -> exists s, seatOf (makeVenue (T := T) rows cols vipRows) A i = Some s.
Proof.
  intros Hrows [-> | Hvalid] i Hi; [lia |].
  destruct (valid_seatOf this rows cols vipRows N A i Hrows Hvalid Hi) as (p & _ & _ & Hs).
  eexists. exact Hs.
Qed.

Variable v : Venue T.
Variable A : Chromosome.
Variable N : nat.
Hypothesis seated : forall i, (i < N)%nat -> exists s, seatOf v A i = Some s.

Lemma seated_distance_returns (i j : nat) :
  (i < N)%nat -> (j < N)%nat ->
  exists d, getSeatDistance (seatOf v A i) (seatOf v A j) = Ok d.
Proof using seated.
  intros Hi Hj. destruct (seated i Hi) as (si & ->). destruct (seated j Hj) as (sj & ->).
  simpl. eexists. reflexivity.
Qed.

Lemma friend_loop_returns (fs : list (nat * list nat)) (acc : T * T) :
  (forall e, In e fs -> (fst e < N)%nat /\ forall i, In i (snd e) -> (i < N)%nat) ->
  exists acc', foldlM (friendshipBody v A) acc fs = Ok acc'.
Proof using seated.
  intros Hfs.
  destruct (foldlM_total (fun _ => True) (friendshipBody v A) fs) with (b := acc)
    as (acc' & Hacc' & _); [| exact I | exists acc'; exact Hacc'].
  intros b e He _. destruct (Hfs e He) as [Hkey Hfriends]. unfold friendshipBody.
  apply (foldlM_total (fun _ => True)); [| exact I].
  intros b0 j Hj _. unfold friendBody.
  destruct (seated_distance_returns (fst e) j Hkey (Hfriends j Hj)) as (d & ->).
  simpl. eexists. split; [reflexivity | exact I].
Qed.

Lemma people_loop_returns (l : list (nat * Attendee T)) (acc : AttendeeAcc) :
  (forall e, In e l -> (fst e < N)%nat) ->
  exists acc', foldlM (attendeeBody v A) acc l = Ok acc'.
Proof using seated.
  intros Hl.
  destruct (foldlM_total (fun _ => True) (attendeeBody v A) l) with (b := acc)
    as (acc' & Hacc' & _); [| exact I | exists acc'; exact Hacc'].
  intros b e He _. unfold attendeeBody.
  destruct (seated (fst e) (Hl e He)) as (s & ->).
  simpl. eexists. split; [reflexivity | exact I].
Qed.

Lemma group_loop_returns (gs : list (string * list nat)) (acc : T * T) :
  (forall g i, In g gs -> In i (snd g) -> (i < N)%nat) ->
  exists acc', foldlM (groupBody v A) acc gs = Ok acc'.
Proof using seated.
  intros Hgs.
  destruct (foldlM_total (fun _ => True) (groupBody v A) gs) with (b := acc)
    as (acc' & Hacc' & _); [| exact I | exists acc'; exact Hacc'].
  intros b g Hg _. unfold groupBody.
  destruct (Z.of_nat (length (snd g)) <=? 1)%Z.
  - exists b. split; [reflexivity | exact I].
  - destruct (cohesionLoop_total (sortSeats (map (seatOf v A) (snd g))) 0) as (pts & -> & _);
      [| lia |].
    + apply sortSeats_defined. intros s Hs. apply in_map_iff in Hs.
      destruct Hs as (i & <- & Hi).
      destruct (seated i (Hgs g i Hg Hi)) as (s & ->). discriminate.
    + simpl. eexists. split; [reflexivity | exact I].
Qed.

End FitnessReturns.

Section FitnessReturns2.
Context {T : Type} `{AT : Arith T}.

Lemma enumerate_bound {A : Type} (l : list A) (e : nat * A) :
  In e (enumerate l) -> (fst e < length l)%nat.
Proof.
  destruct e as [i a]. intros He. apply In_enumerate in He.
  simpl. eapply lookup_lt_Some. exact He.
Qed.

Lemma calculateFitness_returns (this : Optimizer T) (rows cols vipRows : Z) (N : nat)
    (A : Chromosome) :
  wellFormed this rows cols vipRows N -> seatable rows cols N A ->
  exists f, calculateFitness this A = Ok f.
Proof.
  intros (Hv & Hrows & Hcols & Hlen & Hgroups & Hfriends) Hseat.
  pose proof (seatable_seated this rows cols vipRows N A Hrows Hseat) as Hseated.
  destruct (friend_loop_returns _ A N Hseated (friendships this) (ofZ 0, ofZ 0) Hfriends)
    as (friend & Hfriend).
  destruct (people_loop_returns _ A N Hseated (enumerate (attendees this)) attendeeAcc0)
    as (people & Hpeople).
  { intros e He. rewrite <- Hlen. apply enumerate_bound. exact He. }
  destruct (group_loop_returns _ A N Hseated (groups this) (ofZ 0, ofZ 0) Hgroups)
    as (group & Hgroup).
  eexists. unfold calculateFitness.
  rewrite (rawScores_returns this _ A friend group people Hv Hfriend Hpeople Hgroup).
  reflexivity.
Qed.

Lemma setAttendees_wellFormed (this0 : Optimizer T) (rows cols vipRows : Z)
    (raws : list (RawAttendee T)) :
  0 <= rows -> 0 <= cols ->
  wellFormed (setAttendees (setVenue this0 rows cols vipRows) raws) rows cols vipRows
             (length raws).
Proof.
  intros Hrows Hcols. split; [reflexivity |]. split; [exact Hrows |]. split; [exact Hcols |].
  split; [simpl; apply length_imap |]. split.
  - apply setAttendees_groups_bound.
  - apply setAttendees_friendships_bound.
Qed.

End FitnessReturns2.

(** ** [findWeakArea] returns, with indices of attendees *)

Section WeakArea.
Context {T : Type} `{AT : Arith T}.

Variable this : Optimizer T.
Variable v : Venue T.
Variable A : Chromosome.
Variable N : nat.
Hypothesis venue_set : venue this = Some v.
Hypothesis attendees_count : length (attendees this) = N.
Hypothesis seated : forall i, (i < N)%nat -> exists s, seatOf v A i = Some s.

Lemma theVenue_set : theVenue this = Ok v.
Proof using venue_set. unfold theVenue. rewrite venue_set. reflexivity. Qed.

Lemma regularInVipSeat_returns (js : list (nat * Attendee T)) :
  (forall e, In e js -> (fst e < N)%nat) ->
  exists r, regularInVipSeat this A js = Ok r /\ forall j, r = Some j -> (j < N)%nat.
Proof using venue_set seated.
  induction js as [| [j other] rest IH]; intros Hjs; simpl.
  - exists None. split; [reflexivity | discriminate].
  - assert (Hrest : forall e, In e rest -> (fst e < N)%nat)
      by (intros e He; apply Hjs; right; exact He).
    destruct (negb (isVipType other)); [| apply IH; exact Hrest].
    rewrite theVenue_set. simpl.
    destruct (seated j (Hjs (j, other) (or_introl eq_refl))) as (s & ->). simpl.
    destruct (isVip s); [| apply IH; exact Hrest].
    exists (Some j). split; [reflexivity |]. intros j' Hj'. injection Hj' as <-.
    apply (Hjs (j, other)). left. reflexivity.
Qed.

Lemma misplacedVip_returns (vips : list (nat * Attendee T)) :
  (forall e, In e vips -> (fst e < N)%nat) ->
  exists r, misplacedVip this A vips = Ok r
            /\ forall i j, r = Some (i, j) -> (i < N)%nat /\ (j < N)%nat.
Proof using venue_set attendees_count seated.
  induction vips as [| [i attendee] rest IH]; intros Hvips; simpl.
  - exists None. split; [reflexivity | discriminate].
  - assert (Hrest : forall e, In e rest -> (fst e < N)%nat)
      by (intros e He; apply Hvips; right; exact He).
    destruct (isVipType attendee); [| apply IH; exact Hrest].
    rewrite theVenue_set. simpl.
    destruct (seated i (Hvips (i, attendee) (or_introl eq_refl))) as (s & ->). simpl.
    destruct (negb (isVip s)); [| apply IH; exact Hrest].
    destruct (regularInVipSeat_returns (enumerate (attendees this))) as (r & -> & Hr).
    { intros e He. rewrite <- attendees_count. apply enumerate_bound. exact He. }
    simpl. destruct r as [j |]; [| apply IH; exact Hrest].
    exists (Some (i, j)). split; [reflexivity |].
    intros i' j' Heq. injection Heq as <- <-. split.
    + apply (Hvips (i, attendee)). left. reflexivity.
    + apply Hr. reflexivity.
Qed.

Lemma hasNeighbor_returns (memberIdx : nat) (others : list nat) :
  (memberIdx < N)%nat -> (forall i, In i others -> (i < N)%nat) ->
  exists b, hasNeighbor v A memberIdx others = Ok b.
Proof using seated.
  intros Hm. induction others as [| o rest IH]; intros Hothers; simpl.
  - exists false. reflexivity.
  - assert (Hrest : forall i, In i rest -> (i < N)%nat)
      by (intros i Hi; apply Hothers; right; exact Hi).
    destruct (Nat.eqb o memberIdx); [apply IH; exact Hrest |].
    destruct (seated memberIdx Hm) as (sm & ->).
    destruct (seated o (Hothers o (or_introl eq_refl))) as (so & ->). simpl.
    destruct (_ <=? 2)%Z; [exists true; reflexivity | apply IH; exact Hrest].
Qed.

Lemma adjacentOutsider_returns (members : list nat) (otherIdx : nat) (ks : list nat) :
  (otherIdx < N)%nat -> (forall k, In k ks -> (k < N)%nat) ->
  exists r, adjacentOutsider v A members otherIdx ks = Ok r
            /\ forall k, r = Some k -> (k < N)%nat.
Proof using seated.
  intros Ho. induction ks as [| k rest IH]; intros Hks; simpl.
  - exists None. split; [reflexivity | discriminate].
  - assert (Hrest : forall k0, In k0 rest -> (k0 < N)%nat)
      by (intros k0 Hk0; apply Hks; right; exact Hk0).
    destruct (negb (existsb (Nat.eqb k) members)); [| apply IH; exact Hrest].
    destruct (seated otherIdx Ho) as (so & ->).
    destruct (seated k (Hks k (or_introl eq_refl))) as (sk & ->). simpl.
    destruct (_ =? 1)%Z; [| apply IH; exact Hrest].
    exists (Some k). split; [reflexivity |]. intros k' Hk'. injection Hk' as <-.
    apply Hks. left. reflexivity.
Qed.

Lemma swapPartner_returns (members : list nat) (memberIdx : nat) (others : list nat) :
  (forall i, In i others -> (i < N)%nat) ->
  exists r, swapPartner this v A members memberIdx others = Ok r
            /\ forall k, r = Some k -> (k < N)%nat.
Proof using attendees_count seated.
  induction others as [| o rest IH]; intros Hothers; simpl.
  - exists None. split; [reflexivity | discriminate].
  - assert (Hrest : forall i, In i rest -> (i < N)%nat)
      by (intros i Hi; apply Hothers; right; exact Hi).
    destruct (Nat.eqb o memberIdx); [apply IH; exact Hrest |].
    destruct (adjacentOutsider_returns members o (seq 0 (length (attendees this))))
      as (r & -> & Hr).
    { apply Hothers. left. reflexivity. }
    { intros k Hk. apply in_seq in Hk. lia. }
    simpl. destruct r as [k |]; [| apply IH; exact Hrest].
    exists (Some k). split; [reflexivity |]. intros k' Hk'. injection Hk' as <-.
    apply Hr. reflexivity.
Qed.

Lemma isolatedMember_returns (members candidates : list nat) :
  (forall i, In i members -> (i < N)%nat) ->
  (forall i, In i candidates -> (i < N)%nat) ->
  exists r, isolatedMember this v A members candidates = Ok r
            /\ forall i k, r = Some (i, k) -> (i < N)%nat /\ (k < N)%nat.
Proof using attendees_count seated.
  intros Hmembers. induction candidates as [| m rest IH]; intros Hcand; simpl.
  - exists None. split; [reflexivity | discriminate].
  - assert (Hrest : forall i, In i rest -> (i < N)%nat)
      by (intros i Hi; apply Hcand; right; exact Hi).
    assert (Hm : (m < N)%nat) by (apply Hcand; left; reflexivity).
    destruct (hasNeighbor_returns m members Hm Hmembers) as (b & ->). simpl.
    destruct b; [apply IH; exact Hrest |].
    destruct (swapPartner_returns members m members Hmembers) as (r & -> & Hr). simpl.
    destruct r as [k |]; [| apply IH; exact Hrest].
    exists (Some (m, k)). split; [reflexivity |].
    intros i' k' Heq. injection Heq as <- <-. split; [exact Hm | apply Hr; reflexivity].
Qed.

Lemma weakGroup_returns (gs : list (string * list nat)) :
  (forall g i, In g gs -> In i (snd g) -> (i < N)%nat) ->
  exists r, weakGroup this A gs = Ok r
            /\ forall i k, r = Some (i, k) -> (i < N)%nat /\ (k < N)%nat.
Proof using venue_set attendees_count seated.
  induction gs as [| [name members] rest IH]; intros Hgs; simpl.
  - exists None. split; [reflexivity | discriminate].
  - assert (Hrest : forall g i, In g rest -> In i (snd g) -> (i < N)%nat)
      by (intros g i Hg; apply Hgs; right; exact Hg).
    destruct (length members <=? 1)%nat; [apply IH; exact Hrest |].
    rewrite theVenue_set. simpl.
    assert (Hmem : forall i, In i members -> (i < N)%nat)
      by (intros i Hi; apply (Hgs (name, members) i); [left; reflexivity | exact Hi]).
    destruct (isolatedMember_returns members members Hmem Hmem) as (r & -> & Hr). simpl.
    destruct r as [[i k] |]; [| apply IH; exact Hrest].
    exists (Some (i, k)). split; [reflexivity |].
    intros i' k' Heq. injection Heq as <- <-. apply Hr. reflexivity.
Qed.

Lemma findWeakArea_returns (f : Fitness T) :
  (forall g i, In g (groups this) -> In i (snd g) -> (i < N)%nat) ->
  exists r, findWeakArea this A f = Ok r
            /\ forall i k, r = Some (i, k) -> (i < N)%nat /\ (k < N)%nat.
Proof using venue_set attendees_count seated.
  intros Hgroups. unfold findWeakArea.
  assert (Hvip : exists r, (if nlt (vipPlacement f) (ofQ 0.8)
                            then misplacedVip this A (enumerate (attendees this))
                            else Ok None) = Ok r
                           /\ forall i j, r = Some (i, j) -> (i < N)%nat /\ (j < N)%nat).
  { destruct (nlt (vipPlacement f) (ofQ 0.8)).
    - apply misplacedVip_returns. intros e He. rewrite <- attendees_count.
      apply enumerate_bound. exact He.
    - exists None. split; [reflexivity | discriminate]. }
  destruct Hvip as (r & -> & Hr). simpl.
  destruct r as [[i j] |].
  - exists (Some (i, j)). split; [reflexivity | exact Hr].
  - destruct (nlt (groupCohesion f) (ofQ 0.7)).
    + apply weakGroup_returns. exact Hgroups.
    + exists None. split; [reflexivity | discriminate].
Qed.

End WeakArea.

(** ** The neighbours of simulated annealing *)

Section NeighborFacts.
Context {T : Type} `{AT : Arith T} `{ET : HasExp T}.

Lemma accepts_returns (delta temp : T) (s : list Q) :
  exists b s', accepts delta temp s = Ok (b, s').
Proof.
  unfold accepts. destruct (ngt delta (ofZ 0)).
  - exists true, s. reflexivity.
  - destruct (random_returns s) as (u & s' & Hu & _).
    eexists. exists s'. unfold mbind, rand_bind. rewrite Hu. reflexivity.
Qed.

Lemma randomSwap_seatable (rows cols : Z) (N : nat) (c : Chromosome) (s : list Q) :
  seatable rows cols N c ->
  exists c' s', randomSwap c s = Ok (c', s') /\ seatable rows cols N c'.
Proof.
  intros Hc. unfold randomSwap.
  destruct (randomIndex_returns (Z.of_nat (length c)) s) as (k1 & s1 & H1 & Hk1).
  destruct (randomIndex_returns (Z.of_nat (length c)) s1) as (k2 & s2 & H2 & Hk2).
  exists (swap c (Z.to_nat k1) (Z.to_nat k2)), s2. split.
  - rewrite (rand_bind_Ok _ _ _ _ _ H1), (rand_bind_Ok _ _ _ _ _ H2). reflexivity.
  - destruct Hc as [-> | Hvalid]; [left; reflexivity |].
    destruct N as [| N]; [left; reflexivity |]. right.
    pose proof (proj1 (validAssignment_alt _ _ _ _) Hvalid) as (Hlen & _).
    apply swap_valid; [exact Hvalid | |]; lia.
Qed.

Lemma neighborOf_seatable (this : Optimizer T) (rows cols vipRows : Z) (N : nat)
    (c : Chromosome) (f : Fitness T) (s : list Q) :
  wellFormed this rows cols vipRows N -> seatable rows cols N c ->
  exists c' s', neighborOf this c f s = Ok (c', s') /\ seatable rows cols N c'.
Proof.
  intros Hwf Hc. pose proof Hwf as (Hv & Hrows & Hcols & Hlen & Hgroups & Hfriends).
  unfold neighborOf.
  destruct (chance_returns 0.5 s) as (targeted & s1 & Htargeted).
  rewrite (rand_bind_Ok _ _ _ _ _ Htargeted).
  destruct targeted; [| apply randomSwap_seatable; exact Hc].
  destruct (findWeakArea_returns this (makeVenue rows cols vipRows) c N Hv Hlen
              (seatable_seated this rows cols vipRows N c Hrows Hc) f Hgroups)
    as (r & Hr & Hbound).
  unfold mbind, rand_bind, liftO. rewrite Hr.
  destruct r as [[i j] |]; [| apply randomSwap_seatable; exact Hc].
  exists (swap c i j), s1. split; [reflexivity |].
  destruct (Hbound i j eq_refl) as [Hi Hj].
  destruct Hc as [-> | Hvalid]; [lia |].
  right. apply swap_valid; assumption.
Qed.

End NeighborFacts.

(** ** C1: what the operators do to a valid assignment *)

Lemma nlt_real (a b : R) : nlt a b = true <-> (a < b)%R.
Proof.
  simpl. destruct (Rlt_dec a b) as [H | H]; split; intros H'; try assumption;
    try reflexivity; try discriminate. contradiction.
Qed.

Section BlockSwapDefect.

(** With the default mutation rate the rate test passes for a draw of
    0.01 in every generation. *)
Lemma default_rate_test (this : Optimizer R) :
  mutationRate (config this) = ofQ 0.15 ->
  nlt (ofQ (frac 0.01)) (adaptiveRate this) = true.
Proof.
  intros Hrate. apply nlt_real. unfold adaptiveRate. rewrite Hrate.
  change (frac 0.01) with (1 # 100)%Q. unfold ofQ. simpl.
  pose proof (exp_pos (IZR (- currentGeneration this) / 20)) as Hexp.
  unfold nexp, RExp. lra.
Qed.

(** C1 fails in [mutate] (browser).  Three attendees on a 2x2 venue,
    assignment [0, 1, 2]; the draws select the swap of positions 0 and 1,
    then a block swap of length 6 with start offsets -2 and -1, both
    outside the array.  The result has five entries, three of them
    [undefined]: it is not an assignment of three distinct seats. *)
Theorem mutate_block_swap_breaks_small_assignment :
  validAssignment 2 2 3 [Some 0; Some 1; Some 2]
  /\ mutate (threeGuests (T := R)) (fresh [Some 0; Some 1; Some 2])
            [0.01; 0.1; 0.4; 0.2; 0.9; 0.5; 0.2]%Q
     = Ok ({| elems := [Some 0; Some 2; None; None; None];
              props := [(-2, None); (-1, Some 1)] |}, [])
  /\ ~ validAssignment 2 2 3 [Some 0; Some 2; None; None; None].
Proof.
  split; [apply isValidAssignment_sound; reflexivity |]. split.
  - unfold mutate.
    rewrite (rand_bind_Ok _ _ [0.01; 0.1; 0.4; 0.2; 0.9; 0.5; 0.2]%Q
               [0.1; 0.4; 0.2; 0.9; 0.5; 0.2]%Q (frac 0.01) eq_refl).
    rewrite (default_rate_test (threeGuests (T := R)) ltac:(reflexivity)).
    vm_compute. reflexivity.
  - intros Hvalid. apply validAssignment_alt in Hvalid.
    destruct Hvalid as (Hlen & _). discriminate.
Qed.

End BlockSwapDefect.

(** * Further properties of the optimizer *)

(** ** [calculateFitness]: when it returns and what it throws *)

Lemma returnsOrTypeError_bind {A B : Type} (m : Outcome A) (f : A -> Outcome B) :
  returnsOrTypeError m -> (forall a, m = Ok a -> returnsOrTypeError (f a)) ->
  returnsOrTypeError (m ≫= f).
Proof.
  destruct m as [a | e |]; simpl; intros Hm Hf.
  - apply Hf. reflexivity.
  - exact Hm.
  - exact Hm.
Qed.

Lemma returnsOrTypeError_foldlM {A B : Type} (f : B -> A -> Outcome B) (l : list A) :
  (forall b a, In a l -> returnsOrTypeError (f b a)) ->
  forall b, returnsOrTypeError (foldlM f b l).
Proof.
  induction l as [| a l IH]; intros Hf b; simpl; [exact I |].
  apply returnsOrTypeError_bind.
  - apply Hf. left. reflexivity.
  - intros b' _. apply IH. intros b0 a0 Hin. apply Hf. right. exact Hin.
Qed.

(** A loop that returns has run its body, with a result, on every element. *)
Lemma foldlM_Ok_body {A B : Type} (f : B -> A -> Outcome B) (l : list A) :
  forall b b', foldlM f b l = Ok b' ->
  forall a, In a l -> exists b0 b1, f b0 a = Ok b1.
Proof.
  induction l as [| a0 l IH]; intros b b' Hrun a Hin; [destruct Hin |].
  simpl in Hrun. inv_bind Hrun. destruct Hin as [<- | Hin].
  - exists b, x. exact Hx.
  - eapply IH; eassumption.
Qed.

Section FitnessErrors.
Context {T : Type} `{AT : Arith T}.

Lemma getSeatDistance_benign (s1 s2 : option (Seat T)) :
  returnsOrTypeError (getSeatDistance s1 s2).
Proof. destruct s1, s2; simpl; auto. Qed.

Lemma theSeat_benign (s : option (Seat T)) : returnsOrTypeError (theSeat s).
Proof. destruct s; simpl; auto. Qed.

Lemma cohesionLoop_benign (l : list (option (Seat T))) :
  forall pts, returnsOrTypeError (cohesionLoop pts l).
Proof.
  induction l as [| si rest IH]; intros pts; simpl; [exact I |].
  apply returnsOrTypeError_bind.
  - apply returnsOrTypeError_foldlM. intros p sj _.
    apply returnsOrTypeError_bind; [apply getSeatDistance_benign | intros; exact I].
  - intros pts' _. apply IH.
Qed.

Lemma rawScores_benign (this : Optimizer T) (A : Chromosome) :
  returnsOrTypeError (rawScores this A).
Proof.
  unfold rawScores. apply returnsOrTypeError_bind.
  { unfold theVenue. destruct (venue this); simpl; auto. }
  intros v _. apply returnsOrTypeError_bind.
  { apply returnsOrTypeError_foldlM. intros b e _. unfold friendshipBody.
    apply returnsOrTypeError_foldlM. intros b0 j _. unfold friendBody.
    apply returnsOrTypeError_bind; [apply getSeatDistance_benign | intros; exact I]. }
  intros friend _. apply returnsOrTypeError_bind.
  { apply returnsOrTypeError_foldlM. intros b e _. unfold attendeeBody.
    apply returnsOrTypeError_bind; [apply theSeat_benign | intros; exact I]. }
  intros people _. apply returnsOrTypeError_bind; [| intros; exact I].
  apply returnsOrTypeError_foldlM. intros b g _. unfold groupBody.
  destruct (_ <=? 1)%Z; [exact I |].
  apply returnsOrTypeError_bind; [apply cohesionLoop_benign | intros; exact I].
Qed.

Lemma seatAt_defined (rows cols vipRows : Z) (g : option Z) :
  0 <= rows -> 0 <= cols ->
  (exists s, seatAt (T := T) (makeVenue rows cols vipRows) g = Some s)
  <-> exists p, g = Some p /\ 0 <= p < rows * cols.
Proof.
  intros Hrows Hcols. split.
  - intros (s & Hs). destruct g as [p |]; [| discriminate]. simpl in Hs.
    destruct (Z.ltb_spec p 0) as [Hneg | Hpos]; [discriminate |].
    exists p. split; [reflexivity |]. split; [exact Hpos |].
    apply lookup_lt_Some in Hs.
    pose proof (length_buildSeats (T := T) rows cols vipRows Hrows Hcols). lia.
  - intros (p & -> & Hp). simpl.
    destruct (Z.ltb_spec p 0) as [Hneg | _]; [lia |].
    eexists. apply buildSeats_position; assumption.
Qed.

Lemma calculateFitness_returns_seated (this : Optimizer T) (rows cols vipRows : Z)
    (N : nat) (A : Chromosome) :
  wellFormed this rows cols vipRows N ->
  (forall i, (i < N)%nat -> exists s, seatOf (makeVenue (T := T) rows cols vipRows) A i = Some s) ->
  exists f, calculateFitness this A = Ok f.
Proof.
  intros (Hv & Hrows & Hcols & Hlen & Hgroups & Hfriends) Hseated.
  destruct (friend_loop_returns _ A N Hseated (friendships this) (ofZ 0, ofZ 0) Hfriends)
    as (friend & Hfriend).
  destruct (people_loop_returns _ A N Hseated (enumerate (attendees this)) attendeeAcc0)
    as (people & Hpeople).
  { intros e He. rewrite <- Hlen. apply enumerate_bound. exact He. }
  destruct (group_loop_returns _ A N Hseated (groups this) (ofZ 0, ofZ 0) Hgroups)
    as (group & Hgroup).
  eexists. unfold calculateFitness.
  rewrite (rawScores_returns this _ A friend group people Hv Hfriend Hpeople Hgroup).
  reflexivity.
Qed.

Lemma calculateFitness_benign (this : Optimizer T) (A : Chromosome) :
  returnsOrTypeError (calculateFitness this A).
Proof.
  pose proof (rawScores_benign this A) as Hb.
  unfold calculateFitness. destruct (rawScores this A) as [s | e |]; simpl in *;
    [exact I | exact Hb | exact Hb].
Qed.

Lemma calculateFitness_Ok_seated (this : Optimizer T) (rows cols vipRows : Z)
    (N : nat) (A : Chromosome) (f : Fitness T) :
  wellFormed this rows cols vipRows N -> calculateFitness this A = Ok f ->
  forall i, (i < N)%nat -> geneInRange rows cols A i.
Proof.
  intros (Hv & Hrows & Hcols & Hlen & Hgroups & Hfriends) Hf i Hi.
  unfold calculateFitness in Hf.
  apply bind_Ok_inv in Hf. destruct Hf as (sc & Hsc & _).
  unfold rawScores, theVenue in Hsc. rewrite Hv in Hsc. cbn [mbind outcome_bind] in Hsc.
  apply bind_Ok_inv in Hsc. destruct Hsc as (friend & _ & Hsc).
  apply bind_Ok_inv in Hsc. destruct Hsc as (people & Hpeople & _).
  destruct (lookup_lt_is_Some_2 (attendees this) i ltac:(lia)) as (a & Ha).
  assert (Hin : In (i, a) (enumerate (attendees this))).
  { apply list_elem_of_In. unfold enumerate. apply elem_of_lookup_imap.
    exists i, a. split; [reflexivity | exact Ha]. }
  destruct (foldlM_Ok_body _ _ _ _ Hpeople _ Hin) as (b0 & b1 & Hbody).
  unfold attendeeBody in Hbody.
  apply bind_Ok_inv in Hbody. destruct Hbody as (seat & Hseat & _).
  cbn [fst] in Hseat. unfold theSeat, seatOf in Hseat.
  destruct (seatAt (makeVenue rows cols vipRows) (geneAt A i)) as [s |] eqn:Hs;
    [| discriminate].
  apply (seatAt_defined rows cols vipRows (geneAt A i) Hrows Hcols). exists s. exact Hs.
Qed.

(** X1.  On a well-formed optimizer object, [calculateFitness] returns a record
    exactly when every attendee index holds a seat position of the venue;
    in every other case it throws a [TypeError]. *)
Theorem calculateFitness_returns_iff_seated (this : Optimizer T) (rows cols vipRows : Z)
    (N : nat) (A : Chromosome) :
  wellFormed this rows cols vipRows N ->
  ((exists f, calculateFitness this A = Ok f)
   <-> forall i, (i < N)%nat -> geneInRange rows cols A i)
  /\ ((forall f, calculateFitness this A <> Ok f) -> calculateFitness this A = Throw TypeError).
Proof.
  intros Hwf. pose proof Hwf as (Hv & Hrows & Hcols & Hlen & Hgroups & Hfriends).
  split; [split |].
  - intros (f & Hf). exact (calculateFitness_Ok_seated this rows cols vipRows N A f Hwf Hf).
  - intros Hall. apply (calculateFitness_returns_seated this rows cols vipRows N A Hwf).
    intros i Hi. apply (seatAt_defined rows cols vipRows _ Hrows Hcols). apply Hall. exact Hi.
  - intros Hnone. pose proof (calculateFitness_benign this A) as Hb.
    destruct (calculateFitness this A) as [f | e |]; simpl in Hb.
    + exfalso. eapply Hnone. reflexivity.
    + rewrite Hb. reflexivity.
    + destruct Hb.
Qed.

End FitnessErrors.

Lemma calculateFitness_returns_iff_seated_witness :
  (exists f, calculateFitness (threeGuests (T := R)) [Some 0; Some 3; Some 2] = Ok f)
  /\ calculateFitness (threeGuests (T := R)) [Some 0; Some 4; Some 2] = Throw TypeError.
Proof.
  assert (Hwf : wellFormed (threeGuests (T := R)) 2 2 1 3).
  { exact (setAttendees_wellFormed (constructor noConfig) 2 2 1
             (replicate 3 (person "regular" None 5)) ltac:(lia) ltac:(lia)). }
  split.
  - apply (proj1 (calculateFitness_returns_iff_seated threeGuests 2 2 1 3
                    [Some 0; Some 3; Some 2] Hwf)).
    intros i Hi. destruct i as [| [| [| i]]]; [| | | lia];
      eexists; (split; [reflexivity | lia]).
  - apply (proj2 (calculateFitness_returns_iff_seated threeGuests 2 2 1 3
                    [Some 0; Some 4; Some 2] Hwf)).
    intros f Hf.
    destruct (proj1 (proj1 (calculateFitness_returns_iff_seated threeGuests 2 2 1 3
                              [Some 0; Some 4; Some 2] Hwf)) (ex_intro _ f Hf) 1%nat ltac:(lia))
      as (p & Hp & Hrange).
    injection Hp as <-. lia.
Defined.


(** ** [setVenue]: the seat table *)

Section SeatTable.
Context {T : Type} `{AT : Arith T}.

(** X3.  The table built by [setVenue] has one seat per pair of a row and a
    column, in row-major order: the seat at index [p] has [position = p],
    a row and a column inside the venue with [row * cols + col = p], and it
    is a VIP seat exactly when its row is below [vipRows].  A negative
    [rows] or [cols] gives an empty table. *)
Theorem setVenue_seat_table (this : Optimizer T) (rows cols vipRows : Z) :
  let seatTable := seats (makeVenue (T := T) rows cols vipRows) in
  venue (setVenue this rows cols vipRows) = Some (makeVenue rows cols vipRows)
  /\ length seatTable = (Z.to_nat rows * Z.to_nat cols)%nat
  /\ forall (p : nat) (seat : Seat T), seatTable !! p = Some seat ->
       position seat = Z.of_nat p
       /\ 0 <= row seat < rows /\ 0 <= col seat < cols
       /\ row seat * cols + col seat = Z.of_nat p
       /\ isVip seat = (row seat <? vipRows).
Proof.
  intros seatTable. split; [reflexivity |].
  assert (Hlen : length seatTable = (Z.to_nat rows * Z.to_nat cols)%nat).
  { unfold seatTable. simpl. unfold buildSeats.
    rewrite (flat_map_constant_length (c := Z.to_nat cols)).
    - rewrite length_seqZ. lia.
    - intros r _. rewrite length_map, length_seqZ. reflexivity. }
  split; [exact Hlen |].
  intros p seat Hp. pose proof (lookup_lt_Some _ _ _ Hp) as Hlt. rewrite Hlen in Hlt.
  set (k := Z.to_nat cols) in *.
  assert (Hk : (0 < k)%nat) by (destruct k; [lia | lia]).
  pose proof (Nat.div_mod_eq p k) as Hdm.
  pose proof (Nat.mod_upper_bound p k ltac:(lia)) as Hmod.
  assert (Hdiv : (p / k < Z.to_nat rows)%nat)
    by (apply Nat.Div0.div_lt_upper_bound; lia).
  unfold seatTable in Hp. simpl in Hp. unfold buildSeats in Hp.
  replace p with (p / k * k + p mod k)%nat in Hp at 1 by lia.
  rewrite (flat_map_lookup _ k _) with (a := Z.of_nat (p / k)) in Hp.
  - rewrite lookup_map in Hp.
    assert (Hc : seqZ 0 cols !! (p mod k)%nat = Some (Z.of_nat (p mod k)))
      by (apply lookup_seqZ; split; lia).
    rewrite Hc in Hp. simpl in Hp. injection Hp as <-. simpl.
    assert (Hcols : Z.of_nat k = cols) by lia.
    repeat split; try lia; try nia.
  - intros a. rewrite length_map, length_seqZ. reflexivity.
  - apply lookup_seqZ. split; lia.
  - exact Hmod.
Qed.

End SeatTable.

(** ** [getSeatingPlan]: seat identifiers *)

Lemma digitsOf_inj (d1 d2 : Decimal.uint) : digitsOf d1 = digitsOf d2 -> d1 = d2.
Proof.
  revert d2. induction d1 as [| d1 IH | d1 IH | d1 IH | d1 IH | d1 IH | d1 IH | d1 IH
                               | d1 IH | d1 IH | d1 IH];
    intros d2 H; destruct d2; simpl in H; try discriminate; try reflexivity;
    injection H as H; f_equal; apply IH; exact H.
Qed.

Lemma digitsOf_digit (d : Decimal.uint) (x : Z) : In x (digitsOf d) -> 48 <= x <= 57.
Proof.
  induction d; simpl; intros H; try (destruct H as [<- | H]; [lia | apply IHd; exact H]).
  destruct H.
Qed.

Lemma numberToString_inj (z1 z2 : Z) : numberToString z1 = numberToString z2 -> z1 = z2.
Proof.
  unfold numberToString. intros H.
  rewrite <- (DecimalZ.of_to z1), <- (DecimalZ.of_to z2).
  destruct (Z.to_int z1) as [d1 | d1], (Z.to_int z2) as [d2 | d2].
  - apply digitsOf_inj in H. rewrite H. reflexivity.
  - exfalso. destruct d1; simpl in H; try discriminate;
      injection H as H _; discriminate.
  - exfalso. destruct d2; simpl in H; try discriminate;
      injection H as H _; discriminate.
  - injection H as H. apply digitsOf_inj in H. rewrite H. reflexivity.
Qed.

Section SeatIds.
Context {T : Type} `{AT : Arith T}.

(** X4.  [seatId] identifies the seat: below row 65471 (where the character
    code 65 + row wraps around 2^16), two seats with the same [seatId] have
    the same row and column.  The row label is a capital letter A..Z
    exactly for the rows 0 to 25. *)
Theorem seatId_identifies_seat (s1 s2 : Seat T) :
  0 <= row s1 < 65471 -> 0 <= row s2 < 65471 ->
  (ps_seatId (planSeat s1) = ps_seatId (planSeat s2) -> row s1 = row s2 /\ col s1 = col s2)
  /\ ((exists code, ps_rowLabel (planSeat s1) = [code] /\ 65 <= code <= 90) <-> row s1 < 26).
Proof.
  intros H1 H2. split.
  - unfold planSeat, fromCharCode. simpl. intros H. injection H as Hrow Hcol.
    apply numberToString_inj in Hcol.
    rewrite !Z.mod_small in Hrow by lia. lia.
  - unfold planSeat, fromCharCode. simpl. rewrite Z.mod_small by lia. split.
    + intros (code & Hcode & Hrange). injection Hcode as <-. lia.
    + intros Hrow. exists (65 + row s1). split; [reflexivity | lia].
Qed.

End SeatIds.

(** ** [updateWeights]: normalization *)

Section WeightNormalization.
Local Open Scope R_scope.

Lemma updateWeights_unit (this : Optimizer R) (friend vip group distance : R) :
  friend + vip + group + distance <> 0 ->
  exists this' : Optimizer R,
    updateWeights this friend vip group distance = Ok this'
    /\ totalWeight (weights (config this')) = 1
    /\ w_friendProximity (weights (config this')) * (friend + vip + group + distance) = friend
    /\ w_vipPlacement (weights (config this')) * (friend + vip + group + distance) = vip
    /\ w_groupCohesion (weights (config this')) * (friend + vip + group + distance) = group
    /\ w_stageDistance (weights (config this')) * (friend + vip + group + distance) = distance.
Proof.
  intros Hsum. eexists. split; [reflexivity |]. simpl. unfold totalWeight. simpl.
  split; [field; exact Hsum |].
  repeat (split; [field; exact Hsum |]). field; exact Hsum.
Qed.

(** X6.  In real arithmetic, [updateWeights] with a non-zero sum stores weights
    that are the arguments divided by their sum and add up to 1, and
    touches nothing else; non-negative arguments give weights in [0, 1]. *)
Theorem updateWeights_normalizes (this : Optimizer R) (friend vip group distance : R) :
  friend + vip + group + distance <> 0 ->
  exists this' : Optimizer R,
    updateWeights this friend vip group distance = Ok this'
    /\ totalWeight (weights (config this')) = 1
    /\ w_friendProximity (weights (config this')) * (friend + vip + group + distance) = friend
    /\ w_vipPlacement (weights (config this')) * (friend + vip + group + distance) = vip
    /\ w_groupCohesion (weights (config this')) * (friend + vip + group + distance) = group
    /\ w_stageDistance (weights (config this')) * (friend + vip + group + distance) = distance
    /\ (0 <= friend -> 0 <= vip -> 0 <= group -> 0 <= distance ->
        0 <= w_friendProximity (weights (config this')) <= 1
        /\ 0 <= w_vipPlacement (weights (config this')) <= 1
        /\ 0 <= w_groupCohesion (weights (config this')) <= 1
        /\ 0 <= w_stageDistance (weights (config this')) <= 1)
    /\ venue this' = venue this /\ attendees this' = attendees this
    /\ groups this' = groups this /\ friendships this' = friendships this
    /\ bestSolution this' = bestSolution this /\ fitnessHistory this' = fitnessHistory this.
Proof.
  intros Hsum.
  destruct (updateWeights_unit this friend vip group distance Hsum)
    as (this' & Hup & Htotal & Hwf & Hwv & Hwg & Hwd).
  exists this'. split; [exact Hup |]. split; [exact Htotal |].
  repeat (split; [assumption |]).
  unfold updateWeights in Hup. injection Hup as <-.
  split; [| repeat split].
  intros Hf Hv Hg Hd. cbn [config weights withWeights w_friendProximity w_vipPlacement
                           w_groupCohesion w_stageDistance nadd ndiv RArith].
  assert (Hpos : 0 < friend + vip + group + distance) by lra.
  repeat split; try (apply Rdiv_unit; lra).
Qed.

End WeightNormalization.

Lemma seatId_identifies_seat_witness :
  ps_seatId (planSeat (T := R) (makeSeat 4 1 2 3)) <> ps_seatId (planSeat (T := R) (makeSeat 4 1 3 2)).
Proof.
  intros Heq.
  pose proof (seatId_identifies_seat (T := R) (makeSeat 4 1 2 3) (makeSeat 4 1 3 2)
                ltac:(simpl; lia) ltac:(simpl; lia)) as H.
  destruct (proj1 H Heq) as [Hrow _]. simpl in Hrow. lia.
Defined.

Lemma updateWeights_normalizes_witness :
  exists this' : Optimizer R,
    updateWeights twoGroups 30%R 25%R 25%R 20%R = Ok this'
    /\ totalWeight (weights (config this')) = 1%R.
Proof.
  destruct (updateWeights_normalizes twoGroups 30%R 25%R 25%R 20%R ltac:(lra)) as (this' & Hup & Htotal & _).
  exists this'. split; [exact Hup | exact Htotal].
Defined.


(** ** Normalized weights and the fitness scores *)

Section RealFitnessAfterWeights.
Local Open Scope R_scope.

Lemma withWeights_wellFormed (this : Optimizer R) (w : Weights R) (rows cols vipRows : Z) (N : nat) :
  wellFormed this rows cols vipRows N -> wellFormed (withWeights this w) rows cols vipRows N.
Proof. intros H. exact H. Qed.

Lemma fitness_bounds_wellFormed (this : Optimizer R) (rows cols vipRows : Z) (N : nat)
    (A : Chromosome) :
  wellFormed this rows cols vipRows N ->
  (forall e, In e (enumerate (attendees this)) -> 0 <= a_priority (snd e)) ->
  0 <= w_friendProximity (weights (config this)) ->
  0 <= w_vipPlacement (weights (config this)) ->
  0 <= w_groupCohesion (weights (config this)) ->
  0 <= w_stageDistance (weights (config this)) ->
  0 < totalWeight (weights (config this)) ->
  validAssignment rows cols N A ->
  exists f : Fitness R,
    calculateFitness this A = Ok f
    /\ 0 <= friendProximity f <= 1 /\ 0 <= vipPlacement f <= 1
    /\ 0 <= groupCohesion f <= 1 /\ 0 <= stageDistance f <= 1
    /\ 0 <= total f <= 1.
Proof.
  intros (Hv & Hrows & Hcols & Hlen & Hgroups & Hfriends) Hprio Hwf Hwv Hwg Hws Hsum Hvalid.
  set (v := makeVenue (T := R) rows cols vipRows).
  assert (Hseated : forall i, (i < N)%nat ->
            exists s, seatOf v A i = Some s /\ 0 <= distanceToStage s /\ (0 <= row s)%Z).
  { intros i Hi.
    destruct (valid_seatOf this rows cols vipRows _ A i Hrows Hvalid Hi) as (p & _ & Hp & Hs).
    eexists. split; [exact Hs |]. simpl. split; [apply sqrt_pos |].
    apply Z.div_pos; nia. }
  destruct (friend_loop_bounds v A N Hseated (friendships this) (0, 0) Hfriends
              ltac:(simpl; lra)) as (friend & Hfriend & Hfb).
  assert (Hacc0 : 0 <= vipPlacementScore (attendeeAcc0 (T := R)) <= maxVipScore attendeeAcc0
                  /\ 0 <= stageDistanceScore (attendeeAcc0 (T := R)) <= maxDistanceScore attendeeAcc0)
    by (unfold attendeeAcc0; simpl; lra).
  assert (Hpeople' : forall e, In e (enumerate (attendees this)) ->
            (fst e < N)%nat /\ 0 <= a_priority (snd e)).
  { intros e He. split; [| apply Hprio; exact He].
    rewrite <- Hlen. apply enumerate_bound. exact He. }
  destruct (people_loop_bounds v A N Hseated (enumerate (attendees this))
              attendeeAcc0 (maxVenueDist_positive rows cols vipRows Hrows) Hpeople' Hacc0)
    as (people & Hpeople & Hvb & Hsb).
  destruct (group_loop_bounds v A N Hseated (groups this) (0, 0) Hgroups
              ltac:(simpl; lra)) as (group & Hgroup & Hgb).
  eexists. split.
  - unfold calculateFitness.
    rewrite (rawScores_returns this v A friend group people Hv Hfriend Hpeople Hgroup).
    reflexivity.
  - pose proof (normalize_bounds _ _ Hfb) as Hnf.
    pose proof (normalize_bounds _ _ Hvb) as Hnv.
    pose proof (normalize_bounds _ _ Hgb) as Hng.
    pose proof (normalize_bounds _ _ Hsb) as Hns.
    cbn [friendProximity vipPlacement groupCohesion stageDistance total fitnessOfScores
         rs_friend rs_people rs_group].
    repeat (split; [assumption |]).
    apply weightedTotal_bounds; assumption.
Qed.

(** X7.  The sequence of the browser application: [setVenue], [setAttendees],
    then [updateWeights] with non-negative arguments that are not all zero.
    In real arithmetic, every valid assignment then has its four sub-scores
    and its total in [0, 1], and the total is the mean of the sub-scores
    weighted by the arguments. *)
Theorem fitness_after_updateWeights (this0 : Optimizer R) (rows cols vipRows : Z)
    (raws : list (RawAttendee R)) (friend vip group distance : R) (A : Chromosome) :
  (0 <= rows)%Z -> (0 <= cols)%Z ->
  (forall a p, In a raws -> ra_priority a = Some p -> 0 <= p) ->
  0 <= friend -> 0 <= vip -> 0 <= group -> 0 <= distance ->
  0 < friend + vip + group + distance ->
  validAssignment rows cols (length raws) A ->
  exists (this' : Optimizer R) (f : Fitness R),
    updateWeights (setAttendees (setVenue this0 rows cols vipRows) raws)
                  friend vip group distance = Ok this'
    /\ calculateFitness this' A = Ok f
    /\ 0 <= friendProximity f <= 1 /\ 0 <= vipPlacement f <= 1
    /\ 0 <= groupCohesion f <= 1 /\ 0 <= stageDistance f <= 1
    /\ 0 <= total f <= 1
    /\ total f * (friend + vip + group + distance)
       = friendProximity f * friend + vipPlacement f * vip
         + groupCohesion f * group + stageDistance f * distance.
Proof.
  intros Hrows Hcols Hprio Hf Hv Hg Hd Hsum Hvalid.
  destruct (updateWeights_unit (setAttendees (setVenue this0 rows cols vipRows) raws)
              friend vip group distance ltac:(lra))
    as (this' & Hup & Htotal & Hwf & Hwv & Hwg & Hwd).
  assert (Hpos : 0 < friend + vip + group + distance) by lra.
  assert (Hf1 : 0 <= w_friendProximity (weights (config this'))) by nra.
  assert (Hv1 : 0 <= w_vipPlacement (weights (config this'))) by nra.
  assert (Hg1 : 0 <= w_groupCohesion (weights (config this'))) by nra.
  assert (Hd1 : 0 <= w_stageDistance (weights (config this'))) by nra.
  assert (Hwell : wellFormed this' rows cols vipRows (length raws)).
  { unfold updateWeights in Hup. injection Hup as <-. apply withWeights_wellFormed.
    apply setAttendees_wellFormed; assumption. }
  assert (Hattendees : attendees this' = imap storeAttendee raws).
  { unfold updateWeights in Hup. injection Hup as <-. reflexivity. }
  destruct (fitness_bounds_wellFormed this' rows cols vipRows (length raws) A Hwell)
    as (f & Hfit & Hb1 & Hb2 & Hb3 & Hb4 & Hb5); try lra; try assumption.
  { rewrite Hattendees. intros e He. apply (stored_priority_nonneg raws Hprio e He). }
  exists this', f. split; [exact Hup |]. split; [exact Hfit |].
  repeat (split; [assumption |]).
  unfold calculateFitness in Hfit.
  apply bind_Ok_inv in Hfit. destruct Hfit as (sc & _ & Hfit). injection Hfit as <-.
  cbn [total friendProximity vipPlacement groupCohesion stageDistance fitnessOfScores].
  unfold weightedTotal. rewrite Htotal.
  set (nf := normalize _ _). set (nv := normalize _ _).
  set (ng := normalize _ _). set (nd := normalize _ _).
  simpl nadd. simpl nmul. simpl ndiv.
  match goal with
  | |- ?l = _ =>
      transitivity
        (nf * (w_friendProximity (weights (config this')) * (friend + vip + group + distance))
         + nv * (w_vipPlacement (weights (config this')) * (friend + vip + group + distance))
         + ng * (w_groupCohesion (weights (config this')) * (friend + vip + group + distance))
         + nd * (w_stageDistance (weights (config this')) * (friend + vip + group + distance)));
      [field |]
  end.
  rewrite Hwf, Hwv, Hwg, Hwd. reflexivity.
Qed.

End RealFitnessAfterWeights.

Lemma fitness_after_updateWeights_witness :
  exists (this' : Optimizer R) (f : Fitness R),
    updateWeights twoGroups 3%R 1%R 0%R 0%R = Ok this'
    /\ calculateFitness this' [Some 0; Some 1; Some 4; Some 8] = Ok f
    /\ (0 <= total f <= 1)%R
    /\ (total f * (3 + 1 + 0 + 0) = friendProximity f * 3 + vipPlacement f * 1
                                    + groupCohesion f * 0 + stageDistance f * 0)%R.
Proof.
  destruct (fitness_after_updateWeights (constructor noConfig) 3 3 1
              [person "vip" (Some "a") 10; person "regular" (Some "a") 5;
               person "regular" (Some "b") 5; person "regular" (Some "b") 5]
              3%R 1%R 0%R 0%R [Some 0; Some 1; Some 4; Some 8])
    as (this' & f & Hup & Hfit & _ & _ & _ & _ & Htotal & Hmean);
    try lia; try lra.
  - intros a p Ha Hp. simpl in Ha.
    destruct Ha as [<- | [<- | [<- | [<- | []]]]]; injection Hp as <-; simpl; lra.
  - apply (isValidAssignment_sound 3 3 4 [Some 0; Some 1; Some 4; Some 8]). reflexivity.
  - exists this', f. repeat split; try assumption; apply Htotal.
Defined.


(** ** The generation loop: cancellation and the length of the history *)

Section Cancellation.
Context {T : Type} `{AT : Arith T} `{ET : HasExp T}.

Lemma updateBest_fields (population : list Chromosome) (fitnessValues : list (Fitness T)) :
  forall this : Optimizer T,
    fitnessHistory (updateBest this population fitnessValues) = fitnessHistory this
    /\ isRunning (updateBest this population fitnessValues) = isRunning this
    /\ config (updateBest this population fitnessValues) = config this
    /\ (bestSolution this <> None ->
        bestSolution (updateBest this population fitnessValues) <> None).
Proof.
  unfold updateBest. generalize (zip population fitnessValues) as l.
  induction l as [| cf l IH]; intros this; simpl; [auto |].
  destruct (total (snd cf) >? bestTotal (bestFitness this))%num.
  - destruct (IH (withBest this (fst cf) (snd cf))) as (H1 & H2 & H3 & H4).
    rewrite H1, H2, H3. repeat split; try reflexivity.
    intros _. apply H4. discriminate.
  - apply IH.
Qed.

Lemma generationWith_returns
    (offspringFn : Optimizer T -> list Chromosome -> list (Fitness T) -> Rand (Chromosome * Chromosome))
    (fitnessFn : Optimizer T -> Chromosome -> Outcome (Fitness T))
    (this : Optimizer T) (gen : Z) (population : list Chromosome)
    (fitnessValues : list (Fitness T)) (s : list Q) (this' : Optimizer T)
    (r : list Chromosome * list (Fitness T) * list Q) :
  generationWith offspringFn fitnessFn this gen population fitnessValues s = (this', Ok r) ->
  isRunning this' = isRunning this
  /\ length (fitnessHistory this') = S (length (fitnessHistory this))
  /\ config this' = config this
  /\ (bestSolution this <> None -> bestSolution this' <> None).
Proof.
  unfold generationWith.
  match goal with |- context [match ?x with _ => _ end] => destruct x as [[[bred values] s'] | e |] end;
    intros H; [| discriminate | discriminate].
  injection H as <- _.
  destruct (updateBest_fields bred values (withGeneration this gen)) as (H1 & H2 & H3 & H4).
  unfold pushHistory. simpl. rewrite length_app, H1, H2, H3. simpl.
  repeat split; try reflexivity; try lia. exact H4.
Qed.

Lemma afterGeneration_fields (env : Env) (gen : Z) (this : Optimizer T) :
  isRunning (afterGeneration env gen this) = isRunning this && negb (stopsAt env gen)
  /\ fitnessHistory (afterGeneration env gen this) = fitnessHistory this
  /\ config (afterGeneration env gen this) = config this
  /\ bestSolution (afterGeneration env gen this) = bestSolution this.
Proof.
  unfold afterGeneration, stopsAt.
  destruct (progressCallback env) as [cb |]; [destruct (cb gen) |];
    destruct ((gen mod 5 =? 0) && duringYield env gen); simpl;
    rewrite ?andb_true_r, ?andb_false_r; auto.
Qed.

Lemma generationLoop_returns (fuel : nat) (env : Env) (n : nat) :
  forall (gen : Z) (this : Optimizer T) (population : list Chromosome)
         (fitnessValues : list (Fitness T)) (s : list Q) (this' : Optimizer T) (s' : list Q),
    isRunning this = true ->
    generationLoop fuel env n gen this population fitnessValues s = (this', Ok s') ->
    length (fitnessHistory this')
    = (length (fitnessHistory this) + generationsRun env n gen)%nat
    /\ isRunning this' = negb (stoppedWithin env n gen)
    /\ config this' = config this
    /\ (bestSolution this <> None -> bestSolution this' <> None).
Proof.
  induction n as [| n IH]; intros gen this population fitnessValues s this' s' Hrun Hloop.
  - simpl in Hloop. injection Hloop as <- _. simpl. rewrite Hrun.
    repeat split; auto; lia.
  - simpl in Hloop. rewrite Hrun in Hloop.
    destruct (generationWith (offspring fuel) calculateFitness this gen population fitnessValues s)
      as [this1 [[[bred values] s1] | e |]] eqn:Hgen; [| discriminate | discriminate].
    destruct (generationWith_returns _ _ _ _ _ _ _ _ _ Hgen) as (G1 & G2 & G3 & G4).
    destruct (afterGeneration_fields env gen this1) as (A1 & A2 & A3 & A4).
    simpl. destruct (stopsAt env gen) eqn:Hstop.
    + (* stopped: the loop condition fails at the next test *)
      assert (Hoff : isRunning (afterGeneration env gen this1) = false).
      { rewrite A1. simpl. apply andb_false_r. }
      destruct n as [| n]; simpl in Hloop; [| rewrite Hoff in Hloop];
        injection Hloop as <- _; rewrite A2, A3, A4, Hoff, G2, G3; simpl;
        repeat split; auto; lia.
    + assert (Hon : isRunning (afterGeneration env gen this1) = true).
      { rewrite A1, G1, Hrun. reflexivity. }
      destruct (IH _ _ _ _ _ _ _ Hon Hloop) as (I1 & I2 & I3 & I4).
      rewrite I1, I2, I3, A2, A3, G2, G3. simpl.
      repeat split; auto; try lia.
      intros Hbest. apply I4. rewrite A4. apply G4. exact Hbest.
Qed.

Lemma server_generationLoop_returns (fuel : nat) (n : nat) :
  forall (gen : Z) (this : Optimizer T) (population : list Chromosome)
         (fitnessValues : list (Fitness T)) (s : list Q) (this' : Optimizer T) (s' : list Q),
    Server.generationLoop fuel n gen this population fitnessValues s = (this', Ok s') ->
    length (fitnessHistory this') = (length (fitnessHistory this) + n)%nat
    /\ config this' = config this
    /\ (bestSolution this <> None -> bestSolution this' <> None).
Proof.
  induction n as [| n IH]; intros gen this population fitnessValues s this' s' Hloop.
  - simpl in Hloop. injection Hloop as <- _. repeat split; auto; lia.
  - simpl in Hloop.
    destruct (generationWith (Server.offspring fuel) Server.calculateFitness this gen
                             population fitnessValues s)
      as [this1 [[[bred values] s1] | e |]] eqn:Hgen; [| discriminate | discriminate].
    destruct (generationWith_returns _ _ _ _ _ _ _ _ _ Hgen) as (G1 & G2 & G3 & G4).
    destruct (IH _ _ _ _ _ _ _ Hloop) as (I1 & I2 & I3).
    rewrite I1, I2, G2, G3. repeat split; auto; lia.
Qed.

Lemma polishWith_fields
    (annealFn : Optimizer T -> Chromosome -> Z -> Rand (Chromosome * Fitness T))
    (this this' : Optimizer T) (s : list Q) (o : Outcome (list Q)) :
  polishWith annealFn this s = (this', o) ->
  fitnessHistory this' = fitnessHistory this /\ isRunning this' = isRunning this
  /\ (bestSolution this <> None -> bestSolution this' <> None).
Proof.
  unfold polishWith. destruct (bestSolution this) as [c |] eqn:Hc.
  - destruct (annealFn this c (saIterations this) s) as [[refined s1] | e |];
      intros H; injection H as <- _; try (rewrite Hc; repeat split; auto; discriminate).
    destruct (total (snd refined) >? bestTotal (bestFitness this))%num; simpl;
      rewrite ?Hc; repeat split; auto; discriminate.
  - intros H. injection H as <- _. repeat split; auto.
Qed.

Lemma generationsRun_le (env : Env) (n : nat) :
  forall gen, (generationsRun env n gen <= n)%nat.
Proof.
  induction n as [| n IH]; intros gen; simpl; [lia |].
  destruct (stopsAt env gen); [lia |]. specialize (IH (gen + 1)). lia.
Qed.

Lemma generationsRun_all (env : Env) (n : nat) :
  forall gen, stoppedWithin env n gen = false -> generationsRun env n gen = n.
Proof.
  induction n as [| n IH]; intros gen; simpl; [reflexivity |].
  destruct (stopsAt env gen); simpl; [discriminate |].
  intros H. rewrite (IH _ H). reflexivity.
Qed.

Lemma totalGenerations_config (this1 this2 : Optimizer T) :
  config this1 = config this2 -> totalGenerations this1 = totalGenerations this2.
Proof. unfold totalGenerations, modeOf. intros ->. reflexivity. Qed.

(** X19.  When the browser's [optimize] returns, the history has one entry for
    each generation that ran: all of them, or those up to and including
    the generation during which [stop()] was called.  The call leaves
    [isRunning] cleared, and the result carries a solution and the history
    of the object. *)
Theorem optimize_history_length (fuel : nat) (env : Env) (this this' : Optimizer T)
    (s : list Q) (r : OptimizeResult) :
  optimize fuel env this s = (this', Ok r) ->
  length (history r) = generationsRun env (Z.to_nat (totalGenerations this)) 0
  /\ (length (history r) <= Z.to_nat (totalGenerations this))%nat
  /\ (stoppedWithin env (Z.to_nat (totalGenerations this)) 0 = false ->
      length (history r) = Z.to_nat (totalGenerations this))
  /\ isRunning this' = false
  /\ history r = fitnessHistory this'
  /\ solution r = bestSolution this' /\ solution r <> None.
Proof.
  unfold optimize. destruct (entryGuard this); [discriminate |].
  destruct (firstBestWith initializePopulation calculateFitness (withRun this true []) s)
    as [[[[[population fitnessValues] c] f] s1] | e |]; [| discriminate | discriminate].
  set (this2 := withBest (withRun this true []) c f).
  assert (Hgens : totalGenerations this2 = totalGenerations this)
    by (apply totalGenerations_config; reflexivity).
  rewrite Hgens.
  destruct (generationLoop fuel env (Z.to_nat (totalGenerations this)) 0 this2
                           population fitnessValues s1)
    as [this3 [s2 | e |]] eqn:Hloop; [| discriminate | discriminate].
  destruct (generationLoop_returns _ _ _ _ this2 _ _ _ _ _ eq_refl Hloop) as (L1 & L2 & _ & L4).
  assert (Hlen : forall this4 o,
            (if isRunning this3 then polishWith simulatedAnnealing this3 s2 else (this3, Ok s2))
            = (this4, o) ->
            fitnessHistory this4 = fitnessHistory this3 /\ bestSolution this4 <> None).
  { intros this4 o H. destruct (isRunning this3).
    - destruct (polishWith_fields _ _ _ _ _ H) as (P1 & _ & P3).
      split; [exact P1 | apply P3, L4; discriminate].
    - injection H as <- _. split; [reflexivity | apply L4; discriminate]. }
  destruct (if isRunning this3 then polishWith simulatedAnnealing this3 s2 else (this3, Ok s2))
    as [this4 [s3 | e |]] eqn:Hpolish; [| discriminate | discriminate].
  destruct (Hlen _ _ eq_refl) as (P1 & P2).
  intros H. injection H as <- <-. simpl. rewrite P1, L1. simpl.
  pose proof (generationsRun_le env (Z.to_nat (totalGenerations this)) 0).
  repeat split; auto.
  apply generationsRun_all.
Qed.

(** X20.  The server's [optimize] has no cancellation: when it returns, the
    history has exactly one entry for each generation of the mode, and
    [isRunning], set at entry, is still set. *)
Theorem server_optimize_history_length (fuel : nat) (this this' : Optimizer T)
    (s : list Q) (r : OptimizeResult) :
  Server.optimize fuel this s = (this', Ok r) ->
  length (history r) = Z.to_nat (totalGenerations this)
  /\ isRunning this' = true
  /\ history r = fitnessHistory this'
  /\ solution r = bestSolution this' /\ solution r <> None.
Proof.
  unfold Server.optimize. destruct (entryGuard this); [discriminate |].
  destruct (firstBestWith Server.initializePopulation Server.calculateFitness
                          (withRun this true []) s)
    as [[[[[population fitnessValues] c] f] s1] | e |]; [| discriminate | discriminate].
  set (this2 := withBest (withRun this true []) c f).
  assert (Hgens : totalGenerations this2 = totalGenerations this)
    by (apply totalGenerations_config; reflexivity).
  rewrite Hgens.
  destruct (Server.generationLoop fuel (Z.to_nat (totalGenerations this)) 0 this2
                                  population fitnessValues s1)
    as [this3 [s2 | e |]] eqn:Hloop; [| discriminate | discriminate].
  destruct (server_generationLoop_returns _ _ _ _ _ _ _ _ _ Hloop) as (L1 & _ & L4).
  pose proof (server_generationLoop_running _ _ _ _ _ _ _ _ _ Hloop) as Hrunning.
  destruct (polishWith Server.simulatedAnnealing this3 s2)
    as [this4 [s3 | e |]] eqn:Hpolish; [| discriminate | discriminate].
  destruct (polishWith_fields _ _ _ _ _ Hpolish) as (P1 & P2 & P3).
  intros H. injection H as <- <-. simpl. rewrite P1, P2, L1, Hrunning. simpl.
  repeat split; auto.
Qed.

End Cancellation.


(** ** The operators keep an assignment valid *)

Section RandomChromosome.
Context {T : Type} `{AT : Arith T}.

Lemma all_seats_valid (rows cols : Z) :
  validAssignment rows cols (Z.to_nat (rows * cols)) (map Some (seqZ 0 (rows * cols))).
Proof.
  exists (seqZ 0 (rows * cols)). split; [reflexivity |].
  split; [apply length_seqZ |]. split; [apply NoDup_seqZ |].
  apply Forall_forall. intros p Hp. apply elem_of_seqZ in Hp. lia.
Qed.

Lemma shuffleLoop_valid (rows cols : Z) (M : nat) (i : nat) :
  forall (array : Chromosome) (s : list Q),
    validAssignment rows cols M array -> (i < M \/ i = 0)%nat ->
    exists c s', shuffleLoop i array s = Ok (c, s') /\ validAssignment rows cols M c.
Proof.
  induction i as [| i IH]; intros array s Hvalid Hi.
  - exists array, s. split; [reflexivity | exact Hvalid].
  - destruct Hi as [Hi | Hi]; [| discriminate].
    destruct (randomIndex_returns (Z.of_nat (S i) + 1) s) as (j & s1 & Hj & Hrange).
    specialize (Hrange ltac:(lia)).
    destruct (IH (swap array (S i) (Z.to_nat j)) s1) as (c & s' & Hc & Hv).
    { apply swap_valid; [exact Hvalid | exact Hi | lia]. }
    { left. lia. }
    exists c, s'. split; [| exact Hv].
    cbn [shuffleLoop]. rewrite (rand_bind_Ok _ _ _ _ _ Hj). exact Hc.
Qed.

Lemma take_valid (rows cols : Z) (M N : nat) (c : Chromosome) :
  validAssignment rows cols M c -> validAssignment rows cols (min N M) (take N c).
Proof.
  intros (l & -> & Hlen & Hnodup & Hrange). exists (take N l).
  split; [rewrite !map_fmap; symmetry; apply fmap_take |].
  split; [rewrite length_take; lia |].
  split.
  - apply (sublist_NoDup _ l); [exact Hnodup | apply sublist_take].
  - apply Forall_take. exact Hrange.
Qed.

Lemma generateRandomChromosome_sized (this : Optimizer T) (rows cols vipRows : Z) (N : nat)
    (s : list Q) :
  wellFormed this rows cols vipRows N ->
  exists c s',
    generateRandomChromosome this s = Ok (c, s')
    /\ validAssignment rows cols (min N (Z.to_nat (rows * cols))) c.
Proof.
  intros (Hv & Hrows & Hcols & Hlen & _).
  pose proof (all_seats_valid rows cols) as Hall.
  destruct (shuffleLoop_valid rows cols (Z.to_nat (rows * cols))
              (length (map Some (seqZ 0 (rows * cols))) - 1)
              (map Some (seqZ 0 (rows * cols))) s Hall) as (c & s' & Hc & Hvalid).
  { rewrite length_map, length_seqZ. lia. }
  exists (take N c), s'. split; [| apply take_valid; exact Hvalid].
  unfold generateRandomChromosome, theVenue. rewrite Hv.
  unfold mbind, rand_bind, liftO, shuffleArray. cbn [totalSeats makeVenue].
  rewrite Hc, Hlen. reflexivity.
Qed.

(** X9.  [generateRandomChromosome] returns, for every state of the random
    source, pairwise distinct seat positions of the venue: one for each
    attendee when the venue has room for them, and only as many as there
    are seats when it has not. *)
Theorem generateRandomChromosome_valid (this : Optimizer T) (rows cols vipRows : Z) (N : nat)
    (s : list Q) :
  wellFormed this rows cols vipRows N ->
  exists c s',
    generateRandomChromosome this s = Ok (c, s')
    /\ validAssignment rows cols (min N (Z.to_nat (rows * cols))) c
    /\ (Z.of_nat N <= rows * cols -> validAssignment rows cols N c)
    /\ (rows * cols < Z.of_nat N -> Z.of_nat (length c) = rows * cols).
Proof.
  intros Hwf. pose proof Hwf as (_ & Hrows & Hcols & _).
  destruct (generateRandomChromosome_sized this rows cols vipRows N s Hwf)
    as (c & s' & Hc & Hvalid).
  exists c, s'. split; [exact Hc |]. split; [exact Hvalid |]. split.
  - intros Hroom. replace N with (min N (Z.to_nat (rows * cols))) at 1 by lia. exact Hvalid.
  - intros Hfull. destruct Hvalid as (l & -> & Hl & _). rewrite length_map, Hl. nia.
Qed.

End RandomChromosome.

Lemma generateRandomChromosome_valid_witness :
  exists c s',
    generateRandomChromosome (threeGuests (T := R)) [0.3; 0.6; 0.2]%Q = Ok (c, s')
    /\ validAssignment 2 2 3 c.
Proof.
  destruct (generateRandomChromosome_valid (threeGuests (T := R)) 2 2 1 3 [0.3; 0.6; 0.2]%Q)
    as (c & s' & Hc & _ & Hvalid & _).
  - exact (setAttendees_wellFormed (constructor noConfig) 2 2 1
             (replicate 3 (person "regular" None 5)) ltac:(lia) ltac:(lia)).
  - exists c, s'. split; [exact Hc | apply Hvalid; lia].
Defined.

Section MutateValid.
Context {T : Type} `{AT : Arith T} `{ET : HasExp T}.

Lemma randomIndex_zero (s : list Q) : exists s', randomIndex 0 s = Ok (0, s').
Proof.
  unfold randomIndex, random, mbind, rand_bind, mret, rand_ret.
  assert (Hfloor : forall q : Q, Qfloor (q * inject_Z 0) = 0).
  { intros q. unfold Qfloor, Qmult, inject_Z. simpl. rewrite Z.mul_0_r. apply Z.div_0_l. lia. }
  destruct s as [| u s]; eexists; rewrite Hfloor; reflexivity.
Qed.

Lemma randomIndex_bounded (n : Z) (s : list Q) :
  0 <= n -> exists k s', randomIndex n s = Ok (k, s') /\ 0 <= k /\ (k < n \/ (n = 0 /\ k = 0)).
Proof.
  intros Hn. destruct (Z.eq_dec n 0) as [-> | Hpos].
  - destruct (randomIndex_zero s) as (s' & H). exists 0, s'. split; [exact H | lia].
  - destruct (randomIndex_returns n s) as (k & s' & H & Hrange).
    exists k, s'. split; [exact H | lia].
Qed.

Lemma arrSwap_in_range (a : JsArray) (i j : Z) :
  0 <= i -> 0 <= j ->
  arrSwap a i j = {| elems := swap (elems a) (Z.to_nat i) (Z.to_nat j); props := props a |}.
Proof.
  intros Hi Hj. unfold arrSwap, arrSet, arrGet.
  destruct (Z.ltb_spec i 0); [lia |]. destruct (Z.ltb_spec j 0); [lia |]. reflexivity.
Qed.

Lemma arrSwap_valid (rows cols : Z) (N : nat) (a : JsArray) (i j : Z) :
  validAssignment rows cols N (elems a) -> 0 <= i < Z.of_nat N -> 0 <= j < Z.of_nat N ->
  validAssignment rows cols N (elems (arrSwap a i j)) /\ props (arrSwap a i j) = props a.
Proof.
  intros Hvalid Hi Hj. rewrite arrSwap_in_range by lia. simpl.
  split; [apply swap_valid; [exact Hvalid | lia | lia] | reflexivity].
Qed.

(** One pass of the block loop is the exchange of two entries. *)
Lemma blockStep_arrSwap (start1 start2 : Z) (a : JsArray) (i : Z) :
  blockStep start1 start2 a i = arrSwap a (start1 + i) (start2 + i).
Proof. reflexivity. Qed.

Lemma blockSwap_valid (rows cols : Z) (N : nat) (a : JsArray) (len start1 start2 : Z) :
  validAssignment rows cols N (elems a) ->
  0 <= start1 -> start1 + len <= Z.of_nat N ->
  0 <= start2 -> start2 + len <= Z.of_nat N ->
  validAssignment rows cols N (elems (blockSwap a len start1 start2))
  /\ props (blockSwap a len start1 start2) = props a.
Proof.
  intros Hvalid H1 H1' H2 H2'. unfold blockSwap.
  apply (fold_left_invariant
           (fun b => validAssignment rows cols N (elems b) /\ props b = props a)).
  - intros b i Hi [Hb Hp]. apply list_elem_of_In, elem_of_seqZ in Hi.
    rewrite blockStep_arrSwap.
    destruct (arrSwap_valid rows cols N b (start1 + i) (start2 + i) Hb) as [Hv Hp'];
      [lia | lia |].
    split; [exact Hv | rewrite Hp'; exact Hp].
  - split; [exact Hvalid | reflexivity].
Qed.

Lemma valid_length (rows cols : Z) (N : nat) (c : Chromosome) :
  validAssignment rows cols N c -> length c = N.
Proof. intros (l & -> & Hl & _). rewrite length_map. exact Hl. Qed.

Lemma mutateBody_valid (rows cols : Z) (N : nat) (a : JsArray) (s : list Q) :
  (6 <= N)%nat -> validAssignment rows cols N (elems a) ->
  exists a' s', mutateBody a s = Ok (a', s')
                /\ validAssignment rows cols N (elems a') /\ props a' = props a.
Proof.
  intros HN Hvalid. pose proof (valid_length _ _ _ _ Hvalid) as Hlen.
  unfold mutateBody, arrLength. rewrite Hlen.
  destruct (randomIndex_returns (Z.of_nat N) s) as (idx1 & s1 & E1 & R1).
  destruct (randomIndex_returns (Z.of_nat N) s1) as (idx2 & s2 & E2 & R2).
  specialize (R1 ltac:(lia)). specialize (R2 ltac:(lia)).
  rewrite (rand_bind_Ok _ _ _ _ _ E1), (rand_bind_Ok _ _ _ _ _ E2).
  destruct (arrSwap_valid rows cols N a idx1 idx2 Hvalid R1 R2) as [Hv1 Hp1].
  pose proof (valid_length _ _ _ _ Hv1) as Hlen1.
  destruct (chance_returns 0.3 s2) as (block & s3 & E3).
  rewrite (rand_bind_Ok _ _ _ _ _ E3). destruct block.
  - destruct (randomIndex_returns 5 s3) as (r & s4 & E4 & R4). specialize (R4 ltac:(lia)).
    rewrite (rand_bind_Ok _ _ _ _ _ E4). rewrite Hlen1.
    destruct (randomIndex_bounded (Z.of_nat N - (r + 2)) s4 ltac:(lia))
      as (start1 & s5 & E5 & R5 & R5').
    destruct (randomIndex_bounded (Z.of_nat N - (r + 2)) s5 ltac:(lia))
      as (start2 & s6 & E6 & R6 & R6').
    rewrite (rand_bind_Ok _ _ _ _ _ E5), (rand_bind_Ok _ _ _ _ _ E6).
    destruct (blockSwap_valid rows cols N (arrSwap a idx1 idx2) (r + 2) start1 start2 Hv1)
      as [Hv2 Hp2]; try lia.
    eexists _, _. split; [reflexivity |]. split; [exact Hv2 | rewrite Hp2; exact Hp1].
  - eexists _, _. split; [reflexivity |]. split; [exact Hv1 | exact Hp1].
Qed.

Lemma mutate_valid (this : Optimizer T) (rows cols : Z) (N : nat) (a : JsArray)
    (s : list Q) :
  (6 <= N)%nat -> validAssignment rows cols N (elems a) ->
  exists a' s', mutate this a s = Ok (a', s')
                /\ validAssignment rows cols N (elems a') /\ props a' = props a.
Proof.
  intros HN Hvalid. unfold mutate.
  destruct (random_returns s) as (u & s1 & E & _).
  rewrite (rand_bind_Ok _ _ _ _ _ E).
  destruct (ofQ u <? adaptiveRate this)%num.
  - apply mutateBody_valid; assumption.
  - exists a, s1. split; [reflexivity |]. split; [exact Hvalid | reflexivity].
Qed.

Lemma server_mutate_valid (this : Optimizer T) (rows cols : Z) (N : nat) (a : JsArray)
    (s : list Q) :
  (1 <= N)%nat -> validAssignment rows cols N (elems a) ->
  exists a' s', Server.mutate this a s = Ok (a', s')
                /\ validAssignment rows cols N (elems a') /\ props a' = props a.
Proof.
  intros HN Hvalid. pose proof (valid_length _ _ _ _ Hvalid) as Hlen. unfold Server.mutate.
  destruct (random_returns s) as (u & s1 & E & _).
  rewrite (rand_bind_Ok _ _ _ _ _ E).
  destruct (ofQ u <? mutationRate (config this))%num.
  - unfold arrLength. rewrite Hlen.
    destruct (randomIndex_returns (Z.of_nat N) s1) as (idx1 & s2 & E1 & R1).
    destruct (randomIndex_returns (Z.of_nat N) s2) as (idx2 & s3 & E2 & R2).
    specialize (R1 ltac:(lia)). specialize (R2 ltac:(lia)).
    rewrite (rand_bind_Ok _ _ _ _ _ E1), (rand_bind_Ok _ _ _ _ _ E2).
    destruct (arrSwap_valid rows cols N a idx1 idx2 Hvalid R1 R2) as [Hv1 Hp1].
    eexists _, _. split; [reflexivity |]. split; [exact Hv1 | exact Hp1].
  - exists a, s1. split; [reflexivity |]. split; [exact Hvalid | reflexivity].
Qed.

(** X14.  [mutate] keeps a valid assignment valid, for every state of the random
    source: in the browser from six attendees on, where the swap and the
    block exchange stay inside the array and a block exchange, overlapping
    or not, is a sequence of exchanges of two entries; on the server, whose
    [mutate] is a single swap, from one attendee on.  No property is
    created on the array object. *)
Theorem mutate_keeps_valid (this : Optimizer T) (rows cols : Z) (N : nat) (a : JsArray)
    (s : list Q) :
  validAssignment rows cols N (elems a) ->
  ((6 <= N)%nat ->
   exists a' s', mutate this a s = Ok (a', s')
                 /\ validAssignment rows cols N (elems a') /\ props a' = props a)
  /\ ((1 <= N)%nat ->
      exists a' s', Server.mutate this a s = Ok (a', s')
                    /\ validAssignment rows cols N (elems a') /\ props a' = props a).
Proof.
  intros Hvalid. split; intros HN.
  - apply mutate_valid; assumption.
  - apply server_mutate_valid; assumption.
Qed.

End MutateValid.

Lemma mutate_keeps_valid_witness :
  (exists a' s',
      mutate (fiveRegulars (T := R))
             (fresh [Some 0; Some 1; Some 2; Some 3; Some 4; Some 5])
             [0.01; 0.1; 0.4; 0.2; 0.9; 0.5; 0.2]%Q = Ok (a', s')
      /\ validAssignment 4 4 6 (elems a') /\ props a' = [])
  /\ (exists a' s',
         Server.mutate (fiveRegulars (T := R))
                       (fresh [Some 0; Some 1; Some 2; Some 3; Some 4; Some 5])
                       [0.01; 0.1; 0.4]%Q = Ok (a', s')
         /\ validAssignment 4 4 6 (elems a') /\ props a' = []).
Proof.
  assert (Hvalid : validAssignment 4 4 6
                     (elems (fresh [Some 0; Some 1; Some 2; Some 3; Some 4; Some 5])))
    by (apply isValidAssignment_sound; reflexivity).
  split.
  - apply (proj1 (mutate_keeps_valid (fiveRegulars (T := R)) 4 4 6 _ _ Hvalid)). lia.
  - apply (proj2 (mutate_keeps_valid (fiveRegulars (T := R)) 4 4 6 _ _ Hvalid)). lia.
Defined.


Section SmartMutateValid.
Context {T : Type} `{AT : Arith T}.

Variable this : Optimizer T.
Variable rows cols vipRows : Z.
Variable N : nat.
Hypothesis well_formed : wellFormed this rows cols vipRows N.

Lemma wellFormed_seated (A : Chromosome) :
  validAssignment rows cols N A ->
  forall i, (i < N)%nat -> exists s, seatOf (makeVenue (T := T) rows cols vipRows) A i = Some s.
Proof using well_formed.
  intros Hvalid. destruct well_formed as (_ & Hrows & _).
  apply (seatable_seated this); [exact Hrows | right; exact Hvalid].
Qed.

Lemma trySwapLoop_valid (A : Chromosome) (idx1 idx2 : nat) (others : list nat) :
  validAssignment rows cols N A -> (idx1 < N)%nat -> (idx2 < N)%nat ->
  (forall i, In i others -> (i < N)%nat) ->
  exists c', trySwapLoop (makeVenue rows cols vipRows) A idx1 idx2 others = Ok c'
             /\ validAssignment rows cols N c'.
Proof using well_formed.
  intros Hvalid H1 H2. pose proof (wellFormed_seated A Hvalid) as Hseated.
  induction others as [| i rest IH]; intros Hothers; simpl.
  - exists A. split; [reflexivity | exact Hvalid].
  - assert (Hrest : forall k, In k rest -> (k < N)%nat)
      by (intros k Hk; apply Hothers; right; exact Hk).
    destruct (Nat.eqb i idx1 || Nat.eqb i idx2); [apply IH; exact Hrest |].
    assert (Hi : (i < N)%nat) by (apply Hothers; left; reflexivity).
    destruct (seated_distance_returns _ A N Hseated i idx2 Hi H2) as (d & ->). simpl.
    destruct (d =? 1)%Z; [| apply IH; exact Hrest].
    eexists. split; [reflexivity |]. apply swap_valid; assumption.
Qed.

Lemma farFriend_returns (A : Chromosome) (attendeeIdx : nat) (friends : list nat) :
  validAssignment rows cols N A -> (attendeeIdx < N)%nat ->
  (forall i, In i friends -> (i < N)%nat) ->
  exists r, farFriend (makeVenue rows cols vipRows) A attendeeIdx friends = Ok r
            /\ forall j, r = Some j -> (j < N)%nat.
Proof using well_formed.
  intros Hvalid Ha. pose proof (wellFormed_seated A Hvalid) as Hseated.
  induction friends as [| j rest IH]; intros Hfriends; simpl.
  - exists None. split; [reflexivity | discriminate].
  - assert (Hj : (j < N)%nat) by (apply Hfriends; left; reflexivity).
    destruct (seated_distance_returns _ A N Hseated attendeeIdx j Ha Hj) as (d & ->). simpl.
    destruct (3 <? d)%Z.
    + exists (Some j). split; [reflexivity |]. intros k Hk. injection Hk as <-. exact Hj.
    + apply IH. intros k Hk. apply Hfriends. right. exact Hk.
Qed.

Lemma improveFriendLoop_valid (A : Chromosome) (fs : list (nat * list nat)) :
  validAssignment rows cols N A ->
  (forall e, In e fs -> (fst e < N)%nat /\ forall i, In i (snd e) -> (i < N)%nat) ->
  exists c', improveFriendLoop this A fs = Ok c' /\ validAssignment rows cols N c'.
Proof using well_formed.
  intros Hvalid. pose proof well_formed as (Hv & _).
  induction fs as [| [attendeeIdx friends] rest IH]; intros Hfs; simpl.
  - exists A. split; [reflexivity | exact Hvalid].
  - destruct (Hfs (attendeeIdx, friends) ltac:(left; reflexivity)) as [Ha Hfriends].
    simpl in Ha, Hfriends.
    unfold theVenue. rewrite Hv. simpl.
    destruct (farFriend_returns A attendeeIdx friends Hvalid Ha Hfriends) as (r & -> & Hr).
    simpl. destruct r as [friendIdx |].
    + unfold trySwapForBetterProximity, theVenue. rewrite Hv. simpl.
      apply trySwapLoop_valid; [exact Hvalid | exact Ha | apply Hr; reflexivity |].
      intros i Hi. apply in_seq in Hi. rewrite (valid_length _ _ _ _ Hvalid) in Hi. lia.
    + apply IH. intros e He. apply Hfs. right. exact He.
Qed.

Lemma improveFriendProximity_valid (A : Chromosome) :
  validAssignment rows cols N A ->
  exists c', improveFriendProximity this A = Ok c' /\ validAssignment rows cols N c'.
Proof using well_formed.
  intros Hvalid. apply improveFriendLoop_valid; [exact Hvalid |].
  destruct well_formed as (_ & _ & _ & _ & _ & Hfriends). exact Hfriends.
Qed.

Lemma improveVipPlacement_valid (A : Chromosome) :
  validAssignment rows cols N A ->
  exists c', improveVipPlacement this A = Ok c' /\ validAssignment rows cols N c'.
Proof using well_formed.
  intros Hvalid. pose proof well_formed as (Hv & _ & _ & Hlen & _).
  destruct (misplacedVip_returns this (makeVenue rows cols vipRows) A N Hv Hlen
              (wellFormed_seated A Hvalid) (enumerate (attendees this)))
    as (r & Hr & Hrange).
  { intros e He. rewrite <- Hlen. apply enumerate_bound. exact He. }
  unfold improveVipPlacement. rewrite Hr. simpl. destruct r as [[i j] |].
  - eexists. split; [reflexivity |].
    destruct (Hrange i j eq_refl). apply swap_valid; assumption.
  - exists A. split; [reflexivity | exact Hvalid].
Qed.

Lemma andChance_returns (cond : bool) (p : Q) (s : list Q) :
  exists b s', andChance cond p s = Ok (b, s').
Proof.
  unfold andChance. destruct cond; [apply chance_returns |].
  exists false, s. reflexivity.
Qed.

Lemma smartMutate_valid (A : Chromosome) (f : Fitness T) (s : list Q) :
  validAssignment rows cols N A ->
  exists c' s', smartMutate this A f s = Ok (c', s') /\ validAssignment rows cols N c'.
Proof using well_formed.
  intros Hvalid. unfold smartMutate.
  destruct (andChance_returns (friendProximity f <? ofQ 0.7)%num 0.5 s) as (b1 & s1 & E1).
  rewrite (rand_bind_Ok _ _ _ _ _ E1).
  assert (Hfirst : exists c1,
            (if b1 then liftO (improveFriendProximity this A) else mret A) s1 = Ok (c1, s1)
            /\ validAssignment rows cols N c1).
  { destruct b1.
    - destruct (improveFriendProximity_valid A Hvalid) as (c1 & E & Hv).
      exists c1. rewrite E. split; [reflexivity | exact Hv].
    - exists A. split; [reflexivity | exact Hvalid]. }
  destruct Hfirst as (c1 & Ec1 & Hv1).
  rewrite (rand_bind_Ok _ _ _ _ _ Ec1).
  destruct (andChance_returns (vipPlacement f <? ofQ 0.8)%num 0.5 s1) as (b2 & s2 & E2).
  rewrite (rand_bind_Ok _ _ _ _ _ E2). destruct b2.
  - destruct (improveVipPlacement_valid c1 Hv1) as (c2 & E & Hv).
    exists c2, s2. rewrite E. split; [reflexivity | exact Hv].
  - exists c1, s2. split; [reflexivity | exact Hv1].
Qed.

End SmartMutateValid.

(** X15.  On a well-formed optimizer object, [improveFriendProximity],
    [improveVipPlacement] and [smartMutate] each return a valid assignment
    for every valid one, whatever the fitness record and the state of the
    random source: the seat lookups of the searches succeed, and each swap
    exchanges the seats of two attendees. *)
Theorem smartMutate_keeps_valid {T : Type} `{AT : Arith T} (this : Optimizer T)
    (rows cols vipRows : Z) (N : nat) (A : Chromosome) (f : Fitness T) (s : list Q) :
  wellFormed this rows cols vipRows N -> validAssignment rows cols N A ->
  (exists c', improveFriendProximity this A = Ok c' /\ validAssignment rows cols N c')
  /\ (exists c', improveVipPlacement this A = Ok c' /\ validAssignment rows cols N c')
  /\ exists c' s', smartMutate this A f s = Ok (c', s') /\ validAssignment rows cols N c'.
Proof.
  intros Hwf Hvalid. split; [| split].
  - exact (improveFriendProximity_valid this rows cols vipRows N Hwf A Hvalid).
  - exact (improveVipPlacement_valid this rows cols vipRows N Hwf A Hvalid).
  - exact (smartMutate_valid this rows cols vipRows N Hwf A f s Hvalid).
Qed.

Lemma smartMutate_keeps_valid_witness :
  exists c' s',
    smartMutate (mixedParty (T := R)) [Some 8; Some 0; Some 1; Some 5]
                {| total := 0%R; friendProximity := 0%R; vipPlacement := 0%R;
                   groupCohesion := 0%R; stageDistance := 0%R |} [0.1; 0.1]%Q = Ok (c', s')
    /\ validAssignment 3 3 4 c'.
Proof.
  refine (proj2 (proj2 (smartMutate_keeps_valid (mixedParty (T := R)) 3 3 1 4 _ _ _ _ _))).
  - exact (setAttendees_wellFormed (constructor noConfig) 3 3 1 _ ltac:(lia) ltac:(lia)).
  - apply isValidAssignment_sound. reflexivity.
Defined.

(** ** Simulated annealing returns a valid assignment with its own fitness *)

Section AnnealingResult.
Context {T : Type} `{AT : Arith T} `{ET : HasExp T}.

Variable neighborGen : Chromosome -> Fitness T -> Rand Chromosome.
Variable fitnessFn : Chromosome -> Outcome (Fitness T).
Variable P : Chromosome -> Prop.
Hypothesis fitness_returns : forall c, P c -> exists f, fitnessFn c = Ok f.
Hypothesis neighbor_returns : forall c f s, P c ->
  exists c' s', neighborGen c f s = Ok (c', s') /\ P c'.

Lemma saLoop_consistent (this : Optimizer T) (iterations : nat) :
  forall (st : SAState) (s : list Q),
    saConsistent fitnessFn P st ->
    exists st' s',
      saLoopWith neighborGen fitnessFn this iterations st s = Ok (st', s')
      /\ saConsistent fitnessFn P st'.
Proof using fitness_returns neighbor_returns.
  induction iterations as [| n IH]; intros st s Hst; cbn [saLoopWith].
  - exists st, s. split; [reflexivity | exact Hst].
  - destruct (ngt (sa_temp st) (minTemp (config this)));
      [| exists st, s; split; [reflexivity | exact Hst]].
    destruct Hst as (Hcur & Hbest & Ecur & Ebest).
    unfold saStepWith.
    destruct (neighbor_returns (sa_current st) (sa_currentFitness st) s Hcur)
      as (neighbor & s1 & Hneighbor & HPn).
    destruct (fitness_returns neighbor HPn) as (nf & Hnf).
    destruct (accepts_returns (nsub (total nf) (total (sa_currentFitness st))) (sa_temp st) s1)
      as (accepted & s2 & Haccepted).
    unfold mbind at 1. unfold rand_bind at 1.
    unfold mbind at 1. unfold rand_bind at 1.
    rewrite Hneighbor. unfold mbind at 1. unfold rand_bind at 1.
    unfold liftO at 1. rewrite Hnf.
    unfold mbind at 1. unfold rand_bind at 1. rewrite Haccepted.
    unfold mret at 1. unfold rand_ret at 1.
    apply IH. unfold saConsistent, saUpdate.
    destruct accepted; [| repeat split; assumption].
    destruct (ngt (total nf) (total (sa_bestFitness st))); simpl; repeat split; assumption.
Qed.

Lemma annealWith_consistent (this : Optimizer T) (c : Chromosome) (iterations : Z) (s : list Q) :
  P c ->
  exists r s',
    annealWith neighborGen fitnessFn this c iterations s = Ok (r, s')
    /\ P (fst r) /\ fitnessFn (fst r) = Ok (snd r).
Proof using fitness_returns neighbor_returns.
  intros Hc. destruct (fitness_returns c Hc) as (f0 & Hf0).
  unfold annealWith.
  destruct (saLoop_consistent this (Z.to_nat iterations)
              {| sa_current := c; sa_currentFitness := f0; sa_best := c;
                 sa_bestFitness := f0; sa_temp := initialTemp (config this) |} s)
    as (st' & s' & Hloop & _ & HP & _ & Hfit).
  { repeat split; assumption. }
  exists (sa_best st', sa_bestFitness st'), s'.
  split; [| split; [exact HP | exact Hfit]].
  unfold mbind at 1. unfold rand_bind at 1. unfold liftO at 1. rewrite Hf0.
  unfold mbind at 1. unfold rand_bind at 1. rewrite Hloop. reflexivity.
Qed.

End AnnealingResult.

Section AnnealingValid.
Context {T : Type} `{AT : Arith T} `{ET : HasExp T}.

Lemma seatable_valid (rows cols : Z) (N : nat) (c : Chromosome) :
  (1 <= N)%nat -> seatable rows cols N c -> validAssignment rows cols N c.
Proof. intros HN [-> | H]; [lia | exact H]. Qed.

Lemma simulatedAnnealing_valid (this : Optimizer T) (rows cols vipRows : Z) (N : nat)
    (c : Chromosome) (iterations : Z) (s : list Q) :
  wellFormed this rows cols vipRows N -> (1 <= N)%nat -> validAssignment rows cols N c ->
  exists r s',
    simulatedAnnealing this c iterations s = Ok (r, s')
    /\ validAssignment rows cols N (fst r) /\ calculateFitness this (fst r) = Ok (snd r).
Proof.
  intros Hwf HN Hvalid.
  destruct (annealWith_consistent (neighborOf this) (calculateFitness this)
              (seatable rows cols N)
              (fun c0 Hc0 => calculateFitness_returns this rows cols vipRows N c0 Hwf Hc0)
              (fun c0 f s0 Hc0 => neighborOf_seatable this rows cols vipRows N c0 f s0 Hwf Hc0)
              this c iterations s (or_intror Hvalid))
    as (r & s' & Hrun & HP & Hfit).
  exists r, s'. split; [exact Hrun |]. split; [apply seatable_valid; assumption | exact Hfit].
Qed.

Lemma server_simulatedAnnealing_valid (this : Optimizer T) (rows cols vipRows : Z) (N : nat)
    (c : Chromosome) (iterations : Z) (s : list Q) :
  wellFormed this rows cols vipRows N -> (1 <= N)%nat -> validAssignment rows cols N c ->
  exists r s',
    Server.simulatedAnnealing this c iterations s = Ok (r, s')
    /\ validAssignment rows cols N (fst r)
    /\ Server.calculateFitness this (fst r) = Ok (snd r).
Proof.
  intros Hwf HN Hvalid.
  destruct (annealWith_consistent (fun current _ => randomSwap current)
              (Server.calculateFitness this) (seatable rows cols N)
              (fun c0 Hc0 => calculateFitness_returns this rows cols vipRows N c0 Hwf Hc0)
              (fun c0 f s0 Hc0 => randomSwap_seatable rows cols N c0 s0 Hc0)
              this c iterations s (or_intror Hvalid))
    as (r & s' & Hrun & HP & Hfit).
  exists r, s'. split; [exact Hrun |]. split; [apply seatable_valid; assumption | exact Hfit].
Qed.

(** X16.  In any arithmetic, floating point included, [simulatedAnnealing]
    returns for every valid assignment of at least one attendee: the
    assignment it returns is valid, and the fitness record it returns is
    the one [calculateFitness] computes for that assignment.  This holds
    for the browser's annealer, with its targeted swaps, and for the
    server's. *)
Theorem simulatedAnnealing_returns_valid (this : Optimizer T) (rows cols vipRows : Z) (N : nat)
    (c : Chromosome) (iterations : Z) (s : list Q) :
  wellFormed this rows cols vipRows N -> (1 <= N)%nat -> validAssignment rows cols N c ->
  (exists r s',
      simulatedAnnealing this c iterations s = Ok (r, s')
      /\ validAssignment rows cols N (fst r) /\ calculateFitness this (fst r) = Ok (snd r))
  /\ (exists r s',
         Server.simulatedAnnealing this c iterations s = Ok (r, s')
         /\ validAssignment rows cols N (fst r)
         /\ Server.calculateFitness this (fst r) = Ok (snd r)).
Proof.
  intros Hwf HN Hvalid. split.
  - apply (simulatedAnnealing_valid this rows cols vipRows); assumption.
  - apply (server_simulatedAnnealing_valid this rows cols vipRows); assumption.
Qed.

End AnnealingValid.

Lemma simulatedAnnealing_returns_valid_witness :
  exists r s',
    simulatedAnnealing (twoGroups (T := R)) [Some 0; Some 1; Some 4; Some 8] 100
                       [0.3; 0.6; 0.2; 0.9; 0.1; 0.4]%Q = Ok (r, s')
    /\ validAssignment 3 3 4 (fst r) /\ calculateFitness twoGroups (fst r) = Ok (snd r).
Proof.
  apply (proj1 (simulatedAnnealing_returns_valid (twoGroups (T := R)) 3 3 1 4
                  [Some 0; Some 1; Some 4; Some 8] 100 [0.3; 0.6; 0.2; 0.9; 0.1; 0.4]%Q
                  (setAttendees_wellFormed (constructor noConfig) 3 3 1 _ ltac:(lia) ltac:(lia))
                  ltac:(lia)
                  (isValidAssignment_sound 3 3 4 [Some 0; Some 1; Some 4; Some 8] eq_refl))).
Defined.


(** ** Selection and elitism *)

Lemma foldlR_total {A B : Type} (P : B -> Prop) (f : B -> A -> Rand B) (l : list A) :
  (forall b a s, In a l -> P b -> exists b' s', f b a s = Ok (b', s') /\ P b') ->
  forall b s, P b -> exists b' s', foldlR f b l s = Ok (b', s') /\ P b'.
Proof.
  induction l as [| a l IH]; intros Hf b s Hb; simpl.
  - exists b, s. split; [reflexivity | exact Hb].
  - destruct (Hf b a s ltac:(left; reflexivity) Hb) as (b1 & s1 & E & Hb1).
    rewrite (rand_bind_Ok _ _ _ _ _ E).
    apply IH; [| exact Hb1]. intros b0 a0 s0 Hin. apply Hf. right. exact Hin.
Qed.

Lemma foldlR_invariant {A B : Type} (P : B -> Prop) (f : B -> A -> Rand B) (l : list A) :
  (forall b a s b' s', In a l -> P b -> f b a s = Ok (b', s') -> P b') ->
  forall b s b' s', P b -> foldlR f b l s = Ok (b', s') -> P b'.
Proof.
  induction l as [| a l IH]; intros Hf b s b' s' Hb Hrun; simpl in Hrun.
  - injection Hrun as <- _. exact Hb.
  - apply rand_bind_inv in Hrun. destruct Hrun as (b1 & s1 & E & Hrun).
    apply (IH (fun b0 a0 s0 b0' s0' Hin => Hf b0 a0 s0 b0' s0' (or_intror Hin)) b1 s1 b' s');
      [| exact Hrun].
    apply (Hf b a s b1 s1); [left; reflexivity | exact Hb | exact E].
Qed.

(** A loop of the random monad that throws did so in its body. *)
Lemma foldlR_throws {A B : Type} (P : B -> Prop) (e0 : Exn) (f : B -> A -> Rand B) (l : list A) :
  (forall b a s, In a l -> P b ->
     (exists b' s', f b a s = Ok (b', s') /\ P b') \/ f b a s = Throw e0) ->
  forall b s, P b ->
    (exists b' s', foldlR f b l s = Ok (b', s') /\ P b') \/ foldlR f b l s = Throw e0.
Proof.
  induction l as [| a l IH]; intros Hf b s Hb; simpl.
  - left. exists b, s. split; [reflexivity | exact Hb].
  - destruct (Hf b a s ltac:(left; reflexivity) Hb) as [(b1 & s1 & E & Hb1) | E].
    + rewrite (rand_bind_Ok _ _ _ _ _ E).
      apply IH; [| exact Hb1]. intros b0 a0 s0 Hin. apply Hf. right. exact Hin.
    + right. unfold mbind, rand_bind. rewrite E. reflexivity.
Qed.

Lemma foldlM_app {A B : Type} (f : B -> A -> Outcome B) (l1 l2 : list A) (b : B) :
  foldlM f b (l1 ++ l2) = foldlM f b l1 ≫= fun b' => foldlM f b' l2.
Proof.
  revert b. induction l1 as [| a l1 IH]; intros b; simpl; [reflexivity |].
  destruct (f b a) as [b1 | e |]; simpl; [apply IH | reflexivity | reflexivity].
Qed.

Section SortFacts.
Context {A : Type} (after : A -> A -> bool).

Lemma insertBy_Permutation (x : A) (l : list A) : insertBy after x l ≡ₚ x :: l.
Proof.
  induction l as [| y l IH]; simpl; [reflexivity |].
  destruct (after y x); [reflexivity |].
  rewrite IH. apply Permutation_swap.
Qed.

Lemma sortBy_Permutation (l : list A) : sortBy after l ≡ₚ l.
Proof.
  unfold sortBy.
  assert (H : forall acc, fold_left (fun acc x => insertBy after x acc) l acc ≡ₚ acc ++ l).
  { induction l as [| x l IH]; intros acc; simpl; [rewrite app_nil_r; reflexivity |].
    rewrite IH, insertBy_Permutation. rewrite <- Permutation_middle. reflexivity. }
  apply (H []).
Qed.

Lemma length_sortBy (l : list A) : length (sortBy after l) = length l.
Proof. apply Permutation_length, sortBy_Permutation. Qed.

End SortFacts.

Section Elitism.
Context {T : Type} `{AT : Arith T} `{ET : HasExp T}.

Lemma elites_loop (sorted : list (Chromosome * Fitness T)) (n : nat) :
  foldlM (fun np i =>
            match sorted !! Z.to_nat i with
            | Some e => Ok (np ++ [fst e])
            | None => Throw TypeError
            end) [] (seqZ 0 (Z.of_nat n))
  = if (n <=? length sorted)%nat then Ok (map fst (take n sorted)) else Throw TypeError.
Proof.
  induction n as [| n IH]; [reflexivity |].
  replace (Z.of_nat (S n)) with (Z.of_nat n + 1) by lia.
  rewrite seqZ_app by lia. rewrite foldlM_app, IH.
  destruct (Nat.leb_spec n (length sorted)) as [Hle | Hgt].
  - cbn [mbind outcome_bind]. rewrite Z.add_0_l.
    replace (seqZ (Z.of_nat n) 1) with [Z.of_nat n] by (unfold seqZ; simpl; f_equal; lia).
    cbn [foldlM]. rewrite Nat2Z.id.
    destruct (Nat.leb_spec (S n) (length sorted)) as [Hle' | Hgt'].
    + destruct (lookup_lt_is_Some_2 sorted n ltac:(lia)) as (e & He). rewrite He. simpl.
      rewrite (take_S_r _ _ _ He), map_app. reflexivity.
    + rewrite (lookup_ge_None_2 sorted n ltac:(lia)). reflexivity.
  - destruct (Nat.leb_spec (S n) (length sorted)); [lia | reflexivity].
Qed.

Lemma elites_spec (this : Optimizer T) (sorted : list (Chromosome * Fitness T)) :
  elites this sorted
  = if (Z.to_nat (elitismCount (config this)) <=? length sorted)%nat
    then Ok (map fst (take (Z.to_nat (elitismCount (config this))) sorted))
    else Throw TypeError.
Proof.
  unfold elites. destruct (Z.le_gt_cases 0 (elitismCount (config this))) as [Hk | Hk].
  - rewrite <- (Z2Nat.id _ Hk) at 1. apply elites_loop.
  - replace (Z.to_nat (elitismCount (config this))) with 0%nat by lia.
    unfold seqZ. replace (Z.to_nat (elitismCount (config this))) with 0%nat by lia.
    reflexivity.
Qed.

(** X17.  Elitism copies the first [elitismCount] chromosomes of the sorted
    population when there are that many.  With a population smaller than
    [elitismCount] (the default is 5) the generation throws a [TypeError]
    and leaves the optimizer object with its history unchanged and
    [isRunning] as it was. *)
Theorem small_population_throws
    (offspringFn : Optimizer T -> list Chromosome -> list (Fitness T) -> Rand (Chromosome * Chromosome))
    (fitnessFn : Optimizer T -> Chromosome -> Outcome (Fitness T))
    (this : Optimizer T) (gen : Z) (population : list Chromosome)
    (fitnessValues : list (Fitness T)) (s : list Q) :
  length fitnessValues = length population ->
  (Z.of_nat (length population) < elitismCount (config this) ->
   generationWith offspringFn fitnessFn this gen population fitnessValues s
   = (withGeneration this gen, Throw TypeError))
  /\ (elitismCount (config this) <= Z.of_nat (length population) ->
      exists newPopulation,
        elites this (sortBy fitterAfter (zip population fitnessValues)) = Ok newPopulation
        /\ Z.of_nat (length newPopulation) = Z.max 0 (elitismCount (config this))
        /\ forall c, In c newPopulation -> In c population).
Proof.
  intros Hlen.
  assert (Hsorted : length (sortBy fitterAfter (zip population fitnessValues))
                    = length population).
  { rewrite length_sortBy, length_zip. lia. }
  split; intros Hk.
  - unfold generationWith. cbn [config withGeneration].
    rewrite elites_spec. cbn [config withGeneration].
    destruct (Nat.leb_spec (Z.to_nat (elitismCount (config this)))
                (length (sortBy fitterAfter (zip population fitnessValues)))); [lia |].
    reflexivity.
  - rewrite elites_spec.
    destruct (Nat.leb_spec (Z.to_nat (elitismCount (config this)))
                (length (sortBy fitterAfter (zip population fitnessValues)))); [| lia].
    eexists. split; [reflexivity |]. split.
    + rewrite length_map, length_take. lia.
    + intros c Hc. apply in_map_iff in Hc. destruct Hc as ([c0 f0] & <- & Hin).
      apply list_elem_of_In in Hin. apply elem_of_take in Hin as (i & Hin & _).
      apply list_elem_of_lookup_2 in Hin.
      rewrite (sortBy_Permutation fitterAfter (zip population fitnessValues)) in Hin.
      apply elem_of_zip_l in Hin. apply list_elem_of_In. exact Hin.
Qed.

End Elitism.

Section Tournament.
Context {T : Type} `{AT : Arith T}.

Lemma tournamentSelect_member (this : Optimizer T) (population : list Chromosome)
    (fitnessValues : list (Fitness T)) (s s' : list Q) (c : Chromosome) :
  tournamentSelect this population fitnessValues s = Ok (c, s') -> In c population.
Proof.
  unfold tournamentSelect. intros H.
  apply rand_bind_inv in H. destruct H as (st & s1 & Hloop & H).
  assert (Hst : forall c0, fst st = Some c0 -> In c0 population).
  { refine (foldlR_invariant (fun st => forall c0, fst st = Some c0 -> In c0 population)
              _ _ _ _ _ _ _ _ Hloop).
    - intros b a s0 b' s0' _ Hb Hbody. unfold tournamentBody in Hbody.
      apply rand_bind_inv in Hbody. destruct Hbody as (idx & s2 & _ & Hbody).
      destruct (fitnessValues !! Z.to_nat idx) as [f |]; [| discriminate].
      destruct (total f >? snd b)%num.
      + injection Hbody as <- _. simpl. intros c0 Hc0.
        apply list_elem_of_In. eapply list_elem_of_lookup_2. exact Hc0.
      + injection Hbody as <- _. exact Hb.
    - discriminate. }
  destruct (fst st) as [best |] eqn:Hbest; [| discriminate].
  injection H as <- _. apply Hst. reflexivity.
Qed.

End Tournament.

Section RealTournament.
Local Open Scope R_scope.

Lemma tournamentSelect_returns (this : Optimizer R) (population : list Chromosome)
    (fitnessValues : list (Fitness R)) (s : list Q) :
  population <> [] -> length fitnessValues = length population ->
  (1 <= tournamentSize (config this))%Z ->
  (forall f, In f fitnessValues -> -1 < total f) ->
  exists c s', tournamentSelect this population fitnessValues s = Ok (c, s')
               /\ In c population.
Proof.
  intros Hne Hlen Hk Htotals.
  assert (Hpos : (0 < Z.of_nat (length population))%Z) by (destruct population; simpl; [congruence | lia]).
  set (I := fun st : option Chromosome * R =>
              (fst st = None /\ snd st = -1) \/ exists c, fst st = Some c /\ In c population).
  set (J := fun st : option Chromosome * R => exists c, fst st = Some c /\ In c population).
  assert (Hstep : forall b a s0, I b ->
            exists b' s0', tournamentBody population fitnessValues b a s0 = Ok (b', s0') /\ J b').
  { intros b a s0 Hb. unfold tournamentBody.
    destruct (randomIndex_returns (Z.of_nat (length population)) s0) as (idx & s1 & E & Hidx).
    specialize (Hidx Hpos). rewrite (rand_bind_Ok _ _ _ _ _ E).
    destruct (lookup_lt_is_Some_2 fitnessValues (Z.to_nat idx) ltac:(lia)) as (f & Hf).
    destruct (lookup_lt_is_Some_2 population (Z.to_nat idx) ltac:(lia)) as (c & Hc).
    rewrite Hf.
    assert (Hin : In c population)
      by (apply list_elem_of_In; eapply list_elem_of_lookup_2; exact Hc).
    destruct (ngt (total f) (snd b)) eqn:Hgt.
    - eexists _, _. split; [reflexivity |]. exists c. split; [exact Hc | exact Hin].
    - destruct Hb as [[_ Hb] | Hb].
      + apply ngt_real_false in Hgt. rewrite Hb in Hgt.
        assert (-1 < total f)
          by (apply Htotals, list_elem_of_In; eapply list_elem_of_lookup_2; exact Hf).
        lra.
      + eexists _, _. split; [reflexivity | exact Hb]. }
  unfold tournamentSelect.
  replace (tournamentSize (config this)) with (Z.succ (Z.pred (tournamentSize (config this))))
    by lia.
  rewrite seqZ_cons by lia. cbn [foldlR].
  destruct (Hstep (None, ofZ (-1)) 0%Z s) as (b1 & s1 & E1 & Hb1).
  { left. split; reflexivity. }
  unfold mbind at 1, rand_bind at 1. unfold mbind at 1, rand_bind at 1. rewrite E1.
  destruct (foldlR_total J (tournamentBody population fitnessValues)
              (seqZ (Z.succ 0) (Z.pred (Z.succ (Z.pred (tournamentSize (config this))))))
              (fun b a s0 _ Hb => Hstep b a s0 (or_intror Hb)) b1 s1 Hb1)
    as (b2 & s2 & E2 & (c & Hc & Hin)).
  rewrite E2, Hc. exists c, s2. split; [reflexivity | exact Hin].
Qed.

(** X11.  [tournamentSelect] returns a chromosome of the population whenever it
    returns.  In real arithmetic it returns for every state of the random
    source when the population is not empty, has one fitness record per
    chromosome with a total above -1, and the tournament has at least one
    round. *)
Theorem tournamentSelect_selects_member (this : Optimizer R) (population : list Chromosome)
    (fitnessValues : list (Fitness R)) (s : list Q) :
  (forall c s', tournamentSelect this population fitnessValues s = Ok (c, s') ->
                In c population)
  /\ (population <> [] -> length fitnessValues = length population ->
      (1 <= tournamentSize (config this))%Z ->
      (forall f, In f fitnessValues -> -1 < total f) ->
      exists c s', tournamentSelect this population fitnessValues s = Ok (c, s')
                   /\ In c population).
Proof.
  split.
  - intros c s'. apply tournamentSelect_member.
  - apply tournamentSelect_returns.
Qed.

End RealTournament.

(** *** Selection on totals that are not numbers *)

Section NanTournament.

Lemma SFcompare_refl (x : SpecFloat.spec_float) :
  x <> SpecFloat.S754_nan -> SpecFloat.SFcompare x x = Some Eq.
Proof.
  destruct x as [sg | sg | | sg m e]; intros Hx; try reflexivity; try congruence.
  - destruct sg; reflexivity.
  - simpl. destruct sg; rewrite Z.compare_refl.
    + rewrite Pos.compare_cont_refl. reflexivity.
    + rewrite Pos.compare_cont_refl. reflexivity.
Qed.

Lemma is_nan_spec (x : PrimFloat.float) :
  PrimFloat.is_nan x = true -> FloatOps.Prim2SF x = SpecFloat.S754_nan.
Proof.
  unfold PrimFloat.is_nan. rewrite FloatAxioms.eqb_spec. unfold SpecFloat.SFeqb.
  destruct (FloatOps.Prim2SF x) eqn:Hx; try reflexivity;
    rewrite SFcompare_refl by discriminate; discriminate.
Qed.

Lemma nan_not_greater (x y : PrimFloat.float) :
  PrimFloat.is_nan x = true -> (x >? y)%num = false.
Proof.
  intros Hx. unfold ngt. cbn [nlt FloatArith].
  rewrite FloatAxioms.ltb_spec, (is_nan_spec x Hx). unfold SpecFloat.SFltb.
  destruct (FloatOps.Prim2SF y) as [sg | sg | | sg m e]; reflexivity.
Qed.

(** X12.  In floating point, [tournamentSelect] throws a [TypeError] when every
    total is NaN, as after [updateWeights(0, 0, 0, 0)]: no comparison
    succeeds, [best] stays [null], and the spread of [null] throws. *)
Theorem tournamentSelect_nan_throws (this : Optimizer PrimFloat.float)
    (population : list Chromosome) (fitnessValues : list (Fitness PrimFloat.float))
    (s : list Q) :
  (forall f, In f fitnessValues -> PrimFloat.is_nan (total f) = true) ->
  tournamentSelect this population fitnessValues s = Throw TypeError.
Proof.
  intros Hnan. unfold tournamentSelect.
  destruct (foldlR_throws (fun st : option Chromosome * PrimFloat.float => fst st = None)
              TypeError (tournamentBody population fitnessValues)
              (seqZ 0 (tournamentSize (config this)))) with (b := (@None Chromosome, ofZ (-1)%Z))
                                                          (s := s)
    as [(st & s1 & E & Hst) | E].
  - intros b a s0 _ Hb. unfold tournamentBody.
    destruct (randomIndex_returns (Z.of_nat (length population)) s0) as (idx & s1 & E & _).
    rewrite (rand_bind_Ok _ _ _ _ _ E).
    destruct (fitnessValues !! Z.to_nat idx) as [f |] eqn:Hf.
    + left. rewrite nan_not_greater.
      * exists b, s1. split; [reflexivity | exact Hb].
      * apply Hnan, list_elem_of_In. eapply list_elem_of_lookup_2. exact Hf.
    + right. reflexivity.
  - reflexivity.
  - unfold mbind, rand_bind. rewrite E, Hst. reflexivity.
  - unfold mbind, rand_bind. rewrite E. reflexivity.
Qed.

End NanTournament.


(** ** The greedy seed *)

Lemma mapGet_In {K V : Type} (keq : K -> K -> bool) (k : K) (m : list (K * V)) (v : V) :
  mapGet keq k m = Some v -> exists k', In (k', v) m /\ keq k k' = true.
Proof.
  induction m as [| [k0 v0] m IH]; simpl; [discriminate |].
  destruct (keq k k0) eqn:Hk.
  - intros H. injection H as <-. exists k0. split; [left; reflexivity | exact Hk].
  - intros H. destruct (IH H) as (k' & Hin & Hk'). exists k'. split; [right; exact Hin | exact Hk'].
Qed.

Lemma isUsed_spec (usedSeats : list Z) (s : Z) : isUsed usedSeats s = true <-> In s usedSeats.
Proof.
  unfold isUsed. rewrite existsb_exists. split.
  - intros (x & Hx & Heq). apply Z.eqb_eq in Heq. subst. exact Hx.
  - intros H. exists s. split; [exact H | apply Z.eqb_refl].
Qed.

Lemma isUsed_false (usedSeats : list Z) (s : Z) : isUsed usedSeats s = false <-> ~ In s usedSeats.
Proof.
  rewrite <- isUsed_spec. destruct (isUsed usedSeats s); split; intros H; try reflexivity;
    try discriminate; try (intros H'; discriminate). exfalso. apply H. reflexivity.
Qed.

(** Fewer used seats than seats: one is free. *)
Lemma free_seat_exists (total : Z) (usedSeats : list Z) :
  NoDup usedSeats -> Forall (fun p => 0 <= p < total) usedSeats ->
  Z.of_nat (length usedSeats) < total ->
  exists s, List.find (fun s => negb (isUsed usedSeats s)) (seqZ 0 total) = Some s
            /\ 0 <= s < total /\ ~ In s usedSeats.
Proof.
  intros Hnodup Hrange Hlen.
  destruct (List.find (fun s => negb (isUsed usedSeats s)) (seqZ 0 total)) as [s |] eqn:Hfind.
  - apply find_some in Hfind. destruct Hfind as [Hin Hfree].
    exists s. split; [reflexivity |].
    apply list_elem_of_In, elem_of_seqZ in Hin. split; [lia |].
    apply isUsed_false. destruct (isUsed usedSeats s); [discriminate | reflexivity].
  - exfalso.
    assert (Hsub : seqZ 0 total ⊆+ usedSeats).
    { apply NoDup_submseteq; [apply NoDup_seqZ |].
      intros x Hx. apply list_elem_of_In. apply isUsed_spec.
      apply list_elem_of_In in Hx.
      pose proof (find_none _ _ Hfind x Hx) as Hf. simpl in Hf.
      destruct (isUsed usedSeats x); [reflexivity | discriminate]. }
    apply submseteq_length in Hsub. rewrite length_seqZ in Hsub. lia.
Qed.

Section GreedyValid.
Context {T : Type} `{AT : Arith T}.

Variable this : Optimizer T.
Variable rows cols vipRows : Z.
Variable N : nat.
Hypothesis well_formed : wellFormed this rows cols vipRows N.
Hypothesis room : Z.of_nat N <= rows * cols.

Local Abbreviation v := (makeVenue (T := T) rows cols vipRows).

(** Every attendee has the placeholder or a seat of the venue. *)
Lemma greedyState_gene (processed : list nat) (st : Chromosome * list Z) (i : nat) :
  greedyState rows cols N processed st -> (i < N)%nat ->
  geneAt (fst st) i = Some (-1)
  \/ exists p, geneAt (fst st) i = Some p /\ 0 <= p < rows * cols.
Proof.
  intros (Hlen & Hnd & Hlt & Hpairs & Hrest & Hused & Hrange) Hi.
  destruct (in_dec Nat.eq_dec i processed) as [Hin | Hout].
  - right. apply list_elem_of_In, list_elem_of_lookup_1 in Hin. destruct Hin as (k & Hk).
    destruct (Forall2_lookup_l _ _ _ _ _ Hpairs Hk) as (p & Hp & Hgene).
    exists p. split; [unfold geneAt; rewrite Hgene; reflexivity |].
    eapply Forall_lookup_1 in Hrange; [| exact Hp]. exact Hrange.
  - left. unfold geneAt. rewrite (Hrest i Hi Hout). reflexivity.
Qed.

Lemma groupProximityScore_returns (processed : list nat) (st : Chromosome * list Z)
    (attendee : Attendee T) (seat : Seat T) (score : T) :
  greedyState rows cols N processed st ->
  exists sc, groupProximityScore this v (fst st) attendee seat score = Ok sc.
Proof using well_formed.
  intros Hst. pose proof well_formed as (_ & Hrows & Hcols & _ & Hgroups & _).
  unfold groupProximityScore.
  destruct (truthyGroup (a_group attendee)) as [g |]; [| eexists; reflexivity].
  destruct (mapGet String.eqb g (groups this)) as [members |] eqn:Hget; [| eexists; reflexivity].
  apply mapGet_In in Hget. destruct Hget as (g' & Hin & _).
  destruct (foldlM_total (fun _ : T => True)
              (fun sc memberIdx =>
                 if bool_decide (geneAt (fst st) memberIdx = Some (-1)) then Ok sc
                 else
                   dist ← getSeatDistance (Some seat) (seatOf v (fst st) memberIdx);
                   Ok (sc + nmax (ofZ 0) (ofZ (100 - dist * 20)))%num)
              members) with (b := score) as (sc & Hsc & _); [| exact I | exists sc; exact Hsc].
  intros b m Hm _.
  assert (Hlt : (m < N)%nat) by (apply (Hgroups (g', members) m Hin Hm)).
  destruct (greedyState_gene processed st m Hst Hlt) as [Hgene | (p & Hgene & Hp)].
  - rewrite bool_decide_eq_true_2 by exact Hgene. eexists. split; [reflexivity | exact I].
  - destruct (bool_decide (geneAt (fst st) m = Some (-1))); [eexists; split; [reflexivity | exact I] |].
    unfold seatOf. rewrite Hgene.
    destruct (proj2 (seatAt_defined rows cols vipRows (Some p) Hrows Hcols)) as (s0 & ->).
    { exists p. split; [reflexivity | exact Hp]. }
    eexists. split; [reflexivity | exact I].
Qed.

Lemma scan_returns (processed : list nat) (st : Chromosome * list Z) (attendee : Attendee T) :
  greedyState rows cols N processed st ->
  exists best,
    foldlM (scanBody this v (fst st) (snd st) attendee) (-1, None) (seqZ 0 (totalSeats v))
    = Ok best
    /\ (fst best = -1 \/ (0 <= fst best < rows * cols /\ ~ In (fst best) (snd st))).
Proof using well_formed.
  intros Hst. pose proof well_formed as (_ & Hrows & Hcols & _).
  apply (foldlM_total
           (fun b : Z * option T =>
              fst b = -1 \/ (0 <= fst b < rows * cols /\ ~ In (fst b) (snd st)))).
  - intros b seatPos Hin Hb. apply list_elem_of_In, elem_of_seqZ in Hin.
    cbn [totalSeats makeVenue] in Hin. unfold scanBody.
    destruct (isUsed (snd st) seatPos) eqn:Hused; [exists b; split; [reflexivity | exact Hb] |].
    cbn [seats makeVenue].
    rewrite (buildSeats_position rows cols vipRows seatPos Hrows ltac:(lia)).
    cbn [theSeat mbind outcome_bind]. unfold seatScore.
    match goal with
    | |- context [groupProximityScore this v (fst st) attendee ?seat ?score] =>
        destruct (groupProximityScore_returns processed st attendee seat score Hst) as (sc & ->)
    end.
    cbn [mbind outcome_bind].
    destruct (beats sc (snd b)); [| exists b; split; [reflexivity | exact Hb]].
    eexists. split; [reflexivity |]. right. simpl. split; [lia |].
    apply isUsed_false. exact Hused.
  - left. reflexivity.
Qed.

Lemma greedyBody_step (processed : list nat) (st : Chromosome * list Z) (attendeeIdx : nat) :
  greedyState rows cols N processed st -> (attendeeIdx < N)%nat -> ~ In attendeeIdx processed ->
  exists st', greedyBody this v st attendeeIdx = Ok st'
              /\ greedyState rows cols N (processed ++ [attendeeIdx]) st'.
Proof using well_formed room.
  intros Hst Hidx Hnew. pose proof well_formed as (_ & Hrows & Hcols & Hlen & _).
  pose proof Hst as (Hlength & Hnd & Hlt & Hpairs & Hrest & Hused & Hrange).
  unfold greedyBody.
  destruct (lookup_lt_is_Some_2 (attendees this) attendeeIdx ltac:(lia)) as (attendee & ->).
  destruct (scan_returns processed st attendee Hst) as (best & -> & Hbest).
  cbn [mbind outcome_bind].
  (* the number of seats used so far is below the number of attendees *)
  assert (Hcount : (length (snd st) < N)%nat).
  { rewrite <- (Forall2_length _ _ _ Hpairs).
    assert (Hsub : (processed ++ [attendeeIdx]) ⊆+ seq 0 N).
    { apply NoDup_submseteq.
      - apply NoDup_app. split; [exact Hnd |]. split; [| apply NoDup_singleton].
        intros x Hx Hx'. apply list_elem_of_singleton in Hx'. subst.
        apply Hnew, list_elem_of_In, Hx.
      - intros x Hx. apply elem_of_seq. apply elem_of_app in Hx. destruct Hx as [Hx | Hx].
        + rewrite Forall_forall in Hlt. specialize (Hlt x Hx). lia.
        + apply list_elem_of_singleton in Hx. subst. lia. }
    apply submseteq_length in Hsub. rewrite length_app, length_seq in Hsub. simpl in Hsub. lia. }
  set (bestSeat := if (fst best =? -1)%Z then firstFree v (snd st) else fst best).
  assert (Hseat : 0 <= bestSeat < rows * cols /\ ~ In bestSeat (snd st)).
  { unfold bestSeat. destruct (Z.eqb_spec (fst best) (-1)) as [_ | Hne].
    - unfold firstFree. cbn [totalSeats makeVenue].
      destruct (free_seat_exists (rows * cols) (snd st) Hused Hrange ltac:(lia))
        as (s & -> & Hs & Hfree).
      split; assumption.
    - destruct Hbest as [Heq | Hbest]; [contradiction | exact Hbest]. }
  destruct Hseat as [Hseat Hfree].
  rewrite (proj2 (isUsed_false (snd st) bestSeat) Hfree).
  eexists. split; [reflexivity |].
  rewrite arrayWrite_in_range by lia.
  unfold greedyState. cbn [fst snd].
  split; [rewrite length_insert; exact Hlength |].
  split.
  { apply NoDup_app. split; [exact Hnd |]. split; [| apply NoDup_singleton].
    intros x Hx Hx'. apply list_elem_of_singleton in Hx'. subst.
    apply Hnew, list_elem_of_In, Hx. }
  split.
  { apply Forall_app. split; [exact Hlt |]. apply Forall_singleton. exact Hidx. }
  split.
  { apply Forall2_app.
    - apply Forall2_same_length_lookup_2; [eapply Forall2_length; exact Hpairs |].
      intros k i p Hi Hp.
      rewrite list_lookup_insert_ne.
      + exact (Forall2_lookup_lr _ _ _ _ _ _ Hpairs Hi Hp).
      + intros ->. apply Hnew, list_elem_of_In. eapply list_elem_of_lookup_2. exact Hi.
    - constructor; [| constructor].
      apply list_lookup_insert_eq. lia. }
  split.
  { intros i Hi Hout. rewrite list_lookup_insert_ne.
    - apply Hrest; [exact Hi |]. intros Hin. apply Hout, in_or_app. left. exact Hin.
    - intros ->. apply Hout, in_or_app. right. left. reflexivity. }
  split.
  { apply NoDup_app. split; [exact Hused |]. split; [| apply NoDup_singleton].
    intros x Hx Hx'. apply list_elem_of_singleton in Hx'. subst.
    apply Hfree, list_elem_of_In, Hx. }
  apply Forall_app. split; [exact Hrange |]. apply Forall_singleton. exact Hseat.
Qed.

Lemma greedy_loop (todo : list nat) :
  forall (processed : list nat) (st : Chromosome * list Z),
    greedyState rows cols N processed st ->
    NoDup (processed ++ todo) -> Forall (fun i => (i < N)%nat) todo ->
    exists st', foldlM (greedyBody this v) st todo = Ok st'
                /\ greedyState rows cols N (processed ++ todo) st'.
Proof using well_formed room.
  induction todo as [| i todo IH]; intros processed st Hst Hnd Hlt.
  - exists st. split; [reflexivity |]. rewrite app_nil_r. exact Hst.
  - apply Forall_cons in Hlt. destruct Hlt as [Hi Hlt].
    assert (Hnew : ~ In i processed).
    { intros Hin. apply NoDup_app in Hnd. destruct Hnd as (_ & Hdisj & _).
      apply (Hdisj i); [apply list_elem_of_In; exact Hin | left]. }
    destruct (greedyBody_step processed st i Hst Hi Hnew) as (st1 & E1 & Hst1).
    cbn [foldlM]. rewrite E1. cbn [mbind outcome_bind].
    replace (processed ++ i :: todo) with ((processed ++ [i]) ++ todo)
      by (rewrite <- app_assoc; reflexivity).
    apply IH; [exact Hst1 | rewrite <- app_assoc; exact Hnd | exact Hlt].
Qed.

Lemma sortedIndices_Permutation : sortedIndices this ≡ₚ seq 0 N.
Proof using well_formed.
  destruct well_formed as (_ & _ & _ & Hlen & _).
  unfold sortedIndices. rewrite map_fmap, sortBy_Permutation.
  unfold enumerate. rewrite <- Hlen. clear.
  generalize (attendees this) as l. intros l.
  rewrite fmap_imap. unfold compose. simpl.
  assert (H : forall (k : nat), imap (fun n _ => (k + n)%nat) l = seq k (length l)).
  { induction l as [| a l IH]; intros k; simpl; [reflexivity |].
    rewrite Nat.add_0_r. f_equal. rewrite <- IH. apply imap_ext. intros; simpl. f_equal. lia. }
  rewrite <- (H 0%nat). reflexivity.
Qed.

Lemma generateGreedySolution_returns :
  exists c, generateGreedySolution this = Ok c /\ validAssignment rows cols N c.
Proof using well_formed room.
  pose proof well_formed as (Hv & Hrows & Hcols & Hlen & _).
  pose proof sortedIndices_Permutation as Hperm.
  destruct (greedy_loop (sortedIndices this) [] (replicate N (Some (-1)), []))
    as (st & Hloop & Hst).
  - unfold greedyState. cbn [fst snd].
    split; [apply length_replicate |]. split; [apply NoDup_nil_2 |].
    split; [apply Forall_nil_2 |]. split; [constructor |].
    split; [| split; [apply NoDup_nil_2 | apply Forall_nil_2]].
    intros i Hi _. apply lookup_replicate_2. exact Hi.
  - simpl. rewrite Hperm. apply NoDup_seq.
  - rewrite Hperm. apply Forall_forall. intros i Hi. apply elem_of_seq in Hi. lia.
  - exists (fst st). split.
    + unfold generateGreedySolution. rewrite Hv, Hlen, Hloop. reflexivity.
    + simpl in Hst. destruct Hst as (Hlength & Hnd & Hlt & Hpairs & Hrest & Hused & Hrange).
      apply validAssignment_alt. split; [exact Hlength |].
      assert (Hall : forall i, (i < N)%nat ->
                exists k p, sortedIndices this !! k = Some i /\ snd st !! k = Some p
                            /\ fst st !! i = Some (Some p)).
      { intros i Hi.
        assert (Hin : i ∈ sortedIndices this) by (rewrite Hperm; apply elem_of_seq; lia).
        apply list_elem_of_lookup_1 in Hin. destruct Hin as (k & Hk).
        destruct (Forall2_lookup_l _ _ _ _ _ Hpairs Hk) as (p & Hp & Hgene).
        exists k, p. repeat split; assumption. }
      split.
      * apply NoDup_alt. intros i j g Hi Hj.
        pose proof (lookup_lt_Some _ _ _ Hi) as Hi'. pose proof (lookup_lt_Some _ _ _ Hj) as Hj'.
        destruct (Hall i ltac:(lia)) as (k1 & p1 & Hk1 & Hp1 & Hg1).
        destruct (Hall j ltac:(lia)) as (k2 & p2 & Hk2 & Hp2 & Hg2).
        rewrite Hg1 in Hi. rewrite Hg2 in Hj. injection Hi as <-. injection Hj as Heq.
        subst p2.
        assert (k1 = k2) by (eapply NoDup_lookup; eassumption). subst k2.
        rewrite Hk1 in Hk2. injection Hk2 as ->. reflexivity.
      * apply Forall_lookup. intros i g Hi.
        pose proof (lookup_lt_Some _ _ _ Hi) as Hi'.
        destruct (Hall i ltac:(lia)) as (k & p & _ & Hp & Hg).
        rewrite Hg in Hi. injection Hi as <-. exists p. split; [reflexivity |].
        eapply Forall_lookup_1 in Hrange; [| exact Hp]. exact Hrange.
Qed.

End GreedyValid.


(** ** Crossover *)

Lemma includes_spec (x : option Z) (a : Chromosome) : includes x a = true <-> In x a.
Proof.
  unfold includes. rewrite existsb_exists. split.
  - intros (y & Hy & Heq). apply bool_decide_eq_true in Heq. subst. exact Hy.
  - intros H. exists x. split; [exact H | apply bool_decide_eq_true; reflexivity].
Qed.

Lemma setHas_spec (x : option Z) (s : list (option Z)) : setHas x s = true <-> In x s.
Proof. apply includes_spec. Qed.

Lemma filter_all {A : Type} (P : A -> Prop) `{forall x, Decision (P x)} (l : list A) :
  (forall x, In x l -> P x) -> filter P l = l.
Proof.
  induction l as [| a l IH]; intros Hall; [reflexivity |].
  rewrite filter_cons_True by (apply Hall; left; reflexivity).
  f_equal. apply IH. intros x Hx. apply Hall. right. exact Hx.
Qed.

Lemma filter_none {A : Type} (P : A -> Prop) `{forall x, Decision (P x)} (l : list A) :
  (forall x, In x l -> ~ P x) -> filter P l = [].
Proof.
  induction l as [| a l IH]; intros Hall; [reflexivity |].
  rewrite filter_cons_False by (apply Hall; left; reflexivity).
  apply IH. intros x Hx. apply Hall. right. exact Hx.
Qed.

Lemma filter_ext_in {A : Type} (P1 P2 : A -> Prop) `{forall x, Decision (P1 x)}
    `{forall x, Decision (P2 x)} (l : list A) :
  (forall x, x ∈ l -> P1 x <-> P2 x) -> filter P1 l = filter P2 l.
Proof.
  induction l as [| a l IH]; intros Hext; [reflexivity |].
  assert (Hl : filter P1 l = filter P2 l)
    by (apply IH; intros x Hx; apply Hext; right; exact Hx).
  destruct (decide (P1 a)) as [Ha | Ha].
  - rewrite (filter_cons_True P1) by exact Ha.
    rewrite (filter_cons_True P2) by (apply Hext; [left | exact Ha]).
    f_equal. exact Hl.
  - rewrite (filter_cons_False P1) by exact Ha.
    rewrite (filter_cons_False P2) by (intros H'; apply Ha, Hext; [left | exact H']).
    exact Hl.
Qed.

(** Replacing an entry that the filter drops by one that it keeps. *)
Lemma filter_insert_hole {A : Type} (P : A -> Prop) `{forall x, Decision (P x)}
    (l : list A) (i : nat) (x y : A) :
  l !! i = Some x -> ~ P x -> P y -> filter P (<[i := y]> l) ≡ₚ y :: filter P l.
Proof.
  revert i. induction l as [| a l IH]; intros i Hi Hx Hy; [discriminate |].
  destruct i as [| i]; simpl in *.
  - injection Hi as ->. rewrite filter_cons_True by exact Hy.
    rewrite (filter_cons_False _ x) by exact Hx. reflexivity.
  - destruct (decide (P a)) as [Ha | Ha].
    + rewrite !filter_cons_True by exact Ha. rewrite (IH i Hi Hx Hy). apply Permutation_swap.
    + rewrite !filter_cons_False by exact Ha. apply (IH i Hi Hx Hy).
Qed.

Lemma mod_shift_inj (N base j1 j2 : nat) :
  (j1 < N)%nat -> (j2 < N)%nat ->
  ((base + j1) mod N = (base + j2) mod N)%nat -> j1 = j2.
Proof.
  intros H1 H2 Heq.
  pose proof (Nat.div_mod_eq (base + j1) N) as E1.
  pose proof (Nat.div_mod_eq (base + j2) N) as E2.
  rewrite Heq in E1.
  set (q1 := ((base + j1) / N)%nat) in *. set (q2 := ((base + j2) / N)%nat) in *.
  set (m := ((base + j2) mod N)%nat) in *.
  destruct (lt_eq_lt_dec q1 q2) as [[Hlt | Heq'] | Hgt]; nia.
Qed.

Section FillLoop.
Variables rows cols : Z.
Variable N : nat.
Variable parent : Chromosome.
Hypothesis N_positive : (0 < N)%nat.

Lemma fill_done (h base f : nat) (child : Chromosome) (usedSeats : list (option Z))
    (childIdx : nat) :
  fillState rows cols N h base f child usedSeats childIdx ->
  includes (Some (-1)) child = false -> validAssignment rows cols N child.
Proof.
  intros (Hlen & _ & _ & _ & _ & _ & Hnd & Hseats & Hperm) Hdone.
  rewrite filter_all in Hperm.
  - apply validAssignment_alt. split; [exact Hlen |]. split.
    + rewrite <- Hperm. exact Hnd.
    + rewrite <- Hperm. exact Hseats.
  - intros x Hx ->. apply includes_spec in Hx. congruence.
Qed.

Lemma fill_hole (h base f : nat) (child : Chromosome) (usedSeats : list (option Z))
    (childIdx : nat) :
  fillState rows cols N h base f child usedSeats childIdx ->
  includes (Some (-1)) child = true -> (f < h)%nat.
Proof.
  intros (Hlen & Hcount & _ & _ & _ & _ & _ & _ & Hperm) Hmore.
  apply includes_spec, list_elem_of_In in Hmore.
  pose proof (length_filter_lt (fun s => s <> Some (-1)) child (Some (-1)) Hmore
                ltac:(intros H; apply H; reflexivity)) as Hlt.
  rewrite <- Hperm in Hlt. lia.
Qed.

Lemma fillLoop_returns (h base : nat) (todo : list (option Z)) :
  forall (f : nat) (child : Chromosome) (usedSeats : list (option Z))
         (childIdx parentIdx fuel : nat),
    fillState rows cols N h base f child usedSeats childIdx ->
    (parentIdx < N)%nat ->
    (forall i g, todo !! i = Some g -> g = geneAt parent ((parentIdx + i) mod N)%nat) ->
    NoDup todo -> Forall (isSeatOf rows cols) todo ->
    (N <= length usedSeats + length (filter (fun g => g ∉ usedSeats) todo))%nat ->
    (length todo <= fuel)%nat ->
    exists c, fillLoop fuel N parent child usedSeats childIdx parentIdx = Ok c
              /\ validAssignment rows cols N c.
Proof using N_positive.
  induction todo as [| g todo IH];
    intros f child usedSeats childIdx parentIdx fuel Hst Hp Htodo Hnd Hseats Hcount Hfuel.
  - (* nothing left to read: the child is complete *)
    assert (Hdone : includes (Some (-1)) child = false).
    { destruct (includes (Some (-1)) child) eqn:Hinc; [| reflexivity].
      pose proof (fill_hole _ _ _ _ _ _ Hst Hinc).
      destruct Hst as (_ & Hc & _). simpl in Hcount. lia. }
    exists child. split; [| eapply fill_done; eassumption].
    destruct fuel; simpl; rewrite Hdone; reflexivity.
  - destruct (includes (Some (-1)) child) eqn:Hinc.
    2: { exists child. split; [| eapply fill_done; eassumption].
         destruct fuel; simpl; rewrite Hinc; reflexivity. }
    destruct fuel as [| fuel]; [simpl in Hfuel; lia |].
    cbn [fillLoop]. rewrite Hinc. cbn [negb].
    assert (Hg : geneAt parent parentIdx = g).
    { symmetry. rewrite (Htodo 0%nat g eq_refl). rewrite Nat.add_0_r, Nat.mod_small by lia.
      reflexivity. }
    rewrite Hg.
    assert (Hnext : forall i g0, todo !! i = Some g0 ->
              g0 = geneAt parent (((parentIdx + 1) mod N + i) mod N)%nat).
    { intros i g0 Hi. rewrite Nat.Div0.add_mod_idemp_l.
      replace (parentIdx + 1 + i)%nat with (parentIdx + S i)%nat by lia.
      apply Htodo. exact Hi. }
    assert (Hp' : ((parentIdx + 1) mod N < N)%nat) by (apply Nat.mod_upper_bound; lia).
    apply NoDup_cons in Hnd. destruct Hnd as [Hfresh Hnd].
    apply Forall_cons in Hseats. destruct Hseats as [Hgseat Hseats].
    simpl in Hfuel.
    destruct (setHas g usedSeats) eqn:Hhas; cbn [negb].
    + (* the seat is taken already *)
      apply setHas_spec in Hhas.
      apply (IH f); try assumption; [| lia].
      rewrite filter_cons_False in Hcount
        by (intros H; apply H, list_elem_of_In; exact Hhas).
      exact Hcount.
    + (* the seat fills the next placeholder *)
      assert (Hnew : ~ In g usedSeats).
      { intros H. apply setHas_spec in H. congruence. }
      pose proof (fill_hole _ _ _ _ _ _ Hst Hinc) as Hf.
      destruct Hst as (Hlen & Hc & Hfh & HhN & Hidx & Hholes & Hund & Huseats & Hperm).
      assert (HidxN : (childIdx < N)%nat) by (subst childIdx; apply Nat.mod_upper_bound; lia).
      rewrite arrayWrite_in_range by lia.
      apply (IH (S f)); try assumption.
      * unfold fillState.
        split; [rewrite length_insert; exact Hlen |].
        split; [rewrite length_app; simpl; lia |].
        split; [lia |]. split; [exact HhN |].
        split.
        { subst childIdx. rewrite Nat.Div0.add_mod_idemp_l. f_equal. lia. }
        split.
        { intros j Hj. rewrite list_lookup_insert_ne; [apply Hholes; lia |].
          subst childIdx. intros Heq. apply mod_shift_inj in Heq; lia. }
        split.
        { apply NoDup_app. split; [exact Hund |]. split; [| apply NoDup_singleton].
          intros x Hx Hx'. apply list_elem_of_singleton in Hx'. subst.
          apply Hnew, list_elem_of_In, Hx. }
        split.
        { apply Forall_app. split; [exact Huseats |]. apply Forall_singleton. exact Hgseat. }
        rewrite (filter_insert_hole _ child childIdx (Some (-1)) g).
        -- rewrite <- Hperm. rewrite Permutation_app_comm. reflexivity.
        -- subst childIdx. apply Hholes. lia.
        -- intros H. apply H. reflexivity.
        -- destruct Hgseat as (p & -> & Hp0). intros H. injection H as ->. lia.
      * rewrite length_app. simpl.
        rewrite filter_cons_True in Hcount
          by (intros H; apply Hnew, list_elem_of_In; exact H).
        simpl in Hcount.
        assert (Hsame : filter (fun g0 => g0 ∉ usedSeats ++ [g]) todo
                        = filter (fun g0 => g0 ∉ usedSeats) todo).
        { apply filter_ext_in. intros x Hx. split.
          - intros H H'. apply H, elem_of_app. left. exact H'.
          - intros H H'. apply elem_of_app in H'. destruct H' as [H' | H'].
            + exact (H H').
            + apply list_elem_of_singleton in H'. subst. exact (Hfresh Hx). }
        rewrite Hsame. lia.
      * lia.
Qed.

End FillLoop.

Lemma mod_cases (N a : nat) :
  (0 < N)%nat -> (a < 2 * N)%nat -> (a mod N = if (a <? N)%nat then a else a - N)%nat.
Proof.
  intros HN Ha. destruct (Nat.ltb_spec a N) as [Hlt | Hge].
  - apply Nat.mod_small. exact Hlt.
  - symmetry. apply (Nat.mod_unique a N 1); lia.
Qed.

Section CrossoverValid.
Variables rows cols : Z.
Variable N : nat.
Hypothesis N_positive : (0 < N)%nat.

Lemma valid_lookup (A : Chromosome) (i : nat) :
  validAssignment rows cols N A -> (i < N)%nat ->
  exists g, A !! i = Some g /\ geneAt A i = g /\ isSeatOf rows cols g.
Proof.
  intros Hvalid Hi. apply validAssignment_alt in Hvalid. destruct Hvalid as (Hlen & _ & Hseats).
  destruct (lookup_lt_is_Some_2 A i ltac:(lia)) as (g & Hg).
  exists g. split; [exact Hg |]. split; [unfold geneAt; rewrite Hg; reflexivity |].
  eapply Forall_lookup_1 in Hseats; [| exact Hg]. exact Hseats.
Qed.

(** The segment loop: the child holds the genes [start .. start + cnt - 1]
    of the parent between placeholders. *)
Lemma copy_loop (parentA : Chromosome) (start : nat) (cnt : nat) :
  validAssignment rows cols N parentA -> (start + cnt <= N)%nat ->
  fold_left (fun c i => arrayWrite c (Z.to_nat i) (geneAt parentA (Z.to_nat i)))
            (seqZ (Z.of_nat start) (Z.of_nat cnt)) (replicate N (Some (-1)))
  = replicate start (Some (-1)) ++ take cnt (drop start parentA)
    ++ replicate (N - start - cnt) (Some (-1)).
Proof using N_positive.
  intros Hvalid. induction cnt as [| cnt IH]; intros Hcnt.
  - simpl. rewrite Nat.sub_0_r, <- replicate_add. f_equal. lia.
  - rewrite seqZ_S, fold_left_app, IH by lia. cbn [fold_left].
    replace (Z.to_nat (Z.of_nat start + Z.of_nat cnt)) with (start + cnt)%nat by lia.
    destruct (valid_lookup parentA (start + cnt) Hvalid ltac:(lia)) as (g & Hg & -> & _).
    assert (Hseg : length (take cnt (drop start parentA)) = cnt).
    { rewrite length_take, length_drop, (valid_length _ _ _ _ Hvalid). lia. }
    rewrite arrayWrite_in_range
      by (rewrite !length_app, !length_replicate, Hseg; lia).
    rewrite insert_app_r_alt by (rewrite length_replicate; lia).
    rewrite length_replicate.
    rewrite insert_app_r_alt by (rewrite Hseg; lia).
    rewrite Hseg. replace (start + cnt - start - cnt)%nat with 0%nat by lia.
    replace (N - start - cnt)%nat with (S (N - start - S cnt)) by lia.
    cbn [replicate]. simpl.
    rewrite (take_S_r (drop start parentA) cnt g) by (rewrite lookup_drop; exact Hg).
    rewrite <- !app_assoc. reflexivity.
Qed.

Lemma copySegment_spec (parentA : Chromosome) (start end_ : Z) :
  validAssignment rows cols N parentA -> 0 <= start <= end_ -> end_ < Z.of_nat N ->
  copySegment (replicate N (Some (-1))) parentA start end_
  = replicate (Z.to_nat start) (Some (-1))
    ++ take (Z.to_nat (end_ - start + 1)) (drop (Z.to_nat start) parentA)
    ++ replicate (N - Z.to_nat start - Z.to_nat (end_ - start + 1)) (Some (-1)).
Proof using N_positive.
  intros Hvalid Hstart Hend. unfold copySegment.
  rewrite <- (Z2Nat.id start) at 1 by lia.
  rewrite <- (Z2Nat.id (end_ - start + 1)) at 1 by lia.
  apply copy_loop; [exact Hvalid | lia].
Qed.

Lemma fillCrossoverChild_returns (fuel : nat) (parentA parentB : Chromosome) (start end_ : Z) :
  validAssignment rows cols N parentA -> validAssignment rows cols N parentB ->
  0 <= start <= end_ -> end_ < Z.of_nat N -> (N <= fuel)%nat ->
  exists c,
    fillCrossoverChild fuel (copySegment (replicate N (Some (-1))) parentA start end_)
                       parentB start end_ = Ok c
    /\ validAssignment rows cols N c.
Proof using N_positive.
  intros HA HB Hstart Hend Hfuel.
  pose proof (valid_length _ _ _ _ HA) as HlenA.
  pose proof (valid_length _ _ _ _ HB) as HlenB.
  rewrite (copySegment_spec parentA start end_ HA Hstart Hend).
  set (s := Z.to_nat start). set (k := Z.to_nat (end_ - start + 1)).
  set (segment := take k (drop s parentA)).
  set (child := replicate s (Some (-1)) ++ segment ++ replicate (N - s - k) (Some (-1))).
  assert (Hseg : length segment = k).
  { unfold segment. rewrite length_take, length_drop. lia. }
  assert (Hchild : length child = N).
  { unfold child. rewrite !length_app, !length_replicate, Hseg. lia. }
  assert (HsegSeats : Forall (isSeatOf rows cols) segment).
  { unfold segment. apply Forall_take, Forall_drop.
    apply validAssignment_alt in HA. destruct HA as (_ & _ & HA). exact HA. }
  assert (Hused : filter (fun g => g <> Some (-1)) child = segment).
  { assert (Hholes : forall n, filter (fun g : option Z => g <> Some (-1))
                                     (replicate n (Some (-1))) = []).
    { intros n. apply filter_none. intros x Hx Hne. apply Hne.
      apply list_elem_of_In, elem_of_replicate in Hx. destruct Hx as [-> _]. reflexivity. }
    unfold child. rewrite !filter_app, !Hholes, app_nil_r. cbn [app]. apply filter_all.
    intros x Hx. rewrite Forall_forall in HsegSeats.
    destruct (HsegSeats x (proj2 (list_elem_of_In _ _) Hx)) as (p & -> & Hp).
    intros H. injection H as ->. lia. }
  unfold fillCrossoverChild. rewrite Hused, Hchild.
  rewrite Z2Nat.inj_mod by lia. rewrite Nat2Z.id.
  replace (Z.to_nat (end_ + 1)) with (s + k)%nat by lia.
  set (todo := map (fun i => geneAt parentB ((((s + k) mod N) + i) mod N)%nat) (seq 0 N)).
  apply (fillLoop_returns rows cols N parentB N_positive (N - k) (s + k) todo 0%nat).
  - unfold fillState. split; [exact Hchild |]. split; [rewrite Hseg; lia |].
    split; [lia |]. split; [lia |]. split; [f_equal; lia |].
    split.
    { intros j Hj. rewrite (mod_cases N (s + k + j)) by lia. unfold child.
      destruct (Nat.ltb_spec (s + k + j) N) as [Hlt | Hge].
      - rewrite lookup_app_r by (rewrite length_replicate; lia).
        rewrite lookup_app_r by (rewrite length_replicate, Hseg; lia).
        apply lookup_replicate_2. rewrite length_replicate, Hseg. lia.
      - rewrite lookup_app_l by (rewrite length_replicate; lia).
        apply lookup_replicate_2. lia. }
    split.
    { unfold segment. apply (sublist_NoDup _ parentA).
      - apply validAssignment_alt in HA. destruct HA as (_ & HA & _). exact HA.
      - etransitivity; [apply sublist_take | apply sublist_drop]. }
    split; [exact HsegSeats |]. rewrite Hused. reflexivity.
  - apply Nat.mod_upper_bound. lia.
  - intros i g Hi. unfold todo in Hi. rewrite lookup_map in Hi.
    destruct (seq 0 N !! i) as [i' |] eqn:Hseq; [| discriminate].
    apply lookup_seq in Hseq. destruct Hseq as [-> _].
    simpl in Hi. injection Hi as <-. reflexivity.
  - unfold todo. rewrite map_fmap. apply NoDup_fmap_2_strong; [| apply NoDup_seq].
    intros i j Hi Hj Heq. apply elem_of_seq in Hi, Hj.
    destruct (valid_lookup parentB (((s + k) mod N + i) mod N) HB
                ltac:(apply Nat.mod_upper_bound; lia)) as (g1 & Hg1 & E1 & _).
    destruct (valid_lookup parentB (((s + k) mod N + j) mod N) HB
                ltac:(apply Nat.mod_upper_bound; lia)) as (g2 & Hg2 & E2 & _).
    rewrite E1, E2 in Heq. subst g2.
    apply validAssignment_alt in HB. destruct HB as (_ & HB & _).
    pose proof (NoDup_lookup _ _ _ _ HB Hg1 Hg2) as Hidx.
    apply mod_shift_inj in Hidx; lia.
  - unfold todo. apply Forall_forall. intros g Hg. apply list_elem_of_In, in_map_iff in Hg.
    destruct Hg as (i & <- & Hi). apply in_seq in Hi.
    destruct (valid_lookup parentB (((s + k) mod N + i) mod N) HB
                ltac:(apply Nat.mod_upper_bound; lia)) as (g & _ & -> & Hseat).
    exact Hseat.
  - (* enough unused seats are to come *)
    assert (Htodo : length todo = N) by (unfold todo; rewrite length_map, length_seq; reflexivity).
    pose proof (filter_app_complement (fun g => g ∉ segment) todo) as Hsplit.
    apply Permutation_length in Hsplit. rewrite length_app, Htodo in Hsplit.
    assert (Hin : (length (filter (fun g : option Z => ~ (g ∉ segment)) todo) <= length segment)%nat).
    { apply submseteq_length, NoDup_submseteq.
      - apply NoDup_filter. unfold todo. rewrite map_fmap.
        apply NoDup_fmap_2_strong; [| apply NoDup_seq].
        intros i j Hi Hj Heq. apply elem_of_seq in Hi, Hj.
        destruct (valid_lookup parentB (((s + k) mod N + i) mod N) HB
                    ltac:(apply Nat.mod_upper_bound; lia)) as (g1 & Hg1 & E1 & _).
        destruct (valid_lookup parentB (((s + k) mod N + j) mod N) HB
                    ltac:(apply Nat.mod_upper_bound; lia)) as (g2 & Hg2 & E2 & _).
        rewrite E1, E2 in Heq. subst g2.
        pose proof (proj1 (proj2 (proj1 (validAssignment_alt _ _ _ _) HB))) as HndB.
        pose proof (NoDup_lookup _ _ _ _ HndB Hg1 Hg2) as Hidx.
        apply mod_shift_inj in Hidx; lia.
      - intros x Hx. apply list_elem_of_filter in Hx. destruct Hx as [Hx _].
        destruct (decide (x ∈ segment)) as [H | H]; [exact H | contradiction]. }
    lia.
  - unfold todo. rewrite length_map, length_seq. exact Hfuel.
Qed.

End CrossoverValid.

Section CrossoverOperator.
Context {T : Type} `{AT : Arith T} `{ET : HasExp T}.

Lemma crossover_valid (fuel : nat) (this : Optimizer T) (rows cols : Z) (N : nat)
    (parent1 parent2 : Chromosome) (s : list Q) :
  (1 <= N)%nat -> (N <= fuel)%nat ->
  validAssignment rows cols N parent1 -> validAssignment rows cols N parent2 ->
  exists c1 c2 s',
    crossover fuel this parent1 parent2 s = Ok ((c1, c2), s')
    /\ validAssignment rows cols N c1 /\ validAssignment rows cols N c2.
Proof.
  intros HN Hfuel H1 H2. unfold crossover.
  destruct (random_returns s) as (u & s1 & E & _). rewrite (rand_bind_Ok _ _ _ _ _ E).
  destruct (ofQ u >? crossoverRate (config this))%num.
  - exists parent1, parent2, s1. split; [reflexivity | split; assumption].
  - rewrite (valid_length _ _ _ _ H1).
    destruct (randomIndex_returns (Z.of_nat N) s1) as (start & s2 & E1 & R1).
    specialize (R1 ltac:(lia)). rewrite (rand_bind_Ok _ _ _ _ _ E1).
    destruct (randomIndex_returns (Z.of_nat N - start) s2) as (off & s3 & E2 & R2).
    specialize (R2 ltac:(lia)). rewrite (rand_bind_Ok _ _ _ _ _ E2).
    destruct (fillCrossoverChild_returns rows cols N ltac:(lia) fuel parent1 parent2
                start (start + off) H1 H2 ltac:(lia) ltac:(lia) Hfuel) as (c1 & Ec1 & Hc1).
    destruct (fillCrossoverChild_returns rows cols N ltac:(lia) fuel parent2 parent1
                start (start + off) H2 H1 ltac:(lia) ltac:(lia) Hfuel) as (c2 & Ec2 & Hc2).
    exists c1, c2, s3. split; [| split; assumption].
    unfold mbind, rand_bind, liftO. rewrite Ec1, Ec2. reflexivity.
Qed.

(** X13.  Order crossover: for two valid assignments of the same attendees, the
    loop of [fillCrossoverChild] ends after at most one pass over the
    parent for every segment, and gives a valid assignment; so both
    children of [crossover] are valid assignments, even when the parents
    use different seats of the venue. *)
Theorem crossover_keeps_valid (fuel : nat) (this : Optimizer T) (rows cols : Z) (N : nat)
    (parent1 parent2 : Chromosome) (s : list Q) :
  (1 <= N)%nat -> (N <= fuel)%nat ->
  validAssignment rows cols N parent1 -> validAssignment rows cols N parent2 ->
  (forall start end_ : Z,
     0 <= start <= end_ -> end_ < Z.of_nat N ->
     exists c,
       fillCrossoverChild fuel (copySegment (replicate N (Some (-1))) parent1 start end_)
                          parent2 start end_ = Ok c
       /\ validAssignment rows cols N c)
  /\ exists c1 c2 s',
       crossover fuel this parent1 parent2 s = Ok ((c1, c2), s')
       /\ validAssignment rows cols N c1 /\ validAssignment rows cols N c2.
Proof.
  intros HN Hfuel H1 H2. split.
  - intros start end_ Hstart Hend.
    exact (fillCrossoverChild_returns rows cols N HN fuel parent1 parent2 start end_
             H1 H2 Hstart Hend Hfuel).
  - exact (crossover_valid fuel this rows cols N parent1 parent2 s HN Hfuel H1 H2).
Qed.

End CrossoverOperator.

Lemma crossover_keeps_valid_witness :
  exists c1 c2 s',
    crossover 4 (twoGroups (T := R)) [Some 0; Some 1; Some 4; Some 8]
              [Some 8; Some 2; Some 1; Some 5] [0.5; 0.3; 0.4]%Q = Ok ((c1, c2), s')
    /\ validAssignment 3 3 4 c1 /\ validAssignment 3 3 4 c2.
Proof.
  refine (proj2 (crossover_keeps_valid 4 (twoGroups (T := R)) 3 3 4 _ _ _ _ _ _ _)); try lia;
    apply isValidAssignment_sound; reflexivity.
Defined.


(** ** The initial population *)

Section InitialPopulation.
Context {T : Type} `{AT : Arith T} `{ET : HasExp T}.

Variable this : Optimizer T.
Variable rows cols vipRows : Z.
Variable N : nat.
Hypothesis well_formed : wellFormed this rows cols vipRows N.
Hypothesis room : Z.of_nat N <= rows * cols.

Variable mutateFn : JsArray -> Rand JsArray.
Hypothesis mutate_valid_here : forall a s, validAssignment rows cols N (elems a) ->
  exists a' s', mutateFn a s = Ok (a', s') /\ validAssignment rows cols N (elems a').

Lemma greedySeedWith_valid (s : list Q) :
  exists c s', greedySeedWith mutateFn this s = Ok (c, s') /\ validAssignment rows cols N c.
Proof using well_formed room mutate_valid_here.
  destruct (generateGreedySolution_returns this rows cols vipRows N well_formed room)
    as (greedy & Eg & Hg).
  unfold greedySeedWith. unfold mbind at 1, rand_bind at 1, liftO. rewrite Eg.
  destruct (foldlR_total (fun a => validAssignment rows cols N (elems a))
              (fun a (_ : Z) => mutateFn a) (seqZ 0 5)
              (fun a _ s0 _ Ha => mutate_valid_here a s0 Ha) (fresh greedy) s Hg)
    as (a & s' & Ea & Ha).
  exists (elems a), s'. split; [| exact Ha].
  unfold mbind, rand_bind. rewrite Ea. reflexivity.
Qed.

Lemma generateRandomChromosome_returns (s : list Q) :
  exists c s', generateRandomChromosome this s = Ok (c, s') /\ validAssignment rows cols N c.
Proof using well_formed room.
  destruct (generateRandomChromosome_sized this rows cols vipRows N s well_formed)
    as (c & s' & E & Hvalid).
  exists c, s'. split; [exact E |].
  replace N with (min N (Z.to_nat (rows * cols))) at 1 by lia. exact Hvalid.
Qed.

Lemma randomFill_valid (k : nat) :
  forall (population : list Chromosome) (s : list Q),
    Forall (validAssignment rows cols N) population ->
    (populationSize (config this) - Z.of_nat (length population) <= Z.of_nat k) ->
    exists population' s',
      randomFill this k population s = Ok (population', s')
      /\ Forall (validAssignment rows cols N) population'
      /\ Z.of_nat (length population')
         = Z.max (populationSize (config this)) (Z.of_nat (length population)).
Proof using well_formed room.
  induction k as [| k IH]; intros population s Hvalid Hk; cbn [randomFill].
  - exists population, s. split; [reflexivity |]. split; [exact Hvalid | lia].
  - destruct (Z.ltb_spec (Z.of_nat (length population)) (populationSize (config this)))
      as [Hlt | Hge].
    + destruct (generateRandomChromosome_returns s) as (c & s1 & E & Hc).
      rewrite (rand_bind_Ok _ _ _ _ _ E).
      destruct (IH (population ++ [c]) s1) as (population' & s' & E' & Hv & Hlen).
      * apply Forall_app. split; [exact Hvalid | apply Forall_singleton; exact Hc].
      * rewrite length_app. simpl. lia.
      * exists population', s'. split; [exact E' |]. split; [exact Hv |].
        rewrite Hlen, length_app. simpl. lia.
    + exists population, s. split; [reflexivity |]. split; [exact Hvalid | lia].
Qed.

Lemma initializePopulationWith_valid (s : list Q) :
  exists population s',
    initializePopulationWith mutateFn this s = Ok (population, s')
    /\ Forall (validAssignment rows cols N) population
    /\ Z.of_nat (length population) = Z.max 0 (populationSize (config this)).
Proof using well_formed room mutate_valid_here.
  unfold initializePopulationWith.
  set (seeds := Qfloor (inject_Z (populationSize (config this)) * 0.2)).
  assert (Hseeds : seeds <= Z.max 0 (populationSize (config this))).
  { unfold seeds, Qfloor, Qmult, inject_Z. simpl.
    destruct (Z.le_gt_cases 0 (populationSize (config this))) as [Hp | Hp].
    - apply Z.div_le_upper_bound; lia.
    - transitivity 0; [| lia]. apply Z.div_le_upper_bound; lia. }
  assert (Hloop : forall l (population : list Chromosome) (s0 : list Q),
            Forall (validAssignment rows cols N) population ->
            exists population' s',
              foldlR (fun pop (_ : Z) => g ← greedySeedWith mutateFn this; mret (pop ++ [g]))
                     population l s0 = Ok (population', s')
              /\ Forall (validAssignment rows cols N) population'
              /\ length population' = (length population + length l)%nat).
  { induction l as [| z l IH]; intros population s0 Hvalid; cbn [foldlR].
    - exists population, s0. split; [reflexivity |]. split; [exact Hvalid | simpl; lia].
    - destruct (greedySeedWith_valid s0) as (g & s1 & E & Hg).
      destruct (IH (population ++ [g]) s1) as (population' & s' & E' & Hv & Hlen).
      { apply Forall_app. split; [exact Hvalid | apply Forall_singleton; exact Hg]. }
      exists population', s'. split; [| split; [exact Hv |]].
      + unfold mbind at 1, rand_bind at 1. unfold mbind at 1, rand_bind at 1.
        rewrite E. exact E'.
      + rewrite Hlen, length_app. simpl. lia. }
  destruct (Hloop (seqZ 0 seeds) [] s (Forall_nil_2 _)) as (seeded & s1 & E1 & Hv1 & Hlen1).
  rewrite (rand_bind_Ok _ _ _ _ _ E1).
  rewrite length_seqZ in Hlen1. simpl in Hlen1.
  destruct (randomFill_valid
              (Z.to_nat (populationSize (config this) - Z.of_nat (length seeded))) seeded s1 Hv1)
    as (population & s' & E2 & Hv2 & Hlen2); [lia |].
  exists population, s'. split; [exact E2 |]. split; [exact Hv2 |]. lia.
Qed.

End InitialPopulation.

(** ** The first best solution *)

Section FirstBest.
Context {T : Type} `{AT : Arith T}.

Lemma bestIndex_bound (fitnessValues : list (Fitness T)) :
  fitnessValues <> [] -> (bestIndex fitnessValues < length fitnessValues)%nat.
Proof.
  intros Hne. unfold bestIndex.
  assert (H : forall l b i, (b < i)%nat ->
            let r := fold_left (fun st f =>
                                  let '(bestIdx, i) := st in
                                  match fitnessValues !! bestIdx with
                                  | Some fb => if (total f >? total fb)%num then (i, S i)
                                               else (bestIdx, S i)
                                  | None => (bestIdx, S i)
                                  end) l (b, i) in
            (fst r < i + length l)%nat).
  { induction l as [| f l IH]; intros b i Hb; simpl; [lia |].
    destruct (fitnessValues !! b) as [fb |];
      [destruct (total f >? total fb)%num |];
      (eapply Nat.lt_le_trans; [apply IH; lia | lia]). }
  specialize (H (drop 1 fitnessValues) 0%nat 1%nat ltac:(lia)). simpl in H.
  rewrite length_drop in H. destruct fitnessValues; [congruence | simpl in *; lia].
Qed.

End FirstBest.


(** ** [optimize] returns a valid assignment *)

Section ProblemFrame.
Context {T : Type} `{AT : Arith T}.

Lemma sameProblem_refl (this : Optimizer T) : sameProblem this this.
Proof. repeat split. Qed.

Lemma sameProblem_trans (a b c : Optimizer T) :
  sameProblem a b -> sameProblem b c -> sameProblem a c.
Proof.
  intros (H1 & H2 & H3 & H4 & H5) (G1 & G2 & G3 & G4 & G5).
  repeat split; congruence.
Qed.

Lemma sameProblem_wellFormed (this this' : Optimizer T) (rows cols vipRows : Z) (N : nat) :
  sameProblem this this' -> wellFormed this rows cols vipRows N ->
  wellFormed this' rows cols vipRows N.
Proof.
  intros (H1 & H2 & H3 & H4 & H5) (Hv & Hrows & Hcols & Hlen & Hgroups & Hfriends).
  unfold wellFormed. rewrite H2, H3, H4, H5.
  exact (conj Hv (conj Hrows (conj Hcols (conj Hlen (conj Hgroups Hfriends))))).
Qed.

Lemma sameProblem_fitness (this this' : Optimizer T) (c : Chromosome) :
  sameProblem this this' -> calculateFitness this' c = calculateFitness this c.
Proof.
  intros (H1 & H2 & H3 & H4 & H5).
  unfold calculateFitness, rawScores, theVenue. rewrite H1, H2, H3, H4, H5. reflexivity.
Qed.

Lemma updateBest_sameProblem (population : list Chromosome) (fitnessValues : list (Fitness T)) :
  forall this : Optimizer T, sameProblem this (updateBest this population fitnessValues).
Proof.
  unfold updateBest. generalize (zip population fitnessValues) as l.
  induction l as [| cf l IH]; intros this; simpl; [apply sameProblem_refl |].
  destruct (total (snd cf) >? bestTotal (bestFitness this))%num; [| apply IH].
  eapply sameProblem_trans; [| apply IH]. repeat split.
Qed.

Lemma updateBest_bestRecorded (fitnessFn : Chromosome -> Outcome (Fitness T))
    (rows cols : Z) (N : nat) (population : list Chromosome) (fitnessValues : list (Fitness T)) :
  Forall (validAssignment rows cols N) population ->
  Forall2 (fun c f => fitnessFn c = Ok f) population fitnessValues ->
  forall this : Optimizer T,
    bestRecorded fitnessFn rows cols N this ->
    bestRecorded fitnessFn rows cols N (updateBest this population fitnessValues).
Proof.
  intros Hvalid Hfit. unfold updateBest.
  assert (Hzip : forall cf, In cf (zip population fitnessValues) ->
            validAssignment rows cols N (fst cf) /\ fitnessFn (fst cf) = Ok (snd cf)).
  { intros [c f] Hin. apply list_elem_of_In, list_elem_of_lookup_1 in Hin.
    destruct Hin as (i & Hi). apply lookup_zip_with_Some in Hi.
    destruct Hi as (c' & f' & Heq & Hc & Hf). injection Heq as -> ->. simpl. split.
    - eapply Forall_lookup_1 in Hvalid; [exact Hvalid | exact Hc].
    - exact (Forall2_lookup_lr _ _ _ _ _ _ Hfit Hc Hf). }
  revert Hzip. generalize (zip population fitnessValues) as l.
  induction l as [| cf l IH]; intros Hzip this Hbest; simpl; [exact Hbest |].
  apply IH; [intros cf0 Hin; apply Hzip; right; exact Hin |].
  destruct (total (snd cf) >? bestTotal (bestFitness this))%num; [| exact Hbest].
  destruct (Hzip cf ltac:(left; reflexivity)) as [Hv Hf].
  exists (fst cf), (snd cf). repeat split; assumption.
Qed.

Lemma afterGeneration_sameProblem (env : Env) (gen : Z) (this : Optimizer T) :
  sameProblem this (afterGeneration env gen this)
  /\ bestSolution (afterGeneration env gen this) = bestSolution this
  /\ bestFitness (afterGeneration env gen this) = bestFitness this.
Proof.
  unfold afterGeneration.
  destruct (progressCallback env) as [cb |]; [destruct (cb gen) |];
    destruct ((gen mod 5 =? 0) && duringYield env gen); repeat split.
Qed.

End ProblemFrame.

Section RealOptimize.
Context `{ET : HasExp R}.

Variable this0 : Optimizer R.
Variable rows cols vipRows : Z.
Variable N : nat.
Hypothesis well_formed : wellFormed this0 rows cols vipRows N.
Hypothesis ready : scoring this0.
Hypothesis room : Z.of_nat N <= rows * cols.
Hypothesis people : (1 <= N)%nat.
Hypothesis population_size : 1 <= populationSize (config this0).
Hypothesis elitism : elitismCount (config this0) <= populationSize (config this0).
Hypothesis tournament : 1 <= tournamentSize (config this0).

Local Abbreviation fit := (calculateFitness this0).
Local Abbreviation valid := (validAssignment rows cols N).

Lemma fitness_returns_bounded (c : Chromosome) :
  valid c -> exists f, fit c = Ok f /\ (0 <= total f <= 1)%R.
Proof using well_formed ready room people population_size elitism tournament.
  intros Hc. destruct ready as (W1 & W2 & W3 & W4 & W5 & Hprio).
  destruct (fitness_bounds_wellFormed this0 rows cols vipRows N c well_formed) as (f & Hf & Hb);
    try assumption.
  - intros e He. apply Hprio. apply In_enumerate_In. exact He.
  - exists f. split; [exact Hf | apply Hb].
Qed.

Lemma population_fitness (population : list Chromosome) :
  Forall valid population ->
  exists fitnessValues, mapM fit population = Ok fitnessValues
                        /\ Forall2 (fun c f => fit c = Ok f) population fitnessValues.
Proof using well_formed ready room people population_size elitism tournament.
  intros Hvalid.
  destruct (mapM_total fit population) as (fv & Hfv).
  - intros c Hc. rewrite Forall_forall in Hvalid.
    destruct (fitness_returns_bounded c (Hvalid c (proj2 (list_elem_of_In _ _) Hc)))
      as (f & Hf & _).
    exists f. exact Hf.
  - exists fv. split; [exact Hfv | apply mapM_Forall2; exact Hfv].
Qed.

Lemma totals_above (population : list Chromosome) (fitnessValues : list (Fitness R)) :
  Forall valid population ->
  Forall2 (fun c f => fit c = Ok f) population fitnessValues ->
  forall f, In f fitnessValues -> (-1 < total f)%R.
Proof using well_formed ready room people population_size elitism tournament.
  intros Hvalid Hfit f Hf. apply list_elem_of_In, list_elem_of_lookup_1 in Hf.
  destruct Hf as (i & Hi).
  destruct (Forall2_lookup_r _ _ _ _ _ Hfit Hi) as (c & Hc & Hcf).
  eapply Forall_lookup_1 in Hvalid; [| exact Hc].
  destruct (fitness_returns_bounded c Hvalid) as (f' & Hf' & Hb).
  rewrite Hcf in Hf'. injection Hf' as <-. lra.
Qed.

Section Generation.
Variable offspringFn :
  Optimizer R -> list Chromosome -> list (Fitness R) -> Rand (Chromosome * Chromosome).
Hypothesis offspring_valid : forall this population fitnessValues s,
  sameProblem this0 this -> populationReady fit rows cols N this0 population fitnessValues ->
  exists c1 c2 s', offspringFn this population fitnessValues s = Ok ((c1, c2), s')
                   /\ valid c1 /\ valid c2.

Lemma breedWith_valid (this : Optimizer R) (population : list Chromosome)
    (fitnessValues : list (Fitness R)) (k : nat) :
  sameProblem this0 this -> populationReady fit rows cols N this0 population fitnessValues ->
  forall (newPopulation : list Chromosome) (s : list Q),
    Forall valid newPopulation ->
    populationSize (config this0) - Z.of_nat (length newPopulation) <= Z.of_nat k ->
    exists bred s',
      breedWith (offspringFn this population fitnessValues) this k newPopulation s
      = Ok (bred, s')
      /\ Forall valid bred
      /\ Z.of_nat (length bred)
         = Z.max (populationSize (config this0)) (Z.of_nat (length newPopulation)).
Proof using well_formed ready room people population_size elitism tournament offspring_valid.
  intros Hsame Hpop. pose proof Hsame as (Hconfig & _).
  induction k as [| k IH]; intros newPopulation s Hvalid Hk; cbn [breedWith].
  - exists newPopulation, s. split; [reflexivity |]. split; [exact Hvalid | lia].
  - rewrite Hconfig.
    destruct (Z.ltb_spec (Z.of_nat (length newPopulation)) (populationSize (config this0)))
      as [Hlt | Hge].
    + destruct (offspring_valid this population fitnessValues s Hsame Hpop)
        as (c1 & c2 & s1 & E & Hc1 & Hc2).
      rewrite (rand_bind_Ok _ _ _ _ _ E). cbn [fst snd].
      set (np2 := if Z.of_nat (length (newPopulation ++ [c1])) <? populationSize (config this0)
                  then (newPopulation ++ [c1]) ++ [c2] else newPopulation ++ [c1]).
      assert (Hnp2 : Forall valid np2
                     /\ (length newPopulation < length np2)%nat
                     /\ Z.of_nat (length np2) <= populationSize (config this0)).
      { unfold np2.
        destruct (Z.ltb_spec (Z.of_nat (length (newPopulation ++ [c1])))
                    (populationSize (config this0))) as [Hlt2 | Hge2];
          rewrite ?length_app in *; simpl in *.
        - split; [| lia]. repeat (apply Forall_app; split); try assumption;
            apply Forall_singleton; assumption.
        - split; [| lia]. apply Forall_app. split; [exact Hvalid |].
          apply Forall_singleton. exact Hc1. }
      destruct Hnp2 as (Hv2 & Hgrow & Hcap).
      destruct (IH np2 s1 Hv2 ltac:(lia)) as (bred & s' & E' & Hv & Hlen).
      exists bred, s'. split; [exact E' |]. split; [exact Hv | lia].
    + exists newPopulation, s. split; [reflexivity |]. split; [exact Hvalid | lia].
Qed.

Lemma generationWith_total (this : Optimizer R) (gen : Z) (population : list Chromosome)
    (fitnessValues : list (Fitness R)) (s : list Q) :
  sameProblem this0 this -> populationReady fit rows cols N this0 population fitnessValues ->
  bestRecorded fit rows cols N this ->
  exists this' bred values s',
    generationWith offspringFn calculateFitness this gen population fitnessValues s
    = (this', Ok (bred, values, s'))
    /\ sameProblem this0 this' /\ populationReady fit rows cols N this0 bred values
    /\ bestRecorded fit rows cols N this'.
Proof using well_formed ready room people population_size elitism tournament offspring_valid.
  intros Hsame Hpop Hbest. pose proof Hsame as (Hconfig & _).
  pose proof Hpop as (Hsize & Hvalid & Hfit).
  set (this1 := withGeneration this gen).
  assert (Hsame1 : sameProblem this0 this1) by exact Hsame.
  unfold generationWith. fold this1.
  set (sorted := sortBy fitterAfter (zip population fitnessValues)).
  assert (Hsorted : length sorted = length population).
  { unfold sorted. rewrite length_sortBy, length_zip.
    rewrite <- (Forall2_length _ _ _ Hfit). lia. }
  rewrite elites_spec.
  replace (config this1) with (config this0) by (symmetry; exact Hconfig).
  destruct (Nat.leb_spec (Z.to_nat (elitismCount (config this0))) (length sorted)); [| lia].
  set (newPopulation := map fst (take (Z.to_nat (elitismCount (config this0))) sorted)).
  assert (Hnew : Forall valid newPopulation).
  { apply Forall_forall. intros c Hc. apply list_elem_of_In, in_map_iff in Hc.
    destruct Hc as ([c0 f0] & <- & Hin).
    apply list_elem_of_In in Hin. apply elem_of_take in Hin as (i & Hin & _).
    apply list_elem_of_lookup_2 in Hin. unfold sorted in Hin.
    rewrite (sortBy_Permutation fitterAfter (zip population fitnessValues)) in Hin.
    apply elem_of_zip_l in Hin. rewrite Forall_forall in Hvalid. apply Hvalid. exact Hin. }
  assert (HnewLen : length newPopulation = Z.to_nat (elitismCount (config this0))).
  { unfold newPopulation. rewrite length_map, length_take. lia. }
  destruct (breedWith_valid this1 population fitnessValues
              (Z.to_nat (populationSize (config this0) - Z.of_nat (length newPopulation)))
              Hsame1 Hpop newPopulation s Hnew ltac:(lia))
    as (bred & s1 & Ebred & Hbred & HbredLen).
  destruct (population_fitness bred Hbred) as (values & Evalues & Hvalues).
  exists (pushHistory (updateBest this1 bred values)), bred, values, s1.
  split.
  - unfold mbind at 1, rand_bind at 1, liftO at 1.
    unfold mbind at 1, rand_bind at 1. rewrite Ebred.
    unfold mbind at 1, rand_bind at 1, liftO at 1.
    assert (Hmap : forall l, mapM (calculateFitness this1) l = mapM fit l).
    { induction l as [| c l IH]; [reflexivity |]. simpl.
      rewrite IH, (sameProblem_fitness _ _ c Hsame1). reflexivity. }
    rewrite Hmap, Evalues. reflexivity.
  - split.
    + eapply sameProblem_trans; [exact Hsame1 |].
      eapply sameProblem_trans; [apply updateBest_sameProblem |]. repeat split.
    + split.
      * split; [lia |]. split; assumption.
      * destruct (updateBest_bestRecorded fit rows cols N bred values Hbred Hvalues this1)
          as (c & f & B1 & B2 & B3 & B4); [exact Hbest |].
        exists c, f. repeat split; assumption.
Qed.

End Generation.

Lemma selection_returns (this : Optimizer R) (population : list Chromosome)
    (fitnessValues : list (Fitness R)) (s : list Q) :
  sameProblem this0 this -> populationReady fit rows cols N this0 population fitnessValues ->
  exists c s', tournamentSelect this population fitnessValues s = Ok (c, s') /\ valid c.
Proof using well_formed ready room people population_size elitism tournament.
  intros (Hconfig & _) (Hsize & Hvalid & Hfit).
  destruct (tournamentSelect_returns this population fitnessValues s) as (c & s' & E & Hin).
  - intros ->. simpl in Hsize. lia.
  - symmetry. eapply Forall2_length. exact Hfit.
  - rewrite Hconfig. exact tournament.
  - apply totals_above with (population := population); assumption.
  - exists c, s'. split; [exact E |].
    rewrite Forall_forall in Hvalid. apply Hvalid, list_elem_of_In. exact Hin.
Qed.

Lemma offspring_returns (fuel : nat) (this : Optimizer R) (population : list Chromosome)
    (fitnessValues : list (Fitness R)) (s : list Q) :
  (6 <= N)%nat -> (N <= fuel)%nat ->
  sameProblem this0 this -> populationReady fit rows cols N this0 population fitnessValues ->
  exists c1 c2 s', offspring fuel this population fitnessValues s = Ok ((c1, c2), s')
                   /\ valid c1 /\ valid c2.
Proof using well_formed ready room people population_size elitism tournament.
  intros HN Hfuel Hsame Hpop.
  pose proof (sameProblem_wellFormed _ _ _ _ _ _ Hsame well_formed) as Hwf.
  unfold offspring.
  destruct (selection_returns this population fitnessValues s Hsame Hpop) as (p1 & s1 & E1 & H1).
  destruct (selection_returns this population fitnessValues s1 Hsame Hpop) as (p2 & s2 & E2 & H2).
  rewrite (rand_bind_Ok _ _ _ _ _ E1), (rand_bind_Ok _ _ _ _ _ E2).
  destruct (crossover_valid fuel this rows cols N p1 p2 s2 ltac:(lia) Hfuel H1 H2)
    as (c1 & c2 & s3 & E3 & Hc1 & Hc2).
  rewrite (rand_bind_Ok _ _ _ _ _ E3). cbn [fst snd].
  destruct (mutate_valid this rows cols N (fresh c1) s3 HN Hc1) as (m1 & s4 & E4 & Hm1 & _).
  destruct (mutate_valid this rows cols N (fresh c2) s4 HN Hc2) as (m2 & s5 & E5 & Hm2 & _).
  rewrite (rand_bind_Ok _ _ _ _ _ E4), (rand_bind_Ok _ _ _ _ _ E5).
  destruct (chance_returns 0.3 s5) as (smart & s6 & E6).
  rewrite (rand_bind_Ok _ _ _ _ _ E6).
  destruct smart.
  - destruct (fitness_returns_bounded (elems m1) Hm1) as (f & Hf & _).
    rewrite <- (sameProblem_fitness _ _ _ Hsame) in Hf.
    destruct (smartMutate_valid this rows cols vipRows N Hwf (elems m1) f s6 Hm1)
      as (c' & s7 & E7 & Hc').
    exists c', (elems m2), s7. split; [| split; assumption].
    unfold mbind at 1, rand_bind at 1. unfold mbind at 1, rand_bind at 1, liftO.
    rewrite Hf, E7. reflexivity.
  - exists (elems m1), (elems m2), s6. split; [reflexivity | split; assumption].
Qed.

Lemma server_offspring_returns (fuel : nat) (this : Optimizer R) (population : list Chromosome)
    (fitnessValues : list (Fitness R)) (s : list Q) :
  (N <= fuel)%nat ->
  sameProblem this0 this -> populationReady fit rows cols N this0 population fitnessValues ->
  exists c1 c2 s', Server.offspring fuel this population fitnessValues s = Ok ((c1, c2), s')
                   /\ valid c1 /\ valid c2.
Proof using well_formed ready room people population_size elitism tournament.
  intros Hfuel Hsame Hpop. unfold Server.offspring.
  destruct (selection_returns this population fitnessValues s Hsame Hpop) as (p1 & s1 & E1 & H1).
  destruct (selection_returns this population fitnessValues s1 Hsame Hpop) as (p2 & s2 & E2 & H2).
  rewrite (rand_bind_Ok _ _ _ _ _ E1), (rand_bind_Ok _ _ _ _ _ E2).
  destruct (crossover_valid fuel this rows cols N p1 p2 s2 people Hfuel H1 H2)
    as (c1 & c2 & s3 & E3 & Hc1 & Hc2).
  rewrite (rand_bind_Ok _ _ _ _ _ E3). cbn [fst snd].
  destruct (server_mutate_valid this rows cols N (fresh c1) s3 people Hc1)
    as (m1 & s4 & E4 & Hm1 & _).
  destruct (server_mutate_valid this rows cols N (fresh c2) s4 people Hc2)
    as (m2 & s5 & E5 & Hm2 & _).
  rewrite (rand_bind_Ok _ _ _ _ _ E4), (rand_bind_Ok _ _ _ _ _ E5).
  exists (elems m1), (elems m2), s5. split; [reflexivity | split; assumption].
Qed.

Lemma generationLoop_total (fuel : nat) (env : Env) (n : nat) :
  (6 <= N)%nat -> (N <= fuel)%nat ->
  forall (gen : Z) (this : Optimizer R) (population : list Chromosome)
         (fitnessValues : list (Fitness R)) (s : list Q),
    sameProblem this0 this -> populationReady fit rows cols N this0 population fitnessValues ->
    bestRecorded fit rows cols N this ->
    exists this' s',
      generationLoop fuel env n gen this population fitnessValues s = (this', Ok s')
      /\ sameProblem this0 this' /\ bestRecorded fit rows cols N this'.
Proof using well_formed ready room people population_size elitism tournament.
  intros HN Hfuel.
  induction n as [| n IH]; intros gen this population fitnessValues s Hsame Hpop Hbest;
    cbn [generationLoop].
  - exists this, s. split; [reflexivity | split; assumption].
  - destruct (isRunning this); [| exists this, s; split; [reflexivity | split; assumption]].
    destruct (generationWith_total (offspring fuel)
                (fun this1 pop fv s1 => offspring_returns fuel this1 pop fv s1 HN Hfuel)
                this gen population fitnessValues s Hsame Hpop Hbest)
      as (this1 & bred & values & s1 & E & Hsame1 & Hpop1 & Hbest1).
    rewrite E.
    destruct (afterGeneration_sameProblem env gen this1) as (A1 & A2 & A3).
    apply IH.
    + eapply sameProblem_trans; [exact Hsame1 | exact A1].
    + exact Hpop1.
    + destruct Hbest1 as (c & f & B1 & B2 & B3 & B4). exists c, f.
      rewrite A2, A3. repeat split; assumption.
Qed.

Lemma server_generationLoop_total (fuel : nat) (n : nat) :
  (N <= fuel)%nat ->
  forall (gen : Z) (this : Optimizer R) (population : list Chromosome)
         (fitnessValues : list (Fitness R)) (s : list Q),
    sameProblem this0 this -> populationReady fit rows cols N this0 population fitnessValues ->
    bestRecorded fit rows cols N this ->
    exists this' s',
      Server.generationLoop fuel n gen this population fitnessValues s = (this', Ok s')
      /\ sameProblem this0 this' /\ bestRecorded fit rows cols N this'.
Proof using well_formed ready room people population_size elitism tournament.
  intros Hfuel.
  induction n as [| n IH]; intros gen this population fitnessValues s Hsame Hpop Hbest;
    cbn [Server.generationLoop].
  - exists this, s. split; [reflexivity | split; assumption].
  - change Server.calculateFitness with (calculateFitness (T := R)).
    destruct (generationWith_total (Server.offspring fuel)
                (fun this1 pop fv s1 => server_offspring_returns fuel this1 pop fv s1 Hfuel)
                this gen population fitnessValues s Hsame Hpop Hbest)
      as (this1 & bred & values & s1 & E & Hsame1 & Hpop1 & Hbest1).
    rewrite E. apply IH; assumption.
Qed.

(** The initial population, its fitness values and the first best. *)
Lemma firstBestWith_total (initFn : Optimizer R -> Rand (list Chromosome))
    (mutateFn : JsArray -> Rand JsArray) (this : Optimizer R) (s : list Q) :
  initFn this = initializePopulationWith mutateFn this ->
  (forall a s0, valid (elems a) ->
     exists a' s', mutateFn a s0 = Ok (a', s') /\ valid (elems a')) ->
  sameProblem this0 this ->
  exists population fitnessValues c f s',
    firstBestWith initFn calculateFitness this s
    = Ok (population, fitnessValues, c, f, s')
    /\ populationReady fit rows cols N this0 population fitnessValues
    /\ valid c /\ fit c = Ok f.
Proof using well_formed ready room people population_size elitism tournament.
  intros Hinit Hmutate Hsame. pose proof Hsame as (Hconfig & _).
  pose proof (sameProblem_wellFormed _ _ _ _ _ _ Hsame well_formed) as Hwf.
  destruct (initializePopulationWith_valid this rows cols vipRows N Hwf room mutateFn Hmutate s)
    as (population & s1 & E1 & Hvalid & Hlen).
  rewrite Hconfig in Hlen.
  destruct (population_fitness population Hvalid) as (fitnessValues & E2 & Hfit).
  assert (Hne : fitnessValues <> []).
  { intros ->. apply Forall2_length in Hfit. simpl in Hfit. lia. }
  pose proof (bestIndex_bound fitnessValues Hne) as Hidx.
  destruct (lookup_lt_is_Some_2 fitnessValues _ Hidx) as (f & Hf).
  destruct (lookup_lt_is_Some_2 population (bestIndex fitnessValues)
              ltac:(rewrite (Forall2_length _ _ _ Hfit); exact Hidx)) as (c & Hc).
  exists population, fitnessValues, c, f, s1. split.
  - unfold firstBestWith. rewrite Hinit, (rand_bind_Ok _ _ _ _ _ E1).
    assert (Hmap : forall l, mapM (calculateFitness this) l = mapM fit l).
    { induction l as [| c0 l IH]; [reflexivity |]. simpl.
      rewrite IH, (sameProblem_fitness _ _ c0 Hsame). reflexivity. }
    unfold mbind at 1, rand_bind at 1, liftO at 1. rewrite Hmap, E2.
    rewrite Hc, Hf. reflexivity.
  - split; [split; [lia | split; assumption] |]. split.
    + eapply Forall_lookup_1 in Hvalid; [exact Hvalid | exact Hc].
    + exact (Forall2_lookup_lr _ _ _ _ _ _ Hfit Hc Hf).
Qed.

Lemma polishWith_total
    (annealFn : Optimizer R -> Chromosome -> Z -> Rand (Chromosome * Fitness R))
    (this : Optimizer R) (s : list Q) :
  (forall c iterations s0, valid c ->
     exists r s', annealFn this c iterations s0 = Ok (r, s')
                  /\ valid (fst r) /\ calculateFitness this (fst r) = Ok (snd r)) ->
  sameProblem this0 this -> bestRecorded fit rows cols N this ->
  exists this' s',
    polishWith annealFn this s = (this', Ok s')
    /\ sameProblem this0 this' /\ bestRecorded fit rows cols N this'
    /\ fitnessHistory this' = fitnessHistory this /\ isRunning this' = isRunning this.
Proof using well_formed ready room people population_size elitism tournament.
  intros Hanneal Hsame Hbest. pose proof Hbest as (c & f & B1 & B2 & B3 & B4).
  unfold polishWith. rewrite B1.
  destruct (Hanneal c (saIterations this) s B3) as (r & s' & E & Hr & Hfr).
  rewrite E. rewrite (sameProblem_fitness _ _ _ Hsame) in Hfr.
  destruct (total (snd r) >? bestTotal (bestFitness this))%num.
  - eexists _, s'. split; [reflexivity |]. split; [exact Hsame |].
    split; [| split; reflexivity].
    exists (fst r), (snd r). repeat split; assumption.
  - exists this, s'. split; [reflexivity |]. split; [exact Hsame |].
    split; [exact Hbest | split; reflexivity].
Qed.

Lemma optimize_total (fuel : nat) (env : Env) (s : list Q) :
  (6 <= N)%nat -> (N <= fuel)%nat ->
  exists this' r c f,
    optimize fuel env this0 s = (this', Ok r)
    /\ solution r = Some c /\ fitness r = Best f
    /\ valid c /\ fit c = Ok f /\ (0 <= total f <= 1)%R
    /\ sameProblem this0 this'.
Proof using well_formed ready room people population_size elitism tournament.
  intros HN Hfuel. unfold optimize.
  assert (Hguard : entryGuard this0 = false).
  { destruct well_formed as (Hv & _ & _ & Hlen & _). unfold entryGuard. rewrite Hv.
    apply Nat.eqb_neq. lia. }
  rewrite Hguard.
  set (this1 := withRun this0 true []).
  assert (Hsame1 : sameProblem this0 this1) by (repeat split).
  destruct (firstBestWith_total initializePopulation (mutate this1) this1 s eq_refl
              (fun a s0 Ha => ltac:(destruct (mutate_valid this1 rows cols N a s0 HN Ha)
                                      as (a' & s' & E & Hv & _);
                                    exact (ex_intro _ a' (ex_intro _ s' (conj E Hv)))))
              Hsame1)
    as (population & fitnessValues & c & f & s1 & E1 & Hpop & Hc & Hf).
  rewrite E1.
  set (this2 := withBest this1 c f).
  assert (Hsame2 : sameProblem this0 this2) by (repeat split).
  assert (Hbest2 : bestRecorded fit rows cols N this2).
  { exists c, f. repeat split; assumption. }
  destruct (generationLoop_total fuel env (Z.to_nat (totalGenerations this2)) HN Hfuel 0
              this2 population fitnessValues s1 Hsame2 Hpop Hbest2)
    as (this3 & s2 & E2 & Hsame3 & Hbest3).
  rewrite E2.
  assert (Hpolish : exists this4 s3,
            (if isRunning this3 then polishWith simulatedAnnealing this3 s2 else (this3, Ok s2))
            = (this4, Ok s3)
            /\ bestRecorded fit rows cols N this4 /\ sameProblem this0 this4).
  { destruct (isRunning this3).
    - destruct (polishWith_total simulatedAnnealing this3 s2) as (this4 & s3 & E & Hs & Hb & _);
        try assumption.
      + intros c0 iterations s0 Hc0.
        apply (simulatedAnnealing_valid this3 rows cols vipRows N); try assumption.
        eapply sameProblem_wellFormed; [exact Hsame3 | exact well_formed].
      + exists this4, s3. split; [exact E | split; assumption].
    - exists this3, s2. split; [reflexivity | split; assumption]. }
  destruct Hpolish as (this4 & s3 & E3 & (c4 & f4 & B1 & B2 & B3 & B4) & Hsame4).
  rewrite E3.
  exists (stop this4), (resultOf (stop this4)), c4, f4.
  split; [reflexivity |]. split; [exact B1 |]. split; [exact B2 |].
  split; [exact B3 |]. split; [exact B4 |].
  split; [| exact Hsame4].
  destruct (fitness_returns_bounded c4 B3) as (f' & Hf' & Hb).
  rewrite B4 in Hf'. injection Hf' as <-. exact Hb.
Qed.

Lemma server_optimize_total (fuel : nat) (s : list Q) :
  (N <= fuel)%nat ->
  exists this' r c f,
    Server.optimize fuel this0 s = (this', Ok r)
    /\ solution r = Some c /\ fitness r = Best f
    /\ valid c /\ fit c = Ok f /\ (0 <= total f <= 1)%R
    /\ sameProblem this0 this'.
Proof using well_formed ready room people population_size elitism tournament.
  intros Hfuel. unfold Server.optimize.
  assert (Hguard : entryGuard this0 = false).
  { destruct well_formed as (Hv & _ & _ & Hlen & _). unfold entryGuard. rewrite Hv.
    apply Nat.eqb_neq. lia. }
  rewrite Hguard.
  set (this1 := withRun this0 true []).
  assert (Hsame1 : sameProblem this0 this1) by (repeat split).
  change Server.calculateFitness with (calculateFitness (T := R)).
  destruct (firstBestWith_total Server.initializePopulation (Server.mutate this1) this1 s
              eq_refl
              (fun a s0 Ha => ltac:(destruct (server_mutate_valid this1 rows cols N a s0 people Ha)
                                      as (a' & s' & E & Hv & _);
                                    exact (ex_intro _ a' (ex_intro _ s' (conj E Hv)))))
              Hsame1)
    as (population & fitnessValues & c & f & s1 & E1 & Hpop & Hc & Hf).
  rewrite E1.
  set (this2 := withBest this1 c f).
  assert (Hsame2 : sameProblem this0 this2) by (repeat split).
  assert (Hbest2 : bestRecorded fit rows cols N this2).
  { exists c, f. repeat split; assumption. }
  destruct (server_generationLoop_total fuel (Z.to_nat (totalGenerations this2)) Hfuel 0
              this2 population fitnessValues s1 Hsame2 Hpop Hbest2)
    as (this3 & s2 & E2 & Hsame3 & Hbest3).
  rewrite E2.
  destruct (polishWith_total Server.simulatedAnnealing this3 s2)
    as (this4 & s3 & E3 & Hsame4 & (c4 & f4 & B1 & B2 & B3 & B4) & _); try assumption.
  { intros c0 iterations s0 Hc0.
    apply (server_simulatedAnnealing_valid this3 rows cols vipRows N); try assumption.
    eapply sameProblem_wellFormed; [exact Hsame3 | exact well_formed]. }
  rewrite E3.
  exists this4, (resultOf this4), c4, f4.
  split; [reflexivity |]. split; [exact B1 |]. split; [exact B2 |].
  split; [exact B3 |]. split; [exact B4 |].
  split; [| exact Hsame4].
  destruct (fitness_returns_bounded c4 B3) as (f' & Hf' & Hb).
  rewrite B4 in Hf'. injection Hf' as <-. exact Hb.
Qed.

End RealOptimize.


Section ReturnsValid.
Context `{ET : HasExp R}.

(** X21.  In real arithmetic, on a well-formed optimizer object with
    non-negative weights that are not all zero, no negative priority, at
    least one attendee and room for all of them, a population of at least
    one chromosome and at least [elitismCount] chromosomes, and a
    tournament of at least one round, [optimize] returns for every state
    of the random source: in the browser from six attendees on, whether
    or not the caller calls [stop()] in the progress callback or during a
    yield (the callbacks return normally and act on the optimizer through
    [stop()] only), on the server always.  The solution it returns is a valid assignment, the
    fitness record is the one [calculateFitness] computes for it, and its
    total is in [0, 1].  Every [while] loop of the crossover ends within
    [N] passes. *)
Theorem optimize_returns_valid_assignment (this : Optimizer R) (rows cols vipRows : Z)
    (N fuel : nat) (env : Env) (s : list Q) :
  wellFormed this rows cols vipRows N -> scoring this ->
  (1 <= N)%nat -> Z.of_nat N <= rows * cols ->
  1 <= populationSize (config this) ->
  elitismCount (config this) <= populationSize (config this) ->
  1 <= tournamentSize (config this) ->
  (N <= fuel)%nat ->
  ((6 <= N)%nat ->
   exists this' r c f,
     optimize fuel env this s = (this', Ok r)
     /\ solution r = Some c /\ fitness r = Best f
     /\ validAssignment rows cols N c /\ calculateFitness this c = Ok f
     /\ (0 <= total f <= 1)%R)
  /\ (exists this' r c f,
        Server.optimize fuel this s = (this', Ok r)
        /\ solution r = Some c /\ fitness r = Best f
        /\ validAssignment rows cols N c /\ Server.calculateFitness this c = Ok f
        /\ (0 <= total f <= 1)%R).
Proof.
  intros Hwf Hready HN Hroom Hsize Helite Htour Hfuel. split.
  - intros H6.
    destruct (optimize_total this rows cols vipRows N Hwf Hready Hroom HN Hsize Helite Htour
                fuel env s H6 Hfuel) as (this' & r & c & f & H1 & H2 & H3 & H4 & H5 & H7 & _).
    exists this', r, c, f. repeat split; try assumption; apply H7.
  - destruct (server_optimize_total this rows cols vipRows N Hwf Hready Hroom HN Hsize Helite
                Htour fuel s Hfuel) as (this' & r & c & f & H1 & H2 & H3 & H4 & H5 & H7 & _).
    exists this', r, c, f. repeat split; try assumption; apply H7.
Qed.

End ReturnsValid.

Lemma setAttendees_scoring (this0 : Optimizer R) (rows cols vipRows : Z)
    (raws : list (RawAttendee R)) :
  (0 <= w_friendProximity (weights (config this0)))%R ->
  (0 <= w_vipPlacement (weights (config this0)))%R ->
  (0 <= w_groupCohesion (weights (config this0)))%R ->
  (0 <= w_stageDistance (weights (config this0)))%R ->
  (0 < totalWeight (weights (config this0)))%R ->
  (forall a p, In a raws -> ra_priority a = Some p -> (0 <= p)%R) ->
  scoring (setAttendees (setVenue this0 rows cols vipRows) raws).
Proof.
  intros W1 W2 W3 W4 W5 Hprio. unfold scoring. cbn [config setAttendees withAttendees setVenue
    withVenue attendees].
  repeat (split; [assumption |]).
  intros a Ha. apply list_elem_of_In, elem_of_lookup_imap in Ha.
  destruct Ha as (i & raw & -> & Hraw).
  assert (Hin : In (i, storeAttendee i raw) (enumerate (imap storeAttendee raws))).
  { apply list_elem_of_In. unfold enumerate. apply elem_of_lookup_imap.
    exists i, (storeAttendee i raw). split; [reflexivity |].
    rewrite list_lookup_imap, Hraw. reflexivity. }
  exact (proj2 (stored_priority_nonneg raws Hprio _ Hin)).
Qed.

Lemma sixGuests_scoring : scoring sixGuests /\ scoring sixGuestsServer.
Proof.
  assert (Hprio : forall (a : RawAttendee R) (p : R),
            In a (replicate 6 (person "regular" None 5)) -> ra_priority a = Some p ->
            (0 <= p)%R).
  { intros a p Ha Hp. apply list_elem_of_In, elem_of_replicate in Ha. destruct Ha as [-> _].
    injection Hp as <-. simpl. lra. }
  split; apply setAttendees_scoring; try exact Hprio;
    unfold totalWeight; simpl; lra.
Qed.

Lemma sixGuests_wellFormed :
  wellFormed (sixGuests (T := R)) 3 3 1 6 /\ wellFormed (sixGuestsServer (T := R)) 3 3 1 6.
Proof.
  split.
  - exact (setAttendees_wellFormed (constructor noConfig) 3 3 1
             (replicate 6 (person "regular" None 5)) ltac:(lia) ltac:(lia)).
  - exact (setAttendees_wellFormed (Server.constructor noConfig) 3 3 1
             (replicate 6 (person "regular" None 5)) ltac:(lia) ltac:(lia)).
Qed.

Lemma optimize_returns_valid_assignment_witness :
  (exists this' r c f,
      optimize 6 quietEnv (sixGuests (T := R)) [0.3; 0.6; 0.2; 0.9; 0.1; 0.4]%Q = (this', Ok r)
      /\ solution r = Some c /\ fitness r = Best f
      /\ validAssignment 3 3 6 c /\ calculateFitness sixGuests c = Ok f
      /\ (0 <= total f <= 1)%R)
  /\ (exists this' r c f,
         Server.optimize 6 (sixGuestsServer (T := R)) [0.3; 0.6; 0.2; 0.9; 0.1; 0.4]%Q
         = (this', Ok r)
         /\ solution r = Some c /\ fitness r = Best f
         /\ validAssignment 3 3 6 c /\ Server.calculateFitness sixGuestsServer c = Ok f
         /\ (0 <= total f <= 1)%R).
Proof.
  split.
  - apply (proj1 (optimize_returns_valid_assignment sixGuests 3 3 1 6 6 quietEnv
                    [0.3; 0.6; 0.2; 0.9; 0.1; 0.4]%Q
                    (proj1 sixGuests_wellFormed) (proj1 sixGuests_scoring)
                    ltac:(lia) ltac:(lia) ltac:(simpl; lia) ltac:(simpl; lia)
                    ltac:(simpl; lia) ltac:(lia))).
    lia.
  - apply (proj2 (optimize_returns_valid_assignment sixGuestsServer 3 3 1 6 6 quietEnv
                    [0.3; 0.6; 0.2; 0.9; 0.1; 0.4]%Q
                    (proj2 sixGuests_wellFormed) (proj2 sixGuests_scoring)
                    ltac:(lia) ltac:(lia) ltac:(simpl; lia) ltac:(simpl; lia)
                    ltac:(simpl; lia) ltac:(lia))).
Defined.


(** ** A venue with too few seats *)

Lemma mapM_throws {A B : Type} (f : A -> Outcome B) (l : list A) :
  (forall a, In a l -> returnsOrTypeError (f a)) ->
  (exists a, In a l /\ forall b, f a <> Ok b) ->
  mapM f l = Throw TypeError.
Proof.
  induction l as [| a l IH]; intros Hall (a0 & Hin & Hfail); [destruct Hin |].
  simpl. pose proof (Hall a ltac:(left; reflexivity)) as Ha.
  destruct (f a) as [b | e |] eqn:Hfa; simpl in Ha.
  - destruct Hin as [<- | Hin]; [exfalso; exact (Hfail b Hfa) |].
    simpl. rewrite IH; [reflexivity | |].
    + intros a1 H1. apply Hall. right. exact H1.
    + exists a0. split; assumption.
  - simpl. rewrite Ha. reflexivity.
  - destruct Ha.
Qed.

Lemma rand_bind_Throw {A B : Type} (m : Rand A) (f : A -> Rand B) (s : list Q) (e : Exn) :
  m s = Throw e -> (m ≫= f) s = Throw e.
Proof. intros H. unfold mbind, rand_bind. rewrite H. reflexivity. Qed.

Section GreedyErrors.
Context {T : Type} `{AT : Arith T}.

Lemma generateGreedySolution_benign (this : Optimizer T) :
  returnsOrTypeError (generateGreedySolution this).
Proof.
  unfold generateGreedySolution. destruct (venue this) as [v |].
  - apply returnsOrTypeError_bind; [| intros; exact I].
    apply returnsOrTypeError_foldlM. intros st idx _. unfold greedyBody.
    destruct (attendees this !! idx) as [attendee |]; [| reflexivity].
    apply returnsOrTypeError_bind; [| intros; exact I].
    apply returnsOrTypeError_foldlM. intros b seatPos _. unfold scanBody.
    destruct (isUsed (snd st) seatPos); [exact I |].
    apply returnsOrTypeError_bind; [apply theSeat_benign |]. intros seat _.
    apply returnsOrTypeError_bind.
    + unfold seatScore, groupProximityScore.
      destruct (truthyGroup (a_group attendee)); [| exact I].
      destruct (mapGet String.eqb s (groups this)); [| exact I].
      apply returnsOrTypeError_foldlM. intros sc m _.
      destruct (bool_decide (geneAt (fst st) m = Some (-1))); [exact I |].
      apply returnsOrTypeError_bind; [apply getSeatDistance_benign | intros; exact I].
    + intros score _. destruct (beats score (snd b)); exact I.
  - destruct (bool_decide (attendees this = [])); [exact I | reflexivity].
Qed.

End GreedyErrors.

(** X10.  [generateGreedySolution] returns or throws a [TypeError] on every
    optimizer object.  On a well-formed one whose venue has room for the
    attendees it returns a valid assignment: every attendee is given a
    seat of the venue that nobody else has, whatever the scores are (in
    floating point a score may be NaN, and the fallback to the first free
    seat applies). *)
Theorem generateGreedySolution_valid {T : Type} `{AT : Arith T} (this : Optimizer T)
    (rows cols vipRows : Z) (N : nat) :
  returnsOrTypeError (generateGreedySolution this)
  /\ (wellFormed this rows cols vipRows N -> Z.of_nat N <= rows * cols ->
      exists c, generateGreedySolution this = Ok c /\ validAssignment rows cols N c).
Proof.
  split.
  - apply generateGreedySolution_benign.
  - intros Hwf Hroom. exact (generateGreedySolution_returns this rows cols vipRows N Hwf Hroom).
Qed.

Lemma generateGreedySolution_valid_witness :
  exists c, generateGreedySolution (twoGroups (T := PrimFloat.float)) = Ok c
            /\ validAssignment 3 3 4 c.
Proof.
  apply (proj2 (generateGreedySolution_valid (twoGroups (T := PrimFloat.float)) 3 3 1 4)).
  - exact (setAttendees_wellFormed (constructor noConfig) 3 3 1 _ ltac:(lia) ltac:(lia)).
  - lia.
Defined.

Section Overfull.
Context {T : Type} `{AT : Arith T} `{ET : HasExp T}.

Lemma mutateBody_total (a : JsArray) (s : list Q) : exists a' s', mutateBody a s = Ok (a', s').
Proof.
  unfold mutateBody.
  destruct (randomIndex_returns (arrLength a) s) as (idx1 & s1 & E1 & _).
  destruct (randomIndex_returns (arrLength a) s1) as (idx2 & s2 & E2 & _).
  rewrite (rand_bind_Ok _ _ _ _ _ E1), (rand_bind_Ok _ _ _ _ _ E2).
  destruct (chance_returns 0.3 s2) as (block & s3 & E3).
  rewrite (rand_bind_Ok _ _ _ _ _ E3). destruct block; [| eexists _, _; reflexivity].
  destruct (randomIndex_returns 5 s3) as (r & s4 & E4 & _).
  rewrite (rand_bind_Ok _ _ _ _ _ E4).
  match goal with
  | |- context [randomIndex ?n] =>
      destruct (randomIndex_returns n s4) as (start1 & s5 & E5 & _);
      destruct (randomIndex_returns n s5) as (start2 & s6 & E6 & _)
  end.
  rewrite (rand_bind_Ok _ _ _ _ _ E5), (rand_bind_Ok _ _ _ _ _ E6).
  eexists _, _. reflexivity.
Qed.

Lemma mutate_total (this : Optimizer T) (a : JsArray) (s : list Q) :
  exists a' s', mutate this a s = Ok (a', s').
Proof.
  unfold mutate. destruct (random_returns s) as (u & s1 & E & _).
  rewrite (rand_bind_Ok _ _ _ _ _ E).
  destruct (ofQ u <? adaptiveRate this)%num; [apply mutateBody_total |].
  eexists _, _. reflexivity.
Qed.

Lemma server_mutate_total (this : Optimizer T) (a : JsArray) (s : list Q) :
  exists a' s', Server.mutate this a s = Ok (a', s').
Proof.
  unfold Server.mutate. destruct (random_returns s) as (u & s1 & E & _).
  rewrite (rand_bind_Ok _ _ _ _ _ E).
  destruct (ofQ u <? mutationRate (config this))%num; [| eexists _, _; reflexivity].
  destruct (randomIndex_returns (arrLength a) s1) as (idx1 & s2 & E1 & _).
  destruct (randomIndex_returns (arrLength a) s2) as (idx2 & s3 & E2 & _).
  rewrite (rand_bind_Ok _ _ _ _ _ E1), (rand_bind_Ok _ _ _ _ _ E2).
  eexists _, _. reflexivity.
Qed.

Variable this : Optimizer T.
Variable mutateFn : JsArray -> Rand JsArray.
Hypothesis mutate_returns : forall a s, exists a' s', mutateFn a s = Ok (a', s').

Lemma greedySeedWith_benign (s : list Q) :
  returnsOrTypeError (greedySeedWith mutateFn this s).
Proof using mutate_returns.
  unfold greedySeedWith. pose proof (generateGreedySolution_benign this) as Hb.
  unfold mbind at 1, rand_bind at 1, liftO.
  destruct (generateGreedySolution this) as [greedy | e |]; simpl in Hb;
    [| exact Hb | exact Hb].
  destruct (foldlR_total (fun _ => True) (fun a (_ : Z) => mutateFn a) (seqZ 0 5)
              (fun a _ s0 _ _ => ltac:(destruct (mutate_returns a s0) as (a' & s' & E);
                                       exact (ex_intro _ a' (ex_intro _ s' (conj E I)))))
              (fresh greedy) s I) as (a & s' & E & _).
  unfold mbind, rand_bind. rewrite E. exact I.
Qed.

Lemma seeds_benign (l : list Z) :
  forall (population : list Chromosome) (s : list Q),
    match foldlR (fun pop (_ : Z) => g ← greedySeedWith mutateFn this; mret (pop ++ [g]))
                 population l s with
    | Ok (population', _) => length population' = (length population + length l)%nat
    | Throw e => e = TypeError
    | Diverge => False
    end.
Proof using mutate_returns.
  induction l as [| z l IH]; intros population s; cbn [foldlR]; [simpl; lia |].
  pose proof (greedySeedWith_benign s) as Hb.
  unfold mbind at 1, rand_bind at 1. unfold mbind at 1, rand_bind at 1.
  destruct (greedySeedWith mutateFn this s) as [[g s1] | e |]; simpl in Hb;
    [| exact Hb | exact Hb].
  cbn [mret rand_ret]. specialize (IH (population ++ [g]) s1).
  destruct (foldlR _ (population ++ [g]) l s1) as [[population' s'] | e |]; [| exact IH | exact IH].
  rewrite IH, length_app. simpl. lia.
Qed.

Variable rows cols vipRows : Z.
Variable N : nat.
Hypothesis well_formed : wellFormed this rows cols vipRows N.
Hypothesis overfull_venue : rows * cols < Z.of_nat N.

(** A chromosome that is shorter than the list of attendees has no fitness. *)
Lemma short_chromosome_throws (this1 : Optimizer T) (c : Chromosome) :
  sameProblem this this1 -> Z.of_nat (length c) = rows * cols ->
  forall f, calculateFitness this1 c <> Ok f.
Proof using well_formed overfull_venue.
  intros Hsame Hlen f Hf. rewrite (sameProblem_fitness _ _ _ Hsame) in Hf.
  destruct (calculateFitness_Ok_seated this rows cols vipRows N c f well_formed Hf
              (length c) ltac:(lia)) as (p & Hp & _).
  unfold geneAt in Hp. rewrite (lookup_ge_None_2 c (length c)) in Hp by lia. discriminate.
Qed.

Lemma randomFill_overfull (k : nat) :
  forall (population : list Chromosome) (s : list Q),
    (populationSize (config this) - Z.of_nat (length population) <= Z.of_nat k) ->
    exists population' s',
      randomFill this k population s = Ok (population', s')
      /\ (Z.of_nat (length population) < populationSize (config this) ->
          exists c, In c population' /\ Z.of_nat (length c) = rows * cols)
      /\ (populationSize (config this) <= Z.of_nat (length population) ->
          population' = population).
Proof using well_formed overfull_venue.
  induction k as [| k IH]; intros population s Hk; cbn [randomFill].
  - exists population, s. split; [reflexivity |]. split; [lia | reflexivity].
  - destruct (Z.ltb_spec (Z.of_nat (length population)) (populationSize (config this)))
      as [Hlt | Hge].
    + destruct (generateRandomChromosome_sized this rows cols vipRows N s well_formed)
        as (c & s1 & E & Hsized).
      assert (Hshort : Z.of_nat (length c) = rows * cols).
      { rewrite (valid_length _ _ _ _ Hsized).
        destruct well_formed as (_ & Hrows & Hcols & _). nia. }
      rewrite (rand_bind_Ok _ _ _ _ _ E).
      destruct (IH (population ++ [c]) s1) as (population' & s' & E' & Hsome & Hsame).
      { rewrite length_app. simpl. lia. }
      exists population', s'. split; [exact E' |]. split; [| lia].
      intros _.
      destruct (Z.lt_ge_cases (Z.of_nat (length (population ++ [c])))
                  (populationSize (config this))) as [Hmore | Hfull].
      * apply Hsome. exact Hmore.
      * rewrite (Hsame Hfull). exists c. split; [| exact Hshort].
        apply in_or_app. right. left. reflexivity.
    + exists population, s. split; [reflexivity |]. split; [lia | reflexivity].
Qed.

Lemma firstBestWith_overfull (initFn : Optimizer T -> Rand (list Chromosome))
    (this1 : Optimizer T) (s : list Q) :
  sameProblem this this1 ->
  initFn this1 = initializePopulationWith mutateFn this ->
  firstBestWith initFn calculateFitness this1 s = Throw TypeError.
Proof using well_formed overfull_venue mutate_returns.
  intros Hsame Hinit. unfold firstBestWith. rewrite Hinit.
  unfold initializePopulationWith.
  set (seeds := Qfloor (inject_Z (populationSize (config this)) * 0.2)).
  assert (Hseeds : (1 <= populationSize (config this) -> seeds < populationSize (config this))
                   /\ (populationSize (config this) <= 0 -> seeds <= 0)).
  { unfold seeds, Qfloor, Qmult, inject_Z. simpl. split; intros Hp.
    - apply Z.div_lt_upper_bound; lia.
    - apply Z.div_le_upper_bound; lia. }
  pose proof (seeds_benign (seqZ 0 seeds) [] s) as Hloop.
  destruct (foldlR (fun pop (_ : Z) => g ← greedySeedWith mutateFn this; mret (pop ++ [g]))
                   [] (seqZ 0 seeds) s) as [[seeded s1] | e |] eqn:Eseeds;
    [| | destruct Hloop].
  2: { subst e. apply rand_bind_Throw, rand_bind_Throw. exact Eseeds. }
  rewrite length_seqZ in Hloop. simpl in Hloop.
  destruct (randomFill_overfull
              (Z.to_nat (populationSize (config this) - Z.of_nat (length seeded))) seeded s1)
    as (population & s2 & E & Hsome & Hnone); [lia |].
  assert (Einit : (population0 ← foldlR (fun pop (_ : Z) =>
                                           g ← greedySeedWith mutateFn this; mret (pop ++ [g]))
                                        [] (seqZ 0 seeds);
                   randomFill this
                     (Z.to_nat (populationSize (config this) - Z.of_nat (length population0)))
                     population0) s = Ok (population, s2)).
  { rewrite (rand_bind_Ok _ _ _ _ _ Eseeds). exact E. }
  rewrite (rand_bind_Ok _ _ _ _ _ Einit).
  destruct (Z.le_gt_cases 1 (populationSize (config this))) as [Hp | Hp].
  - (* a random chromosome is in the population, and it is too short *)
    destruct (Hsome ltac:(lia)) as (c & Hin & Hshort).
    apply rand_bind_Throw. unfold liftO.
    rewrite (mapM_throws (calculateFitness this1) population); [reflexivity | |].
    + intros c0 _. apply calculateFitness_benign.
    + exists c. split; [exact Hin |]. apply short_chromosome_throws; assumption.
  - (* an empty population has no first chromosome *)
    rewrite (Hnone ltac:(lia)).
    assert (seeded = []) by (destruct seeded; [reflexivity | simpl in Hloop; lia]).
    subst seeded. reflexivity.
Qed.

End Overfull.

Section OverfullOptimize.
Context {T : Type} `{AT : Arith T} `{ET : HasExp T}.

(** X22.  With more attendees than seats, neither [optimize] rejects its input:
    on every well-formed optimizer object, for every state of the random
    source, both throw a [TypeError], raised by the first evaluation of the
    population, and leave [isRunning] set and the history empty. *)
Theorem overfull_optimize_throws (this : Optimizer T) (rows cols vipRows : Z) (N fuel : nat)
    (env : Env) (s : list Q) :
  wellFormed this rows cols vipRows N -> rows * cols < Z.of_nat N ->
  (exists this', optimize fuel env this s = (this', Throw TypeError)
                 /\ isRunning this' = true /\ fitnessHistory this' = [])
  /\ (exists this', Server.optimize fuel this s = (this', Throw TypeError)
                    /\ isRunning this' = true /\ fitnessHistory this' = []).
Proof.
  intros Hwf Hfull.
  assert (Hguard : entryGuard this = false).
  { pose proof Hwf as (Hv & Hrows & Hcols & Hlen & _). unfold entryGuard. rewrite Hv.
    apply Nat.eqb_neq. nia. }
  set (this1 := withRun this true []).
  assert (Hsame : sameProblem this this1) by (repeat split).
  assert (Hwf1 : wellFormed this1 rows cols vipRows N)
    by (eapply sameProblem_wellFormed; eassumption).
  split.
  - exists this1. split; [| split; reflexivity].
    unfold optimize. rewrite Hguard. fold this1.
    rewrite (firstBestWith_overfull this1 (mutate this1) (mutate_total this1)
               rows cols vipRows N Hwf1 Hfull initializePopulation this1 s
               (sameProblem_refl this1) eq_refl).
    reflexivity.
  - exists this1. split; [| split; reflexivity].
    unfold Server.optimize. rewrite Hguard. fold this1.
    change Server.calculateFitness with (calculateFitness (T := T)).
    rewrite (firstBestWith_overfull this1 (Server.mutate this1) (server_mutate_total this1)
               rows cols vipRows N Hwf1 Hfull Server.initializePopulation this1 s
               (sameProblem_refl this1) eq_refl).
    reflexivity.
Qed.

End OverfullOptimize.

Lemma overfull_optimize_throws_witness :
  exists this' : Optimizer R,
    optimize 0 quietEnv overfull [] = (this', Throw TypeError) /\ isRunning this' = true.
Proof.
  destruct (overfull_optimize_throws (overfull (T := R)) 1 1 1 2 0 quietEnv [])
    as ((this' & Hrun & Hon & _) & _).
  - exact (setAttendees_wellFormed (constructor populationOfOne) 1 1 1
             [person "regular" None 5; person "regular" None 5] ltac:(lia) ltac:(lia)).
  - simpl. lia.
  - exists this'. split; assumption.
Defined.


(** ** The seating plan of a solution *)

Lemma returnsOrTypeError_mapM {A B : Type} (f : A -> Outcome B) (l : list A) :
  (forall a, In a l -> returnsOrTypeError (f a)) -> returnsOrTypeError (mapM f l).
Proof.
  induction l as [| a l IH]; intros Hall; simpl; [exact I |].
  apply returnsOrTypeError_bind; [apply Hall; left; reflexivity |]. intros b _.
  apply returnsOrTypeError_bind; [| intros; exact I].
  apply IH. intros a0 H0. apply Hall. right. exact H0.
Qed.

Lemma lookup_enumerate {A : Type} (l : list A) (i : nat) :
  enumerate l !! i = pair i <$> (l !! i).
Proof. unfold enumerate. apply list_lookup_imap. Qed.

Section SeatingPlan.
Context {T : Type} `{AT : Arith T}.

Variable this : Optimizer T.
Variable rows cols vipRows : Z.
Variable N : nat.
Hypothesis well_formed : wellFormed this rows cols vipRows N.

Local Abbreviation v := (makeVenue (T := T) rows cols vipRows).

Lemma getSeatingPlan_benign (solution : option Chromosome) :
  returnsOrTypeError (getSeatingPlan this solution).
Proof.
  unfold getSeatingPlan.
  destruct (match solution with Some c => Some c | None => bestSolution this end) as [c |];
    [| exact I].
  apply returnsOrTypeError_bind; [| intros; exact I].
  apply returnsOrTypeError_mapM. intros e _.
  apply returnsOrTypeError_bind.
  - unfold theVenue. destruct (venue this); simpl; auto.
  - intros v0 _. apply returnsOrTypeError_bind; [apply theSeat_benign | intros; exact I].
Qed.

Lemma getSeatingPlan_seated (A : Chromosome) :
  (forall i, (i < N)%nat -> exists s, seatOf v A i = Some s) ->
  exists plan,
    getSeatingPlan this (Some A) = Ok (Some plan)
    /\ length plan = N
    /\ forall i entry, plan !! i = Some entry ->
         attendees this !! i = Some (pe_attendee entry)
         /\ exists seat, seatOf v A i = Some seat /\ pe_seat entry = planSeat seat.
Proof using well_formed.
  intros Hseated. pose proof well_formed as (Hv & _ & _ & Hlen & _).
  unfold getSeatingPlan, theVenue. rewrite Hv. cbn [mbind outcome_bind].
  set (body := fun entry : nat * Attendee T =>
                 seat ← theSeat (seatOf v A (fst entry));
                 Ok {| pe_attendee := snd entry; pe_seat := planSeat seat |}).
  destruct (mapM_total body (enumerate (attendees this))) as (plan & Hplan).
  { intros e He. pose proof (enumerate_bound _ _ He) as Hi.
    destruct (Hseated (fst e) ltac:(lia)) as (seat & Hs).
    unfold body. rewrite Hs. eexists. reflexivity. }
  exists plan. fold body. rewrite Hplan. split; [reflexivity |].
  apply mapM_Forall2 in Hplan. split.
  - rewrite <- (Forall2_length _ _ _ Hplan). unfold enumerate. rewrite length_imap. exact Hlen.
  - intros i entry Hentry.
    destruct (Forall2_lookup_r _ _ _ _ _ Hplan Hentry) as ([j a] & He & Hbody).
    rewrite lookup_enumerate in He.
    destruct (attendees this !! i) as [a0 |] eqn:Ha; [| discriminate].
    simpl in He. injection He as <- <-.
    unfold body in Hbody. cbn [fst snd] in Hbody.
    destruct (seatOf v A i) as [seat |]; [| discriminate].
    simpl in Hbody. injection Hbody as <-. split; [reflexivity |].
    exists seat. split; reflexivity.
Qed.

Lemma getSeatingPlan_Ok_seated (A : Chromosome) (plan : list PlanEntry) :
  getSeatingPlan this (Some A) = Ok (Some plan) ->
  forall i, (i < N)%nat -> geneInRange rows cols A i.
Proof using well_formed.
  intros Hplan i Hi. pose proof well_formed as (Hv & Hrows & Hcols & Hlen & _).
  unfold getSeatingPlan, theVenue in Hplan. rewrite Hv in Hplan.
  cbn [mbind outcome_bind] in Hplan.
  apply bind_Ok_inv in Hplan. destruct Hplan as (plan0 & Hmap & _).
  apply mapM_Forall2 in Hmap.
  destruct (lookup_lt_is_Some_2 (attendees this) i ltac:(lia)) as (a & Ha).
  assert (He : enumerate (attendees this) !! i = Some (i, a))
    by (rewrite lookup_enumerate, Ha; reflexivity).
  destruct (Forall2_lookup_l _ _ _ _ _ Hmap He) as (entry & _ & Hbody).
  cbn [fst snd] in Hbody.
  destruct (seatOf v A i) as [seat |] eqn:Hs; [| discriminate].
  apply (seatAt_defined rows cols vipRows (geneAt A i) Hrows Hcols). exists seat. exact Hs.
Qed.

End SeatingPlan.

Section SeatingPlanTheorem.
Context {T : Type} `{AT : Arith T}.

(** X2.  [getSeatingPlan] returns [null] exactly when it is given no solution
    and there is no best solution.  On a well-formed optimizer object and a
    chromosome it returns a plan exactly when [calculateFitness] returns a
    fitness for the chromosome, and throws a [TypeError] otherwise; entry
    [i] of the plan is attendee [i] with the seat of gene [i]. *)
Theorem getSeatingPlan_returns_iff_fitness (this : Optimizer T) (rows cols vipRows : Z)
    (N : nat) (A : Chromosome) :
  wellFormed this rows cols vipRows N ->
  (getSeatingPlan this None = Ok None <-> bestSolution this = None)
  /\ ((exists plan, getSeatingPlan this (Some A) = Ok (Some plan))
      <-> exists f, calculateFitness this A = Ok f)
  /\ ((forall plan, getSeatingPlan this (Some A) <> Ok (Some plan)) ->
      getSeatingPlan this (Some A) = Throw TypeError)
  /\ (forall plan, getSeatingPlan this (Some A) = Ok (Some plan) ->
        length plan = N
        /\ forall i entry, plan !! i = Some entry ->
             attendees this !! i = Some (pe_attendee entry)
             /\ exists seat, seatOf (makeVenue rows cols vipRows) A i = Some seat
                             /\ pe_seat entry = planSeat seat).
Proof.
  intros Hwf. pose proof Hwf as (Hv & Hrows & Hcols & Hlen & _).
  assert (Hseated : (exists plan, getSeatingPlan this (Some A) = Ok (Some plan)) ->
            forall i, (i < N)%nat ->
              exists s, seatOf (makeVenue (T := T) rows cols vipRows) A i = Some s).
  { intros (plan & Hplan) i Hi.
    apply (seatAt_defined rows cols vipRows _ Hrows Hcols).
    exact (getSeatingPlan_Ok_seated this rows cols vipRows N Hwf A plan Hplan i Hi). }
  split; [| split; [| split]].
  - unfold getSeatingPlan. destruct (bestSolution this) as [c |]; split; intros H;
      try reflexivity; try discriminate.
    destruct (mapM _ _) as [plan | e |]; discriminate.
  - split.
    + intros Hplan. apply (calculateFitness_returns_seated this rows cols vipRows N A Hwf).
      apply Hseated. exact Hplan.
    + intros (f & Hf).
      destruct (getSeatingPlan_seated this rows cols vipRows N Hwf A) as (plan & Hplan & _).
      * intros i Hi. apply (seatAt_defined rows cols vipRows _ Hrows Hcols).
        exact (calculateFitness_Ok_seated this rows cols vipRows N A f Hwf Hf i Hi).
      * exists plan. exact Hplan.
  - intros Hnone. pose proof (getSeatingPlan_benign this (Some A)) as Hb.
    destruct (getSeatingPlan this (Some A)) as [[plan |] | e |] eqn:Hrun; simpl in Hb.
    + exfalso. exact (Hnone plan eq_refl).
    + exfalso. unfold getSeatingPlan in Hrun.
      destruct (mapM _ _) as [plan | e |]; discriminate.
    + rewrite Hb. reflexivity.
    + destruct Hb.
  - intros plan Hplan.
    destruct (getSeatingPlan_seated this rows cols vipRows N Hwf A
                (Hseated (ex_intro _ plan Hplan))) as (plan' & Hplan' & Hlength & Hentries).
    rewrite Hplan in Hplan'. injection Hplan' as <-. split; assumption.
Qed.

End SeatingPlanTheorem.

Lemma getSeatingPlan_returns_iff_fitness_witness :
  (exists plan, getSeatingPlan (threeGuests (T := R)) (Some [Some 0; Some 3; Some 2])
                = Ok (Some plan))
  <-> exists f, calculateFitness (threeGuests (T := R)) [Some 0; Some 3; Some 2] = Ok f.
Proof.
  apply (getSeatingPlan_returns_iff_fitness (threeGuests (T := R)) 2 2 1 3).
  exact (setAttendees_wellFormed (constructor noConfig) 2 2 1
           (replicate 3 (person "regular" None 5)) ltac:(lia) ltac:(lia)).
Defined.


Section PlanOfValid.
Context {T : Type} `{AT : Arith T}.

Lemma getSeatingPlan_valid (this : Optimizer T) (rows cols vipRows : Z) (N : nat)
    (c : Chromosome) :
  wellFormed this rows cols vipRows N -> validAssignment rows cols N c ->
  exists plan, getSeatingPlan this (Some c) = Ok (Some plan) /\ seatsEveryone rows cols N plan.
Proof.
  intros Hwf Hvalid. pose proof Hwf as (_ & Hrows & Hcols & _).
  destruct (getSeatingPlan_seated this rows cols vipRows N Hwf c)
    as (plan & Hplan & Hlen & Hentries).
  { apply (seatable_seated this); [exact Hrows | right; exact Hvalid]. }
  exists plan. split; [exact Hplan |].
  assert (Hseat : forall i entry, plan !! i = Some entry ->
            exists p, c !! i = Some (Some p) /\ 0 <= p < rows * cols
                      /\ ps_row (pe_seat entry) = p / cols
                      /\ ps_col (pe_seat entry) = p mod cols).
  { intros i entry Hentry. destruct (Hentries i entry Hentry) as (_ & seat & Hs & Hps).
    pose proof (lookup_lt_Some _ _ _ Hentry) as Hi. rewrite Hlen in Hi.
    destruct (valid_seatOf this rows cols vipRows N c i Hrows Hvalid Hi) as (p & Hp & Hr & Hs').
    rewrite Hs in Hs'. injection Hs' as ->. exists p. rewrite Hps.
    repeat split; try assumption; apply Hr. }
  split; [exact Hlen |]. split.
  - intros i entry Hentry. destruct (Hseat i entry Hentry) as (p & _ & Hp & -> & ->).
    assert (0 < cols) by nia. split.
    + split; [apply Z.div_pos; lia | apply Z.div_lt_upper_bound; lia].
    + apply Z.mod_pos_bound. lia.
  - intros i j ei ej Hi Hj Hrow Hcol.
    destruct (Hseat i ei Hi) as (p & Hp & Hpr & Er & Ec).
    destruct (Hseat j ej Hj) as (q & Hq & Hqr & Er' & Ec').
    assert (0 < cols) by nia.
    assert (p = q).
    { rewrite (Z.div_mod p cols), (Z.div_mod q cols) by lia. congruence. }
    subst q. apply validAssignment_alt in Hvalid. destruct Hvalid as (_ & Hnd & _).
    exact (NoDup_lookup _ _ _ _ Hnd Hp Hq).
Qed.

End PlanOfValid.

Section Pipeline.
Context `{ET : HasExp R}.

(** X23.  The sequence of the server's handlers and of the browser application:
    [setVenue], [setAttendees], [optimize], then [getSeatingPlan] on the
    solution returned.  In real arithmetic, with at least one attendee and
    room for all of them, no negative priority, non-negative weights that
    are not all zero, and a population of at least one and at least
    [elitismCount] chromosomes with a tournament of at least one round, the
    sequence returns a plan that seats every attendee on a seat of the venue
    and no two on the same seat: on the server always, in the browser from
    six attendees on. *)
Theorem optimize_then_seating_plan (this0 : Optimizer R) (rows cols vipRows : Z)
    (raws : list (RawAttendee R)) (fuel : nat) (env : Env) (s : list Q) :
  0 <= rows -> 0 <= cols ->
  (1 <= length raws)%nat -> Z.of_nat (length raws) <= rows * cols ->
  (forall a p, In a raws -> ra_priority a = Some p -> (0 <= p)%R) ->
  (0 <= w_friendProximity (weights (config this0)))%R ->
  (0 <= w_vipPlacement (weights (config this0)))%R ->
  (0 <= w_groupCohesion (weights (config this0)))%R ->
  (0 <= w_stageDistance (weights (config this0)))%R ->
  (0 < totalWeight (weights (config this0)))%R ->
  1 <= populationSize (config this0) ->
  elitismCount (config this0) <= populationSize (config this0) ->
  1 <= tournamentSize (config this0) ->
  (length raws <= fuel)%nat ->
  ((6 <= length raws)%nat ->
   exists this' r plan,
     optimize fuel env (setAttendees (setVenue this0 rows cols vipRows) raws) s = (this', Ok r)
     /\ getSeatingPlan this' (solution r) = Ok (Some plan)
     /\ seatsEveryone rows cols (length raws) plan)
  /\ (exists this' r plan,
        Server.optimize fuel (setAttendees (setVenue this0 rows cols vipRows) raws) s
        = (this', Ok r)
        /\ getSeatingPlan this' (solution r) = Ok (Some plan)
        /\ seatsEveryone rows cols (length raws) plan).
Proof.
  intros Hrows Hcols HN Hroom Hprio W1 W2 W3 W4 W5 Hsize Helite Htour Hfuel.
  set (this := setAttendees (setVenue this0 rows cols vipRows) raws).
  assert (Hwf : wellFormed this rows cols vipRows (length raws))
    by (apply setAttendees_wellFormed; assumption).
  assert (Hready : scoring this) by (apply setAttendees_scoring; assumption).
  split.
  - intros H6.
    destruct (optimize_total this rows cols vipRows (length raws) Hwf Hready Hroom HN Hsize
                Helite Htour fuel env s H6 Hfuel)
      as (this' & r & c & f & Hrun & Hsol & _ & Hvalid & _ & _ & Hsame).
    destruct (getSeatingPlan_valid this' rows cols vipRows (length raws) c) as (plan & Hplan & Hp).
    { eapply sameProblem_wellFormed; eassumption. }
    { exact Hvalid. }
    exists this', r, plan. rewrite Hsol. split; [exact Hrun | split; [exact Hplan | exact Hp]].
  - destruct (server_optimize_total this rows cols vipRows (length raws) Hwf Hready Hroom HN
                Hsize Helite Htour fuel s Hfuel)
      as (this' & r & c & f & Hrun & Hsol & _ & Hvalid & _ & _ & Hsame).
    destruct (getSeatingPlan_valid this' rows cols vipRows (length raws) c) as (plan & Hplan & Hp).
    { eapply sameProblem_wellFormed; eassumption. }
    { exact Hvalid. }
    exists this', r, plan. rewrite Hsol. split; [exact Hrun | split; [exact Hplan | exact Hp]].
Qed.

End Pipeline.

Lemma optimize_then_seating_plan_witness :
  exists this' r plan,
    Server.optimize 6 (sixGuestsServer (T := R)) [0.3; 0.6; 0.2; 0.9; 0.1; 0.4]%Q = (this', Ok r)
    /\ getSeatingPlan this' (solution r) = Ok (Some plan)
    /\ seatsEveryone 3 3 6 plan.
Proof.
  apply (proj2 (optimize_then_seating_plan (Server.constructor noConfig) 3 3 1
                  (replicate 6 (person "regular" None 5)) 6 quietEnv
                  [0.3; 0.6; 0.2; 0.9; 0.1; 0.4]%Q
                  ltac:(lia) ltac:(lia) ltac:(simpl; lia) ltac:(simpl; lia)
                  ltac:(intros a p Ha Hp;
                        apply list_elem_of_In, elem_of_replicate in Ha; destruct Ha as [-> _];
                        injection Hp as <-; simpl; lra)
                  ltac:(simpl; lra) ltac:(simpl; lra) ltac:(simpl; lra) ltac:(simpl; lra)
                  ltac:(unfold totalWeight; simpl; lra)
                  ltac:(simpl; lia) ltac:(simpl; lia) ltac:(simpl; lia) ltac:(simpl; lia))).
Defined.


(** ** Runs on the input with six attendees *)

Lemma sixGuests_optimize_returns (env : Env) (s : list Q) :
  exists this' r, optimize 6 env (sixGuests (T := R)) s = (this', Ok r).
Proof.
  destruct (optimize_total sixGuests 3 3 1 6 (proj1 sixGuests_wellFormed)
              (proj1 sixGuests_scoring) ltac:(lia) ltac:(lia) ltac:(simpl; lia)
              ltac:(simpl; lia) ltac:(simpl; lia) 6 env s ltac:(lia) ltac:(lia))
    as (this' & r & _ & _ & Hrun & _).
  exists this', r. exact Hrun.
Qed.

Lemma sixGuestsServer_optimize_returns (s : list Q) :
  exists this' r, Server.optimize 6 (sixGuestsServer (T := R)) s = (this', Ok r).
Proof.
  destruct (server_optimize_total sixGuestsServer 3 3 1 6 (proj2 sixGuests_wellFormed)
              (proj2 sixGuests_scoring) ltac:(lia) ltac:(lia) ltac:(simpl; lia)
              ltac:(simpl; lia) ltac:(simpl; lia) 6 s ltac:(lia))
    as (this' & r & _ & _ & Hrun & _).
  exists this', r. exact Hrun.
Qed.

Lemma optimize_history_length_witness :
  exists this' r,
    optimize 6 stopsInGeneration3 (sixGuests (T := R)) [0.3; 0.6; 0.2]%Q = (this', Ok r)
    /\ length (history r) = 4%nat /\ isRunning this' = false.
Proof.
  destruct (sixGuests_optimize_returns stopsInGeneration3 [0.3; 0.6; 0.2]%Q)
    as (this' & r & Hrun).
  exists this', r. split; [exact Hrun |].
  destruct (optimize_history_length 6 stopsInGeneration3 sixGuests this' [0.3; 0.6; 0.2]%Q r Hrun)
    as (Hlen & _ & _ & Hoff & _).
  split; [rewrite Hlen; reflexivity | exact Hoff].
Defined.

Lemma server_optimize_history_length_witness :
  exists this' r,
    Server.optimize 6 (sixGuestsServer (T := R)) [0.3; 0.6; 0.2]%Q = (this', Ok r)
    /\ length (history r) = 200%nat /\ isRunning this' = true.
Proof.
  destruct (sixGuestsServer_optimize_returns [0.3; 0.6; 0.2]%Q) as (this' & r & Hrun).
  exists this', r. split; [exact Hrun |].
  destruct (server_optimize_history_length 6 sixGuestsServer this' [0.3; 0.6; 0.2]%Q r Hrun)
    as (Hlen & Hon & _).
  split; [rewrite Hlen; reflexivity | exact Hon].
Defined.

Lemma small_population_throws_witness :
  generationWith (offspring 0) calculateFitness (overfull (T := R)) 0 [[Some 0; Some 0]]
                 [{| total := 1%R; friendProximity := 1%R; vipPlacement := 1%R;
                     groupCohesion := 1%R; stageDistance := 1%R |}] []
  = (withGeneration overfull 0, Throw TypeError).
Proof.
  apply (proj1 (small_population_throws (offspring 0) calculateFitness (overfull (T := R)) 0
                  [[Some 0; Some 0]]
                  [{| total := 1%R; friendProximity := 1%R; vipPlacement := 1%R;
                      groupCohesion := 1%R; stageDistance := 1%R |}] [] eq_refl)).
  simpl. lia.
Defined.

Lemma tournamentSelect_selects_member_witness :
  exists c s',
    tournamentSelect (fiveRegulars (T := R)) [[Some 0]; [Some 1]]
      [{| total := 1%R; friendProximity := 1%R; vipPlacement := 1%R;
          groupCohesion := 1%R; stageDistance := 1%R |};
       {| total := 0%R; friendProximity := 0%R; vipPlacement := 0%R;
          groupCohesion := 0%R; stageDistance := 0%R |}] [0.7; 0.2]%Q = Ok (c, s')
    /\ In c [[Some 0]; [Some 1]].
Proof.
  apply (proj2 (tournamentSelect_selects_member (fiveRegulars (T := R)) [[Some 0]; [Some 1]]
                  [{| total := 1%R; friendProximity := 1%R; vipPlacement := 1%R;
                      groupCohesion := 1%R; stageDistance := 1%R |};
                   {| total := 0%R; friendProximity := 0%R; vipPlacement := 0%R;
                      groupCohesion := 0%R; stageDistance := 0%R |}] [0.7; 0.2]%Q)).
  - discriminate.
  - reflexivity.
  - simpl. lia.
  - intros f [<- | [<- | []]]; simpl; lra.
Defined.

Lemma tournamentSelect_nan_throws_witness :
  tournamentSelect (fiveRegulars (T := PrimFloat.float)) [[Some 0]]
    [{| total := PrimFloat.nan; friendProximity := PrimFloat.one;
        vipPlacement := PrimFloat.one; groupCohesion := PrimFloat.one;
        stageDistance := PrimFloat.one |}] [0.7]%Q
  = Throw TypeError.
Proof.
  apply (tournamentSelect_nan_throws (fiveRegulars (T := PrimFloat.float))).
  intros f [<- | []]. reflexivity.
Defined.


(** ** The order of the seats in the cohesion score *)

Section CohesionOrder.
Context {T : Type} `{AT : Arith T}.

Lemma pairPoints_sym (a b : Seat T) : pairPoints a b = pairPoints b a.
Proof.
  unfold pairPoints. f_equal. lia.
Qed.

Lemma rowSum_Permutation (a : Seat T) (l l' : list (Seat T)) :
  l ≡ₚ l' ->
  fold_right (fun b acc => pairPoints a b + acc) 0 l
  = fold_right (fun b acc => pairPoints a b + acc) 0 l'.
Proof.
  induction 1 as [| x l l' _ IH | x y l | l l' l'' _ IH1 _ IH2]; simpl;
    [reflexivity | rewrite IH; reflexivity | lia | congruence].
Qed.

Lemma pairSum_Permutation (l l' : list (Seat T)) : l ≡ₚ l' -> pairSum l = pairSum l'.
Proof.
  induction 1 as [| x l l' Hp IH | x y l | l l' l'' _ IH1 _ IH2]; simpl.
  - reflexivity.
  - rewrite IH, (rowSum_Permutation x l l' Hp). reflexivity.
  - rewrite (pairPoints_sym x y). lia.
  - congruence.
Qed.

Lemma cohesion_row (a : Seat T) (rest : list (Seat T)) (pts : Z) :
  foldlM (fun p sj => dist ← getSeatDistance (Some a) sj; Ok (p + adjacencyPoints dist))
         pts (map Some rest)
  = Ok (pts + fold_right (fun b acc => pairPoints a b + acc) 0 rest).
Proof.
  revert pts. induction rest as [| b rest IH]; intros pts; simpl.
  - f_equal. lia.
  - rewrite IH. f_equal. unfold pairPoints. lia.
Qed.

Lemma cohesionLoop_defined (l : list (Seat T)) (pts : Z) :
  cohesionLoop pts (map Some l) = Ok (pts + pairSum l).
Proof.
  revert pts. induction l as [| a l IH]; intros pts; cbn [cohesionLoop map pairSum].
  - f_equal. lia.
  - rewrite cohesion_row. cbn [mbind outcome_bind]. rewrite IH. f_equal. lia.
Qed.

Lemma row_undefined (si : option (Seat T)) (rest : list (option (Seat T))) (pts : Z) :
  In None rest ->
  foldlM (fun p sj => dist ← getSeatDistance si sj; Ok (p + adjacencyPoints dist)) pts rest
  = Throw TypeError.
Proof.
  revert pts. induction rest as [| sj rest IH]; intros pts Hin; [destruct Hin |].
  simpl. destruct si as [a |]; [| reflexivity].
  destruct sj as [b |]; [| reflexivity]. simpl.
  apply IH. destruct Hin as [H | H]; [discriminate | exact H].
Qed.

Lemma cohesionLoop_undefined (l : list (option (Seat T))) (pts : Z) :
  In None l -> (2 <= length l)%nat -> cohesionLoop pts l = Throw TypeError.
Proof.
  revert pts. induction l as [| si rest IH]; intros pts Hin Hlen; [destruct Hin |].
  simpl. destruct si as [a |].
  - destruct Hin as [H | Hin]; [discriminate |].
    rewrite (row_undefined (Some a) rest pts Hin). reflexivity.
  - destruct rest as [| sj rest]; [simpl in Hlen; lia |]. reflexivity.
Qed.

Lemma defined_or_not (l : list (option (Seat T))) :
  (exists ss, l = map Some ss) \/ In None l.
Proof.
  induction l as [| [a |] l IH].
  - left. exists []. reflexivity.
  - destruct IH as [(ss & ->) | H]; [left; exists (a :: ss); reflexivity | right; right; exact H].
  - right. left. reflexivity.
Qed.

Lemma sortSeats_Permutation (l : list (option (Seat T))) : sortSeats l ≡ₚ l.
Proof.
  unfold sortSeats. rewrite sortBy_Permutation.
  induction l as [| [a |] l IH]; simpl.
  - reflexivity.
  - rewrite filter_cons_False by discriminate. simpl. rewrite IH. reflexivity.
  - rewrite filter_cons_True by reflexivity. rewrite <- Permutation_middle, IH. reflexivity.
Qed.

(** X8.  The sort of the seats of a group has no effect on the cohesion score:
    the double loop adds the adjacency points of every pair of seats, which
    do not depend on the order of the seats, and with a seat that is
    [undefined] it throws a [TypeError] in either order. *)
Theorem cohesion_ignores_seat_order (l : list (option (Seat T))) (pts : Z) :
  cohesionLoop pts (sortSeats l) = cohesionLoop pts l
  /\ (forall ss, l = map Some ss -> cohesionLoop pts l = Ok (pts + pairSum ss))
  /\ (In None l -> (2 <= length l)%nat -> cohesionLoop pts l = Throw TypeError).
Proof.
  split; [| split].
  - destruct (defined_or_not l) as [(ss & ->) | Hnone].
    + unfold sortSeats.
      assert (Hom : omap (fun s => s) (map Some ss) = ss).
      { induction ss as [| a ss IH]; simpl; [reflexivity |]. f_equal. exact IH. }
      assert (Hnone : filter (fun s : option (Seat T) => s = None) (map Some ss) = []).
      { apply filter_none. intros x Hx Hnone. subst x. apply in_map_iff in Hx.
        destruct Hx as (a & Ha & _). discriminate. }
      rewrite Hom, Hnone, app_nil_r, !cohesionLoop_defined.
      f_equal. f_equal. apply pairSum_Permutation, sortBy_Permutation.
    + destruct (le_lt_dec 2 (length l)) as [Hlen | Hlen].
      * rewrite (cohesionLoop_undefined l pts Hnone Hlen).
        apply cohesionLoop_undefined.
        -- apply list_elem_of_In. rewrite sortSeats_Permutation. apply list_elem_of_In, Hnone.
        -- rewrite (Permutation_length (sortSeats_Permutation l)). exact Hlen.
      * destruct l as [| [a |] [| b l]]; simpl in *; try lia.
        -- destruct Hnone as [H | []]. discriminate.
        -- reflexivity.
  - intros ss ->. apply cohesionLoop_defined.
  - apply cohesionLoop_undefined.
Qed.

End CohesionOrder.


(** ** Groups and friendships *)

Section AssocSemantics.
Context {K V : Type} (keq : K -> K -> bool).
Hypothesis keq_spec : forall a b, keq a b = true <-> a = b.

Lemma keq_refl (k : K) : keq k k = true.
Proof using keq_spec. apply keq_spec. reflexivity. Qed.

Lemma mapGet_mapSet (k k' : K) (v : V) (m : list (K * V)) :
  mapGet keq k (mapSet keq k' v m) = if keq k k' then Some v else mapGet keq k m.
Proof using keq_spec.
  induction m as [| [k0 v0] m IH]; simpl; [reflexivity |].
  destruct (keq k' k0) eqn:E0; simpl.
  - apply keq_spec in E0. subst k0. destruct (keq k k'); reflexivity.
  - rewrite IH. destruct (keq k k0) eqn:E1; [| reflexivity].
    apply keq_spec in E1. subst k0.
    destruct (keq k k') eqn:E2; [| reflexivity].
    apply keq_spec in E2. subst k'. rewrite keq_refl in E0. discriminate.
Qed.

Lemma mapGet_mapAlter (k k' : K) (f : V -> V) (m : list (K * V)) :
  mapGet keq k (mapAlter keq k' f m)
  = if keq k k' then f <$> mapGet keq k m else mapGet keq k m.
Proof using keq_spec.
  induction m as [| [k0 v0] m IH]; simpl; [destruct (keq k k'); reflexivity |].
  destruct (keq k' k0) eqn:E0; simpl.
  - apply keq_spec in E0. subst k0. destruct (keq k k'); reflexivity.
  - rewrite IH. destruct (keq k k0) eqn:E1; [| reflexivity].
    apply keq_spec in E1. subst k0.
    destruct (keq k k') eqn:E2; [| reflexivity].
    apply keq_spec in E2. subst k'. rewrite keq_refl in E0. discriminate.
Qed.

Lemma keys_mapAlter (k : K) (f : V -> V) (m : list (K * V)) :
  map fst (mapAlter keq k f m) = map fst m.
Proof.
  induction m as [| [k0 v0] m IH]; simpl; [reflexivity |].
  destruct (keq k k0); simpl; [reflexivity | rewrite IH; reflexivity].
Qed.

Lemma mapGet_None_keys (k : K) (m : list (K * V)) :
  mapGet keq k m = None <-> ~ In k (map fst m).
Proof using keq_spec.
  induction m as [| [k0 v0] m IH]; simpl; [tauto |].
  destruct (keq k k0) eqn:E.
  - apply keq_spec in E. subst. split; [discriminate | intros H; exfalso; apply H; left; reflexivity].
  - rewrite IH. split.
    + intros H [H' | H']; [subst; rewrite keq_refl in E; discriminate | exact (H H')].
    + intros H H'. apply H. right. exact H'.
Qed.

Lemma keys_mapSet_new (k : K) (v : V) (m : list (K * V)) :
  mapGet keq k m = None -> map fst (mapSet keq k v m) = map fst m ++ [k].
Proof.
  induction m as [| [k0 v0] m IH]; simpl; [reflexivity |].
  destruct (keq k k0); [discriminate |]. intros H. simpl. rewrite (IH H). reflexivity.
Qed.

Lemma mapGet_entry (k : K) (v : V) (m : list (K * V)) :
  NoDup (map fst m) -> (In (k, v) m <-> mapGet keq k m = Some v).
Proof using keq_spec.
  induction m as [| [k0 v0] m IH]; simpl; intros Hnd; [split; [tauto | discriminate] |].
  apply NoDup_cons in Hnd. destruct Hnd as [Hk0 Hnd].
  destruct (keq k k0) eqn:E.
  - apply keq_spec in E. subst k0. split.
    + intros [H | H]; [injection H as <-; reflexivity |].
      exfalso. apply Hk0, list_elem_of_In, in_map_iff. exists (k, v). split; [reflexivity | exact H].
    + intros H. injection H as <-. left. reflexivity.
  - rewrite <- (IH Hnd). split.
    + intros [H | H]; [injection H as <- <-; rewrite keq_refl in E; discriminate | exact H].
    + intros H. right. exact H.
Qed.

End AssocSemantics.

Lemma String_eqb_spec' (a b : string) : String.eqb a b = true <-> a = b.
Proof. apply String.eqb_eq. Qed.

Lemma In_setAdd_iff (x y : nat) (s : list nat) : In y (setAdd x s) <-> y = x \/ In y s.
Proof.
  unfold setAdd. destruct (existsb (Nat.eqb x) s) eqn:E.
  - split; [intros H; right; exact H |]. intros [-> | H]; [| exact H].
    apply existsb_exists in E. destruct E as (z & Hz & Heq). apply Nat.eqb_eq in Heq.
    subst. exact Hz.
  - rewrite in_app_iff. simpl. split.
    + intros [H | [H | []]]; [right; exact H | left; symmetry; exact H].
    + intros [-> | H]; [right; left; reflexivity | left; exact H].
Qed.

Section Groups.
Context {T : Type} `{AT : Arith T}.

(** Attendee index [i] is listed under group [g]. *)
Lemma groupStep_get (gs : list (string * list nat)) (a : Attendee T) (g : string) :
  mapGet String.eqb g (groupStep gs a)
  = match truthyGroup (a_group a) with
    | Some g0 =>
        if String.eqb g g0 then Some (default [] (mapGet String.eqb g gs) ++ [a_index a])
        else mapGet String.eqb g gs
    | None => mapGet String.eqb g gs
    end.
Proof.
  unfold groupStep. destruct (truthyGroup (a_group a)) as [g0 |]; [| reflexivity].
  rewrite (mapGet_mapAlter String.eqb String_eqb_spec').
  destruct (String.eqb g g0) eqn:E.
  - apply String.eqb_eq in E. subst g0. unfold mapHas.
    destruct (mapGet String.eqb g gs) as [ms |] eqn:Hg.
    + rewrite Hg. reflexivity.
    + rewrite (mapGet_mapSet String.eqb String_eqb_spec'), String.eqb_refl. reflexivity.
  - unfold mapHas. destruct (mapGet String.eqb g0 gs); [reflexivity |].
    rewrite (mapGet_mapSet String.eqb String_eqb_spec'), E. reflexivity.
Qed.

Lemma groupStep_keys (gs : list (string * list nat)) (a : Attendee T) :
  NoDup (map fst gs) -> NoDup (map fst (groupStep gs a)).
Proof.
  intros Hnd. unfold groupStep. destruct (truthyGroup (a_group a)) as [g0 |]; [| exact Hnd].
  rewrite keys_mapAlter. unfold mapHas.
  destruct (mapGet String.eqb g0 gs) eqn:Hg; [exact Hnd |].
  rewrite (keys_mapSet_new _ _ _ _ Hg). apply NoDup_app. split; [exact Hnd |].
  split; [| apply NoDup_singleton].
  intros x Hx Hx'. apply list_elem_of_singleton in Hx'. subst x.
  apply (mapGet_None_keys String.eqb String_eqb_spec') in Hg. apply Hg, list_elem_of_In, Hx.
Qed.

Lemma groups_fold (l : list (Attendee T)) :
  forall (gs : list (string * list nat)) (g : string) (i : nat),
    (exists ms, mapGet String.eqb g (fold_left groupStep l gs) = Some ms /\ In i ms)
    <-> (exists ms, mapGet String.eqb g gs = Some ms /\ In i ms)
        \/ exists a, In a l /\ truthyGroup (a_group a) = Some g /\ a_index a = i.
Proof.
  induction l as [| a l IH]; intros gs g i; simpl.
  - split; [intros H; left; exact H | intros [H | (a & [] & _)]; exact H].
  - rewrite IH. rewrite groupStep_get. split.
    + intros [(ms & Hms & Hi) | (a0 & Ha0 & Hg & Hidx)].
      * destruct (truthyGroup (a_group a)) as [g0 |] eqn:Hg0; [| left; exists ms; tauto].
        destruct (String.eqb g g0) eqn:E; [| left; exists ms; tauto].
        apply String.eqb_eq in E. subst g0. injection Hms as <-.
        apply in_app_iff in Hi. destruct Hi as [Hi | [<- | []]].
        -- left. destruct (mapGet String.eqb g gs) as [ms0 |]; [| destruct Hi].
           exists ms0. split; [reflexivity | exact Hi].
        -- right. exists a. tauto.
      * right. exists a0. tauto.
    + intros [(ms & Hms & Hi) | (a0 & [<- | Ha0] & Hg & Hidx)].
      * left. destruct (truthyGroup (a_group a)) as [g0 |]; [| exists ms; tauto].
        destruct (String.eqb g g0); [| exists ms; tauto].
        rewrite Hms. eexists. split; [reflexivity |]. apply in_app_iff. left. exact Hi.
      * left. rewrite Hg, String.eqb_refl. eexists. split; [reflexivity |].
        apply in_app_iff. right. left. exact Hidx.
      * right. exists a0. tauto.
Qed.

Lemma groups_keys (l : list (Attendee T)) :
  forall gs, NoDup (map fst gs) -> NoDup (map fst (fold_left groupStep l gs)).
Proof.
  induction l as [| a l IH]; intros gs Hnd; simpl; [exact Hnd |].
  apply IH, groupStep_keys, Hnd.
Qed.

End Groups.

Section Friendships.

Local Abbreviation get := (mapGet Nat.eqb).

Lemma Nat_eqb_spec' (a b : nat) : Nat.eqb a b = true <-> a = b.
Proof. apply Nat.eqb_eq. Qed.

Lemma friend_sets (m1 : nat) (xs : list nat) :
  forall (s : list nat) (j : nat),
    In j (fold_left (fun s m2 => if Nat.eqb m1 m2 then s else setAdd m2 s) xs s)
    <-> In j s \/ (In j xs /\ j <> m1).
Proof.
  induction xs as [| x xs IH]; intros s j; simpl; [tauto |].
  rewrite IH. destruct (Nat.eqb_spec m1 x) as [<- | Hne].
  - split; [intros [H | [H1 H2]]; tauto |].
    intros [H | [[<- | H1] H2]]; tauto.
  - rewrite In_setAdd_iff. split.
    + intros [[-> | H] | [H1 H2]]; [right; split; [left; reflexivity | congruence] | tauto | tauto].
    + intros [H | [[<- | H1] H2]]; tauto.
Qed.

Lemma friendStep_inner (m1 : nat) (xs : list nat) :
  forall (fs : list (nat * list nat)) (i : nat),
    get i (fold_left (fun f m2 => if Nat.eqb m1 m2 then f
                                  else mapAlter Nat.eqb m1 (setAdd m2) f) xs fs)
    = if Nat.eqb i m1
      then fold_left (fun s m2 => if Nat.eqb m1 m2 then s else setAdd m2 s) xs <$> get i fs
      else get i fs.
Proof.
  induction xs as [| x xs IH]; intros fs i; simpl.
  - destruct (Nat.eqb i m1); [destruct (get i fs); reflexivity | reflexivity].
  - rewrite IH. destruct (Nat.eqb m1 x); [reflexivity |].
    rewrite (mapGet_mapAlter Nat.eqb Nat_eqb_spec').
    destruct (Nat.eqb i m1); [| reflexivity].
    destruct (get i fs); reflexivity.
Qed.

Lemma friendStep_inner_keys (m1 : nat) (xs : list nat) :
  forall fs : list (nat * list nat),
    map fst (fold_left (fun f m2 => if Nat.eqb m1 m2 then f
                                    else mapAlter Nat.eqb m1 (setAdd m2) f) xs fs)
    = map fst fs.
Proof.
  induction xs as [| x xs IH]; intros fs; simpl; [reflexivity |].
  rewrite IH. destruct (Nat.eqb m1 x); [reflexivity | apply keys_mapAlter].
Qed.

Lemma friendStep_get (members : list nat) (fs : list (nat * list nat)) (m1 i j : nat) :
  (exists s, get i (friendStep members fs m1) = Some s /\ In j s)
  <-> (exists s, get i fs = Some s /\ In j s) \/ (i = m1 /\ In j members /\ j <> m1).
Proof.
  unfold friendStep. rewrite friendStep_inner.
  set (fs' := if mapHas Nat.eqb m1 fs then fs else mapSet Nat.eqb m1 [] fs).
  assert (Hfs' : get i fs' = if Nat.eqb i m1 then Some (default [] (get m1 fs)) else get i fs).
  { unfold fs', mapHas. destruct (get m1 fs) as [s |] eqn:Hm.
    - destruct (Nat.eqb_spec i m1) as [-> | _]; [exact Hm | reflexivity].
    - rewrite (mapGet_mapSet Nat.eqb Nat_eqb_spec'). reflexivity. }
  rewrite Hfs'. destruct (Nat.eqb_spec i m1) as [-> | Hne].
  - simpl. split.
    + intros (s & Hs & Hj). injection Hs as <-. apply friend_sets in Hj.
      destruct Hj as [Hj | Hj]; [| right; tauto].
      left. destruct (get m1 fs) as [s0 |]; [| destruct Hj]. exists s0. tauto.
    + intros [(s & Hs & Hj) | (_ & Hj & Hne)]; eexists; (split; [reflexivity |]);
        apply friend_sets.
      * left. rewrite Hs. exact Hj.
      * right. tauto.
  - split; [intros H; left; exact H | intros [H | (H & _)]; [exact H | contradiction]].
Qed.

Lemma friendStep_has (members : list nat) (fs : list (nat * list nat)) (m1 i : nat) :
  get i (friendStep members fs m1) <> None <-> get i fs <> None \/ i = m1.
Proof.
  unfold friendStep. rewrite friendStep_inner. unfold mapHas.
  destruct (Nat.eqb_spec i m1) as [-> | Hne].
  - split; [intros _; right; reflexivity | intros _].
    destruct (get m1 fs) as [s |] eqn:Hm; [rewrite Hm; discriminate |].
    rewrite (mapGet_mapSet Nat.eqb Nat_eqb_spec'), Nat.eqb_refl. discriminate.
  - destruct (get m1 fs) as [s |] eqn:Hm.
    + tauto.
    + rewrite (mapGet_mapSet Nat.eqb Nat_eqb_spec').
      destruct (Nat.eqb_spec i m1); [contradiction | tauto].
Qed.

Lemma friendStep_keys (members : list nat) (fs : list (nat * list nat)) (m1 : nat) :
  NoDup (map fst fs) -> NoDup (map fst (friendStep members fs m1)).
Proof.
  intros Hnd. unfold friendStep. rewrite friendStep_inner_keys. unfold mapHas.
  destruct (get m1 fs) eqn:Hm; [exact Hnd |].
  rewrite (keys_mapSet_new _ _ _ _ Hm). apply NoDup_app. split; [exact Hnd |].
  split; [| apply NoDup_singleton].
  intros x Hx Hx'. apply list_elem_of_singleton in Hx'. subst x.
  apply (mapGet_None_keys Nat.eqb Nat_eqb_spec') in Hm. apply Hm, list_elem_of_In, Hx.
Qed.

Lemma group_friends (members : list nat) (ms : list nat) :
  forall (fs : list (nat * list nat)) (i j : nat),
    ((exists s, get i (fold_left (friendStep members) ms fs) = Some s /\ In j s)
     <-> (exists s, get i fs = Some s /\ In j s) \/ (In i ms /\ In j members /\ j <> i))
    /\ (get i (fold_left (friendStep members) ms fs) <> None
        <-> get i fs <> None \/ In i ms)
    /\ (NoDup (map fst fs) -> NoDup (map fst (fold_left (friendStep members) ms fs))).
Proof.
  induction ms as [| m1 ms IH]; intros fs i j; simpl.
  - split; [| split]; [| | tauto]; split; tauto.
  - destruct (IH (friendStep members fs m1) i j) as (I1 & I2 & I3).
    split; [| split].
    + rewrite I1, friendStep_get. split.
      * intros [[H | (-> & H)] | H]; tauto.
      * intros [H | ([<- | H] & H')]; tauto.
    + rewrite I2, friendStep_has. split.
      * intros [[H | ->] | H]; tauto.
      * intros [H | [<- | H]]; tauto.
    + intros Hnd. apply I3, friendStep_keys, Hnd.
Qed.

Lemma all_friends (gs : list (string * list nat)) :
  forall (fs : list (nat * list nat)) (i j : nat),
    ((exists s,
         get i (fold_left (fun fs g => fold_left (friendStep (snd g)) (snd g) fs) gs fs) = Some s
         /\ In j s)
     <-> (exists s, get i fs = Some s /\ In j s)
         \/ exists g, In g gs /\ In i (snd g) /\ In j (snd g) /\ j <> i)
    /\ (get i (fold_left (fun fs g => fold_left (friendStep (snd g)) (snd g) fs) gs fs) <> None
        <-> get i fs <> None \/ exists g, In g gs /\ In i (snd g))
    /\ (NoDup (map fst fs) ->
        NoDup (map fst (fold_left (fun fs g => fold_left (friendStep (snd g)) (snd g) fs)
                                  gs fs))).
Proof.
  induction gs as [| g gs IH]; intros fs i j; simpl.
  - split; [| split]; [| | tauto].
    + split; [tauto | intros [H | (g & [] & _)]; exact H].
    + split; [tauto | intros [H | (g & [] & _)]; exact H].
  - destruct (IH (fold_left (friendStep (snd g)) (snd g) fs) i j) as (I1 & I2 & I3).
    destruct (group_friends (snd g) (snd g) fs i j) as (G1 & G2 & G3).
    split; [| split].
    + rewrite I1, G1. split.
      * intros [[H | H] | (g0 & H0 & H)]; [tauto | right; exists g; tauto |
                                            right; exists g0; tauto].
      * intros [H | (g0 & [<- | H0] & H)]; [tauto | tauto | right; exists g0; tauto].
    + rewrite I2, G2. split.
      * intros [[H | H] | (g0 & H0 & H)]; [tauto | right; exists g; tauto |
                                            right; exists g0; tauto].
      * intros [H | (g0 & [<- | H0] & H)]; [tauto | tauto | right; exists g0; tauto].
    + intros Hnd. apply I3, G3, Hnd.
Qed.

End Friendships.

Section FriendshipsTheorem.
Context {T : Type} `{AT : Arith T}.

(** X5.  The friendships that [setAttendees] builds: every attendee with a
    non-empty group name has exactly one entry, and its friends are the
    other attendees with the same group name, each listed once. *)
Theorem friendships_are_group_members (this : Optimizer T) (raws : list (RawAttendee T))
    (i j : nat) :
  NoDup (map fst (friendships (setAttendees this raws)))
  /\ ((exists friends, In (i, friends) (friendships (setAttendees this raws)))
      <-> exists ri g, raws !! i = Some ri /\ truthyGroup (ra_group ri) = Some g)
  /\ (forall friends, In (i, friends) (friendships (setAttendees this raws)) ->
        (In j friends
         <-> j <> i
             /\ exists g ri rj, raws !! i = Some ri /\ raws !! j = Some rj
                                /\ truthyGroup (ra_group ri) = Some g
                                /\ truthyGroup (ra_group rj) = Some g)).
Proof.
  cbn [friendships setAttendees withAttendees]. unfold buildFriendships, buildGroups.
  set (l := imap storeAttendee raws).
  set (gs := fold_left groupStep l []).
  assert (Hstored : forall g k,
            (exists a, In a l /\ truthyGroup (a_group a) = Some g /\ a_index a = k)
            <-> exists r, raws !! k = Some r /\ truthyGroup (ra_group r) = Some g).
  { intros g k. split.
    - intros (a & Ha & Hg & Hk). apply list_elem_of_In, elem_of_lookup_imap in Ha.
      destruct Ha as (k' & r & -> & Hr). simpl in Hk. subst k'. exists r. tauto.
    - intros (r & Hr & Hg). exists (storeAttendee k r). split; [| tauto].
      apply list_elem_of_In, elem_of_lookup_imap. exists k, r. tauto. }
  assert (Hkeys : NoDup (map fst gs)) by (apply groups_keys; apply NoDup_nil_2).
  assert (Hgroup : forall g k,
            (exists ms, In (g, ms) gs /\ In k ms)
            <-> exists r, raws !! k = Some r /\ truthyGroup (ra_group r) = Some g).
  { intros g k. rewrite <- Hstored.
    pose proof (groups_fold l [] g k) as Hfold. fold gs in Hfold. split.
    - intros (ms & Hin & Hk).
      apply (mapGet_entry String.eqb String_eqb_spec' g ms gs Hkeys) in Hin.
      destruct (proj1 Hfold (ex_intro _ ms (conj Hin Hk))) as [(ms0 & H0 & _) | H];
        [discriminate | exact H].
    - intros H. destruct (proj2 Hfold (or_intror H)) as (ms & Hms & Hk).
      exists ms. split; [| exact Hk].
      apply (mapGet_entry String.eqb String_eqb_spec' g ms gs Hkeys). exact Hms. }
  destruct (all_friends gs [] i j) as (F1 & F2 & F3).
  pose proof (F3 ltac:(apply NoDup_nil_2)) as Hnd.
  set (fs := fold_left (fun fs g => fold_left (friendStep (snd g)) (snd g) fs) gs []) in *.
  split; [exact Hnd |]. split.
  - split.
    + intros (friends & Hin).
      apply (mapGet_entry Nat.eqb Nat_eqb_spec' i friends fs Hnd) in Hin.
      destruct (proj1 F2 ltac:(rewrite Hin; discriminate)) as [H | ([g ms] & Hg & Hi)];
        [exfalso; apply H; reflexivity |].
      destruct (proj1 (Hgroup g i) (ex_intro _ ms (conj Hg Hi))) as (r & Hr & Hgr).
      exists r, g. tauto.
    + intros (ri & g & Hr & Hg).
      destruct (proj2 (Hgroup g i) (ex_intro _ ri (conj Hr Hg))) as (ms & Hin & Hi).
      assert (Hhas : mapGet Nat.eqb i fs <> None).
      { apply F2. right. exists (g, ms). tauto. }
      destruct (mapGet Nat.eqb i fs) as [friends |] eqn:Hget; [| contradiction].
      exists friends. apply (mapGet_entry Nat.eqb Nat_eqb_spec' i friends fs Hnd). exact Hget.
  - intros friends Hin.
    apply (mapGet_entry Nat.eqb Nat_eqb_spec' i friends fs Hnd) in Hin. split.
    + intros Hj.
      destruct (proj1 F1 (ex_intro _ friends (conj Hin Hj)))
        as [(s & Hs & _) | ([g ms] & Hg & Hi & Hj' & Hne)]; [discriminate |].
      split; [exact Hne |]. simpl in Hi, Hj'.
      destruct (proj1 (Hgroup g i) (ex_intro _ ms (conj Hg Hi))) as (ri & Hri & Hgi).
      destruct (proj1 (Hgroup g j) (ex_intro _ ms (conj Hg Hj'))) as (rj & Hrj & Hgj).
      exists g, ri, rj. tauto.
    + intros (Hne & g & ri & rj & Hri & Hrj & Hgi & Hgj).
      destruct (proj2 (Hgroup g i) (ex_intro _ ri (conj Hri Hgi))) as (ms & Hms & Hi).
      destruct (proj2 (Hgroup g j) (ex_intro _ rj (conj Hrj Hgj))) as (ms' & Hms' & Hj).
      assert (ms' = ms).
      { apply (mapGet_entry String.eqb String_eqb_spec' g ms gs Hkeys) in Hms.
        apply (mapGet_entry String.eqb String_eqb_spec' g ms' gs Hkeys) in Hms'.
        congruence. }
      subst ms'.
      destruct (proj2 F1 (or_intror (ex_intro _ (g, ms) (conj Hms (conj Hi (conj Hj Hne))))))
        as (s & Hs & Hjs).
      rewrite Hin in Hs. injection Hs as <-. exact Hjs.
Qed.

End FriendshipsTheorem.


(** ** Elitism keeps the best chromosome *)

Section ElitismKeepsBest.
Context `{ET : HasExp R}.
Local Open Scope R_scope.

Lemma insertBy_bestFirst (x : Chromosome * Fitness R) (l : list (Chromosome * Fitness R)) :
  bestFirst l -> bestFirst (insertBy fitterAfter x l).
Proof.
  unfold bestFirst. induction l as [| y l IH]; intros Hl; cbn [insertBy].
  - constructor; [constructor | constructor].
  - apply StronglySorted_inv in Hl. destruct Hl as [Hl Hy].
    destruct (fitterAfter y x) eqn:Hafter.
    + unfold fitterAfter in Hafter. apply ngt_real in Hafter. simpl in Hafter.
      constructor; [constructor; assumption |].
      constructor; [lra |].
      eapply Forall_impl; [exact Hy |]. intros z Hz. simpl in Hz. lra.
    + unfold fitterAfter in Hafter. apply ngt_real_false in Hafter. simpl in Hafter.
      constructor; [apply IH; exact Hl |].
      apply Forall_forall. intros z Hz.
      apply list_elem_of_In in Hz.
      apply (Permutation_in _ (insertBy_Permutation fitterAfter x l)) in Hz.
      destruct Hz as [<- | Hz]; [lra |].
      rewrite Forall_forall in Hy. apply Hy, list_elem_of_In. exact Hz.
Qed.

Lemma sortBy_bestFirst (l : list (Chromosome * Fitness R)) : bestFirst (sortBy fitterAfter l).
Proof.
  unfold sortBy.
  assert (H : forall acc, bestFirst acc ->
            bestFirst (fold_left (fun acc x => insertBy fitterAfter x acc) l acc)).
  { induction l as [| x l IH]; intros acc Hacc; simpl; [exact Hacc |].
    apply IH, insertBy_bestFirst, Hacc. }
  apply H. constructor.
Qed.

Lemma breedWith_prefix (offspringFn : Rand (Chromosome * Chromosome)) (this : Optimizer R)
    (k : nat) :
  forall (newPopulation bred : list Chromosome) (s s' : list Q),
    breedWith offspringFn this k newPopulation s = Ok (bred, s') ->
    exists rest, bred = newPopulation ++ rest.
Proof.
  induction k as [| k IH]; intros newPopulation bred s s' Hrun; cbn [breedWith] in Hrun.
  - injection Hrun as <- _. exists []. rewrite app_nil_r. reflexivity.
  - destruct (Z.of_nat (length newPopulation) <? populationSize (config this))%Z.
    + apply rand_bind_inv in Hrun. destruct Hrun as (children & s1 & _ & Hrun).
      apply IH in Hrun. destruct Hrun as (rest & ->).
      destruct (Z.of_nat (length (newPopulation ++ [fst children]))
                <? populationSize (config this))%Z;
        rewrite <- ?app_assoc; eexists; reflexivity.
    + injection Hrun as <- _. exists []. rewrite app_nil_r. reflexivity.
Qed.

(** X18.  Elitism keeps the best chromosome: when a generation returns, with at
    least one elite, no total of the old population exceeds the largest
    total of the new one.  The first chromosome of the new population is
    one with the largest total of the old one. *)
Theorem elitism_keeps_best
    (offspringFn : Optimizer R -> list Chromosome -> list (Fitness R) -> Rand (Chromosome * Chromosome))
    (fitnessFn : Optimizer R -> Chromosome -> Outcome (Fitness R))
    (this this' : Optimizer R) (gen : Z) (population bred : list Chromosome)
    (fitnessValues values : list (Fitness R)) (s s' : list Q) :
  generationWith offspringFn fitnessFn this gen population fitnessValues s
  = (this', Ok (bred, values, s')) ->
  Forall2 (fun c f => fitnessFn (withGeneration this gen) c = Ok f) population fitnessValues ->
  (1 <= elitismCount (config this))%Z ->
  exists c0 f0,
    bred !! 0%nat = Some c0 /\ values !! 0%nat = Some f0
    /\ In c0 population /\ In f0 fitnessValues
    /\ forall f, In f fitnessValues -> total f <= total f0.
Proof.
  intros Hgen Hfit Helite. unfold generationWith in Hgen.
  set (this1 := withGeneration this gen) in *.
  set (sorted := sortBy fitterAfter (zip population fitnessValues)) in *.
  match type of Hgen with
  | match ?m s with _ => _ end = _ => destruct (m s) as [[[bred0 values0] s0] | e |] eqn:Hnext
  end; [| discriminate | discriminate].
  injection Hgen as _ <- <- <-.
  apply rand_bind_inv in Hnext. destruct Hnext as (newPopulation & s1 & Helites & Hnext).
  apply liftO_inv in Helites. destruct Helites as [Helites Hs1]. simpl in Helites, Hs1.
  subst s1.
  apply rand_bind_inv in Hnext. destruct Hnext as (bred1 & s2 & Hbreed & Hnext).
  apply rand_bind_inv in Hnext. destruct Hnext as (values1 & s3 & Hvalues & Hnext).
  apply liftO_inv in Hvalues. destruct Hvalues as [Hvalues Hs3]. simpl in Hvalues, Hs3.
  subst s3.
  injection Hnext as <- <- _.
  rewrite elites_spec in Helites. cbn [config withGeneration this1] in Helites.
  destruct (Nat.leb_spec (Z.to_nat (elitismCount (config this))) (length sorted)) as [Hk | Hk];
    [| discriminate].
  injection Helites as <-.
  destruct sorted as [| [c0 f0] sorted'] eqn:Hsorted; [simpl in Hk; lia |].
  destruct (Z.to_nat (elitismCount (config this))) as [| k] eqn:Hcount; [lia |].
  apply breedWith_prefix in Hbreed. destruct Hbreed as (rest & ->).
  cbn [take map app] in Hvalues.
  apply mapM_Forall2 in Hvalues.
  destruct values1 as [| f1 values1]; [inversion Hvalues |].
  apply Forall2_cons in Hvalues. destruct Hvalues as [Hf1 _].
  assert (Hin : In (c0, f0) (zip population fitnessValues)).
  { apply list_elem_of_In. rewrite <- (sortBy_Permutation fitterAfter). fold sorted.
    rewrite Hsorted. left. }
  assert (Hpair : fitnessFn this1 c0 = Ok f0).
  { apply list_elem_of_In, list_elem_of_lookup_1 in Hin. destruct Hin as (i & Hi).
    apply lookup_zip_with_Some in Hi. destruct Hi as (c & f & Heq & Hc & Hf).
    injection Heq as -> ->. exact (Forall2_lookup_lr _ _ _ _ _ _ Hfit Hc Hf). }
  cbn [fst] in Hf1. fold this1 in Hf1. rewrite Hpair in Hf1. injection Hf1 as <-.
  exists c0, f0. split; [reflexivity |]. split; [reflexivity |].
  apply list_elem_of_In in Hin.
  split; [apply list_elem_of_In; eapply elem_of_zip_l; exact Hin |].
  split; [apply list_elem_of_In; eapply elem_of_zip_r; exact Hin |].
  intros f Hf. apply list_elem_of_In, list_elem_of_lookup_1 in Hf. destruct Hf as (i & Hi).
  destruct (Forall2_lookup_r _ _ _ _ _ Hfit Hi) as (c & Hc & _).
  assert (Hcf : (c, f) ∈ zip population fitnessValues).
  { apply (list_elem_of_lookup_2 _ i). apply lookup_zip_with_Some. exists c, f. tauto. }
  rewrite <- (sortBy_Permutation fitterAfter) in Hcf. fold sorted in Hcf. rewrite Hsorted in Hcf.
  pose proof (sortBy_bestFirst (zip population fitnessValues)) as Hbest.
  fold sorted in Hbest. rewrite Hsorted in Hbest.
  apply StronglySorted_inv in Hbest. destruct Hbest as [_ Hhead].
  apply elem_of_cons in Hcf. destruct Hcf as [Heq | Hcf].
  - injection Heq as -> ->. lra.
  - rewrite Forall_forall in Hhead. exact (Hhead (c, f) Hcf).
Qed.

End ElitismKeepsBest.

Lemma sixGuests_generation_returns :
  exists (this : Optimizer R) population fitnessValues this' bred values s',
    generationWith (offspring 6) calculateFitness this 0 population fitnessValues
                   [0.3; 0.6; 0.2]%Q = (this', Ok (bred, values, s'))
    /\ sameProblem sixGuests this
    /\ Forall2 (fun c f => calculateFitness (withGeneration this 0) c = Ok f)
               population fitnessValues.
Proof.
  pose proof (proj1 sixGuests_wellFormed) as Hwf.
  pose proof (proj1 sixGuests_scoring) as Hready.
  assert (Hsize : 1 <= populationSize (config (sixGuests (T := R)))) by (simpl; lia).
  assert (Helite : elitismCount (config (sixGuests (T := R)))
                   <= populationSize (config (sixGuests (T := R)))) by (simpl; lia).
  assert (Htour : 1 <= tournamentSize (config (sixGuests (T := R)))) by (simpl; lia).
  destruct (firstBestWith_total sixGuests 3 3 1 6 Hwf Hready ltac:(lia) ltac:(lia) Hsize Helite
              Htour initializePopulation (mutate sixGuests) sixGuests [] eq_refl
              (fun a s0 Ha => ltac:(destruct (mutate_valid sixGuests 3 3 6 a s0 ltac:(lia) Ha)
                                      as (a' & s' & E & Hv & _);
                                    exact (ex_intro _ a' (ex_intro _ s' (conj E Hv)))))
              (sameProblem_refl _))
    as (population & fitnessValues & c & f & s1 & _ & Hpop & Hc & Hf).
  set (this := withBest sixGuests c f).
  assert (Hsame : sameProblem sixGuests this) by (repeat split).
  destruct (generationWith_total sixGuests 3 3 1 6 Hwf Hready ltac:(lia) ltac:(lia) Hsize Helite
              Htour (offspring 6)
              (fun this1 pop fv s0 =>
                 offspring_returns sixGuests 3 3 1 6 Hwf Hready ltac:(lia) ltac:(lia) Hsize
                   Helite Htour 6 this1 pop fv s0 ltac:(lia) ltac:(lia))
              this 0 population fitnessValues [0.3; 0.6; 0.2]%Q Hsame Hpop)
    as (this' & bred & values & s' & Hrun & _).
  { exists c, f. repeat split; assumption. }
  exists this, population, fitnessValues, this', bred, values, s'.
  split; [exact Hrun |]. split; [exact Hsame |].
  destruct Hpop as (_ & _ & Hfit).
  eapply Forall2_impl; [exact Hfit |]. intros c0 f0 H0.
  rewrite (sameProblem_fitness sixGuests (withGeneration this 0) c0 Hsame). exact H0.
Qed.

Lemma elitism_keeps_best_witness :
  exists (this : Optimizer R) population fitnessValues this' bred values s' f0,
    generationWith (offspring 6) calculateFitness this 0 population fitnessValues
                   [0.3; 0.6; 0.2]%Q = (this', Ok (bred, values, s'))
    /\ values !! 0%nat = Some f0
    /\ forall f, In f fitnessValues -> (total f <= total f0)%R.
Proof.
  destruct sixGuests_generation_returns
    as (this & population & fitnessValues & this' & bred & values & s' & Hrun & Hsame & Hfit).
  destruct (elitism_keeps_best (offspring 6) calculateFitness this this' 0 population bred
              fitnessValues values [0.3; 0.6; 0.2]%Q s' Hrun Hfit)
    as (c0 & f0 & _ & Hf0 & _ & _ & Hmax).
  - destruct Hsame as (Hconfig & _). rewrite Hconfig. simpl. lia.
  - exists this, population, fitnessValues, this', bred, values, s', f0.
    split; [exact Hrun |]. split; [exact Hf0 | exact Hmax].
Defined.

(** * The best total: what the comparisons of the code guarantee *)

(** ** Comparisons of binary64 numbers *)

Section FloatOrder.
Import SpecFloat.

Lemma SFcompare_lt_trans (a b c : spec_float) :
  SFcompare a b = Some Lt -> SFcompare b c = Some Lt -> SFcompare a c = Some Lt.
Proof.
  destruct a as [sa | sa | | sa ma ea], b as [sb | sb | | sb mb eb],
           c as [sc | sc | | sc mc ec];
    cbn [SFcompare]; try discriminate;
    try (destruct sa); try (destruct sb); try (destruct sc);
    try discriminate; try reflexivity.
  - destruct (Z.compare_spec ea eb) as [Hab | Hab | Hab]; try discriminate;
      destruct (Z.compare_spec eb ec) as [Hbc | Hbc | Hbc]; try discriminate;
      intros H1 H2.
    + subst. rewrite Z.compare_refl.
      destruct (Pos.compare_cont Eq ma mb) eqn:E1; cbn in H1; try discriminate.
      destruct (Pos.compare_cont Eq mb mc) eqn:E2; cbn in H2; try discriminate.
      change (Pos.compare_cont Eq ma mb) with (Pos.compare ma mb) in E1.
      change (Pos.compare_cont Eq mb mc) with (Pos.compare mb mc) in E2.
      change (Pos.compare_cont Eq ma mc) with (Pos.compare ma mc).
      apply Pos.compare_gt_iff in E1, E2.
      pose proof (Pos.lt_trans _ _ _ E2 E1) as E3.
      apply Pos.compare_gt_iff in E3. rewrite E3. reflexivity.
    + subst. destruct (Z.compare_spec eb ec); try lia. reflexivity.
    + subst. destruct (Z.compare_spec ea ec); try lia. reflexivity.
    + destruct (Z.compare_spec ea ec); try lia. reflexivity.
  - destruct (Z.compare_spec ea eb) as [Hab | Hab | Hab]; try discriminate;
      destruct (Z.compare_spec eb ec) as [Hbc | Hbc | Hbc]; try discriminate;
      intros H1 H2.
    + subst. rewrite Z.compare_refl.
      change (Pos.compare_cont Eq ma mb) with (Pos.compare ma mb) in H1.
      change (Pos.compare_cont Eq mb mc) with (Pos.compare mb mc) in H2.
      change (Pos.compare_cont Eq ma mc) with (Pos.compare ma mc).
      injection H1 as H1. injection H2 as H2.
      apply Pos.compare_lt_iff in H1, H2.
      pose proof (Pos.lt_trans _ _ _ H1 H2) as E3.
      apply Pos.compare_lt_iff in E3. rewrite E3. reflexivity.
    + subst. destruct (Z.compare_spec eb ec); try lia. reflexivity.
    + subst. destruct (Z.compare_spec ea ec); try lia. reflexivity.
    + destruct (Z.compare_spec ea ec); try lia. reflexivity.
Qed.

(** [a < b] and [b < c] give [a < c], also with infinities and zeros. *)
Lemma float_lt_trans (a b c : PrimFloat.float) :
  nlt a b = true -> nlt b c = true -> nlt a c = true.
Proof.
  cbn [nlt FloatArith]. rewrite !FloatAxioms.ltb_spec. unfold SFltb.
  destruct (SFcompare (FloatOps.Prim2SF a) (FloatOps.Prim2SF b)) as [[| |] |] eqn:Hab;
    try discriminate.
  destruct (SFcompare (FloatOps.Prim2SF b) (FloatOps.Prim2SF c)) as [[| |] |] eqn:Hbc;
    try discriminate.
  rewrite (SFcompare_lt_trans _ _ _ Hab Hbc). reflexivity.
Qed.

(** [x >= x] is false exactly on NaN. *)
Lemma float_ge_self (x : PrimFloat.float) : nge x x = negb (PrimFloat.is_nan x).
Proof.
  unfold nge, PrimFloat.is_nan. cbn [nle FloatArith].
  rewrite FloatAxioms.leb_spec, FloatAxioms.eqb_spec. unfold SFleb, SFeqb.
  destruct (FloatOps.Prim2SF x) as [sg | sg | | sg m e] eqn:Hx;
    try (rewrite SFcompare_refl by discriminate); reflexivity.
Qed.

(** When [best] went from [x] to [y], [y >= x] holds exactly when [x] is a
    number. *)
Lemma float_climb_ge (x y : PrimFloat.float) :
  climbsTo x y -> nge y x = negb (PrimFloat.is_nan x).
Proof.
  intros [-> | Hgt]; [apply float_ge_self |].
  unfold ngt in Hgt. unfold nge, PrimFloat.is_nan. cbn [nlt nle FloatArith] in *.
  rewrite FloatAxioms.ltb_spec in Hgt.
  rewrite FloatAxioms.leb_spec, FloatAxioms.eqb_spec. unfold SFltb in Hgt. unfold SFleb, SFeqb.
  destruct (SFcompare (FloatOps.Prim2SF x) (FloatOps.Prim2SF y)) as [[| |] |] eqn:Hxy;
    try discriminate.
  destruct (FloatOps.Prim2SF x) as [sg | sg | | sg m e] eqn:Hx;
    try (rewrite SFcompare_refl by discriminate); reflexivity.
Qed.

(** A NaN best is never replaced. *)
Lemma float_climb_nan (x y : PrimFloat.float) :
  climbsTo x y -> PrimFloat.is_nan x = true -> y = x.
Proof.
  intros [-> | Hgt] Hx; [reflexivity |].
  unfold ngt in Hgt. cbn [nlt FloatArith] in Hgt.
  rewrite FloatAxioms.ltb_spec, (is_nan_spec x Hx) in Hgt. discriminate.
Qed.

End FloatOrder.

(** ** The best total only climbs *)

Section ClimbFacts.
Context {T : Type} `{AT : Arith T} `{ET : HasExp T}.

Hypothesis lt_trans :
  forall a b c : T, nlt a b = true -> nlt b c = true -> nlt a c = true.

Lemma climbsTo_refl (a : T) : climbsTo a a.
Proof. left. reflexivity. Qed.

Lemma climbsTo_step (a b c : T) : climbsTo a b -> ngt c b = true -> climbsTo a c.
Proof using lt_trans.
  intros [-> | Hab] Hbc; right; [exact Hbc |].
  unfold ngt in *. eapply lt_trans; eassumption.
Qed.

Lemma climbsTo_trans (a b c : T) : climbsTo a b -> climbsTo b c -> climbsTo a c.
Proof using lt_trans.
  intros Hab [-> | Hbc]; [exact Hab | eapply climbsTo_step; eassumption].
Qed.

Lemma climbing_nil : climbing (T := T) [].
Proof. intros k x y H. discriminate. Qed.

Lemma climbing_snoc (l : list T) (b : T) :
  climbing l -> (forall x, In x l -> climbsTo x b) -> climbing (l ++ [b]).
Proof.
  intros Hl Hb k x y Hx Hy.
  destruct (Nat.lt_ge_cases (S k) (length l)) as [Hin | Hout].
  - rewrite lookup_app_l in Hx by lia. rewrite lookup_app_l in Hy by lia.
    eapply Hl; eassumption.
  - assert (Hk : (k < length l)%nat).
    { apply lookup_lt_Some in Hy. rewrite length_app in Hy. simpl in Hy. lia. }
    rewrite lookup_app_l in Hx by exact Hk.
    rewrite lookup_app_r in Hy by exact Hout.
    replace (S k - length l)%nat with 0%nat in Hy by lia. injection Hy as <-.
    apply Hb. apply list_elem_of_In. eapply list_elem_of_lookup_2. exact Hx.
Qed.

(** The loop over the new population replaces the best by larger totals
    only. *)
Lemma updateBest_climbs (population : list Chromosome) (fitnessValues : list (Fitness T)) :
  forall this : Optimizer T,
    climbsTo (bestTotal (bestFitness this))
             (bestTotal (bestFitness (updateBest this population fitnessValues))).
Proof using lt_trans.
  unfold updateBest. generalize (zip population fitnessValues) as l.
  induction l as [| cf l IH]; intros this; cbn [fold_left].
  - apply climbsTo_refl.
  - destruct (ngt (total (snd cf)) (bestTotal (bestFitness this))) eqn:Hgt; [| apply IH].
    eapply climbsTo_trans; [| apply IH].
    right. exact Hgt.
Qed.

Lemma historyClimbs_generation
    (offspringFn : Optimizer T -> list Chromosome -> list (Fitness T) -> Rand (Chromosome * Chromosome))
    (fitnessFn : Optimizer T -> Chromosome -> Outcome (Fitness T))
    (this : Optimizer T) (gen : Z) (population : list Chromosome)
    (fitnessValues : list (Fitness T)) (s : list Q) (this' : Optimizer T)
    (o : Outcome (list Chromosome * list (Fitness T) * list Q)) :
  historyClimbs this ->
  generationWith offspringFn fitnessFn this gen population fitnessValues s = (this', o) ->
  historyClimbs this'.
Proof using lt_trans.
  intros [Hsorted Hbound] Hrun. unfold generationWith in Hrun.
  match type of Hrun with context [match ?next s with _ => _ end] =>
    destruct (next s) as [[[bred values] s'] | e |] end;
    injection Hrun as <- _; [| split; assumption | split; assumption].
  pose proof (updateBest_climbs bred values (withGeneration this gen)) as Hle.
  destruct (updateBest_fields bred values (withGeneration this gen)) as (Hhist & _).
  cbn [withGeneration bestFitness fitnessHistory] in Hle, Hhist.
  unfold historyClimbs, pushHistory.
  cbn [withRun fitnessHistory bestFitness]. rewrite Hhist.
  split.
  - apply climbing_snoc; [exact Hsorted |].
    intros x Hx. eapply climbsTo_trans; [apply Hbound; exact Hx | exact Hle].
  - intros x Hx. apply in_app_or in Hx. destruct Hx as [Hx | [<- | []]].
    + eapply climbsTo_trans; [apply Hbound; exact Hx | exact Hle].
    + apply climbsTo_refl.
Qed.

Lemma historyClimbs_afterGeneration (env : Env) (gen : Z) (this : Optimizer T) :
  historyClimbs this -> historyClimbs (afterGeneration env gen this).
Proof.
  intros H. unfold afterGeneration.
  destruct (progressCallback env) as [cb |]; [destruct (cb gen) |];
    destruct ((gen mod 5 =? 0)%Z && duringYield env gen); exact H.
Qed.

Lemma historyClimbs_loop (fuel : nat) (env : Env) (n : nat) :
  forall (gen : Z) (this : Optimizer T) (population : list Chromosome)
         (fitnessValues : list (Fitness T)) (s : list Q) (this' : Optimizer T)
         (o : Outcome (list Q)),
    historyClimbs this ->
    generationLoop fuel env n gen this population fitnessValues s = (this', o) ->
    historyClimbs this'.
Proof using lt_trans.
  induction n as [| n IH]; intros gen this population fitnessValues s this' o Hinv Hrun;
    cbn [generationLoop] in Hrun.
  - injection Hrun as <- _. exact Hinv.
  - destruct (isRunning this); [| injection Hrun as <- _; exact Hinv].
    destruct (generationWith (offspring fuel) calculateFitness this gen population fitnessValues s)
      as [this1 o1] eqn:Hgen.
    pose proof (historyClimbs_generation _ _ _ _ _ _ _ _ _ Hinv Hgen) as Hinv1.
    destruct o1 as [[[bred values] s'] | e |].
    + eapply IH; [| exact Hrun]. apply historyClimbs_afterGeneration. exact Hinv1.
    + injection Hrun as <- _. exact Hinv1.
    + injection Hrun as <- _. exact Hinv1.
Qed.

Lemma historyClimbs_server_loop (fuel : nat) (n : nat) :
  forall (gen : Z) (this : Optimizer T) (population : list Chromosome)
         (fitnessValues : list (Fitness T)) (s : list Q) (this' : Optimizer T)
         (o : Outcome (list Q)),
    historyClimbs this ->
    Server.generationLoop fuel n gen this population fitnessValues s = (this', o) ->
    historyClimbs this'.
Proof using lt_trans.
  induction n as [| n IH]; intros gen this population fitnessValues s this' o Hinv Hrun;
    cbn [Server.generationLoop] in Hrun.
  - injection Hrun as <- _. exact Hinv.
  - destruct (generationWith (Server.offspring fuel) Server.calculateFitness this gen
                             population fitnessValues s)
      as [this1 o1] eqn:Hgen.
    pose proof (historyClimbs_generation _ _ _ _ _ _ _ _ _ Hinv Hgen) as Hinv1.
    destruct o1 as [[[bred values] s'] | e |].
    + eapply IH; [exact Hinv1 | exact Hrun].
    + injection Hrun as <- _. exact Hinv1.
    + injection Hrun as <- _. exact Hinv1.
Qed.

(** The final polish replaces the best by a larger total only. *)
Lemma polishWith_climbs
    (annealFn : Optimizer T -> Chromosome -> Z -> Rand (Chromosome * Fitness T))
    (this this' : Optimizer T) (s : list Q) (o : Outcome (list Q)) :
  polishWith annealFn this s = (this', o) ->
  climbsTo (bestTotal (bestFitness this)) (bestTotal (bestFitness this')).
Proof.
  unfold polishWith. destruct (bestSolution this) as [c |].
  - destruct (annealFn this c (saIterations this) s) as [[refined s'] | e |].
    + destruct (ngt (total (snd refined)) (bestTotal (bestFitness this))) eqn:Hgt;
        intros H; injection H as <- _.
      * right. exact Hgt.
      * apply climbsTo_refl.
    + intros H. injection H as <- _. apply climbsTo_refl.
    + intros H. injection H as <- _. apply climbsTo_refl.
  - intros H. injection H as <- _. apply climbsTo_refl.
Qed.

Lemma historyClimbs_polish
    (annealFn : Optimizer T -> Chromosome -> Z -> Rand (Chromosome * Fitness T))
    (this this' : Optimizer T) (s : list Q) (o : Outcome (list Q)) :
  historyClimbs this -> polishWith annealFn this s = (this', o) -> historyClimbs this'.
Proof using lt_trans.
  intros [Hsorted Hbound] Hrun.
  pose proof (polishWith_climbs annealFn this this' s o Hrun) as Hle.
  destruct (polishWith_fields annealFn this this' s o Hrun) as (Hhist & _).
  unfold historyClimbs. rewrite Hhist. split; [exact Hsorted |].
  intros x Hx. eapply climbsTo_trans; [apply Hbound; exact Hx | exact Hle].
Qed.

(** After a call of [optimize] that passed the entry guard, whatever its
    outcome, the history climbs. *)
Lemma optimize_historyClimbs (fuel : nat) (env : Env) (this : Optimizer T) (s : list Q) :
  entryGuard this = false ->
  historyClimbs (fst (optimize fuel env this s))
  /\ forall r, snd (optimize fuel env this s) = Ok r ->
               history r = fitnessHistory (fst (optimize fuel env this s)).
Proof using lt_trans.
  intros Hguard.
  assert (Hstart : forall c f, historyClimbs (withBest (withRun this true []) c f)).
  { intros c f. split; [apply climbing_nil | intros x []]. }
  assert (Hreset : historyClimbs (withRun this true [])).
  { split; [apply climbing_nil | intros x []]. }
  unfold optimize. rewrite Hguard.
  destruct (firstBestWith initializePopulation calculateFitness (withRun this true []) s)
    as [[[[[population fitnessValues] c] f] s1] | e1 |];
    [| cbn [fst snd]; split; [exact Hreset | discriminate] ..].
  destruct (generationLoop fuel env _ 0 _ population fitnessValues s1)
    as [this3 o3] eqn:Hloop.
  pose proof (historyClimbs_loop _ _ _ _ _ _ _ _ _ _ (Hstart c f) Hloop) as Hinv3.
  destruct o3 as [s2 | e3 |];
    [| cbn [fst snd]; split; [exact Hinv3 | discriminate] ..].
  assert (Hpolished : forall p : Optimizer T * Outcome (list Q),
            p = (if isRunning this3 then polishWith simulatedAnnealing this3 s2
                 else (this3, Ok s2)) -> historyClimbs (fst p)).
  { intros [this4 o4] Hp. destruct (isRunning this3).
    - symmetry in Hp. eapply historyClimbs_polish; eassumption.
    - injection Hp as -> _. exact Hinv3. }
  destruct (if isRunning this3 then polishWith simulatedAnnealing this3 s2 else (this3, Ok s2))
    as [this4 o4] eqn:Hp.
  specialize (Hpolished (this4, o4) eq_refl). cbn [fst] in Hpolished.
  destruct o4 as [s4 | e4 |]; cbn [fst snd];
    (split; [exact Hpolished |]); try discriminate.
  intros r Hr. injection Hr as <-. reflexivity.
Qed.

Lemma server_optimize_historyClimbs (fuel : nat) (this : Optimizer T) (s : list Q) :
  entryGuard this = false ->
  historyClimbs (fst (Server.optimize fuel this s))
  /\ forall r, snd (Server.optimize fuel this s) = Ok r ->
               history r = fitnessHistory (fst (Server.optimize fuel this s)).
Proof using lt_trans.
  intros Hguard.
  assert (Hstart : forall c f, historyClimbs (withBest (withRun this true []) c f)).
  { intros c f. split; [apply climbing_nil | intros x []]. }
  assert (Hreset : historyClimbs (withRun this true [])).
  { split; [apply climbing_nil | intros x []]. }
  unfold Server.optimize. rewrite Hguard.
  destruct (firstBestWith Server.initializePopulation Server.calculateFitness
                          (withRun this true []) s)
    as [[[[[population fitnessValues] c] f] s1] | e1 |];
    [| cbn [fst snd]; split; [exact Hreset | discriminate] ..].
  destruct (Server.generationLoop fuel _ 0 _ population fitnessValues s1)
    as [this3 o3] eqn:Hloop.
  pose proof (historyClimbs_server_loop _ _ _ _ _ _ _ _ _ (Hstart c f) Hloop) as Hinv3.
  destruct o3 as [s2 | e3 |];
    [| cbn [fst snd]; split; [exact Hinv3 | discriminate] ..].
  destruct (polishWith Server.simulatedAnnealing this3 s2) as [this4 o4] eqn:Hp.
  pose proof (historyClimbs_polish _ _ _ _ _ Hinv3 Hp) as Hinv4.
  destruct o4 as [s4 | e4 |]; cbn [fst snd];
    (split; [exact Hinv4 |]); try discriminate.
  intros r Hr. injection Hr as <-. reflexivity.
Qed.

End ClimbFacts.

Section ClimbAnnealing.
Context {T : Type} `{AT : Arith T} `{ET : HasExp T}.

Hypothesis lt_trans :
  forall a b c : T, nlt a b = true -> nlt b c = true -> nlt a c = true.

Variable neighborGen : Chromosome -> Fitness T -> Rand Chromosome.
Variable fitnessFn : Chromosome -> Outcome (Fitness T).
Variable P : Chromosome -> Prop.
Hypothesis fitness_returns : forall c, P c -> exists f, fitnessFn c = Ok f.
Hypothesis neighbor_returns : forall c f s, P c ->
  exists c' s', neighborGen c f s = Ok (c', s') /\ P c'.

(** The annealing loop returns, and its best total is the one it started
    from or a larger one. *)
Lemma saLoop_climbs (this : Optimizer T) (floor : T) (iterations : nat) :
  forall (st : SAState) (s : list Q),
    P (sa_current st) -> climbsTo floor (total (sa_bestFitness st)) ->
    exists st' s',
      saLoopWith neighborGen fitnessFn this iterations st s = Ok (st', s')
      /\ climbsTo floor (total (sa_bestFitness st')).
Proof using lt_trans fitness_returns neighbor_returns.
  induction iterations as [| n IH]; intros st s Hcur Hfloor; cbn [saLoopWith].
  - exists st, s. split; [reflexivity | exact Hfloor].
  - destruct (ngt (sa_temp st) (minTemp (config this)));
      [| exists st, s; split; [reflexivity | exact Hfloor]].
    unfold saStepWith.
    destruct (neighbor_returns (sa_current st) (sa_currentFitness st) s Hcur)
      as (neighbor & s1 & Hneighbor & HPn).
    destruct (fitness_returns neighbor HPn) as (nf & Hnf).
    destruct (accepts_returns (nsub (total nf) (total (sa_currentFitness st))) (sa_temp st) s1)
      as (accepted & s2 & Haccepted).
    unfold mbind at 1. unfold rand_bind at 1.
    unfold mbind at 1. unfold rand_bind at 1.
    rewrite Hneighbor. unfold mbind at 1. unfold rand_bind at 1.
    unfold liftO at 1. rewrite Hnf.
    unfold mbind at 1. unfold rand_bind at 1. rewrite Haccepted.
    unfold mret at 1. unfold rand_ret at 1.
    apply IH.
    + unfold saUpdate. destruct accepted; [| exact Hcur].
      destruct (ngt (total nf) (total (sa_bestFitness st))); exact HPn.
    + unfold saUpdate. destruct accepted; [| exact Hfloor].
      destruct (ngt (total nf) (total (sa_bestFitness st))) eqn:Hgt; [| exact Hfloor].
      cbn [sa_bestFitness]. eapply climbsTo_step; [exact lt_trans | exact Hfloor | exact Hgt].
Qed.

Lemma annealWith_climbs (this : Optimizer T) (c : Chromosome) (iterations : Z) (s : list Q) :
  P c ->
  exists f0 r s',
    fitnessFn c = Ok f0
    /\ annealWith neighborGen fitnessFn this c iterations s = Ok (r, s')
    /\ climbsTo (total f0) (total (snd r)).
Proof using lt_trans fitness_returns neighbor_returns.
  intros Hc. destruct (fitness_returns c Hc) as (f0 & Hf0).
  unfold annealWith.
  destruct (saLoop_climbs this (total f0) (Z.to_nat iterations)
              {| sa_current := c; sa_currentFitness := f0; sa_best := c;
                 sa_bestFitness := f0; sa_temp := initialTemp (config this) |} s)
    as (st' & s' & Hloop & Hfloor); [exact Hc | left; reflexivity |].
  exists f0, (sa_best st', sa_bestFitness st'), s'.
  split; [exact Hf0 |]. split; [| exact Hfloor].
  unfold mbind at 1. unfold rand_bind at 1. unfold liftO at 1. rewrite Hf0.
  unfold mbind at 1. unfold rand_bind at 1. rewrite Hloop. reflexivity.
Qed.

End ClimbAnnealing.

(** ** C10: the total that simulated annealing returns *)

Section FloatAnnealing.
Context {ET : HasExp PrimFloat.float}.

Lemma simulatedAnnealing_climbs (this : Optimizer PrimFloat.float) (rows cols vipRows : Z)
    (N : nat) (c : Chromosome) (iterations : Z) (s : list Q) :
  wellFormed this rows cols vipRows N -> seatable rows cols N c ->
  exists f0 r s',
    calculateFitness this c = Ok f0
    /\ simulatedAnnealing this c iterations s = Ok (r, s')
    /\ climbsTo (total f0) (total (snd r)).
Proof.
  intros Hwf Hc.
  apply (annealWith_climbs float_lt_trans (neighborOf this) (calculateFitness this)
           (seatable rows cols N)).
  - intros c0 Hc0. eapply calculateFitness_returns; eassumption.
  - intros c0 f s0 Hc0. exact (neighborOf_seatable this rows cols vipRows N c0 f s0 Hwf Hc0).
  - exact Hc.
Qed.

Lemma server_simulatedAnnealing_climbs (this : Optimizer PrimFloat.float) (rows cols vipRows : Z)
    (N : nat) (c : Chromosome) (iterations : Z) (s : list Q) :
  wellFormed this rows cols vipRows N -> seatable rows cols N c ->
  exists f0 r s',
    Server.calculateFitness this c = Ok f0
    /\ Server.simulatedAnnealing this c iterations s = Ok (r, s')
    /\ climbsTo (total f0) (total (snd r)).
Proof.
  intros Hwf Hc.
  apply (annealWith_climbs float_lt_trans (fun current _ => randomSwap current)
           (Server.calculateFitness this) (seatable rows cols N)).
  - intros c0 Hc0. eapply calculateFitness_returns; eassumption.
  - intros c0 f s0 Hc0. exact (randomSwap_seatable rows cols N c0 s0 Hc0).
  - exact Hc.
Qed.

(** C10, amended.  In binary64, on a well-formed optimizer object and a
    valid assignment [c], for every [Math.exp], iteration count and random
    source, [simulatedAnnealing] returns, and the total it returns is the
    total of [calculateFitness(c)] itself or one that compares larger; so
    [result.total >= input.total] holds exactly when the input total is
    not NaN.  This holds for the browser and for the server annealer.  The
    final polish of [optimize] leaves the best total as it is or replaces
    it by one that compares larger. *)
Theorem annealing_total_climbs (this : Optimizer PrimFloat.float) (rows cols vipRows : Z)
    (N : nat) (c : Chromosome) (iterations : Z) (s : list Q) :
  wellFormed this rows cols vipRows N ->
  validAssignment rows cols N c ->
  (exists f0 r s',
      calculateFitness this c = Ok f0
      /\ simulatedAnnealing this c iterations s = Ok (r, s')
      /\ climbsTo (total f0) (total (snd r))
      /\ nge (total (snd r)) (total f0) = negb (PrimFloat.is_nan (total f0)))
  /\ (exists f0 r s',
         Server.calculateFitness this c = Ok f0
         /\ Server.simulatedAnnealing this c iterations s = Ok (r, s')
         /\ climbsTo (total f0) (total (snd r))
         /\ nge (total (snd r)) (total f0) = negb (PrimFloat.is_nan (total f0)))
  /\ (forall s0 this' o, polishWith simulatedAnnealing this s0 = (this', o) ->
        climbsTo (bestTotal (bestFitness this)) (bestTotal (bestFitness this'))
        /\ nge (bestTotal (bestFitness this')) (bestTotal (bestFitness this))
           = negb (PrimFloat.is_nan (bestTotal (bestFitness this))))
  /\ (forall s0 this' o, polishWith Server.simulatedAnnealing this s0 = (this', o) ->
        climbsTo (bestTotal (bestFitness this)) (bestTotal (bestFitness this'))
        /\ nge (bestTotal (bestFitness this')) (bestTotal (bestFitness this))
           = negb (PrimFloat.is_nan (bestTotal (bestFitness this)))).
Proof.
  intros Hwf Hvalid. split; [| split; [| split]].
  - destruct (simulatedAnnealing_climbs this rows cols vipRows N c iterations s Hwf
                (or_intror Hvalid)) as (f0 & r & s' & Hf0 & Hrun & Hclimb).
    exists f0, r, s'. repeat (split; [assumption |]). apply float_climb_ge. exact Hclimb.
  - destruct (server_simulatedAnnealing_climbs this rows cols vipRows N c iterations s Hwf
                (or_intror Hvalid)) as (f0 & r & s' & Hf0 & Hrun & Hclimb).
    exists f0, r, s'. repeat (split; [assumption |]). apply float_climb_ge. exact Hclimb.
  - intros s0 this' o Hp. pose proof (polishWith_climbs _ _ _ _ _ Hp) as Hclimb.
    split; [exact Hclimb | apply float_climb_ge; exact Hclimb].
  - intros s0 this' o Hp. pose proof (polishWith_climbs _ _ _ _ _ Hp) as Hclimb.
    split; [exact Hclimb | apply float_climb_ge; exact Hclimb].
Qed.

End FloatAnnealing.

Lemma annealing_total_climbs_witness :
  wellFormed (twoGroups (T := PrimFloat.float)) 3 3 1 4
  /\ forall ET : HasExp PrimFloat.float,
       exists (f0 : Fitness PrimFloat.float) (r : Chromosome * Fitness PrimFloat.float)
              (s' : list Q),
         calculateFitness twoGroups [Some 0; Some 1; Some 4; Some 8] = Ok f0
         /\ simulatedAnnealing twoGroups [Some 0; Some 1; Some 4; Some 8] 100
              [0.3; 0.6; 0.2; 0.9; 0.1; 0.4]%Q = Ok (r, s')
         /\ climbsTo (total f0) (total (snd r))
         /\ nge (total (snd r)) (total f0) = negb (PrimFloat.is_nan (total f0)).
Proof.
  split.
  - exact (setAttendees_wellFormed (constructor noConfig) 3 3 1 _ ltac:(lia) ltac:(lia)).
  - intros ET.
    exact (proj1 (annealing_total_climbs twoGroups 3 3 1 4
                    [Some 0; Some 1; Some 4; Some 8] 100 [0.3; 0.6; 0.2; 0.9; 0.1; 0.4]%Q
                    (setAttendees_wellFormed (constructor noConfig) 3 3 1 _ ltac:(lia) ltac:(lia))
                    (isValidAssignment_sound 3 3 4 [Some 0; Some 1; Some 4; Some 8] eq_refl))).
Defined.

(** C10 as stated fails when the totals are not numbers.  In binary64,
    after [updateWeights(0, 0, 0, 0)] on the venue with two groups, the
    input has a NaN total, and for every [Math.exp], iteration count and
    random source both annealers return a result for which
    [result.total >= input.total] is false. *)
Lemma zero_weights_annealing_not_above_input :
  exists (this' : Optimizer PrimFloat.float) (f0 : Fitness PrimFloat.float),
    updateWeights twoGroups (ofZ 0) (ofZ 0) (ofZ 0) (ofZ 0) = Ok this'
    /\ calculateFitness this' [Some 0; Some 1; Some 4; Some 8] = Ok f0
    /\ Server.calculateFitness this' [Some 0; Some 1; Some 4; Some 8] = Ok f0
    /\ PrimFloat.is_nan (total f0) = true
    /\ forall (ET : HasExp PrimFloat.float) (iterations : Z) (s : list Q),
         (exists r s',
             simulatedAnnealing this' [Some 0; Some 1; Some 4; Some 8] iterations s = Ok (r, s')
             /\ nge (total (snd r)) (total f0) = false)
         /\ (exists r s',
                Server.simulatedAnnealing this' [Some 0; Some 1; Some 4; Some 8] iterations s
                = Ok (r, s')
                /\ nge (total (snd r)) (total f0) = false).
Proof.
  eexists. eexists. split; [apply zero_weights_stored |].
  split; [vm_compute; reflexivity |]. split; [vm_compute; reflexivity |].
  split; [vm_compute; reflexivity |].
  intros ET iterations s.
  set (this1 := withWeights twoGroups _).
  assert (Hwf : wellFormed this1 3 3 1 4).
  { exact (setAttendees_wellFormed (constructor noConfig) 3 3 1 _ ltac:(lia) ltac:(lia)). }
  assert (Hvalid : validAssignment 3 3 4 [Some 0; Some 1; Some 4; Some 8]).
  { apply isValidAssignment_sound. reflexivity. }
  split.
  - destruct (simulatedAnnealing_climbs this1 3 3 1 4 _ iterations s Hwf (or_intror Hvalid))
      as (f0 & r & s' & Hf0 & Hrun & Hclimb).
    exists r, s'. split; [exact Hrun |].
    vm_compute in Hf0. injection Hf0 as <-.
    rewrite (float_climb_ge _ _ Hclimb). reflexivity.
  - destruct (server_simulatedAnnealing_climbs this1 3 3 1 4 _ iterations s Hwf
                (or_intror Hvalid))
      as (f0 & r & s' & Hf0 & Hrun & Hclimb).
    exists r, s'. split; [exact Hrun |].
    vm_compute in Hf0. injection Hf0 as <-.
    rewrite (float_climb_ge _ _ Hclimb). reflexivity.
Qed.

(** ** C6: the fitness history *)

Section FloatHistory.
Context {ET : HasExp PrimFloat.float}.

(** C6, amended.  In binary64, after a call of [optimize] that passed the
    entry guard, whatever the configuration, [Math.exp], the random
    source, the caller's [stop()] requests and the outcome (a result, an
    exception, a loop that does not end): every entry of [fitnessHistory]
    after the first is the entry before it or one that compares larger,
    so [fitnessHistory[k+1] >= fitnessHistory[k]] holds exactly when
    [fitnessHistory[k]] is not NaN; and the total of the best fitness is
    reached in the same way from every entry.  The [history] of a returned
    result is that sequence.  This holds for the browser and for the
    server [optimize]. *)
Theorem fitness_history_climbs (fuel : nat) (env : Env) (this : Optimizer PrimFloat.float)
    (s : list Q) :
  entryGuard this = false ->
  (let this' := fst (optimize fuel env this s) in
   (forall k x y, fitnessHistory this' !! k = Some x -> fitnessHistory this' !! S k = Some y ->
      climbsTo x y /\ nge y x = negb (PrimFloat.is_nan x))
   /\ (forall x, In x (fitnessHistory this') -> climbsTo x (bestTotal (bestFitness this')))
   /\ (forall r, snd (optimize fuel env this s) = Ok r -> history r = fitnessHistory this'))
  /\ (let this' := fst (Server.optimize fuel this s) in
      (forall k x y, fitnessHistory this' !! k = Some x -> fitnessHistory this' !! S k = Some y ->
         climbsTo x y /\ nge y x = negb (PrimFloat.is_nan x))
      /\ (forall x, In x (fitnessHistory this') -> climbsTo x (bestTotal (bestFitness this')))
      /\ (forall r, snd (Server.optimize fuel this s) = Ok r -> history r = fitnessHistory this')).
Proof.
  intros Hguard. split; cbv zeta.
  - destruct (optimize_historyClimbs float_lt_trans fuel env this s Hguard)
      as ([Hclimbing Hbest] & Hhistory).
    split; [| split; [exact Hbest | exact Hhistory]].
    intros k x y Hx Hy. pose proof (Hclimbing k x y Hx Hy) as Hxy.
    split; [exact Hxy | apply float_climb_ge; exact Hxy].
  - destruct (server_optimize_historyClimbs float_lt_trans fuel this s Hguard)
      as ([Hclimbing Hbest] & Hhistory).
    split; [| split; [exact Hbest | exact Hhistory]].
    intros k x y Hx Hy. pose proof (Hclimbing k x y Hx Hy) as Hxy.
    split; [exact Hxy | apply float_climb_ge; exact Hxy].
Qed.

End FloatHistory.

Lemma fitness_history_climbs_witness :
  entryGuard (fiveRegulars (T := PrimFloat.float)) = false
  /\ forall (ET : HasExp PrimFloat.float) (k : nat) (x y : PrimFloat.float),
       let this' := fst (optimize 5 quietEnv fiveRegulars [0.3; 0.6; 0.2; 0.9; 0.1; 0.4]%Q) in
       fitnessHistory this' !! k = Some x -> fitnessHistory this' !! S k = Some y ->
       climbsTo x y /\ nge y x = negb (PrimFloat.is_nan x).
Proof.
  split; [reflexivity |]. intros ET.
  exact (proj1 (proj1 (fitness_history_climbs 5 quietEnv fiveRegulars
                         [0.3; 0.6; 0.2; 0.9; 0.1; 0.4]%Q eq_refl))).
Defined.

(** C6 as stated fails when the totals are not numbers.  In binary64, on a
    2x2 venue with three attendees, population and elite count 2 and two
    generations, after [updateWeights(0, 0, 0, 0)]: for every [Math.exp],
    [optimize] returns with the history [NaN, NaN], and [NaN >= NaN] is
    false. *)
Lemma zero_weights_history_not_ordered :
  exists this' : Optimizer PrimFloat.float,
    updateWeights shortRun (ofZ 0) (ofZ 0) (ofZ 0) (ofZ 0) = Ok this'
    /\ entryGuard this' = false
    /\ forall ET : HasExp PrimFloat.float,
         exists r,
           snd (optimize 3 quietEnv this' [0.3; 0.6; 0.2; 0.9; 0.1; 0.4]%Q) = Ok r
           /\ history r = [PrimFloat.nan; PrimFloat.nan]
           /\ nge PrimFloat.nan PrimFloat.nan = false.
Proof.
  eexists. split; [apply zero_weights_stored |]. split; [reflexivity |].
  intros ET. set (this1 := withWeights shortRun _).
  assert (Hwf1 : wellFormed this1 2 2 1 3).
  { exact (setAttendees_wellFormed (constructor twoElites) 2 2 1 _ ltac:(lia) ltac:(lia)). }
  unfold optimize. change (entryGuard this1) with false. cbv iota.
  destruct (firstBestWith initializePopulation calculateFitness (withRun this1 true [])
              [0.3; 0.6; 0.2; 0.9; 0.1; 0.4]%Q)
    as [[[[[population fitnessValues] c] f] s1] | e1 |] eqn:E1;
    vm_compute in E1; try discriminate.
  injection E1 as <- <- <- <- <-.
  match goal with |- context [generationLoop ?a ?b ?n ?g ?t ?p ?fv ?s] =>
    destruct (generationLoop a b n g t p fv s) as [this3 o3] eqn:E2 end.
  assert (Hsame : sameProblem this1 this3).
  { change this3 with (fst (this3, o3)). rewrite <- E2. clear E2.
    repeat split; vm_compute; reflexivity. }
  assert (Hfields : fitnessHistory this3 = [PrimFloat.nan; PrimFloat.nan]
                    /\ isRunning this3 = true
                    /\ bestSolution this3 = Some [Some 2; Some 0; Some 3]).
  { change this3 with (fst (this3, o3)). rewrite <- E2. clear E2.
    repeat split; vm_compute; reflexivity. }
  assert (Ho3 : o3 = Ok []).
  { change o3 with (snd (this3, o3)). rewrite <- E2. clear E2. vm_compute. reflexivity. }
  destruct Hfields as (Hhist & Hrunning & Hbest). subst o3. clear E2.
  rewrite Hrunning.
  destruct (simulatedAnnealing_valid this3 2 2 1 3 [Some 2; Some 0; Some 3]
              (saIterations this3) []
              (sameProblem_wellFormed _ _ _ _ _ _ Hsame Hwf1) ltac:(lia)
              (isValidAssignment_sound 2 2 3 [Some 2; Some 0; Some 3] eq_refl))
    as (refined & s' & Hanneal & _).
  destruct (polishWith simulatedAnnealing this3 []) as [this4 o4] eqn:E4.
  destruct (polishWith_fields _ _ _ _ _ E4) as (Hhist4 & _).
  unfold polishWith in E4. rewrite Hbest, Hanneal in E4.
  injection E4 as _ <-.
  eexists. split; [reflexivity |]. split; [| reflexivity].
  cbn [history resultOf stop withRun fitnessHistory]. rewrite Hhist4. exact Hhist.
Qed.
